(* ===== verification/_CoqProject ===== *)
-Q . S2P
Prelude.v
Bytes.v
Ident.v
Clock.v
Digits.v
Star.v
GoText.v
Decimal.v
Wire.v
UrlBase64.v
Item.v
KeyEnc.v
Lexer.v
Path.v
Cond.v
KeyCond.v
Heap.v
Update.v
UpdateSpec.v
Projection.v
Bolt.v
Cursor.v
Tx.v
Table.v
Items.v
Query.v
Txn.v
StoreInv.v
StoreSpec.v
TxnSpec.v
Paging.v
QuerySpec.v
ScanSpec.v
TableSpec.v
StreamSpec.v
Glob.v
Policy.v
PolicySpec.v
Guard.v
Queues.v
Messages.v
MessagesInv.v
MessagesSpec.v
SqsRun.v
SqsFifo.v
SqsSpec.v
Notify.v
Kinesis.v
Reads.v
KinesisSpec.v
KinesisRun.v
KinesisRead.v
Calendar.v
Cron.v
CronSpec.v
Pattern.v
PatternSpec.v
Events.v
EventApi.v
EventHandlers.v
EventInv.v
EventRun.v
EventSpec.v
Scheduler.v
SchedulerSpec.v
Chunk.v
Float64.v
Cbor.v
CborSpec.v
Rpc.v
Params.v
ModelCheck.v
QueryForm.v
Metrics.v
MetricRun.v
MetricsSpec.v
Alarms.v
AlarmApi.v
AlarmSpec.v
CloudWatch.v
