(* ===== verification/Prelude.v ===== *)
(** * Verification of doze-aws

    doze-aws emulates AWS services on one machine.  This development models the parts of it
    that decide something: the DynamoDB engine, the IAM policy engine with its guard, the SQS
    message service, the Kinesis streams, EventBridge and the patterns and schedules it
    runs on, CloudWatch with the protocols that its requests come on; and proves what makes
    each correct.

    ** The program and the files that model it

    DynamoDB engine (src/internal/ddb).  A request's expressions are lexed and parsed once,
    then evaluated against items; items live in bbolt buckets under order-preserving keys,
    with one bucket per index and one for the change stream, all written in one
    transaction.
    - [Decimal]: item/decimal.go, numbers of 38 digits.
    - [Wire]: the JSON trees and the base64 the code reads and writes.
    - [Item]: item/item.go, attribute values, their wire form, equality and size.
    - [KeyEnc]: keyenc/keyenc.go, keys as byte strings.
    - [Lexer], [Path], [Cond], [KeyCond], [Projection]: expr/lexer.go, reserved.go, path.go,
      cond.go and keycond.go: the grammars, as recursive descent over one cursor, and their
      evaluation.
    - [Heap], [Update], [UpdateSpec]: expr/update.go and the writing half of path.go.  Go
      shares maps and slices, so updates run on an explicit store; [UpdateSpec] is the
      specification by value that they implement, and shows where the sharing surfaces.
    - [Bolt]: the interface of bbolt, a class of operations and a class of laws, with an
      instance in memory.
    - [Table], [Items], [Query], [Txn]: store/store.go, items.go, stream.go, query.go and
      txn.go: the catalogue, single-item operations, the stream, the TTL sweep, cursor walks
      with paging, transactions.
    - [StoreInv], [StoreSpec], [TxnSpec], [Paging], [QuerySpec], [ScanSpec], [TableSpec],
      [StreamSpec]: the invariant between a table and its indexes, and the theorems.

    IAM (src/internal/iampolicy, src/internal/iamguard).  The middleware evaluates identity
    policies and stamps the verdict; a service checks its resource policies against it.
    - [Star], [Glob], [Policy]: policy.go, conditions.go, principal.go, public.go; [Star] is
      the loop that policies and event patterns match wildcards with.
    - [Guard]: guard.go.
    - [PolicySpec]: the theorems on evaluation and on the public test.

    SQS (src/sqs).  Queues and messages live in bbolt buckets; a notifier wakes the receives
    that poll.
    - [Queues]: store.go (queue lifecycle), attrs.go, errors.go, store_ext.go (tags).
    - [Messages]: store.go (sends), receive.go, md5.go, store_ext.go (moves), sweeper.go.
    - [MessagesInv], [MessagesSpec]: the effect of each write and of a receive on what is
      stored.
    - [SqsRun]: the operations as the steps of one machine, and their runs.
    - [SqsFifo], [SqsSpec]: order, deduplication, handles and limits.
    - [Notify]: notify.go and the loop of Receive, as interleaved events.

    Kinesis (src/kinesis).  A stream's open shards share out the hash space; records live
    in a bucket per shard, numbered by one counter of the stream; iterators are tokens.
    - [Kinesis]: store.go, reshard.go, errors.go and the settings of actions.go.
    - [Reads]: records.go, iterator.go, the reads of store.go, the key check of actions.go.
    - [KinesisSpec]: the shape of a stream, and what a split, a merge and a change of the
      count do to it.
    - [KinesisRun]: the operations as one machine, its invariant, routing and order.
    - [KinesisRead]: a consumer that follows iterators.

    EventBridge (src/eventbridge, src/internal/eventpattern, src/internal/awscron).  An event
    put on a bus is matched against the patterns of its rules and delivered to their
    targets, and archived; a ticker fires the rules that have a schedule.
    - [Pattern], [PatternSpec]: eventpattern.go, and the language of patterns as relations.
    - [Cron], [CronSpec]: awscron.go, and what its fields and its next firing mean.
    - [Events]: store.go and archive.go, the records and the log of archived events.
    - [EventApi], [EventHandlers]: actions.go, archive_actions.go, patterncache.go: matching,
      shaping of inputs, deliveries, and the handlers that change what is stored.
    - [EventInv], [EventRun], [EventSpec]: the invariant of the records, the handlers as one
      machine, and what an event and a replay deliver.
    - [Scheduler], [SchedulerSpec]: scheduler.go, a tick over the rules, and runs of ticks.

    Protocols (src/internal/awschunk, rpcv2cbor, modelcheck, awsquery).  A body
    may be framed in signed chunks; a request is decoded from CBOR, JSON or a form, and is
    checked against the table of constraints of its operation before a handler sees it.
    - [Chunk]: the reader of aws-chunked bodies, with the HTTP headers it keeps.
    - [Cbor], [CborSpec]: the decoder and the encoder of CBOR; [Float64] the numbers.
    - [Rpc]: the framing of a CBOR request and of its errors.
    - [ModelCheck]: modelcheck.go, the paths of constraints, the places they reach in a
      request, and the checks.
    - [QueryForm]: awsquery.go and unflatten.go, a form as numbered lists, and as the
      structure its dotted keys spell.

    CloudWatch (src/cloudwatch).  Samples are kept under keys that sort by series and time;
    alarms are judged over them by a pass of the evaluator, which notifies.
    - [Params]: params.go, what a handler reads in a decoded request.
    - [Metrics]: store.go, samples.go, aggregate.go, actions.go, actions_metrics.go: the
      catalogue of series, the samples, the statistics and the operations on them.
    - [MetricRun], [MetricsSpec]: the order of keys, the operations as one machine, and what
      GetMetricStatistics answers.
    - [Alarms], [AlarmApi]: alarms.go, evaluate.go, actions_fire.go, dashboards.go and the
      handlers of actions_alarm.go and actions_dashboards.go.
    - [AlarmSpec]: the alarms a handler can store, and what an evaluation and a pass of it
      decide.
    - [CloudWatch]: validate.go, the dispatch of cloudwatch.go and
      actions.go and the errors of errors.go and codec.go: the whole service.

    Shared.  [Prelude] (this file) has bytes, strings, results, the API error of
    src/internal/awshttp/awshttp.go and the tactics; [Bytes], [Digits], [UrlBase64], [Clock]
    and [Calendar] what several components use of Go's standard library on byte strings,
    decimal text, base64, times and dates; [GoText] the parts of it that are parameters; [Ident] is awsident/awsident.go, the account and region of an
    ARN; [Cursor] has a bbolt cursor as a list, [Tx] transactions as a monad.

    ** How state and operations correspond

    A Go function that can fail is a function into [result]; a parser can also panic, so it
    answers an [outcome], and the theorems show it does not.  A bbolt transaction is a
    function of the database, committed when it succeeds and dropped when it fails.  A
    bucket is typed by what the code marshals into it.  A Go byte slice or string is a
    [string] of bytes, a machine integer is a [Z] whose wrap-around is written where the
    code can reach it, a Go map is a [gmap], and where a map or a slice is shared and
    written it is a location in a store.  Where Go ranges over a map, the theorems hold for
    the order the model takes, and the order matters for error messages only.

    ** The theorems

    - Numbers and keys: parsing and rendering are inverse, comparison and addition are those
      of the rationals, the order of encoded keys is the order of the values, composite keys
      are compared component by component.
    - Expressions: the lexer tiles its input, every parser returns (no panic, no lack of
      fuel), evaluation of a condition is the reference semantics of its tree, an update is
      the specification by value, a projection keeps what its paths name.
    - Tables: a table is a map from keys to items, of which GetItem shows those not past their
      time to live; every write keeps the indexes exact, and
      so does a change of indexes; the pages of a query or a scan show exactly what matches,
      once and in order; the stream is a log; transactions are atomic, isolated and
      idempotent under a token.
    - IAM: the matcher is that of the wildcard language away from a star in the text; an
      explicit denial wins, and the first allowing statement is named; the guard's verdict
      is that of the same-account rule; a document reported public allows an anonymous
      caller.
    - SQS: no message is lost or duplicated by any operation, and what a send adds is exactly
      the messages it answers for; a message in flight is not
      delivered again; a FIFO queue delivers each group in order, one at a time; a duplicate
      in the window is not enqueued; a handle acts on one message for ever; the settings of
      queues stay in the limits of the service; a message that lands wakes every receive
      that polls.
    - Kinesis: whatever the operations, the open shards cover each hash exactly once; a
      record is stored in the shard of its hash under the next number; a reshard hands a
      hash to a child whose records all come after the parent's; a consumer that follows the
      iterators of a shard gets its records once and in order, and learns of the end only
      where the shard's last record closed the stream.
    - EventBridge: a pattern matches the events its source means; a field of a schedule marks
      what it denotes, the day rules are those of the dialect, and the next firing is the
      least one; records stay well-formed whatever the handlers do; an event with no star in
      its texts and no number past a float64 reaches the
      targets of exactly the enabled rules of its bus that mean it, cache or no cache; an
      archive is a log and a replay delivers a window of it again; a cron rule fires at
      the first tick after each occurrence and at no other.
    - Protocols: the chunked reader ends with io.EOF just when the body is a frame, cut
      within its trailers perhaps, and has then handed over its payload ([Chunk.Read_exact]); a
      value that is encoded is decoded to itself, and the decoder answers every text, but
      for one length that overflows its position ([CborSpec]); a request passes a table
      exactly when every place that a constraint's path reaches satisfies it, and is refused
      with the first that does not ([ModelCheck.ValidateMapAs_exact]); a form is read
      back as the structure it spells, in whatever order it is visited
      ([QueryForm.Unflatten_spelled]), and the loops over numbered lists end.
    - CloudWatch: whatever was put and swept under names without the separators of a key,
      GetMetricStatistics answers the statistics of exactly the samples of each period of
      its window that the sweeps have left; an evaluation gives the state that
      the rules on breaching and missing periods say, and a pass moves and notifies exactly
      the alarms whose state differs; the alarms that the service stores are well-formed,
      whatever it was asked; and an error changes nothing, but for the two operations that
      store one alarm after another ([CloudWatch.errors_change_nothing]).
    - Some lemmas show where the code does not do what it means to: the parser of schedules
      panics ([CronSpec.Parse_total]), the sweep of expired items removes none
      ([StoreSpec.SweepTTL_removes_nothing]), and [UpdateSpec.updates_alias],
      [PolicySpec.IsPublic_misses], [SqsSpec.limits_bypassed], [Notify.sleepers_missed],
      [StoreSpec.expired_put_leaves_index_entry], [CloudWatch.blank_number_unchecked]
      and [QueryForm.unflatten_mixed] run a case.

    ** Fuel and bounds

    Parsers take as fuel the number of tokens and recurse on shorter rests; the matcher
    takes the product of its two lengths; the search for the next firing takes the power of
    two above the minutes left before the year the search ends with, so that its fuel
    stays small, and a step over a field takes the width of the field; loads and copies of nested values take their
    depth; a client that collects pages takes more steps than there are results; the
    decoder of CBOR takes twice the length of its input and one, the chunked reader two
    turns of its filling loop and the length of the trailers, the loops over a form its size
    and one.  Each has a theorem that this is enough.  [room] says that a message bucket has numbered fewer
    than 2^64 messages, the width of bbolt's sequence, and [seq_room] that a stream has as
    many numbers left as one request can take; [event_room] that the log of archived events
    has numbered fewer than 2^64.  A response of GetRecords holds 10 MiB of
    JSON; [record_len] bounds what a record takes, given a bound on its explicit hash key.

    ** Parameters

    bbolt ([Bolt], [BoltLaws]).  Two things of it that are not a map's are in the laws as
    bbolt has them.  The KeyN of a bucket's Stats counts the pages that were committed before
    the transaction began, so pruneStream is given the bucket as it was then; and a cursor
    whose entries are deleted as it walks passes over some, so [bwalk] is the keys such a
    walk meets: the first key at least, and no more of it is assumed ([StreamSpec.prune_skips]
    runs one that meets every other).  Of Go's library, [GoText] (numbers, times and addresses as
    text, and the order a map is ranged over), [JsonText] (JSON text), [EventText] (the text
    of an event), [GoHash] (MD5), [NumText] and [GoConvert] (numbers read from text, and
    conversions out of the range of an integer), [AlarmText] (the numbers, times and quotes of an alarm's reason),
    [Gzip] and [LaxBase64] (what a base64 decoder leaves of a malformed text); random identifiers; the key service
    that a Kinesis stream asks; the clock, read once per operation.

    ** Not modelled

    The arguments of error messages, the extra fields of awshttp errors, DebugString; JSON
    text below its syntax tree, with invalid UTF-8; case folding beyond ASCII; ARNs and
    identities but the queue's; lazybolt, which opens the database; the slack of
    append, an argument.  A move of a queue onto itself, which writes the bucket its cursor
    walks.  Wire protocols and rendering in front of the stores, the console, commands and
    configuration, the Lambda runtime and log shipping are I/O; so is the HTTP request of an
    API destination, and what a service answers a delivery.  The tables of constraints of
    the services but CloudWatch are taken as hypotheses on names.  Of the other services, only
    what is named above.  In CloudWatch, a pass of the evaluator is one step, so a request
    that interleaves with it is left out, and so are the delivery of a notification, the
    tickers and Sync; a stored record of JSON is kept as it was, which is what valid UTF-8
    reads back as.  FromQuery, which rebuilds a form for a check alone, is not modelled. *)

From Stdlib Require Export Ascii ZArith Lia.
From stdpp Require Export base tactics numbers strings gmap fin_maps list.
Export stdpp.list_basics.list.

#[global] Open Scope Z_scope.
#[global] Set Default Proof Using "Type".
#[global] Arguments String.append !_ _ / : simpl nomatch.

(** ** Bytes

    A Go byte is an [ascii]; [byte_of] reads its value and [chr] builds one from an
    integer with the wrap-around of a conversion to [byte]. *)

Definition byte_of (c : ascii) : Z := Z.of_N (N_of_ascii c).
Definition chr (z : Z) : ascii := ascii_of_N (Z.to_N (z mod 256)).

Lemma byte_of_range c : 0 <= byte_of c < 256.
Proof. unfold byte_of. pose proof (N_ascii_bounded c). lia. Qed.

Lemma byte_of_chr z : byte_of (chr z) = z mod 256.
Proof.
  unfold byte_of, chr. rewrite N_ascii_embedding.
  - apply Z2N.id, Z.mod_pos_bound; lia.
  - pose proof (Z.mod_pos_bound z 256). lia.
Qed.

Lemma byte_of_chr_small z : 0 <= z < 256 -> byte_of (chr z) = z.
Proof. intros. rewrite byte_of_chr. by apply Z.mod_small. Qed.

Lemma chr_byte_of c : chr (byte_of c) = c.
Proof.
  unfold chr. rewrite Z.mod_small by apply byte_of_range.
  unfold byte_of. by rewrite N2Z.id, ascii_N_embedding.
Qed.

Lemma byte_of_inj c d : byte_of c = byte_of d -> c = d.
Proof. intros H. by rewrite <- (chr_byte_of c), H, chr_byte_of. Qed.

#[global] Instance byte_of_Inj : Inj (=) (=) byte_of := byte_of_inj.

Lemma byte_eqb c d : (byte_of c =? byte_of d) = Ascii.eqb c d.
Proof.
  destruct (Ascii.eqb_spec c d) as [->|Hn]; [apply Z.eqb_refl|].
  apply Z.eqb_neq. intros ?%byte_of_inj. done.
Qed.

(** ** Strings as byte sequences

    Go strings and byte slices are both [string]: a sequence of bytes. *)

Definition slen (s : string) : Z := Z.of_nat (String.length s).

Lemma slen_nonneg s : 0 <= slen s.
Proof. unfold slen. lia. Qed.

Lemma slen_app s t : slen (s +:+ t) = slen s + slen t.
Proof. unfold slen. induction s as [|c s IH]; simpl; lia. Qed.

Lemma sapp_nil_r (s : string) : s +:+ "" = s.
Proof. induction s as [|c s IH]; simpl; [done|by rewrite IH]. Qed.

Lemma sapp_assoc (s t u : string) : (s +:+ t) +:+ u = s +:+ (t +:+ u).
Proof. induction s as [|c s IH]; simpl; [done|by rewrite IH]. Qed.

Lemma sapp_inj_l (s t u : string) : s +:+ t = s +:+ u -> t = u.
Proof. induction s as [|c s IH]; simpl; [done|]. intros [= H]. auto. Qed.

(** [bytes.Compare] / [strings.Compare]: lexicographic order of the bytes. *)
Fixpoint bytes_cmp (s t : string) : comparison :=
  match s, t with
  | EmptyString, EmptyString => Eq
  | EmptyString, String _ _ => Lt
  | String _ _, EmptyString => Gt
  | String c s', String d t' =>
      match byte_of c ?= byte_of d with
      | Eq => bytes_cmp s' t'
      | o => o
      end
  end.

(** Go's three-way comparisons answer -1, 0 or 1. *)
Definition cmp_int (o : comparison) : Z :=
  match o with Lt => -1 | Eq => 0 | Gt => 1 end.

Lemma bytes_cmp_refl s : bytes_cmp s s = Eq.
Proof. induction s as [|c s IH]; simpl; [done|]. by rewrite Z.compare_refl. Qed.

Lemma bytes_cmp_eq s t : bytes_cmp s t = Eq <-> s = t.
Proof.
  split; [|intros ->; apply bytes_cmp_refl].
  revert t; induction s as [|c s IH]; intros [|d t]; simpl; try done.
  destruct (byte_of c ?= byte_of d) eqn:E; try done.
  intros H. apply Z.compare_eq, byte_of_inj in E as ->. by rewrite (IH t H).
Qed.

Lemma bytes_cmp_antisym s t : bytes_cmp t s = CompOpp (bytes_cmp s t).
Proof.
  revert t; induction s as [|c s IH]; intros [|d t]; simpl; try done.
  rewrite (Z.compare_antisym (byte_of c)).
  destruct (byte_of c ?= byte_of d); simpl; auto.
Qed.

Lemma bytes_cmp_trans o s t u :
  o <> Eq -> bytes_cmp s t = o -> bytes_cmp t u = o -> bytes_cmp s u = o.
Proof.
  intros Ho. revert t u; induction s as [|c s IH]; intros [|d t] [|e u]; simpl; try congruence.
  intros H1 H2.
  destruct (Z.compare_spec (byte_of c) (byte_of d)) as [E1|E1|E1],
    (Z.compare_spec (byte_of d) (byte_of e)) as [E2|E2|E2],
    (Z.compare_spec (byte_of c) (byte_of e)) as [E3|E3|E3]; eauto; congruence || lia.
Qed.

Lemma bytes_cmp_app p s t : bytes_cmp (p +:+ s) (p +:+ t) = bytes_cmp s t.
Proof. induction p as [|c p IH]; simpl; [done|]. by rewrite Z.compare_refl. Qed.

Definition bytes_lt (s t : string) : Prop := bytes_cmp s t = Lt.
Definition bytes_ltb (s t : string) : bool := match bytes_cmp s t with Lt => true | _ => false end.

Lemma bytes_ltb_spec s t : bytes_ltb s t = true <-> bytes_lt s t.
Proof. unfold bytes_ltb, bytes_lt. by destruct (bytes_cmp s t). Qed.

#[global] Instance bytes_lt_dec : RelDecision bytes_lt.
Proof. intros s t. unfold bytes_lt. destruct (bytes_cmp s t); [right|left|right]; done. Defined.

#[global] Instance bytes_lt_trans : Transitive bytes_lt.
Proof. intros s t u. apply bytes_cmp_trans. done. Qed.

#[global] Instance bytes_lt_irrefl : Irreflexive bytes_lt.
Proof. intros s. unfold complement, bytes_lt. by rewrite bytes_cmp_refl. Qed.

Lemma bytes_lt_trichotomy s t : bytes_lt s t \/ s = t \/ bytes_lt t s.
Proof.
  unfold bytes_lt. rewrite (bytes_cmp_antisym s t).
  destruct (bytes_cmp s t) eqn:E; [|auto..].
  apply bytes_cmp_eq in E. auto.
Qed.

(** [strings.HasPrefix] / [bytes.HasPrefix]. *)
Fixpoint has_prefix (s p : string) {struct p} : bool :=
  match p, s with
  | EmptyString, _ => true
  | String c p', String d s' => Ascii.eqb c d && has_prefix s' p'
  | String _ _, EmptyString => false
  end.

Lemma has_prefix_spec s p : has_prefix s p = true <-> exists t, s = p +:+ t.
Proof.
  revert s; induction p as [|c p IH]; intros s; simpl.
  { split; [by exists s|by destruct s]. }
  destruct s as [|d s]; simpl.
  { split; [done|by intros (t & Ht)]. }
  rewrite andb_true_iff, IH, Ascii.eqb_eq. split.
  - intros [-> [t ->]]. by exists t.
  - intros (t & [= -> ->]). eauto.
Qed.

Lemma has_prefix_app p t : has_prefix (p +:+ t) p = true.
Proof. apply has_prefix_spec. eauto. Qed.

(** [strings.Contains]. *)
Fixpoint contains (s sub : string) : bool :=
  has_prefix s sub ||
  match s with
  | EmptyString => false
  | String _ s' => contains s' sub
  end.

Lemma contains_spec s sub : contains s sub = true <-> exists a b, s = a +:+ sub +:+ b.
Proof.
  induction s as [|c s IH]; simpl; rewrite orb_true_iff, has_prefix_spec.
  - split.
    + intros [[t Ht]|]; [|done]. exists "", t. done.
    + intros ([|??] & b & Hb); [left; eauto|discriminate].
  - rewrite IH. split.
    + intros [[t ->]|(a & b & ->)]; [by exists "", t|by exists (String c a), b].
    + intros ([|? a] & b & Hb); [left; eauto|]. injection Hb as -> ->. right. eauto.
Qed.

(** Mapping a byte function over a string. *)
Fixpoint smap (f : ascii -> ascii) (s : string) : string :=
  match s with
  | EmptyString => EmptyString
  | String c s' => String (f c) (smap f s')
  end.

Lemma smap_app f s t : smap f (s +:+ t) = smap f s +:+ smap f t.
Proof. induction s as [|c s IH]; simpl; [done|by rewrite IH]. Qed.

(** ASCII case folding, as [strings.ToLower], [strings.ToUpper] and
    [strings.EqualFold] act on ASCII text. *)
Definition lower_byte (c : ascii) : ascii :=
  if (65 <=? byte_of c) && (byte_of c <=? 90) then chr (byte_of c + 32) else c.
Definition upper_byte (c : ascii) : ascii :=
  if (97 <=? byte_of c) && (byte_of c <=? 122) then chr (byte_of c - 32) else c.
Definition to_lower : string -> string := smap lower_byte.
Definition to_upper : string -> string := smap upper_byte.
Definition equal_fold (s t : string) : bool := String.eqb (to_lower s) (to_lower t).

(** ** API errors and fallible code

    A Go function that answers [( value, *awshttp.APIError )] or [( value, error )]
    is a [result]: its value, or the error. *)

(** A decoded JSON document.  An object is the map [map[string]json.RawMessage] holds,
    so the last of several equal keys has already won. *)
Inductive json : Type :=
| JNull
| JBool (b : bool)
| JNum (text : string)
| JStr (s : string)
| JArr (l : list json)
| JObj (m : gmap string json).

(** [awshttp.APIError].  The message is kept as its format string; the arguments of its
    verbs are not part of the model, nor the members the service layer merges into the
    error body. *)
Record APIError := mkAPIError {
  Code : string;
  Status : Z;
  Message : string;
  SenderFault : bool;
  ErrItem : option json
}.

(** [awshttp.Errf]. *)
Definition Errf (status : Z) (code format : string) : APIError :=
  mkAPIError code status format true None.

(** A Go [error] that is no [APIError], as it reaches the wire. *)
Definition plain_error (format : string) : APIError :=
  mkAPIError "InternalFailure" 500 format false None.

Inductive result (A : Type) : Type :=
| Ok (a : A)
| Err (e : APIError).
Arguments Ok {_} _.
Arguments Err {_} _.

#[global] Instance result_ret : MRet result := fun _ a => Ok a.
#[global] Instance result_bind : MBind result :=
  fun _ _ f m => match m with Ok a => f a | Err e => Err e end.

Definition is_ok {A} (r : result A) : bool := match r with Ok _ => true | Err _ => false end.

Lemma result_bind_Ok {A B} (m : result A) (f : A -> result B) b :
  (m ≫= f) = Ok b <-> exists a, m = Ok a /\ f a = Ok b.
Proof.
  destruct m as [a|e]; simpl.
  - split; [eauto|]. by intros (? & [= ->] & ?).
  - split; [done|]. by intros (? & ? & ?).
Qed.

(** Traversal of a list by a fallible function, stopping at the first error. *)
Fixpoint mapR {A B} (f : A -> result B) (l : list A) : result (list B) :=
  match l with
  | [] => Ok []
  | x :: l' => y ← f x; ys ← mapR f l'; Ok (y :: ys)
  end.

Lemma mapR_Ok {A B} (f : A -> result B) l ys :
  mapR f l = Ok ys <-> Forall2 (fun x y => f x = Ok y) l ys.
Proof.
  revert ys; induction l as [|x l IH]; intros ys; simpl.
  - split; [by intros [= <-]|]. by inversion 1.
  - split.
    + destruct (f x) eqn:E; [|done]. simpl. destruct (mapR f l) eqn:E2; [|done].
      intros [= <-]. constructor; [done|]. by apply IH.
    + inversion 1; subst. rewrite H2. simpl.
      match goal with H : Forall2 _ l _ |- _ => apply IH in H as -> end. done.
Qed.

(** Go panics: code whose index expressions are checked answers an [outcome]. *)
Inductive outcome (A : Type) : Type :=
| Ret (r : result A)
| Panic
| OutOfFuel.
Arguments Ret {_} _.
Arguments Panic {_}.
Arguments OutOfFuel {_}.

Definition outcome_bind {A B} (m : outcome A) (f : A -> outcome B) : outcome B :=
  match m with
  | Ret (Ok a) => f a
  | Ret (Err e) => Ret (Err e)
  | Panic => Panic
  | OutOfFuel => OutOfFuel
  end.

#[global] Instance outcome_ret : MRet outcome := fun _ a => Ret (Ok a).
#[global] Instance outcome_mbind : MBind outcome := fun _ _ f m => outcome_bind m f.

Lemma outcome_bind_Ok {A B} (m : outcome A) (f : A -> outcome B) b :
  (m ≫= f) = Ret (Ok b) <-> exists a, m = Ret (Ok a) /\ f a = Ret (Ok b).
Proof.
  destruct m as [[a|e]| |]; simpl; (split; [try done; eauto|]); intros (? & [=] & ?); by subst.
Qed.

(** ** Shared tactics *)

(** Inverts one equation [ (x ← m; k) = Ok _ ] in the context. *)
Ltac inv_bind :=
  match goal with
  | H : (_ ≫= _) = Ok _ |- _ =>
      let a := fresh "a" in let Ha := fresh "Ha" in
      apply result_bind_Ok in H as (a & Ha & H)
  end.

(** Splits on the scrutinee of a [match] or [if] of a hypothesis or of the goal,
    closing the branches that are contradictory. *)
Ltac case_hyp H :=
  match type of H with
  | context [match ?x with _ => _ end] => destruct x eqn:?; try discriminate H
  end.
Ltac case_goal :=
  match goal with
  | |- context [match ?x with _ => _ end] => destruct x eqn:?
  end.

(** Linear arithmetic with divisions and remainders by constants. *)
Ltac zdiv := Z.to_euclidean_division_equations; lia.

(** Reads boolean integer tests in the context as the propositions they decide. *)
Ltac zbool :=
  repeat match goal with
  | H : (_ && _) = true |- _ => apply andb_true_iff in H as [? ?]
  | H : (_ || _) = false |- _ => apply orb_false_iff in H as [? ?]
  | H : (_ <=? _) = true |- _ => apply Z.leb_le in H
  | H : (_ <=? _) = false |- _ => apply Z.leb_gt in H
  | H : (_ <? _) = true |- _ => apply Z.ltb_lt in H
  | H : (_ <? _) = false |- _ => apply Z.ltb_ge in H
  | H : (_ =? _) = true |- _ => apply Z.eqb_eq in H
  | H : (_ =? _) = false |- _ => apply Z.eqb_neq in H
  | H : (_ >? _) = true |- _ => apply Zgt_is_gt_bool in H
  | H : (_ >=? _) = true |- _ => apply Z.geb_le in H
  end.

(** ** Maps folded into booleans *)

Lemma map_fold_andb {K A} `{Countable K} (f : K -> A -> bool) (m : gmap K A) :
  map_fold (fun k x acc => f k x && acc) true m = true <->
  map_Forall (fun k x => f k x = true) m.
Proof.
  induction m as [|k x m Hk Hfst IH] using map_first_key_ind.
  - rewrite map_fold_empty. split; [intros _; apply map_Forall_empty|done].
  - rewrite map_fold_insert_first_key by done. rewrite andb_true_iff, IH.
    by rewrite map_Forall_insert.
Qed.

(** ** Lists *)

Lemma Forall2_eq_map {A B} (f : A -> B) l l' :
  Forall2 (fun x y => f x = y) l l' <-> l' = map f l.
Proof.
  split.
  - induction 1; simpl; congruence.
  - intros ->. induction l; simpl; auto.
Qed.

(** A member is no larger than the sum over the whole map or list: the measures
    that nested inductions use. *)
Lemma map_fold_add_ge {K A} `{Countable K} (f : A -> nat) (b : nat) (m : gmap K A) k x :
  m !! k = Some x -> (f x <= map_fold (fun _ y acc => f y + acc) b m)%nat.
Proof.
  intros Hk. rewrite <- (insert_delete_id m k x Hk).
  rewrite map_fold_insert_L; [lia|intros; lia|apply lookup_delete_eq].
Qed.

Lemma foldr_add_ge {A} (f : A -> nat) (b : nat) (l : list A) x :
  x ∈ l -> (f x <= foldr (fun y acc => f y + acc) b l)%nat.
Proof. induction 1; simpl; lia. Qed.

(** A fold that ignores its accumulator answers the base or one member's image. *)
Lemma map_fold_last {K A B} `{Countable K} (f : K -> A -> B) (b : B) (m : gmap K A) :
  map_fold (fun k x _ => f k x) b m = b \/
  exists k x, m !! k = Some x /\ map_fold (fun k x _ => f k x) b m = f k x.
Proof.
  induction m as [|k x m Hk Hfst IH] using map_first_key_ind; [left; by rewrite map_fold_empty|].
  right. exists k, x. rewrite lookup_insert_eq. split; [done|]. by rewrite map_fold_insert_first_key.
Qed.
