(* ===== verification/Bytes.v ===== *)
(** * Bytes: strings as keys and as numbers

    What several components use of Go's standard library on byte strings: sorting,
    big-endian integers, decimal integers and trimming. *)

From stdpp Require Import sorting.
From S2P Require Import Prelude.

(** ** Order *)

Definition bytes_le (a b : string) : Prop := bytes_cmp a b <> Gt.
#[global] Instance bytes_le_dec : RelDecision bytes_le.
Proof. intros a b. unfold bytes_le. apply _. Defined.

(** [sort.Strings]. *)
Definition sort_strings (l : list string) : list string := merge_sort bytes_le l.

(** Comparing by one key, then by another. *)
Definition lex (o1 o2 : comparison) : comparison := match o1 with Eq => o2 | o => o end.

(** ** Big-endian integers *)

(** [binary.BigEndian.AppendUint32] of an [int]. *)
Definition be32 (n : Z) : string :=
  String (chr (n / 16777216)) (String (chr (n / 65536)) (String (chr (n / 256)) (String (chr n) ""))).

(** [binary.BigEndian.PutUint64]. *)
Definition be64 (n : Z) : string := be32 (n / 4294967296) +:+ be32 n.

Fixpoint be_value (acc : Z) (s : string) : Z :=
  match s with EmptyString => acc | String c s' => be_value (acc * 256 + byte_of c) s' end.

Lemma byte_mod n : byte_of (chr n) = n mod 256.
Proof. apply byte_of_chr. Qed.

Lemma be32_cmp m n x y :
  0 <= m < 2 ^ 32 -> 0 <= n < 2 ^ 32 ->
  bytes_cmp (be32 m +:+ x) (be32 n +:+ y) = lex (m ?= n) (bytes_cmp x y).
Proof.
  intros Hm Hn. unfold be32. cbn [String.append bytes_cmp]. rewrite !byte_mod.
  destruct (Z.compare_spec m n) as [<-|E|E]; [by rewrite !Z.compare_refl|..]; cbn [lex].
  - destruct (Z.compare_spec ((m / 16777216) mod 256) ((n / 16777216) mod 256)) as [E1|E1|E1]; [|done|exfalso; zdiv].
    destruct (Z.compare_spec ((m / 65536) mod 256) ((n / 65536) mod 256)) as [E2|E2|E2]; [|done|exfalso; zdiv].
    destruct (Z.compare_spec ((m / 256) mod 256) ((n / 256) mod 256)) as [E3|E3|E3]; [|done|exfalso; zdiv].
    destruct (Z.compare_spec (m mod 256) (n mod 256)) as [E4|E4|E4]; [exfalso; zdiv|done|exfalso; zdiv].
  - destruct (Z.compare_spec ((m / 16777216) mod 256) ((n / 16777216) mod 256)) as [E1|E1|E1]; [|exfalso; zdiv|done].
    destruct (Z.compare_spec ((m / 65536) mod 256) ((n / 65536) mod 256)) as [E2|E2|E2]; [|exfalso; zdiv|done].
    destruct (Z.compare_spec ((m / 256) mod 256) ((n / 256) mod 256)) as [E3|E3|E3]; [|exfalso; zdiv|done].
    destruct (Z.compare_spec (m mod 256) (n mod 256)) as [E4|E4|E4]; [exfalso; zdiv|exfalso; zdiv|done].
Qed.

Lemma be32_low n : be32 (n mod 2 ^ 32) = be32 n.
Proof.
  assert (forall a b, a mod 256 = b mod 256 -> chr a = chr b) as H by (unfold chr; congruence).
  unfold be32. rewrite (H (n mod 2 ^ 32) n) by zdiv. rewrite (H (n mod 2 ^ 32 / 256) (n / 256)) by zdiv.
  rewrite (H (n mod 2 ^ 32 / 65536) (n / 65536)) by zdiv.
  by rewrite (H (n mod 2 ^ 32 / 16777216) (n / 16777216)) by zdiv.
Qed.

(** The encodings order as the integers. *)
Lemma be64_cmp m n :
  0 <= m < 2 ^ 64 -> 0 <= n < 2 ^ 64 -> bytes_cmp (be64 m) (be64 n) = (m ?= n).
Proof.
  intros Hm Hn. unfold be64. change 4294967296 with (2 ^ 32).
  rewrite <- (sapp_nil_r (be32 m)), <- (sapp_nil_r (be32 n)).
  rewrite <- (be32_low m), <- (be32_low n), !be32_cmp by zdiv. simpl bytes_cmp.
  destruct (Z.compare_spec (m / 2 ^ 32) (n / 2 ^ 32)) as [E|E|E]; cbn [lex];
    [destruct (Z.compare_spec (m mod 2 ^ 32) (n mod 2 ^ 32)); cbn [lex]|..]; symmetry;
    first [apply Z.compare_eq_iff|apply Z.compare_lt_iff|apply Z.compare_gt_iff]; zdiv.
Qed.

Lemma be64_inj m n : 0 <= m < 2 ^ 64 -> 0 <= n < 2 ^ 64 -> be64 m = be64 n -> m = n.
Proof.
  intros Hm Hn He. apply Z.compare_eq. rewrite <- be64_cmp by done. rewrite He. apply bytes_cmp_refl.
Qed.

(** [binary.BigEndian.Uint64] reads back what [PutUint64] wrote. *)
Lemma be64_value n : 0 <= n < 2 ^ 64 -> be_value 0 (be64 n) = n.
Proof.
  intros Hn. unfold be64, be32. cbn [String.append be_value]. rewrite !byte_mod.
  assert (forall a, a = a / 256 * 256 + a mod 256) as D by (intros; zdiv).
  assert (n / 4294967296 / 16777216 < 256) by zdiv.
  rewrite (Z.mod_small (n / 4294967296 / 16777216)) by zdiv. rewrite Z.add_0_l.
  assert (forall a, a / 16777216 = a / 65536 / 256 /\ a / 65536 = a / 256 / 256) as D3 by (intros; split; rewrite Z.div_div by lia; reflexivity).
  destruct (D3 (n / 4294967296)) as [-> ->]. rewrite <- !D.
  assert (n / 4294967296 = n / 16777216 / 256) as -> by (rewrite Z.div_div by lia; reflexivity). destruct (D3 n) as [-> ->]. by rewrite <- !D.
Qed.

(** ** Decimal integers *)

(** [strconv.ParseInt(v, 10, 64)]. *)
Fixpoint parse_digits (acc : Z) (s : string) : option Z :=
  match s with
  | EmptyString => Some acc
  | String c s' =>
      if (48 <=? byte_of c) && (byte_of c <=? 57) then parse_digits (10 * acc + (byte_of c - 48)) s' else None
  end.

Definition parse_int (v : string) : option Z :=
  let '(neg, ds) := match v with
    | String c ds => if Ascii.eqb c "-" then (true, ds) else if Ascii.eqb c "+" then (false, ds) else (false, v)
    | EmptyString => (false, v)
    end in
  if String.eqb ds "" then None
  else n ← parse_digits 0 ds;
    let z := if neg : bool then - n else n in
    if (- 2 ^ 63 <=? z) && (z <? 2 ^ 63) then Some z else None.

(** [%0nd] of an integer that is not negative, given its digits. *)
Definition pad0 (n : nat) (s : string) : string :=
  String.string_of_list_ascii (repeat ("0"%char : ascii) (n - String.length s)) +:+ s.

(** ** Digests *)

(** [crypto/md5]. *)
Class GoHash := { md5 : string -> string }.

(** ** White space, of ASCII text *)

Definition is_blank (c : ascii) : bool := (byte_of c =? 32) || ((9 <=? byte_of c) && (byte_of c <=? 13)).

Fixpoint trim_left (f : ascii -> bool) (s : string) : string :=
  match s with
  | EmptyString => EmptyString
  | String c s' => if f c then trim_left f s' else s
  end.

Fixpoint trim_right (f : ascii -> bool) (s : string) : string :=
  match s with
  | EmptyString => EmptyString
  | String c s' =>
      match trim_right f s' with
      | EmptyString => if f c then EmptyString else String c EmptyString
      | t => String c t
      end
  end.

(** [strings.TrimFunc], [strings.TrimSpace]. *)
Definition trim (f : ascii -> bool) (s : string) : string := trim_right f (trim_left f s).
Definition trim_space : string -> string := trim is_blank.

(** ** Cutting strings *)

(** [strings.Cut] at a byte. *)
Fixpoint cut_on (c : ascii) (s : string) : option (string * string) :=
  match s with
  | EmptyString => None
  | String d s' =>
      if Ascii.eqb d c then Some (EmptyString, s')
      else option_map (fun ab => (String d ab.1, ab.2)) (cut_on c s')
  end.

(** [strings.Split] at a byte. *)
Fixpoint split_on (c : ascii) (s : string) : list string :=
  match s with
  | EmptyString => [EmptyString]
  | String d s' =>
      if Ascii.eqb d c then EmptyString :: split_on c s'
      else match split_on c s' with
           | part :: parts => String d part :: parts
           | [] => [String d EmptyString]
           end
  end.

(** What follows the first occurrence of [sub]. *)
Fixpoint after_first (sub s : string) : option string :=
  if has_prefix s sub then Some (String.substring (String.length sub) (String.length s - String.length sub) s)
  else match s with EmptyString => None | String _ s' => after_first sub s' end.

(** What follows the last [c] of a string. *)
Fixpoint after_last (c : ascii) (s : string) : option string :=
  match s with
  | EmptyString => None
  | String d s' =>
      match after_last c s' with
      | Some t => Some t
      | None => if Ascii.eqb d c then Some s' else None
      end
  end.

(** [strings.ReplaceAll] of a text that is not empty; [skip] bytes are left of the last
    occurrence. *)
Fixpoint replace_from (old new : string) (skip : nat) (s : string) : string :=
  match s with
  | EmptyString => EmptyString
  | String c s' =>
      match skip with
      | Datatypes.S k => replace_from old new k s'
      | O =>
          if has_prefix s old then new +:+ replace_from old new (String.length old - 1) s'
          else String c (replace_from old new 0 s')
      end
  end.
Definition replace_all (old new s : string) : string := replace_from old new 0 s.

(** [strings.Fields]: what lies between runs of blanks. *)
Fixpoint fields_from (word s : string) : list string :=
  match s with
  | EmptyString => if String.eqb word "" then [] else [word]
  | String c s' =>
      if is_blank c then (if String.eqb word "" then [] else [word]) ++ fields_from "" s'
      else fields_from (word +:+ String c "") s'
  end.
Definition fields (s : string) : list string := fields_from "" s.

(** [strings.CutPrefix] and [strings.CutSuffix]: what is left, if the string is there. *)
Definition cut_prefix (p s : string) : option string :=
  if has_prefix s p then Some (String.substring (String.length p) (String.length s - String.length p) s) else None.
Definition cut_suffix (p s : string) : option string :=
  let n := (String.length s - String.length p)%nat in
  if String.eqb (String.substring n (String.length p) s) p && Nat.leb (String.length p) (String.length s)
  then Some (String.substring 0 n s) else None.

Fixpoint has_char (c : ascii) (s : string) : bool :=
  match s with EmptyString => false | String d s' => Ascii.eqb d c || has_char c s' end.

Lemma split_on_app c s t : has_char c s = false -> split_on c (s +:+ String c t) = s :: split_on c t.
Proof.
  induction s as [|d s IH]; cbn [has_char String.append split_on]; [by rewrite Ascii.eqb_refl|].
  intros [Hd Hs]%orb_false_iff. by rewrite Hd, IH.
Qed.

Lemma split_on_none c s : has_char c s = false -> split_on c s = [s].
Proof.
  induction s as [|d s IH]; cbn [has_char split_on]; [done|]. intros [Hd Hs]%orb_false_iff. by rewrite Hd, IH.
Qed.

Lemma cut_on_none c s : cut_on c s = None -> has_char c s = false.
Proof.
  induction s as [|d s IH]; cbn [cut_on has_char]; [done|]. destruct (Ascii.eqb d c); [done|]. cbn [orb]. by destruct (cut_on c s); [|auto].
Qed.

Lemma cut_on_some c s a b : cut_on c s = Some (a, b) -> has_char c a = false /\ s = a +:+ String c b.
Proof.
  revert a b. induction s as [|d s IH]; intros a b; cbn [cut_on]; [done|]. destruct (Ascii.eqb_spec d c) as [->|Hd]; [by intros [= <- <-]|].
  destruct (cut_on c s) as [[a' b']|]; [|done]. cbn [option_map fst snd]. intros [= <- <-]. destruct (IH a' b' eq_refl) as [H ->].
  split; [|done]. cbn [has_char]. rewrite H, orb_false_r. by destruct (Ascii.eqb_spec d c).
Qed.

Lemma cut_on_app c a b : has_char c a = false -> cut_on c (a +:+ String c b) = Some (a, b).
Proof.
  induction a as [|d a IH]; cbn [has_char String.append cut_on]; [by rewrite Ascii.eqb_refl|]. intros [Hd Ha]%orb_false_iff. rewrite Hd, IH by done. done.
Qed.

Lemma cut_on_has c s : has_char c s = false -> cut_on c s = None.
Proof.
  induction s as [|d s IH]; cbn [has_char cut_on]; [done|]. intros [Hd Hs]%orb_false_iff. by rewrite Hd, IH.
Qed.

Lemma has_char_app c a b : has_char c (a +:+ b) = has_char c a || has_char c b.
Proof. induction a as [|d a IH]; [done|]. cbn [String.append has_char]. by rewrite IH, orb_assoc. Qed.

Lemma split_on_parts c s part : part ∈ split_on c s -> has_char c part = false.
Proof.
  revert part. induction s as [|d s IH]; intros part; cbn [split_on]; [by intros ->%list_elem_of_singleton|].
  destruct (Ascii.eqb_spec d c) as [->|Hd]; [intros [->|H]%elem_of_cons; [done|by apply IH]|].
  destruct (split_on c s) as [|p ps]; [intros ->%list_elem_of_singleton|intros [->|H]%elem_of_cons; [|apply IH; by right]].
  - cbn [has_char]. by destruct (Ascii.eqb_spec d c).
  - cbn [has_char]. rewrite IH by (by left). by destruct (Ascii.eqb_spec d c).
Qed.

Lemma split_concat c parts :
  parts <> [] -> Forall (fun p => has_char c p = false) parts -> split_on c (String.concat (String c EmptyString) parts) = parts.
Proof.
  intros Hne Hp. induction Hp as [|p parts Hc Hp IH]; [done|]. destruct parts as [|q parts]; [by apply split_on_none|].
  change (String.concat (String c EmptyString) (p :: q :: parts)) with (p +:+ String c (String.concat (String c EmptyString) (q :: parts))).
  rewrite split_on_app, IH by done. done.
Qed.

Lemma concat_split c s : String.concat (String c EmptyString) (split_on c s) = s.
Proof.
  induction s as [|d s IH]; [done|]. cbn [split_on]. destruct (Ascii.eqb_spec d c) as [->|Hd]; destruct (split_on c s) as [|p ps] eqn:E.
  - by rewrite <- IH in E.
  - by rewrite <- IH.
  - by rewrite <- IH.
  - rewrite <- IH. by destruct ps.
Qed.

(** ** Strings cut at a length *)

Definition take_bytes (n : nat) (s : string) : string := String.substring 0 n s.
Definition drop_bytes (n : nat) (s : string) : string := String.substring n (String.length s - n) s.

Lemma string_length_app (s t : string) : String.length (s +:+ t) = (String.length s + String.length t)%nat.
Proof. induction s; simpl; lia. Qed.

Lemma substring_all s : String.substring 0 (String.length s) s = s.
Proof. induction s as [|c s IH]; cbn; [done|by rewrite IH]. Qed.

Lemma take_drop_bytes n s : (n <= String.length s)%nat -> s = take_bytes n s +:+ drop_bytes n s /\ String.length (take_bytes n s) = n.
Proof.
  unfold take_bytes, drop_bytes. revert n; induction s as [|c s IH]; intros n Hn; [by destruct n; [|simpl in Hn; lia]|].
  destruct n as [|n].
  - rewrite Nat.sub_0_r. by rewrite substring_all.
  - cbn [String.substring String.length Nat.sub String.append] in *. destruct (IH n) as [E1 E2]; [lia|]. rewrite E2. by rewrite <- E1.
Qed.

Lemma take_bytes_app a b : take_bytes (String.length a) (a +:+ b) = a.
Proof. unfold take_bytes. induction a as [|c a IH]; cbn; [by destruct b|by rewrite IH]. Qed.

Lemma drop_bytes_app a b : drop_bytes (String.length a) (a +:+ b) = b.
Proof.
  unfold drop_bytes. induction a as [|c a IH]; cbn [String.length String.append String.substring]; [rewrite Nat.sub_0_r; apply substring_all|].
  by rewrite Nat.sub_succ, IH.
Qed.

Lemma take_bytes_drop n s : take_bytes n s +:+ drop_bytes n s = s.
Proof.
  destruct (Nat.le_gt_cases n (String.length s)) as [Hn|Hn]; [by destruct (take_drop_bytes n s Hn) as [<- _]|].
  unfold take_bytes, drop_bytes. revert n Hn; induction s as [|c s IH]; intros [|n] Hn; cbn in *; try lia; [done|].
  f_equal. apply IH. lia.
Qed.

Lemma slen_take n s : slen (take_bytes n s) = Z.min (Z.of_nat n) (slen s).
Proof.
  unfold slen, take_bytes. revert s; induction n as [|n IH]; intros [|c s]; cbn [String.substring String.length]; try lia.
  specialize (IH s). lia.
Qed.

(** Two readings of one string, the first no longer than the second. *)
Lemma sapp_split p b d t : p +:+ b = d +:+ t -> slen p <= slen d ->
  exists d', d = p +:+ d' /\ b = d' +:+ t.
Proof.
  unfold slen. revert d; induction p as [|c p IH]; intros d E L; cbn in *; [by exists d|].
  destruct d as [|c' d]; cbn in *; [lia|]. injection E as -> E.
  destruct (IH d E) as (d' & -> & ->); [lia|]. by exists d'.
Qed.
