(* ===== verification/Ident.v ===== *)
(** * Ident: the region and account of an instance

    Model of src/awsident/ident.go: the defaults and the resource names built from them. *)

From S2P Require Import Prelude.

Record Identity := mkIdentity { id_Region : string; id_Account : string }.

(** The conventional local values stand for empty fields. *)
Definition region_of (region : string) : string := if String.eqb region "" then "us-east-1" else region.
Definition account_of (account : string) : string := if String.eqb account "" then "000000000000" else account.

Definition ARN (id : Identity) (service resource : string) : string :=
  "arn:aws:" +:+ service +:+ ":" +:+ region_of (id_Region id) +:+ ":" +:+ account_of (id_Account id) +:+ ":" +:+ resource.

(** The account's root, which has no region. *)
Definition root_arn (account : string) : string := "arn:aws:iam::" +:+ account_of account +:+ ":root".
