(* ===== verification/Clock.v ===== *)
(** * Clock: machine integers and instants

    Conversions to 64 bits, and Go's durations and instants in nanoseconds, with the
    wrap-around they have. *)

From S2P Require Import Prelude.

Definition second : Z := 1000000000.

(** The wrap-around of a conversion to int64, and the saturation of [Time.Sub]. *)
Definition wrap64 (z : Z) : Z := (z + 2 ^ 63) mod 2 ^ 64 - 2 ^ 63.
Definition sat64 (z : Z) : Z := Z.max (- 2 ^ 63) (Z.min (2 ^ 63 - 1) z).

Definition duration (seconds : Z) : Z := wrap64 (seconds * second).

(** [now.Add(time.Duration(n) * time.Second).UnixNano()]. *)
Definition later (now seconds : Z) : Z := wrap64 (now + duration seconds).

(** [now.Unix()]. *)
Definition unix_seconds (now : Z) : Z := now / second.

Lemma wrap64_range z : - 2 ^ 63 <= wrap64 z < 2 ^ 63.
Proof. unfold wrap64. pose proof (Z.mod_pos_bound (z + 2 ^ 63) (2 ^ 64)). lia. Qed.

Lemma wrap64_small z : - 2 ^ 63 <= z < 2 ^ 63 -> wrap64 z = z.
Proof. intros H. unfold wrap64. rewrite Z.mod_small; lia. Qed.
