(* ===== verification/Digits.v ===== *)
(** * Digits: integers as decimal text

    The readers of decimal text the services use, and that each reads back what
    [strconv] and [big.Int] write. *)

From stdpp Require Import pretty.
From S2P Require Import Prelude Bytes.

(** [strconv.ParseUint(s, 10, 64)]. *)
Definition parse_uint (s : string) : option Z :=
  if String.eqb s "" then None
  else n ← parse_digits 0 s; if n <? 2 ^ 64 then Some n else None.

(** [new(big.Int).SetString(s, 10)]. *)
Definition parse_big (s : string) : option Z :=
  let '(neg, ds) := match s with
    | String c ds => if Ascii.eqb c "-" then (true, ds) else if Ascii.eqb c "+" then (false, ds) else (false, s)
    | EmptyString => (false, s)
    end in
  if String.eqb ds "" then None else n ← parse_digits 0 ds; Some (if neg : bool then - n else n).

Definition zero_char (c : ascii) : bool := Ascii.eqb c "0".

(** ** Reading back what was written *)

Lemma digit_char x : (x < 10)%N -> byte_of (pretty_N_char x) = 48 + Z.of_N x.
Proof.
  intros Hx. assert (x = 0 \/ x = 1 \/ x = 2 \/ x = 3 \/ x = 4 \/ x = 5 \/ x = 6 \/ x = 7 \/ x = 8 \/ x = 9)%N as H by lia.
  by repeat destruct H as [->|H]; [..|subst x].
Qed.

Lemma parse_digits_go x s : parse_digits 0 (pretty_N_go x s) = parse_digits (Z.of_N x) s.
Proof.
  revert s. induction (N.lt_wf_0 x) as [x _ IH]; intros s.
  destruct (decide (x = 0)%N) as [->|Hx]; [by rewrite pretty_N_go_0|].
  rewrite pretty_N_go_step by lia. rewrite IH by (apply N.div_lt; lia). cbn [parse_digits].
  pose proof (N.mod_lt x 10 ltac:(done)) as Hm. pose proof (f_equal Z.of_N (N.div_mod x 10 ltac:(done))) as E.
  rewrite digit_char by done. rewrite N2Z.inj_add, N2Z.inj_mul in E. change (Z.of_N 10) with 10 in E.
  generalize dependent (x mod 10)%N. intros r Hr E. destruct (_ && _) eqn:Ed; [f_equal; lia|zbool; lia].
Qed.

Lemma parse_digits_pretty_N (x : N) : parse_digits 0 (pretty x) = Some (Z.of_N x).
Proof.
  unfold pretty, pretty_N. case_decide as E; [by subst|]. by rewrite parse_digits_go.
Qed.

Lemma parse_digits_pretty n : 0 <= n -> parse_digits 0 (pretty n) = Some n.
Proof. intros H. destruct n as [|p|p]; [done|apply (parse_digits_pretty_N (Npos p))|lia]. Qed.

Lemma pretty_N_ne (x : N) : pretty x <> "".
Proof.
  intros E. pose proof (parse_digits_pretty_N x) as H. rewrite E in H. injection H as H. by destruct x.
Qed.

Lemma pretty_ne n : 0 <= n -> pretty n <> "".
Proof. intros H. destruct n as [|p|p]; [done|apply (pretty_N_ne (Npos p))|lia]. Qed.

(** The first character of what a number is written as is a digit. *)
Lemma digit_string_head s n : parse_digits 0 s = Some n -> s <> "" ->
  exists c s', s = String c s' /\ 48 <= byte_of c <= 57.
Proof.
  destruct s as [|c s']; [done|]. cbn [parse_digits]. destruct (_ && _) eqn:E; [|done]. intros _ _.
  exists c, s'. split; [done|]. zbool. lia.
Qed.

Lemma sign_none s n : parse_digits 0 s = Some n -> s <> "" ->
  match s with
  | String c ds => if Ascii.eqb c "-" then (true, ds) else if Ascii.eqb c "+" then (false, ds) else (false, s)
  | EmptyString => (false, s)
  end = (false, s).
Proof.
  intros H Hne. destruct (digit_string_head s n H Hne) as (c & s' & -> & Hc).
  destruct (Ascii.eqb_spec c "-") as [->|]; [by vm_compute in Hc; destruct Hc|].
  destruct (Ascii.eqb_spec c "+") as [->|]; [by vm_compute in Hc; destruct Hc|done].
Qed.

Lemma parse_big_digits s n : parse_digits 0 s = Some n -> s <> "" -> parse_big s = Some n.
Proof.
  intros H Hne. unfold parse_big. rewrite (sign_none s n H Hne).
  destruct (String.eqb_spec s ""); [done|]. by rewrite H.
Qed.

Lemma parse_big_pretty n : 0 <= n -> parse_big (pretty n) = Some n.
Proof. intros H. apply parse_big_digits; [by apply parse_digits_pretty|by apply pretty_ne]. Qed.

Lemma parse_uint_pretty n : 0 <= n < 2 ^ 64 -> parse_uint (pretty n) = Some n.
Proof.
  intros [H1 H2]. unfold parse_uint. destruct (String.eqb_spec (pretty n) "") as [E|_]; [by destruct (pretty_ne n)|].
  rewrite parse_digits_pretty by done. cbn. by rewrite (proj2 (Z.ltb_lt _ _) H2).
Qed.

Lemma parse_int_pretty n : - 2 ^ 63 <= n < 2 ^ 63 -> parse_int (pretty n) = Some n.
Proof.
  intros Hn. assert (forall s n', parse_digits 0 s = Some n' -> s <> "" -> (- 2 ^ 63 <= n' < 2 ^ 63) ->
    parse_int s = Some n') as Hpos.
  { intros s n' H Hne Hr. unfold parse_int. rewrite (sign_none s n' H Hne).
    destruct (String.eqb_spec s ""); [done|]. rewrite H. cbn.
    by rewrite (proj2 (Z.leb_le _ _)), (proj2 (Z.ltb_lt _ _)) by lia. }
  destruct n as [|p|p]; [done|apply Hpos; [apply (parse_digits_pretty_N (Npos p))|apply (pretty_N_ne (Npos p))|done]|].
  change (pretty (Z.neg p)) with ("-" +:+ pretty (Npos p)). unfold parse_int. cbn [String.append].
  rewrite Ascii.eqb_refl. destruct (String.eqb_spec (pretty (Npos p)) "") as [E|_]; [by destruct (pretty_N_ne (Npos p))|].
  rewrite (parse_digits_pretty_N (Npos p)). cbn -[Z.pow].
  by rewrite (proj2 (Z.leb_le _ _)), (proj2 (Z.ltb_lt _ _)) by lia.
Qed.

(** ** Padding *)

Lemma parse_digits_pad n s acc : parse_digits acc (pad0 n s) = parse_digits (acc * 10 ^ Z.of_nat (n - String.length s)) s.
Proof.
  unfold pad0. generalize (n - String.length s)%nat as k. intros k. revert acc.
  induction k as [|k IH]; intros acc; [by rewrite Z.mul_1_r|].
  cbn [repeat String.string_of_list_ascii String.append]. cbn [parse_digits].
  change ((48 <=? byte_of "0") && (byte_of "0" <=? 57)) with true. cbv iota. rewrite IH. f_equal.
  change (byte_of "0") with 48. rewrite Nat2Z.inj_succ, Z.pow_succ_r by lia. lia.
Qed.

Lemma parse_digits_pad0 n s : parse_digits 0 (pad0 n s) = parse_digits 0 s.
Proof. apply parse_digits_pad. Qed.

Lemma pad0_pretty_inj k m n : 0 <= m -> 0 <= n -> pad0 k (pretty m) = pad0 k (pretty n) -> m = n.
Proof.
  intros Hm Hn E. apply (f_equal (parse_digits 0)) in E. rewrite !parse_digits_pad0 in E.
  rewrite !parse_digits_pretty in E by done. congruence.
Qed.

Lemma parse_digits_trim s : parse_digits 0 (trim_left zero_char s) = parse_digits 0 s.
Proof.
  induction s as [|c s IH]; [done|]. cbn [trim_left]. unfold zero_char at 1. destruct (Ascii.eqb_spec c "0") as [->|]; [|done].
  rewrite IH. done.
Qed.

(** ** Lengths *)

Lemma pretty_go_len k x s : (x < 10 ^ N.of_nat k)%N -> (String.length (pretty_N_go x s) <= k + String.length s)%nat.
Proof.
  revert x s. induction k as [|k IH]; intros x s Hx.
  - assert (x = 0)%N as -> by (simpl in Hx; lia). by rewrite pretty_N_go_0.
  - destruct (decide (x = 0)%N) as [->|Hne]; [rewrite pretty_N_go_0; lia|]. rewrite pretty_N_go_step by lia.
    rewrite Nat2N.inj_succ, N.pow_succ_r' in Hx.
    specialize (IH (x `div` 10)%N (String (pretty_N_char (x `mod` 10)) s) (N.Div0.div_lt_upper_bound _ _ _ Hx)). simpl in IH. lia.
Qed.

Lemma pretty_N_len k (x : N) : (x < 10 ^ N.of_nat (Datatypes.S k))%N -> slen (pretty x) <= Z.of_nat (Datatypes.S k).
Proof.
  intros Hx. unfold pretty, pretty_N, slen. case_decide; [simpl; lia|].
  pose proof (pretty_go_len (Datatypes.S k) x "" Hx). simpl in *. lia.
Qed.

(** A 64-bit integer has at most twenty characters. *)
Lemma pretty_len n : - 2 ^ 63 <= n < 2 ^ 64 -> slen (pretty n) <= 20.
Proof.
  intros Hn. destruct n as [|p|p]; [done|apply (pretty_N_len 19 (Npos p)); lia|].
  change (pretty (Z.neg p)) with (String "-" (pretty (Npos p))).
  pose proof (pretty_N_len 18 (Npos p)). unfold slen in *. cbn [String.length]. lia.
Qed.

(** ** Digits of one width are in the order of the numbers *)

Lemma parse_digits_bounds s : forall acc n,
  parse_digits acc s = Some n -> acc * 10 ^ slen s <= n < (acc + 1) * 10 ^ slen s.
Proof.
  induction s as [|c s IH]; intros acc n; cbn [parse_digits]; [intros [= ->]; change (slen "") with 0; lia|].
  destruct (_ && _) eqn:E; [|done]. apply andb_true_iff in E as [E1%Z.leb_le E2%Z.leb_le]. intros H%IH.
  change (slen (String c s)) with (Z.of_nat (Datatypes.S (String.length s))). fold (slen s) in H.
  rewrite Nat2Z.inj_succ, Z.pow_succ_r by lia. fold (slen s). assert (0 < 10 ^ slen s) by (apply Z.pow_pos_nonneg; unfold slen; lia). nia.
Qed.

Lemma parse_digits_cmp s : forall t acc m n, slen s = slen t ->
  parse_digits acc s = Some m -> parse_digits acc t = Some n -> bytes_cmp s t = (m ?= n).
Proof.
  induction s as [|c s IH]; intros [|d t] acc m n L; unfold slen in L; cbn [String.length] in L; try lia.
  { cbn. intros [= <-] [= <-]. by rewrite Z.compare_refl. }
  assert (slen s = slen t) as L' by (unfold slen; lia). cbn [parse_digits bytes_cmp].
  destruct (_ && _); [|done]. destruct (_ && _); [|by intros ? [=]]. intros Hm Hn.
  destruct (Z.compare_spec (byte_of c) (byte_of d)) as [E|E|E].
  - rewrite E in Hm. eauto.
  - apply parse_digits_bounds in Hm, Hn. symmetry. apply Z.compare_lt_iff.
    assert (0 < 10 ^ slen t) by (apply Z.pow_pos_nonneg; unfold slen; lia). rewrite L' in Hm. nia.
  - apply parse_digits_bounds in Hm, Hn. symmetry. apply Z.compare_gt_iff.
    assert (0 < 10 ^ slen t) by (apply Z.pow_pos_nonneg; unfold slen; lia). rewrite L' in Hm. nia.
Qed.

Lemma pad0_len k s : (String.length s <= k)%nat -> String.length (pad0 k s) = k.
Proof.
  intros H. unfold pad0. rewrite string_length_app.
  assert (forall n, String.length (String.string_of_list_ascii (repeat ("0"%char : ascii) n)) = n) as ->; [|lia].
  induction n; cbn; congruence.
Qed.

Lemma pad0_pretty_len k n : 0 <= n < 10 ^ Z.of_nat (Datatypes.S k) ->
  String.length (pad0 (Datatypes.S k) (pretty n)) = Datatypes.S k.
Proof.
  intros Hn. apply pad0_len. destruct n as [|p|p]; [cbn; lia| |lia].
  pose proof (pretty_N_len k (Npos p)) as H. unfold slen in H. change (pretty (Z.pos p)) with (pretty (Npos p)).
  assert ((N.pos p < 10 ^ N.of_nat (Datatypes.S k))%N); [|lia]. apply N2Z.inj_lt. rewrite N2Z.inj_pow, nat_N_Z. lia.
Qed.

Lemma pad0_pretty_cmp k m n : 0 <= m < 10 ^ Z.of_nat (Datatypes.S k) -> 0 <= n < 10 ^ Z.of_nat (Datatypes.S k) ->
  bytes_cmp (pad0 (Datatypes.S k) (pretty m)) (pad0 (Datatypes.S k) (pretty n)) = (m ?= n).
Proof.
  intros Hm Hn. apply (parse_digits_cmp _ _ 0); [unfold slen; by rewrite !pad0_pretty_len|..];
    rewrite parse_digits_pad0; apply parse_digits_pretty; lia.
Qed.

(** A byte that is not a digit is not in a number. *)
Lemma digits_no_char c s : forall acc n, parse_digits acc s = Some n -> byte_of c < 48 -> has_char c s = false.
Proof.
  induction s as [|d s IH]; intros acc n; [done|]. cbn [parse_digits has_char]. destruct (_ && _) eqn:E; [|done].
  apply andb_true_iff in E as [E%Z.leb_le _]. intros H Hc. rewrite (IH _ _ H Hc), orb_false_r.
  apply Ascii.eqb_neq. intros ->. lia.
Qed.
