(* ===== verification/Star.v ===== *)
(** * Star: patterns with stars

    The matcher that the policy engine and the event patterns share in shape: a loop over
    two cursors that backtracks to the last star, over any test of a character of the
    pattern against one of the string.  A cursor is what remains of its string. *)

From S2P Require Import Prelude Bytes.

Definition star : ascii := "*".

(** Skips the stars a pattern ends with: whether nothing else is left of it. *)
Fixpoint only_stars (p : string) : bool :=
  match p with EmptyString => true | String c p' => Ascii.eqb c star && only_stars p' end.

Section matcher.
Context (fits : ascii -> ascii -> bool).

(** The loop.  [back] is the last star seen: the pattern after it, and what it has not
    swallowed yet.  [None] when the fuel runs out. *)
Fixpoint star_loop (fuel : nat) (p s : string) (back : option (string * string)) : option bool :=
  match fuel with
  | O => None
  | S fuel =>
      match s with
      | EmptyString => Some (only_stars p)
      | String c s' =>
          let backtrack :=
            match back with
            | Some (sp, String _ mark) => star_loop fuel sp mark (Some (sp, mark))
            | Some (_, EmptyString) => None
            | None => Some false
            end in
          match p with
          | String d p' =>
              if fits d c then star_loop fuel p' s' back
              else if Ascii.eqb d star then star_loop fuel p' s (Some (p', s))
              else backtrack
          | EmptyString => backtrack
          end
      end
  end.

Definition star_fuel (p s : string) : nat :=
  S (String.length s * (String.length p + String.length s + 2) + String.length p + String.length s).

(** A star stands for any run of characters, another character for those that fit it. *)
Fixpoint wild_by (p s : string) : Prop :=
  match p with
  | EmptyString => s = ""
  | String d p' =>
      if Ascii.eqb d star then exists a b, s = a +:+ b /\ wild_by p' b
      else exists c s', s = String c s' /\ fits d c = true /\ wild_by p' s'
  end.

Lemma wild_by_star p s :
  wild_by (String star p) s <-> wild_by p s \/ exists c s', s = String c s' /\ wild_by (String star p) s'.
Proof.
  cbn [wild_by]. rewrite Ascii.eqb_refl. split.
  - intros ([|c a] & b & -> & H); [by left|right]. exists c, (a +:+ b). split; [done|]. by exists a, b.
  - intros [H|(c & s' & -> & a & b & -> & H)]; [by exists "", s|by exists (String c a), b].
Qed.

Lemma wild_by_star_suffix p a s : wild_by (String star p) s -> wild_by (String star p) (a +:+ s).
Proof. induction a as [|c a IH]; intros H; [done|]. apply wild_by_star. right. exists c, (a +:+ s). auto. Qed.

Lemma wild_by_char d p c s :
  d <> star -> wild_by (String d p) (String c s) <-> fits d c = true /\ wild_by p s.
Proof.
  intros Hd. cbn [wild_by]. destruct (Ascii.eqb_spec d star); [done|]. split.
  - intros (? & ? & [= <- <-] & ? & ?). done.
  - intros [? ?]. by exists c, s.
Qed.

Lemma wild_by_nil p : wild_by p "" <-> only_stars p = true.
Proof.
  induction p as [|d p IH]; [done|]. cbn [only_stars]. destruct (Ascii.eqb_spec d star) as [->|Hd].
  - cbn [andb]. rewrite <- IH, wild_by_star. split; [|by left]. intros [?|(? & ? & ? & _)]; done.
  - cbn [andb wild_by]. split; [|done]. destruct (Ascii.eqb_spec d star); [done|]. by intros (? & ? & ? & _).
Qed.

(** ** Matching is sound, terminates, and is complete on strings without stars *)

Definition rank (B : nat) (p s : string) (back : option (string * string)) : nat :=
  (String.length (from_option snd s back) * B + String.length p + String.length s)%nat.

Definition back_ok (B : nat) (s : string) (back : option (string * string)) : Prop :=
  match back with
  | Some (sp, m) => (String.length s <= String.length m /\ String.length sp + String.length m < B)%nat
  | None => True
  end.

Lemma star_loop_total fuel p s back B :
  (rank B p s back < fuel)%nat -> back_ok B s back -> (String.length p + String.length s < B)%nat ->
  exists b, star_loop fuel p s back = Some b.
Proof.
  revert p s back; induction fuel as [|fuel IH]; intros p s back Hr Hb HB; [lia|]. cbn [star_loop].
  destruct s as [|c s]; [eauto|].
  assert (exists b, match back with
    | Some (sp, String _ mark) => star_loop fuel sp mark (Some (sp, mark))
    | Some (_, EmptyString) => None | None => Some false end = Some b) as Hback.
  { destruct back as [[sp [|e m]]|]; [|apply IH|eauto]; unfold rank, back_ok in *; simpl in *; [lia|nia..]. }
  destruct p as [|d p]; [exact Hback|].
  destruct (fits d c).
  { apply IH; unfold rank, back_ok in *; destruct back as [[sp m]|]; simpl in *; try lia; nia. }
  destruct (Ascii.eqb d star); [|exact Hback].
  apply IH; unfold rank, back_ok in *; destruct back as [[sp m]|]; simpl in *; try lia; nia.
Qed.

Lemma star_loop_sound fuel p s back :
  star_loop fuel p s back = Some true ->
  wild_by p s \/ exists sp m, back = Some (sp, m) /\ wild_by (String star sp) m.
Proof.
  revert p s back; induction fuel as [|fuel IH]; intros p s back; [done|]. cbn [star_loop].
  destruct s as [|c s]; [intros [= H]; left; by apply wild_by_nil|].
  assert (match back with
    | Some (sp, String _ mark) => star_loop fuel sp mark (Some (sp, mark))
    | Some (_, EmptyString) => None | None => Some false end = Some true ->
    exists sp m, back = Some (sp, m) /\ wild_by (String star sp) m) as Hback.
  { destruct back as [[sp [|e m]]|]; try done. intros H. exists sp, (String e m). split; [done|].
    apply wild_by_star. right. exists e, m. split; [done|].
    apply IH in H as [H|(? & ? & [= <- <-] & H)]; [apply wild_by_star; by left|done]. }
  destruct p as [|d p]; [by right; apply Hback|].
  destruct (fits d c) eqn:Em.
  - intros H. apply IH in H as [H|H]; [left|by right].
    destruct (Ascii.eqb_spec d star) as [->|Hd].
    + apply wild_by_star. right. exists c, s. split; [done|]. apply wild_by_star. by left.
    + apply wild_by_char; [done|]. by split.
  - destruct (Ascii.eqb_spec d star) as [->|Hd]; [|by intros H; right; apply Hback].
    intros H. left. apply IH in H as [H|(? & ? & [= <- <-] & H)]; [apply wild_by_star; by left|done].
Qed.

(** A stretch of pattern without stars that has matched a stretch of string. *)
Inductive stretch : string -> string -> Prop :=
| stretch_nil : stretch "" ""
| stretch_snoc q x d c : stretch q x -> d <> star -> fits d c = true ->
    stretch (q +:+ String d "") (x +:+ String c "").

Lemma stretch_split q x p t :
  stretch q x -> wild_by (q +:+ p) t ->
  exists y z, t = y +:+ z /\ String.length y = String.length x /\ wild_by p z.
Proof.
  intros H. revert p t. induction H as [|q x d c H IH Hd Hm]; intros p t Hw; [by exists "", t|].
  rewrite sapp_assoc in Hw. apply IH in Hw as (y & z & -> & Hl & Hw). cbn [String.append] in Hw.
  cbn [wild_by] in Hw. destruct (Ascii.eqb_spec d star); [done|]. destruct Hw as (e & z' & -> & _ & Hw).
  exists (y +:+ String e ""), z'. rewrite sapp_assoc. split; [done|]. split; [|done].
  pose proof (slen_app y (String e "")). pose proof (slen_app x (String c "")).
  unfold slen in *. simpl in *. lia.
Qed.

Lemma stretch_wild_by q x p s : stretch q x -> wild_by (q +:+ p) (x +:+ s) <-> wild_by p s.
Proof.
  intros H. revert p s. induction H as [|q x d c H IH Hd Hm]; intros p s; [done|].
  rewrite !sapp_assoc, IH. cbn [String.append]. rewrite wild_by_char by done. tauto.
Qed.

Lemma suffix_of (a x z s : string) :
  a +:+ z = x +:+ s -> (String.length x <= String.length a)%nat -> exists b, s = b +:+ z.
Proof.
  revert a; induction x as [|c x IH]; intros a E Hl; [by exists a|]. destruct a as [|d a]; simpl in *; [lia|].
  injection E as _ E. apply (IH a E). lia.
Qed.

(** A star of the pattern fits no character but a star. *)
Context (fits_star : forall c, fits star c = true -> c = star).

(** The loop decides the rest of the match: what remains of the pattern against what
    remains of the string, or a star that swallows more. *)
Lemma star_loop_complete fuel p s back b :
  has_char star s = false ->
  match back with
  | Some (sp, m) => has_char star m = false /\ exists q x, sp = q +:+ p /\ m = x +:+ s /\ stretch q x
  | None => True
  end ->
  star_loop fuel p s back = Some b ->
  b = true <-> wild_by p s \/ exists sp m, back = Some (sp, m) /\ wild_by (String star sp) m.
Proof using fits_star.
  revert p s back; induction fuel as [|fuel IH]; intros p s back Hs Hb; [done|]. cbn [star_loop].
  destruct s as [|c s].
  { intros [= <-]. rewrite <- wild_by_nil. split; [by left|]. intros [?|(sp & m & -> & Hw)]; [done|].
    destruct Hb as (_ & q & x & -> & -> & Hq). rewrite sapp_nil_r in Hw.
    cbn [wild_by] in Hw. rewrite Ascii.eqb_refl in Hw. destruct Hw as (a & t & Ex & Hw).
    destruct (stretch_split _ _ _ _ Hq Hw) as (y & z & -> & Hl & Hz).
    assert (z = "") as ->; [|done]. pose proof (slen_app a (y +:+ z)). pose proof (slen_app y z).
    rewrite Ex in Hl. unfold slen in *. destruct z; [done|]. simpl in *. lia. }
  cbn [has_char] in Hs. apply orb_false_iff in Hs as [Hc Hs]. apply Ascii.eqb_neq in Hc.
  assert (~ wild_by p (String c s) ->
    match back with
    | Some (sp, String _ mark) => star_loop fuel sp mark (Some (sp, mark))
    | Some (_, EmptyString) => None | None => Some false end = Some b ->
    b = true <-> wild_by p (String c s) \/ exists sp m, back = Some (sp, m) /\ wild_by (String star sp) m) as Hback.
  { intros Hno. destruct back as [[sp [|e m]]|]; [done| |].
    - destruct Hb as (Hm & q & x & Esp & Em & Hq). cbn [has_char] in Hm. apply orb_false_iff in Hm as [_ Hm].
      intros H. apply IH in H; [|done|split; [done|]; exists "", ""; by repeat split; constructor].
      rewrite H. transitivity (wild_by (String star sp) (String e m)).
      + rewrite (wild_by_star sp (String e m)). assert (~ wild_by sp (String e m)) as Hsp.
        { rewrite Esp, Em. by rewrite (stretch_wild_by q x). }
        split.
        * intros [H1|(? & ? & [= <- <-] & H1)]; right; exists e, m; (split; [done|]); [apply wild_by_star; by left|done].
        * intros [?|(? & ? & [= <- <-] & H1)]; [done|]. right. eauto.
      + split; [intros ?; right; eauto|]. intros [?|(? & ? & [= <- <-] & ?)]; done.
    - intros [= <-]. split; [done|]. intros [?|(? & ? & ? & _)]; done. }
  destruct p as [|d p]; [by apply Hback|].
  destruct (fits d c) eqn:Em.
  - assert (d <> star) as Hd by (intros ->; by apply fits_star in Em).
    intros H. apply IH in H; [|done|].
    + rewrite H, wild_by_char by done. rewrite Em. tauto.
    + destruct back as [[sp m]|]; [|done]. destruct Hb as (Hm' & q & x & -> & -> & Hq). split; [done|].
      exists (q +:+ String d ""), (x +:+ String c ""). rewrite !sapp_assoc. repeat split. by constructor.
  - destruct (Ascii.eqb_spec d star) as [->|Hd].
    + intros H. apply IH in H; [|by cbn [has_char]; apply orb_false_iff; split; [apply Ascii.eqb_neq|]|].
      2:{ split; [cbn [has_char]; apply orb_false_iff; by split; [apply Ascii.eqb_neq|]|]. exists "", "". by repeat split; constructor. }
      rewrite H. transitivity (wild_by (String star p) (String c s)).
      { split; [|intros Hw; right; eauto]. intros [Hw|(? & ? & [= <- <-] & Hw)]; [apply wild_by_star; by left|done]. }
      split; [by left|]. intros [Hw|(sp & m & -> & Hw)]; [done|]. destruct Hb as (_ & q & x & -> & -> & Hq).
      cbn [wild_by] in Hw. rewrite Ascii.eqb_refl in Hw. destruct Hw as (a & t & Ex & Hw).
      destruct (stretch_split _ _ _ _ Hq Hw) as (y & z & -> & Hl & Hz).
      destruct (suffix_of (a +:+ y) x z (String c s)) as (b' & ->).
      { by rewrite sapp_assoc. }
      { pose proof (slen_app a y). unfold slen in *. lia. }
      by apply wild_by_star_suffix.
    + apply Hback. rewrite wild_by_char by done. intros [Hor _].
      by rewrite Em in Hor.
Qed.

Lemma star_fuel_enough p s : exists b, star_loop (star_fuel p s) p s None = Some b.
Proof using.
  apply star_loop_total with (B := (String.length p + String.length s + 2)%nat); [|done|lia].
  unfold rank, star_fuel. simpl. lia.
Qed.

Definition star_match (p s : string) : bool := default false (star_loop (star_fuel p s) p s None).

Lemma star_match_sound p s : star_match p s = true -> wild_by p s.
Proof using.
  unfold star_match. destruct (star_fuel_enough p s) as (b & E). rewrite E. simpl. intros ->.
  apply star_loop_sound in E as [?|(? & ? & ? & _)]; done.
Qed.

Lemma star_match_complete p s : has_char star s = false -> wild_by p s -> star_match p s = true.
Proof using fits_star.
  intros Hs Hw. unfold star_match. destruct (star_fuel_enough p s) as (b & E). rewrite E. simpl.
  apply (star_loop_complete _ _ _ None b Hs I) in E. apply E. by left.
Qed.
End matcher.
