(* ===== verification/GoText.v ===== *)
(** * GoText: what the services use of Go's library on text

    Interfaces of the library: text read as numbers, times and addresses, and JSON text.
    They are parameters of the components that use them. *)

From S2P Require Import Prelude Bytes.

(** Numbers, times and addresses, and the
    order in which [range] visits a map, which the language leaves open. *)
Class GoText := {
  float : Type;
  parse_float : string -> option float;                       (* strconv.ParseFloat *)
  float_of_int : Z -> float;
  float_compare : float -> float -> option comparison;        (* None: unordered *)
  parse_time : string -> string -> option Z;                  (* time.Parse, in Unix seconds *)
  ip : Type;
  cidr : Type;
  parse_ip : string -> option ip;
  parse_cidr : string -> option cidr;
  cidr_contains : cidr -> ip -> bool;
  range {A} : gmap string A -> list (string * A);
  range_permutation {A} (m : gmap string A) : range m ≡ₚ map_to_list m
}.

(** JSON text: the standard library's codec, and the text it gives a float64. *)
Class JsonText := {
  json_parse : string -> option json;
  json_marshal : json -> string;
  float_text : string -> string;         (* ParseFloat, then FormatFloat(f, 'f', -1, 64) *)
  (* json.Unmarshal into deadLetterTargetArn and the text of maxReceiveCount *)
  redrive_fields : string -> option (string * string)
}.

(** A library of texts that reads plain integers, for examples. *)
#[global] Instance plain_text : GoText := {|
  float := Z;
  parse_float := parse_int;
  float_of_int n := n;
  float_compare a b := Some (a ?= b);
  parse_time _ _ := None;
  ip := string;
  cidr := string;
  parse_ip s := Some s;
  parse_cidr _ := None;
  cidr_contains _ _ := false;
  range A m := map_to_list m;
  range_permutation A m := Permutation_refl _
|}.
