(* ===== verification/Decimal.v ===== *)
(** * Decimal: DynamoDB's number type

    Model of src/internal/ddb/item/decimal.go: parsing, rendering, comparison and
    exact addition of normalized arbitrary-precision decimals.  A value is
    [0.digits * 10^exp], so the first digit is at the [10^(exp-1)] place. *)

From S2P Require Import Prelude.

Record Decimal := mkDecimal {
  d_neg : bool;
  d_digits : list ascii;
  d_exp : Z;
}.

#[global] Instance Decimal_eq_dec : EqDecision Decimal.
Proof. solve_decision. Defined.

Definition Zero : Decimal := mkDecimal false [] 0.

Definition IsZero (d : Decimal) : bool := match d_digits d with [] => true | _ => false end.

(** ** Digits *)

Definition ch0 : ascii := "0".
Definition is_digit (c : ascii) : bool := (48 <=? byte_of c) && (byte_of c <=? 57).
Definition dval (c : ascii) : Z := byte_of c - 48.
Definition dchr (z : Z) : ascii := chr (z + 48).

(** [strings.Repeat("0", n)]; Go panics on a negative count, which no caller
    passes. *)
Definition zeros (n : Z) : list ascii := replicate (Z.to_nat n) ch0.

Definition zlen {A} (l : list A) : Z := Z.of_nat (length l).

(** The leading-zero loop: how many were skipped, and what is left. *)
Fixpoint strip_lead (l : list ascii) : Z * list ascii :=
  match l with
  | c :: l' => if Ascii.eqb c ch0 then let '(n, r) := strip_lead l' in (n + 1, r) else (0, l)
  | [] => (0, [])
  end.

(** [strings.TrimRight(s, "0")]. *)
Definition trim_right (l : list ascii) : list ascii := reverse (snd (strip_lead (reverse l))).

(** ** Parsing *)

Definition errValidation (format : string) : APIError := Errf 400 "ValidationException" format.
Definition err_bad : APIError := errValidation "%q is not a valid number".
Definition err_overflow : APIError := errValidation "number %q overflows DynamoDB's range".
Definition err_underflow : APIError := errValidation "number %q underflows DynamoDB's range".
Definition err_digits38 : APIError := errValidation "number %q exceeds 38 significant digits".

Definition is_sign (c : ascii) : bool := Ascii.eqb c "+" || Ascii.eqb c "-".
Definition is_e (c : ascii) : bool := Ascii.eqb c "e" || Ascii.eqb c "E".

(** A leading sign: whether it was a minus, and the rest. *)
Definition cut_sign (l : list ascii) : bool * list ascii :=
  match l with
  | c :: l' => if is_sign c then (Ascii.eqb c "-", l') else (false, l)
  | [] => (false, [])
  end.

(** [strings.IndexAny(s, "eE")] with the slices either side, and
    [strings.Cut(s, ".")]: split at the first byte that satisfies [p]. *)
Fixpoint cut_at (p : ascii -> bool) (l : list ascii) : list ascii * option (list ascii) :=
  match l with
  | [] => ([], None)
  | c :: l' => if p c then ([], Some l')
               else let '(a, b) := cut_at p l' in (c :: a, b)
  end.

Fixpoint parse_exp_digits (l : list ascii) (acc : Z) : result Z :=
  match l with
  | [] => Ok acc
  | c :: l' =>
      if negb (is_digit c) then Err err_bad
      else let acc' := acc * 10 + dval c in
           if 1000 <? acc' then Err err_overflow else parse_exp_digits l' acc'
  end.

Definition parse_exp (e : list ascii) : result Z :=
  match e with
  | [] => Err err_bad
  | _ =>
      let '(eneg, e') := cut_sign e in
      match e' with
      | [] => Err err_bad
      | _ => v ← parse_exp_digits e' 0; Ok (if eneg then - v else v)
      end
  end.

(** What follows the exponent: split at the point, check the digits, strip the
    zeros at both ends and check the range. *)
Definition parse_mantissa (neg : bool) (expPart : Z) (mant : list ascii) : result Decimal :=
  let '(intPart, frac) := cut_at (Ascii.eqb ".") mant in
  let fracPart := default [] frac in
  match intPart ++ fracPart with
  | [] => Err err_bad
  | all =>
      if negb (forallb is_digit all) then Err err_bad
      else
        let '(lead, rest) := strip_lead all in
        let pointExp := zlen intPart + expPart - lead in
        match trim_right rest with
        | [] => Ok Zero
        | ds =>
            if 38 <? zlen ds then Err err_digits38
            else if 126 <? pointExp then Err err_overflow
            else if pointExp <? -129 then Err err_underflow
            else Ok (mkDecimal neg ds pointExp)
        end
  end.

Definition parse_chars (l : list ascii) : result Decimal :=
  match l with
  | [] => Err err_bad
  | _ =>
      let '(neg, l1) := cut_sign l in
      let '(mant, epart) := cut_at is_e l1 in
      expPart ← match epart with None => Ok 0 | Some e => parse_exp e end;
      parse_mantissa neg expPart mant
  end.

Definition ParseDecimal (str : string) : result Decimal :=
  parse_chars (String.list_ascii_of_string str).

(** ** Rendering *)

(** The digit loop of [itoa]; its buffer has eight bytes, so [fuel] is 8 and an
    exponent has at most three digits. *)
Fixpoint itoa_loop (fuel : nat) (n : Z) (buf : list ascii) : list ascii :=
  match fuel with
  | O => buf
  | S f => if 0 <? n then itoa_loop f (n / 10) (dchr (n mod 10) :: buf) else buf
  end.

Definition itoa (n : Z) : list ascii :=
  if n =? 0 then [ch0]
  else
    let body := itoa_loop 8 (Z.abs n) [] in
    if n <? 0 then ("-"%char : ascii) :: body else body.

Definition dec_chars (d : Decimal) : list ascii :=
  if IsZero d then [ch0]
  else
    let ds := d_digits d in
    let e := d_exp d in
    (if d_neg d then ["-"%char] else []) ++
    (if (1 <=? e) && (e <=? 38) then
       if zlen ds <=? e then ds ++ zeros (e - zlen ds)
       else take (Z.to_nat e) ds ++ ["."%char] ++ drop (Z.to_nat e) ds
     else if (e <=? 0) && (-6 <? e) then
       [ch0; "."%char] ++ zeros (- e) ++ ds
     else
       take 1 ds ++
       (if 1 <? zlen ds then ["."%char] ++ drop 1 ds else []) ++
       ["E"%char] ++ (if 0 <=? e - 1 then ["+"%char] else []) ++ itoa (e - 1)).

Definition dec_String (d : Decimal) : string := String.string_of_list_ascii (dec_chars d).

(** ** Comparison *)

(** [strings.Compare] on digit strings. *)
Fixpoint chars_cmp (a b : list ascii) : comparison :=
  match a, b with
  | [], [] => Eq
  | [], _ :: _ => Lt
  | _ :: _, [] => Gt
  | x :: a', y :: b' => match byte_of x ?= byte_of y with Eq => chars_cmp a' b' | o => o end
  end.

(** Both strings padded on the right with zeros to the longer length. *)
Definition pad_right (a b : list ascii) : list ascii * list ascii :=
  if zlen a <? zlen b then (a ++ zeros (zlen b - zlen a), b)
  else if zlen b <? zlen a then (a, b ++ zeros (zlen a - zlen b))
  else (a, b).

Definition compareMagnitude (a b : Decimal) : Z :=
  if negb (d_exp a =? d_exp b) then (if d_exp a <? d_exp b then -1 else 1)
  else let '(ad, bd) := pad_right (d_digits a) (d_digits b) in cmp_int (chars_cmp ad bd).

Definition Compare (a b : Decimal) : Z :=
  if IsZero a && IsZero b then 0
  else if IsZero a then (if d_neg b then 1 else -1)
  else if IsZero b then (if d_neg a then -1 else 1)
  else if negb (Bool.eqb (d_neg a) (d_neg b)) then (if d_neg a then -1 else 1)
  else let mag := compareMagnitude a b in if d_neg a then - mag else mag.

(** ** Addition *)

Definition normalize (digits : list ascii) (exp : Z) : Decimal :=
  let '(lead, rest) := strip_lead digits in
  match trim_right rest with
  | [] => Zero
  | ds => mkDecimal false ds (exp - lead)
  end.

Definition align (a b : Decimal) : list ascii * list ascii * Z :=
  let exp := Z.max (d_exp a) (d_exp b) in
  let '(ad, bd) := pad_right (zeros (exp - d_exp a) ++ d_digits a)
                             (zeros (exp - d_exp b) ++ d_digits b) in
  (ad, bd, exp).

(** The loop from the last digit to the first: the output digits and the carry out
    of the first. *)
Fixpoint add_loop (ad bd : list ascii) : list ascii * Z :=
  match ad, bd with
  | x :: ad', y :: bd' =>
      let '(out, carry) := add_loop ad' bd' in
      let sum := (dval x + dval y + carry) mod 256 in
      (dchr (sum mod 10) :: out, sum / 10)
  | _, _ => ([], 0)
  end.

Definition addMagnitude (a b : Decimal) : Decimal :=
  let '(ad, bd, exp) := align a b in
  let '(out, carry) := add_loop ad bd in
  if 0 <? carry then normalize (dchr carry :: out) (exp + 1) else normalize out exp.

Fixpoint sub_loop (ad bd : list ascii) : list ascii * Z :=
  match ad, bd with
  | x :: ad', y :: bd' =>
      let '(out, borrow) := sub_loop ad' bd' in
      let ai := dval x in
      let bi := dval y + borrow in
      if ai <? bi then (dchr (ai + 10 - bi) :: out, 1) else (dchr (ai - bi) :: out, 0)
  | _, _ => ([], 0)
  end.

(** [|a| - |b|], assuming [|a| > |b|]. *)
Definition subMagnitude (a b : Decimal) : Decimal :=
  let '(ad, bd, exp) := align a b in normalize (fst (sub_loop ad bd)) exp.

Definition set_neg (n : bool) (d : Decimal) : Decimal := mkDecimal n (d_digits d) (d_exp d).

Definition Add (a b : Decimal) : Decimal :=
  if IsZero a then b
  else if IsZero b then a
  else if Bool.eqb (d_neg a) (d_neg b) then set_neg (d_neg a) (addMagnitude a b)
  else
    let c := compareMagnitude a b in
    if c =? 0 then Zero
    else if c =? 1 then set_neg (d_neg a) (subMagnitude a b)
    else set_neg (d_neg b) (subMagnitude b a).

Definition Sub (a b : Decimal) : Decimal :=
  let b1 := set_neg (negb (d_neg b)) b in
  let b2 := if IsZero b1 then set_neg false b1 else b1 in
  Add a b2.

(** ** What a decimal denotes

    [dnum] reads a digit string as an integer.  [scaled K d] is the value of [d]
    times [10^K]; it is an integer as soon as [K] is at least the number of digits
    after the point ([fits K d]). *)

Fixpoint dnum (l : list ascii) : Z :=
  match l with
  | [] => 0
  | c :: l' => dval c * 10 ^ zlen l' + dnum l'
  end.

Definition mag (K : Z) (d : Decimal) : Z := dnum (d_digits d) * 10 ^ (K + d_exp d - zlen (d_digits d)).
Definition scaled (K : Z) (d : Decimal) : Z := (if d_neg d then -1 else 1) * mag K d.
Definition fits (K : Z) (d : Decimal) : Prop := 0 <= K + d_exp d - zlen (d_digits d).

Abbreviation digitsP := (Forall (fun c => is_digit c = true)).

(** The normal form: digits without leading or trailing zeros, and one zero. *)
Record dec_wf (d : Decimal) : Prop := {
  wf_digits : digitsP (d_digits d);
  wf_head : head (d_digits d) <> Some ch0;
  wf_last : last (d_digits d) <> Some ch0;
  wf_zero : d_digits d = [] -> d = Zero;
}.

(** *** Digits and digit strings *)

Lemma is_digit_range c : is_digit c = true <-> 0 <= dval c <= 9.
Proof. unfold is_digit, dval. rewrite andb_true_iff, !Z.leb_le. lia. Qed.

Lemma dval_dchr z : 0 <= z <= 9 -> dval (dchr z) = z.
Proof. intros. unfold dval, dchr. rewrite byte_of_chr_small; lia. Qed.

Lemma is_digit_dchr z : 0 <= z <= 9 -> is_digit (dchr z) = true.
Proof. intros. apply is_digit_range. rewrite dval_dchr; lia. Qed.

Lemma dval_ch0 : dval ch0 = 0.
Proof. reflexivity. Qed.

Lemma dval_eq0 c : is_digit c = true -> dval c = 0 -> c = ch0.
Proof. unfold dval. intros _ H. apply byte_of_inj. change (byte_of ch0) with 48. lia. Qed.

Lemma zlen_nonneg {A} (l : list A) : 0 <= zlen l.
Proof. unfold zlen. lia. Qed.

Lemma zlen_cons {A} (x : A) l : zlen (x :: l) = zlen l + 1.
Proof. unfold zlen. simpl. lia. Qed.

Lemma zlen_nil {A} : zlen (@nil A) = 0.
Proof. reflexivity. Qed.

Lemma zlen_app {A} (a b : list A) : zlen (a ++ b) = zlen a + zlen b.
Proof. unfold zlen. rewrite length_app. lia. Qed.

Lemma zlen_zeros n : 0 <= n -> zlen (zeros n) = n.
Proof. intros. unfold zlen, zeros. rewrite length_replicate. lia. Qed.

Create HintDb dec.
Create Rewrite HintDb dec.
#[export] Hint Resolve zlen_nonneg : dec.
#[export] Hint Rewrite @zlen_cons @zlen_nil @zlen_app : dec.

Lemma dnum_app a b : dnum (a ++ b) = dnum a * 10 ^ zlen b + dnum b.
Proof.
  induction a as [|c a IH]; simpl; [lia|].
  rewrite IH, zlen_app, Z.pow_add_r by apply zlen_nonneg. lia.
Qed.

Lemma dnum_replicate0 n : dnum (replicate n ch0) = 0.
Proof. induction n as [|n IH]; simpl; [done|]. rewrite IH, dval_ch0. lia. Qed.

Lemma dnum_zeros n : dnum (zeros n) = 0.
Proof. apply dnum_replicate0. Qed.

Lemma digits_replicate0 n : digitsP (replicate n ch0).
Proof. by apply Forall_replicate. Qed.
#[export] Hint Resolve digits_replicate0 : dec.

Lemma digits_zeros n : digitsP (zeros n).
Proof. apply digits_replicate0. Qed.
#[export] Hint Resolve digits_zeros : dec.

Lemma pow10_pos n : 0 <= n -> 0 < 10 ^ n.
Proof. intros. by apply Z.pow_pos_nonneg. Qed.

Lemma dnum_bound l : digitsP l -> 0 <= dnum l < 10 ^ zlen l.
Proof.
  induction 1 as [|c l Hc _ IH]; simpl; [done|].
  apply is_digit_range in Hc. rewrite zlen_cons, Z.pow_add_r by (auto with dec lia). nia.
Qed.

Lemma dnum_lower l : digitsP l -> l <> [] -> head l <> Some ch0 -> 10 ^ (zlen l - 1) <= dnum l.
Proof.
  intros Hl Hne Hh. destruct Hl as [|c l Hc Hl]; [done|]. simpl in *.
  pose proof (dnum_bound l Hl). rewrite zlen_cons, Z.add_simpl_r.
  assert (dval c <> 0) by (intros ?%dval_eq0; congruence).
  apply is_digit_range in Hc. pose proof (pow10_pos (zlen l) (zlen_nonneg _)). nia.
Qed.

Lemma dnum_zero_iff l : digitsP l -> head l <> Some ch0 -> dnum l = 0 <-> l = [].
Proof.
  intros Hl Hh. split; [|by intros ->]. intros H0. destruct l as [|c l]; [done|].
  pose proof (dnum_lower _ Hl ltac:(done) Hh).
  pose proof (pow10_pos (zlen (c :: l) - 1)). rewrite zlen_cons in *.
  pose proof (zlen_nonneg l). lia.
Qed.

(** On digit strings of one length the byte order is the numeric order. *)
Lemma chars_cmp_num a b :
  digitsP a -> digitsP b -> zlen a = zlen b -> chars_cmp a b = (dnum a ?= dnum b).
Proof.
  intros Ha; revert b; induction Ha as [|x a Hx Ha IH]; intros [|y b] Hb Hlen; simpl; try done.
  inversion Hb as [|? ? Hy Hb']; subst. rewrite !zlen_cons in Hlen.
  assert (zlen a = zlen b) as E by lia. rewrite (IH b Hb' E), E.
  pose proof (dnum_bound a Ha). pose proof (dnum_bound b Hb'). rewrite E in *.
  replace (byte_of x) with (dval x + 48) by (unfold dval; lia).
  replace (byte_of y) with (dval y + 48) by (unfold dval; lia).
  destruct (Z.compare_spec (dval x + 48) (dval y + 48)) as [Exy|Exy|Exy]; symmetry.
  - replace (dval y) with (dval x) by lia.
    by rewrite Z.add_compare_mono_l.
  - apply Z.compare_lt_iff. nia.
  - apply Z.compare_gt_iff. nia.
Qed.

(** *** Stripping zeros *)

Lemma strip_lead_spec l n r :
  strip_lead l = (n, r) -> 0 <= n /\ l = zeros n ++ r /\ head r <> Some ch0.
Proof.
  revert n r; induction l as [|c l IH]; intros n r; simpl.
  - intros [= <- <-]. done.
  - destruct (Ascii.eqb_spec c ch0) as [->|Hc].
    + destruct (strip_lead l) as [m r'] eqn:E. intros [= <- <-].
      destruct (IH m r' eq_refl) as (Hm & -> & Hr). split; [lia|]. split; [|done].
      unfold zeros. replace (Z.to_nat (m + 1)) with (S (Z.to_nat m)) by lia. done.
    + intros [= <- <-]. split; [lia|]. split; [done|]. simpl. congruence.
Qed.

(** The stripped string is unique. *)
Lemma strip_lead_zeros n r :
  0 <= n -> head r <> Some ch0 -> strip_lead (zeros n ++ r) = (n, r).
Proof.
  intros Hn Hr. unfold zeros. rewrite <- (Z2Nat.id n) at 2 by done.
  generalize (Z.to_nat n) as k; clear n Hn. intros k. induction k as [|k IH].
  - simpl. destruct r as [|c r]; [done|]. simpl.
    destruct (Ascii.eqb_spec c ch0) as [->|]; done.
  - change (strip_lead (replicate (S k) ch0 ++ r)) with
      (let '(m, s) := strip_lead (replicate k ch0 ++ r) in (m + 1, s)).
    rewrite IH. f_equal. lia.
Qed.

Lemma reverse_zeros n : reverse (zeros n) = zeros n.
Proof. apply reverse_replicate. Qed.

Lemma head_reverse {A} (l : list A) : head (reverse l) = last l.
Proof. induction l as [|x l _] using rev_ind; [done|]. by rewrite reverse_snoc, last_snoc. Qed.

Lemma trim_right_spec l :
  exists n, 0 <= n /\ l = trim_right l ++ zeros n /\ last (trim_right l) <> Some ch0.
Proof.
  unfold trim_right. destruct (strip_lead (reverse l)) as [n r] eqn:E.
  apply strip_lead_spec in E as (Hn & El & Hr). exists n. simpl. split; [done|]. split.
  - rewrite <- (reverse_involutive l), El, reverse_app, reverse_zeros. done.
  - by rewrite <- head_reverse, reverse_involutive.
Qed.

Lemma trim_right_zeros l n :
  0 <= n -> last l <> Some ch0 -> trim_right (l ++ zeros n) = l.
Proof.
  intros Hn Hl. unfold trim_right. rewrite reverse_app, reverse_zeros, strip_lead_zeros; simpl.
  - apply reverse_involutive.
  - done.
  - by rewrite head_reverse.
Qed.

Lemma head_app_nonempty {A} (l k : list A) : l <> [] -> head (l ++ k) = head l.
Proof. by destruct l. Qed.

(** Stripping both ends keeps the value, with the exponent adjusted. *)
Lemma strip_both l n r :
  digitsP l -> strip_lead l = (n, r) ->
  exists t, 0 <= n /\ 0 <= t /\ zlen l = n + zlen (trim_right r) + t /\
    dnum l = dnum (trim_right r) * 10 ^ t /\
    digitsP (trim_right r) /\ head (trim_right r) <> Some ch0 /\
    last (trim_right r) <> Some ch0.
Proof.
  intros Hl E. apply strip_lead_spec in E as (Hn & -> & Hh).
  destruct (trim_right_spec r) as (t & Ht & Er & Hlast). set (m := trim_right r) in *.
  exists t. rewrite Er in Hl, Hh |- *.
  rewrite !zlen_app, !zlen_zeros, !dnum_app, !dnum_zeros, zlen_zeros by done.
  apply Forall_app in Hl as [_ [Hm _]%Forall_app].
  repeat split; try lia; try done.
  intros Hc. destruct m; [done|]. apply Hh. done.
Qed.

Lemma normalize_spec K ds e :
  digitsP ds -> 0 <= K -> 0 <= K + e - zlen ds ->
  let d := normalize ds e in
  dec_wf d /\ fits K d /\ mag K d = dnum ds * 10 ^ (K + e - zlen ds) /\ d_neg d = false.
Proof.
  intros Hds HK He. unfold normalize.
  destruct (strip_lead ds) as [n r] eqn:E.
  destruct (strip_both ds n r Hds E) as (t & Hn & Ht & Hlen & Hnum & Hm & Hh & Hl).
  destruct (trim_right r) as [|c m] eqn:Em.
  - cbv zeta. split; [by split; try constructor|].
    unfold mag, fits. rewrite Hnum. cbn [d_digits d_exp d_neg Zero dnum].
    change (zlen (@nil ascii)) with 0. repeat split; lia.
  - cbv zeta. unfold mag, fits. cbn [d_digits d_exp d_neg]. repeat split; try done.
    + lia.
    + rewrite Hnum, <- Z.mul_assoc, <- Z.pow_add_r by lia. do 2 f_equal. lia.
Qed.

(** ** Magnitudes *)

Lemma mag_zero K d : dec_wf d -> IsZero d = true -> mag K d = 0 /\ d = Zero.
Proof.
  intros Hd Hz. unfold IsZero in Hz. destruct (d_digits d) eqn:E; [|done].
  rewrite (wf_zero d Hd E). done.
Qed.

Lemma IsZero_false d : IsZero d = false -> d_digits d <> [].
Proof. unfold IsZero. by destruct (d_digits d). Qed.

Lemma mag_bounds K d :
  dec_wf d -> fits K d -> IsZero d = false ->
  10 ^ (K + d_exp d - 1) <= mag K d < 10 ^ (K + d_exp d).
Proof.
  intros Hd Hf Hz%IsZero_false. unfold mag, fits in *.
  pose proof (dnum_bound _ (wf_digits d Hd)) as [_ Hub].
  pose proof (dnum_lower _ (wf_digits d Hd) Hz (wf_head d Hd)) as Hlb.
  assert (0 <= zlen (d_digits d) - 1).
  { destruct (d_digits d); [done|]. rewrite zlen_cons. pose proof (zlen_nonneg l). lia. }
  set (n := zlen (d_digits d)) in *. set (s := K + d_exp d - n) in *.
  replace (K + d_exp d - 1) with ((n - 1) + s) by lia.
  replace (K + d_exp d) with (n + s) by lia.
  rewrite !Z.pow_add_r by lia. pose proof (pow10_pos s Hf). nia.
Qed.

Lemma mag_pos K d : dec_wf d -> fits K d -> IsZero d = false -> 0 < mag K d.
Proof.
  intros Hd Hf Hz. pose proof (IsZero_false d Hz) as Hne. unfold mag, fits in *.
  pose proof (dnum_bound _ (wf_digits d Hd)) as [Hlb _].
  pose proof (dnum_zero_iff _ (wf_digits d Hd) (wf_head d Hd)) as Hz0.
  pose proof (pow10_pos _ Hf). assert (dnum (d_digits d) <> 0) by tauto. nia.
Qed.

Lemma pad_right_spec a b ad bd :
  digitsP a -> digitsP b -> pad_right a b = (ad, bd) ->
  zlen ad = Z.max (zlen a) (zlen b) /\ zlen bd = zlen ad /\ digitsP ad /\ digitsP bd /\
  dnum ad = dnum a * 10 ^ (zlen ad - zlen a) /\ dnum bd = dnum b * 10 ^ (zlen bd - zlen b).
Proof.
  intros Ha Hb. unfold pad_right.
  destruct (Z.ltb_spec (zlen a) (zlen b)); [|destruct (Z.ltb_spec (zlen b) (zlen a))];
    intros [= <- <-];
    rewrite ?zlen_app, ?dnum_app, ?dnum_zeros, ?Forall_app, ?zlen_zeros by lia;
    repeat split; auto with dec; try lia;
    rewrite ?Z.add_simpl_l, ?Z.sub_diag, ?Z.pow_0_r; try lia;
    match goal with |- context [10 ^ ?x] => ring_simplify x end; try lia.
Qed.

(** *** Comparison *)

Lemma compareMagnitude_spec K a b :
  dec_wf a -> dec_wf b -> fits K a -> fits K b -> IsZero a = false -> IsZero b = false ->
  compareMagnitude a b = cmp_int (mag K a ?= mag K b).
Proof.
  intros Wa Wb Fa Fb Za Zb. unfold compareMagnitude.
  pose proof (mag_bounds K a Wa Fa Za) as Ba. pose proof (mag_bounds K b Wb Fb Zb) as Bb.
  destruct (Z.eqb_spec (d_exp a) (d_exp b)) as [E|E]; simpl.
  - destruct (pad_right (d_digits a) (d_digits b)) as [ad bd] eqn:Ep.
    apply pad_right_spec in Ep as (La & Lb & Da & Db & Na & Nb);
      [|apply wf_digits; done..].
    rewrite (chars_cmp_num _ _ Da Db) by lia. f_equal.
    (* both sides have a common scale once padded *)
    unfold fits, mag in *. clear Ba Bb.
    set (p := K + d_exp a - zlen ad).
    pose proof (zlen_nonneg (d_digits a)). pose proof (zlen_nonneg (d_digits b)).
    assert (0 <= p) as Hp by lia.
    replace (K + d_exp a - zlen (d_digits a)) with ((zlen ad - zlen (d_digits a)) + p) by lia.
    replace (K + d_exp b - zlen (d_digits b)) with ((zlen bd - zlen (d_digits b)) + p) by lia.
    rewrite !Z.pow_add_r, !Z.mul_assoc, <- Na, <- Nb by lia.
    pose proof (pow10_pos p Hp). by rewrite <- Zmult_compare_compat_r by lia.
  - destruct (Z.ltb_spec (d_exp a) (d_exp b)); unfold fits in *;
      pose proof (zlen_nonneg (d_digits a)); pose proof (zlen_nonneg (d_digits b)).
    + assert (mag K a < mag K b) as ->%Z.compare_lt_iff; [|done].
      pose proof (Z.pow_le_mono_r 10 (K + d_exp a) (K + d_exp b - 1)). lia.
    + assert (mag K b < mag K a) as ->%Z.compare_gt_iff; [|done].
      pose proof (Z.pow_le_mono_r 10 (K + d_exp b) (K + d_exp a - 1)). lia.
Qed.

(** *** Addition *)

Lemma align_spec K a b ad bd e :
  dec_wf a -> dec_wf b -> fits K a -> fits K b -> align a b = (ad, bd, e) ->
  zlen ad = zlen bd /\ digitsP ad /\ digitsP bd /\ 0 <= K + e - zlen ad /\
  dnum ad * 10 ^ (K + e - zlen ad) = mag K a /\ dnum bd * 10 ^ (K + e - zlen ad) = mag K b.
Proof.
  intros Wa Wb Fa Fb. unfold align. set (m := Z.max (d_exp a) (d_exp b)).
  destruct (pad_right _ _) as [x y] eqn:E. intros [= -> -> <-].
  apply pad_right_spec in E as (La & Lb & Da & Db & Na & Nb);
    [|apply Forall_app; auto using wf_digits with dec..].
  rewrite Na, Nb, Lb, La. rewrite !dnum_app, !dnum_zeros, !zlen_app, !zlen_zeros in * by lia.
  unfold fits, mag in *. repeat split; try done; try lia;
    rewrite Z.mul_0_l, Z.add_0_l, <- Z.mul_assoc, <- Z.pow_add_r by lia; do 2 f_equal; lia.
Qed.

Lemma add_loop_spec ad bd :
  zlen ad = zlen bd -> digitsP ad -> digitsP bd ->
  let '(out, c) := add_loop ad bd in
  zlen out = zlen ad /\ digitsP out /\ 0 <= c <= 1 /\
  dnum ad + dnum bd = c * 10 ^ zlen ad + dnum out.
Proof.
  revert bd; induction ad as [|x ad IH]; intros [|y bd] Hl Ha Hb; simpl; try done.
  inversion Ha as [|?? Hx Ha']; subst. inversion Hb as [|?? Hy Hb']; subst.
  rewrite !zlen_cons in Hl. assert (zlen ad = zlen bd) as El by lia.
  specialize (IH bd El Ha' Hb'). destruct (add_loop ad bd) as [out c].
  destruct IH as (Lo & Do & Hc & Hsum). apply is_digit_range in Hx, Hy.
  rewrite (Z.mod_small (_ + _) 256) by lia. set (s := dval x + dval y + c) in *.
  pose proof (Z.div_mod s 10). pose proof (Z.mod_pos_bound s 10).
  assert (0 <= s / 10 <= 1) by (pose proof (Z.div_le_mono s 19 10); pose proof (Z.div_pos s 10); lia).
  simpl. rewrite !zlen_cons, Lo, <- El, dval_dchr by lia. repeat split; try lia.
  - constructor; [apply is_digit_dchr; lia|done].
  - rewrite Z.pow_add_r by auto using zlen_nonneg with lia.
    replace (s mod 10) with (s - 10 * (s / 10)) by lia. unfold s in *. nia.
Qed.

Lemma sub_loop_spec ad bd :
  zlen ad = zlen bd -> digitsP ad -> digitsP bd ->
  let '(out, c) := sub_loop ad bd in
  zlen out = zlen ad /\ digitsP out /\ 0 <= c <= 1 /\
  dnum ad - dnum bd = dnum out - c * 10 ^ zlen ad.
Proof.
  revert bd; induction ad as [|x ad IH]; intros [|y bd] Hl Ha Hb; simpl; try done.
  inversion Ha as [|?? Hx Ha']; subst. inversion Hb as [|?? Hy Hb']; subst.
  rewrite !zlen_cons in Hl. assert (zlen ad = zlen bd) as El by lia.
  specialize (IH bd El Ha' Hb'). destruct (sub_loop ad bd) as [out c].
  destruct IH as (Lo & Do & Hc & Hsum). apply is_digit_range in Hx, Hy.
  destruct (Z.ltb_spec (dval x) (dval y + c)); simpl;
    rewrite !zlen_cons, Lo, <- El, dval_dchr by lia; repeat split; try lia;
    try (constructor; [apply is_digit_dchr; lia|done]);
    rewrite Z.pow_add_r by auto using zlen_nonneg with lia; nia.
Qed.

Lemma addMagnitude_spec K a b :
  0 <= K -> dec_wf a -> dec_wf b -> fits K a -> fits K b ->
  let d := addMagnitude a b in
  dec_wf d /\ fits K d /\ mag K d = mag K a + mag K b /\ d_neg d = false.
Proof.
  intros HK Wa Wb Fa Fb. unfold addMagnitude.
  destruct (align a b) as [[ad bd] e] eqn:Ea.
  destruct (align_spec K a b ad bd e Wa Wb Fa Fb Ea) as (Hl & Da & Db & He & <- & <-).
  pose proof (add_loop_spec ad bd Hl Da Db) as Hadd.
  destruct (add_loop ad bd) as [out c]. destruct Hadd as (Lo & Do & Hc & Hsum).
  rewrite <- Z.mul_add_distr_r, Hsum. destruct (Z.ltb_spec 0 c).
  - assert (c = 1) as -> by lia.
    destruct (normalize_spec K (dchr 1 :: out) (e + 1)) as (W & F & M & N).
    { constructor; [by apply is_digit_dchr|done]. }
    { done. }
    { rewrite zlen_cons, Lo. lia. }
    split; [done|]. split; [done|]. split; [|done].
    rewrite M, zlen_cons, Lo. change (dnum (dchr 1 :: out)) with (1 * 10 ^ zlen out + dnum out).
    rewrite Lo. do 2 f_equal. lia.
  - assert (c = 0) as -> by lia.
    destruct (normalize_spec K out e Do HK) as (W & F & M & N); [lia|].
    split; [done|]. split; [done|]. split; [|done]. rewrite M, Lo. f_equal.
Qed.

Lemma subMagnitude_spec K a b :
  0 <= K -> dec_wf a -> dec_wf b -> fits K a -> fits K b -> mag K b <= mag K a ->
  let d := subMagnitude a b in
  dec_wf d /\ fits K d /\ mag K d = mag K a - mag K b /\ d_neg d = false.
Proof.
  intros HK Wa Wb Fa Fb. unfold subMagnitude.
  destruct (align a b) as [[ad bd] e] eqn:Ea.
  destruct (align_spec K a b ad bd e Wa Wb Fa Fb Ea) as (Hl & Da & Db & He & <- & <-).
  pose proof (sub_loop_spec ad bd Hl Da Db) as Hsub.
  destruct (sub_loop ad bd) as [out c]. destruct Hsub as (Lo & Do & Hc & Hsum). intros Hle.
  pose proof (pow10_pos _ He). pose proof (dnum_bound out Do). rewrite Lo in *.
  apply Z.mul_le_mono_pos_r in Hle; [|done].
  assert (c = 0) as -> by (assert (c = 0 \/ c = 1) as [|] by lia; subst; lia).
  destruct (normalize_spec K out e Do HK) as (W & F & M & N); [lia|].
  simpl. split; [done|]. split; [done|]. split; [|done].
  rewrite M, Lo, <- Z.mul_sub_distr_r, Hsum. f_equal. lia.
Qed.

Lemma set_neg_wf n d : dec_wf d -> IsZero d = false -> dec_wf (set_neg n d).
Proof.
  intros [] Hz%IsZero_false. split; simpl; done.
Qed.

Lemma IsZero_mag K d : dec_wf d -> fits K d -> 0 < mag K d -> IsZero d = false.
Proof.
  intros W F H. destruct (IsZero d) eqn:E; [|done].
  destruct (mag_zero K d W E) as [Hm _]. lia.
Qed.

(** A signed result built from a magnitude. *)
Lemma set_neg_scaled K n d m :
  dec_wf d -> fits K d -> mag K d = m -> 0 < m ->
  dec_wf (set_neg n d) /\ fits K (set_neg n d) /\
  scaled K (set_neg n d) = (if n then -1 else 1) * m.
Proof.
  intros W F <- Hm. split; [apply set_neg_wf; eauto using IsZero_mag|]. done.
Qed.

Lemma Zero_wf : dec_wf Zero.
Proof. by split; simpl. Qed.

Lemma scaled_Zero K : scaled K Zero = 0.
Proof. reflexivity. Qed.

Lemma Add_spec K a b :
  0 <= K -> dec_wf a -> dec_wf b -> fits K a -> fits K b ->
  dec_wf (Add a b) /\ fits K (Add a b) /\ scaled K (Add a b) = scaled K a + scaled K b.
Proof.
  intros HK Wa Wb Fa Fb. unfold Add.
  destruct (IsZero a) eqn:Za.
  { destruct (mag_zero K a Wa Za) as [_ ->]. split; [done|]. split; [done|].
    rewrite scaled_Zero. lia. }
  destruct (IsZero b) eqn:Zb.
  { destruct (mag_zero K b Wb Zb) as [_ ->]. split; [done|]. split; [done|].
    rewrite scaled_Zero. lia. }
  pose proof (mag_pos K a Wa Fa Za). pose proof (mag_pos K b Wb Fb Zb).
  destruct (Bool.eqb_spec (d_neg a) (d_neg b)) as [En|En].
  { destruct (addMagnitude_spec K a b HK Wa Wb Fa Fb) as (W & F & M & _).
    destruct (set_neg_scaled K (d_neg a) _ _ W F M) as (W' & F' & ->); [lia|].
    split; [done|]. split; [done|]. unfold scaled. rewrite <- En. lia. }
  rewrite (compareMagnitude_spec K a b) by done.
  destruct (Z.compare_spec (mag K a) (mag K b)) as [E|E|E]; simpl.
  - split; [apply Zero_wf|]. split; [unfold fits; simpl; change (zlen (@nil ascii)) with 0; lia|].
    rewrite scaled_Zero. unfold scaled. rewrite E.
    destruct (d_neg a), (d_neg b); try done; lia.
  - destruct (subMagnitude_spec K b a HK Wb Wa Fb Fa) as (W & F & M & _); [lia|].
    destruct (set_neg_scaled K (d_neg b) _ _ W F M) as (W' & F' & ->); [lia|].
    split; [done|]. split; [done|]. unfold scaled.
    destruct (d_neg a), (d_neg b); try done; lia.
  - destruct (subMagnitude_spec K a b HK Wa Wb Fa Fb) as (W & F & M & _); [lia|].
    destruct (set_neg_scaled K (d_neg a) _ _ W F M) as (W' & F' & ->); [lia|].
    split; [done|]. split; [done|]. unfold scaled.
    destruct (d_neg a), (d_neg b); try done; lia.
Qed.

Lemma neg_spec K d :
  dec_wf d -> fits K d ->
  let b1 := set_neg (negb (d_neg d)) d in
  let b2 := if IsZero b1 then set_neg false b1 else b1 in
  dec_wf b2 /\ fits K b2 /\ scaled K b2 = - scaled K d.
Proof.
  intros W F. cbv zeta. change (IsZero (set_neg _ d)) with (IsZero d).
  destruct (IsZero d) eqn:Z.
  - destruct (mag_zero K d W Z) as [_ ->]. split; [apply Zero_wf|]. done.
  - split; [by apply set_neg_wf|]. split; [done|].
    unfold scaled. change (mag K (set_neg _ d)) with (mag K d). simpl. destruct (d_neg d); simpl; lia.
Qed.

Lemma Sub_spec K a b :
  0 <= K -> dec_wf a -> dec_wf b -> fits K a -> fits K b ->
  dec_wf (Sub a b) /\ fits K (Sub a b) /\ scaled K (Sub a b) = scaled K a - scaled K b.
Proof.
  intros HK Wa Wb Fa Fb. unfold Sub.
  destruct (neg_spec K b Wb Fb) as (W & F & E). cbv zeta in *.
  destruct (Add_spec K a _ HK Wa W Fa F) as (? & ? & ->). split; [done|]. split; [done|]. lia.
Qed.

Lemma Compare_spec K a b :
  dec_wf a -> dec_wf b -> fits K a -> fits K b ->
  Compare a b = cmp_int (scaled K a ?= scaled K b).
Proof.
  intros Wa Wb Fa Fb. unfold Compare.
  destruct (IsZero a) eqn:Za, (IsZero b) eqn:Zb; simpl.
  - destruct (mag_zero K a Wa Za) as [_ ->], (mag_zero K b Wb Zb) as [_ ->]. done.
  - destruct (mag_zero K a Wa Za) as [_ ->]. rewrite scaled_Zero.
    pose proof (mag_pos K b Wb Fb Zb). unfold scaled. destruct (d_neg b).
    + by assert ((0 ?= -1 * mag K b) = Gt) as -> by (apply Z.compare_gt_iff; lia).
    + by assert ((0 ?= 1 * mag K b) = Lt) as -> by (apply Z.compare_lt_iff; lia).
  - destruct (mag_zero K b Wb Zb) as [_ ->]. rewrite scaled_Zero.
    pose proof (mag_pos K a Wa Fa Za). unfold scaled. destruct (d_neg a).
    + by assert ((-1 * mag K a ?= 0) = Lt) as -> by (apply Z.compare_lt_iff; lia).
    + by assert ((1 * mag K a ?= 0) = Gt) as -> by (apply Z.compare_gt_iff; lia).
  - rewrite (compareMagnitude_spec K) by done.
    pose proof (mag_pos K a Wa Fa Za). pose proof (mag_pos K b Wb Fb Zb).
    unfold scaled. destruct (d_neg a) eqn:Na, (d_neg b) eqn:Nb; simpl.
    + replace (-1 * mag K a ?= -1 * mag K b) with (CompOpp (mag K a ?= mag K b)).
      { by destruct (mag K a ?= mag K b). }
      rewrite <- Z.compare_antisym.
      replace (-1 * mag K a) with (- mag K a) by lia. replace (-1 * mag K b) with (- mag K b) by lia.
      symmetry. apply Z.compare_opp.
    + by assert ((-1 * mag K a ?= 1 * mag K b) = Lt) as -> by (apply Z.compare_lt_iff; lia).
    + by assert ((1 * mag K a ?= -1 * mag K b) = Gt) as -> by (apply Z.compare_gt_iff; lia).
    + by rewrite !Z.mul_1_l.
Qed.

(** ** Parsing and rendering *)

(** The range DynamoDB states: 38 digits, 1E-130 to 9.9...E+125. *)
Definition dec_range (d : Decimal) : Prop :=
  zlen (d_digits d) <= 38 /\ -129 <= d_exp d <= 126.

Lemma parse_mantissa_wf n x m d :
  parse_mantissa n x m = Ok d -> dec_wf d /\ dec_range d.
Proof.
  unfold parse_mantissa. destruct (cut_at _ m) as [i f]. destruct (i ++ default [] f) as [|c l] eqn:E; [done|].
  destruct (forallb is_digit (c :: l)) eqn:Hd; [simpl|done].
  assert (digitsP (c :: l)) as Hds by (apply Forall_forall; intros y Hy; eapply forallb_forall in Hd; [done|by apply list_elem_of_In]).
  destruct (strip_lead (c :: l)) as [n' r] eqn:Es.
  destruct (strip_both _ _ _ Hds Es) as (t & Hn & Ht & _ & _ & Hm & Hh & Hl).
  change (if Ascii.eqb c ch0 then _ else _) with (strip_lead (c :: l)). rewrite Es.
  destruct (trim_right r) as [|c' ds] eqn:Er.
  - intros [= <-]. split; [apply Zero_wf|]. by unfold dec_range.
  - repeat (case_match; [done|]). intros [= <-]. zbool.
    split; [by split|]. unfold dec_range. simpl. lia.
Qed.

Lemma ParseDecimal_wf s d : ParseDecimal s = Ok d -> dec_wf d /\ dec_range d.
Proof.
  unfold ParseDecimal, parse_chars. destruct (String.list_ascii_of_string s) as [|c l]; [done|].
  destruct (cut_sign (c :: l)) as [n l1], (cut_at is_e l1) as [m e].
  intros H. inv_bind. eauto using parse_mantissa_wf.
Qed.

Lemma cut_at_none p l : Forall (fun c => p c = false) l -> cut_at p l = (l, None).
Proof. induction 1 as [|c l Hc _ IH]; simpl; [done|]. by rewrite Hc, IH. Qed.

Lemma cut_at_some p a c b :
  Forall (fun c => p c = false) a -> p c = true -> cut_at p (a ++ c :: b) = (a, Some b).
Proof. intros Ha Hc. induction Ha as [|d a Hd _ IH]; simpl; [by rewrite Hc|]. by rewrite Hd, IH. Qed.

Lemma digit_not_special c :
  is_digit c = true -> is_e c = false /\ Ascii.eqb "." c = false /\ is_sign c = false.
Proof.
  intros H. unfold is_e, is_sign. apply is_digit_range in H. unfold dval in H.
  assert (forall d, dval d < 0 \/ 9 < dval d -> Ascii.eqb c d = false /\ Ascii.eqb d c = false) as Hne.
  { intros d Hd. rewrite <- !byte_eqb, !Z.eqb_neq. unfold dval in Hd. lia. }
  assert (forall d, (dval d <? 0) || (9 <? dval d) = true -> Ascii.eqb c d = false /\ Ascii.eqb d c = false) as Hne'.
  { intros d Hd. apply Hne. lia. }
  destruct (Hne' "e"%char eq_refl) as [-> _], (Hne' "E"%char eq_refl) as [-> _],
    (Hne' "."%char eq_refl) as [_ ->], (Hne' "+"%char eq_refl) as [-> _],
    (Hne' "-"%char eq_refl) as [-> _]. done.
Qed.

Lemma digits_no_e l : digitsP l -> Forall (fun c => is_e c = false) l.
Proof. intros H. eapply Forall_impl; [exact H|]. intros c Hc. by apply digit_not_special. Qed.
Lemma digits_no_point l : digitsP l -> Forall (fun c => Ascii.eqb "." c = false) l.
Proof. intros H. eapply Forall_impl; [exact H|]. intros c Hc. by apply digit_not_special. Qed.
#[export] Hint Resolve digits_no_e digits_no_point : dec.

Lemma cut_sign_sign (n : bool) (l : list ascii) :
  match l with c :: _ => is_sign c = false | [] => True end ->
  cut_sign ((if n then ["-"%char] else []) ++ l) = (n, l).
Proof. destruct n; [done|]. destruct l as [|c l]; [done|]. simpl. intros ->. done. Qed.

(** The mantissa that renders [ds]: zeros in front, zeros behind. *)
Lemma parse_mantissa_digits neg x i f n t ds :
  cut_at (Ascii.eqb ".") i = (i, None) ->
  digitsP i -> digitsP (default [] f) -> i ++ default [] f = zeros n ++ ds ++ zeros t ->
  0 <= n -> 0 <= t -> digitsP ds -> ds <> [] -> head ds <> Some ch0 -> last ds <> Some ch0 ->
  let d := mkDecimal neg ds (zlen i + x - n) in
  dec_range d ->
  parse_mantissa neg x (i ++ match f with Some f => "."%char :: f | None => [] end) = Ok d.
Proof.
  intros Hi Di Df Hall Hn Ht Dd Hne Hh Hl d [Hr1 Hr2]. unfold parse_mantissa.
  assert (cut_at (Ascii.eqb ".") (i ++ match f with Some f => "."%char :: f | None => [] end) = (i, f)) as ->.
  { destruct f as [f|].
    - apply cut_at_some; [by apply digits_no_point|reflexivity].
    - rewrite app_nil_r. exact Hi. }
  assert (forallb is_digit (i ++ default [] f) = true) as Hfb.
  { apply forallb_forall. intros c Hc%list_elem_of_In.
    assert (digitsP (i ++ default [] f)) as Hall' by (by apply Forall_app).
    rewrite Forall_forall in Hall'. by apply Hall'. }
  rewrite Hall in Hfb |- *.
  destruct (zeros n ++ ds ++ zeros t) as [|c l] eqn:E.
  { apply (f_equal length) in E. rewrite !length_app in E. destruct ds; [done|]. simpl in E. lia. }
  rewrite Hfb, <- E. cbv beta iota delta [negb].
  rewrite strip_lead_zeros, trim_right_zeros; try done.
  2:{ by rewrite head_app_nonempty. }
  destruct ds as [|c' ds]; [done|]. simpl in Hr1, Hr2.
  rewrite (proj2 (Z.ltb_ge _ _)), (proj2 (Z.ltb_ge _ _)), (proj2 (Z.ltb_ge _ _)) by lia. done.
Qed.

(** Every exponent the range allows is read back from its rendering. *)
Lemma parse_exp_itoa x :
  -200 <= x <= 200 ->
  parse_exp ((if 0 <=? x then ["+"%char] else []) ++ itoa x) = Ok x.
Proof.
  intros Hx.
  assert (forallb (fun k => let x := Z.of_nat k - 200 in
            match parse_exp ((if 0 <=? x then ["+"%char] else []) ++ itoa x) with
            | Ok y => y =? x | Err _ => false end)
            (seq 0 401) = true) as H by (vm_compute; reflexivity).
  rewrite forallb_forall in H. specialize (H (Z.to_nat (x + 200))).
  replace (Z.of_nat (Z.to_nat (x + 200)) - 200) with x in H by lia.
  assert (In (Z.to_nat (x + 200)) (seq 0 401)) as Hin by (apply in_seq; lia). specialize (H Hin).
  cbv zeta in H. destruct (parse_exp _); [|done]. by apply Z.eqb_eq in H as ->.
Qed.

Lemma parse_chars_build (neg : bool) (x : Z) (c : ascii) (mant : list ascii) (e : option (list ascii)) :
  is_sign c = false -> Forall (fun c => is_e c = false) (c :: mant) ->
  match e with Some e => parse_exp e = Ok x | None => x = 0 end ->
  parse_chars ((if neg then ["-"%char] else []) ++
               (c :: mant) ++ match e with Some e => "E"%char :: e | None => [] end) =
  parse_mantissa neg x (c :: mant).
Proof.
  intros Hc He Hx. set (tl := (c :: mant) ++ _). unfold parse_chars.
  destruct ((if neg then _ else _) ++ tl) as [|c' l'] eqn:E.
  { by destruct neg. }
  rewrite <- E, cut_sign_sign by done. unfold tl.
  destruct e as [e|].
  - rewrite cut_at_some by done. rewrite Hx. done.
  - rewrite app_nil_r, cut_at_none by done. rewrite Hx. done.
Qed.

Lemma digits_head (c : ascii) l : digitsP (c :: l) -> is_sign c = false.
Proof. intros H. by apply digit_not_special; inversion H. Qed.

Lemma not_e_point : is_e "."%char = false.
Proof. reflexivity. Qed.

(** The three layouts of [String], each read back. *)
Section layouts.
  Context (neg : bool) (c : ascii) (ds : list ascii) (e : Z).
Local Abbreviation dd := (c :: ds).
  Context (Dd : digitsP dd) (Hh : head dd <> Some ch0) (Hl : last dd <> Some ch0).
  Context (R : dec_range (mkDecimal neg dd e)).
Let sgn := (if neg then ["-"%char] else []).

Lemma layout_integer :
    zlen dd <= e -> parse_chars (sgn ++ dd ++ zeros (e - zlen dd)) = Ok (mkDecimal neg dd e).
  Proof using Dd Hh Hl R.
    intros He.
    pose proof (parse_chars_build neg 0 c (ds ++ zeros (e - zlen dd)) None) as Hb.
    rewrite !app_nil_r in Hb. change (c :: ds ++ ?z) with (dd ++ z) in Hb.
    unfold sgn. rewrite Hb; [|by eapply digits_head|apply Forall_app; auto with dec|done].
    pose proof (parse_mantissa_digits neg 0 (dd ++ zeros (e - zlen dd)) None 0 (e - zlen dd) dd) as Hm.
    rewrite !app_nil_r, zlen_app, zlen_zeros in Hm by lia.
    replace (zlen dd + (e - zlen dd) + 0 - 0) with e in Hm by lia.
    assert (digitsP (dd ++ zeros (e - zlen dd))) as Da by (apply Forall_app; auto with dec).
    apply Hm; auto with dec; try lia; try done.
    by apply cut_at_none, digits_no_point.
  Qed.

Lemma layout_point :
    1 <= e < zlen dd ->
    parse_chars (sgn ++ take (Z.to_nat e) dd ++ ["."%char] ++ drop (Z.to_nat e) dd) =
    Ok (mkDecimal neg dd e).
  Proof using Dd Hh Hl R.
    intros He. assert (exists k, Z.to_nat e = S k) as [k Hk] by (exists (Z.to_nat (e - 1)); lia).
    assert (digitsP (take (Z.to_nat e) dd)) as Dt by (by apply Forall_take).
    assert (digitsP (drop (Z.to_nat e) dd)) as Ddr by (by apply Forall_drop).
    assert (zlen (take (Z.to_nat e) dd) = e) as Hlen by (unfold zlen in *; rewrite length_take; lia).
    pose proof (parse_mantissa_digits neg 0 (take (Z.to_nat e) dd) (Some (drop (Z.to_nat e) dd)) 0 0 dd) as Hm.
    rewrite Hlen, app_nil_r in Hm. replace (e + 0 - 0) with e in Hm by lia.
    unfold sgn. rewrite <- Hm; clear Hm; try done; try lia.
    2:{ by apply cut_at_none, digits_no_point. }
    2:{ apply take_drop. }
    rewrite Hk in *. change (take (S k) dd) with (c :: take k ds) in *.
    pose proof (parse_chars_build neg 0 c (take k ds ++ "."%char :: drop (S k) dd) None) as Hb.
    rewrite !app_nil_r in Hb. apply Hb; [by eapply digits_head| |done].
    change (c :: take k ds ++ ?z) with ((c :: take k ds) ++ z).
    apply Forall_app. split; [auto with dec|]. constructor; auto with dec.
  Qed.

Lemma layout_leading_zero :
    e <= 0 -> parse_chars (sgn ++ [ch0; "."%char] ++ zeros (- e) ++ dd) = Ok (mkDecimal neg dd e).
  Proof using Dd Hh Hl R.
    intros He.
    pose proof (parse_mantissa_digits neg 0 [ch0] (Some (zeros (- e) ++ dd)) (1 - e) 0 dd) as Hm.
    change (zlen [ch0]) with 1 in Hm. replace (1 + 0 - (1 - e)) with e in Hm by lia.
    assert (digitsP (zeros (- e) ++ dd)) as Da by (apply Forall_app; auto with dec).
    unfold sgn. rewrite <- Hm; clear Hm; try done; try lia; try (by repeat constructor).
    - pose proof (parse_chars_build neg 0 ch0 ("."%char :: zeros (- e) ++ dd) None) as Hb.
      rewrite !app_nil_r in Hb. apply Hb; [done| |done].
      constructor; [done|]. constructor; [done|]. auto with dec.
    - simpl. rewrite app_nil_r. unfold zeros.
      replace (Z.to_nat (1 - e)) with (S (Z.to_nat (- e))) by lia. done.
  Qed.

Lemma layout_scientific :
    parse_chars (sgn ++ take 1 dd ++ (if 1 <? zlen dd then ["."%char] ++ drop 1 dd else []) ++
      ["E"%char] ++ (if 0 <=? e - 1 then ["+"%char] else []) ++ itoa (e - 1)) =
    Ok (mkDecimal neg dd e).
  Proof using Dd Hh Hl R.
    pose proof R as [_ Re]. simpl in Re. inversion Dd as [|?? Dc Dds]; subst.
    set (f := if 1 <? zlen dd then Some ds else None).
    set (m := match f with Some f => "."%char :: f | None => [] end).
    assert (default [] f = ds) as Hf.
    { unfold f. destruct (Z.ltb_spec 1 (zlen dd)); [done|].
      destruct ds; [done|]. rewrite !zlen_cons in *. pose proof (zlen_nonneg l). lia. }
    assert ((if 1 <? zlen dd then ["."%char] ++ drop 1 dd else []) = m) as ->.
    { unfold m, f. by destruct (1 <? zlen dd). }
    pose proof (parse_mantissa_digits neg (e - 1) [c] f 0 0 dd) as Hm.
    change (zlen [c]) with 1 in Hm. replace (1 + (e - 1) - 0) with e in Hm by lia.
    rewrite Hf, app_nil_r in Hm. unfold sgn. rewrite <- Hm; clear Hm; try done; try lia.
    - pose proof (parse_chars_build neg (e - 1) c m
        (Some ((if 0 <=? e - 1 then ["+"%char] else []) ++ itoa (e - 1)))) as Hb.
      apply Hb; [by eapply digits_head| |apply parse_exp_itoa; lia].
      constructor; [by apply digit_not_special|]. unfold m, f.
      destruct (1 <? zlen dd); [|constructor]. constructor; auto with dec.
    - apply cut_at_none, digits_no_point. by constructor.
    - by constructor.
  Qed.
End layouts.

Lemma ParseDecimal_String d :
  dec_wf d -> dec_range d -> ParseDecimal (dec_String d) = Ok d.
Proof.
  intros W R. unfold ParseDecimal, dec_String. rewrite String.list_ascii_of_string_of_list_ascii.
  unfold dec_chars. destruct (IsZero d) eqn:Z.
  { destruct (mag_zero 0 d W Z) as [_ ->]. reflexivity. }
  apply IsZero_false in Z. destruct W as [Wd Wh Wl _]. destruct d as [neg ds e].
  cbn [d_digits d_exp d_neg] in *. cbv zeta. destruct ds as [|c ds]; [done|].
  destruct (Z.leb_spec 1 e), (Z.leb_spec e 38); cbn [andb].
  - destruct (Z.leb_spec (zlen (c :: ds)) e); [by apply layout_integer|by apply layout_point].
  - destruct (Z.leb_spec e 0); [lia|]. by apply layout_scientific.
  - destruct (Z.leb_spec e 0), (Z.ltb_spec (-6) e); cbn [andb];
      [by apply layout_leading_zero|by apply layout_scientific|lia..].
  - lia.
Qed.

(** ** What the number type promises

    [scaled K d] is the value of [d] times [10^K]; at a scale [K] that [fits] a
    number, it is an exact integer. *)

(** Arithmetic is exact: at any scale where both operands are integers, the sum and
    the difference the code computes digit by digit are the integers' sum and
    difference, and both are normal forms at that scale. *)
Lemma arithmetic_exact K a b :
  0 <= K -> dec_wf a -> dec_wf b -> fits K a -> fits K b ->
  dec_wf (Add a b) /\ fits K (Add a b) /\ scaled K (Add a b) = scaled K a + scaled K b /\
  dec_wf (Sub a b) /\ fits K (Sub a b) /\ scaled K (Sub a b) = scaled K a - scaled K b.
Proof.
  intros HK Wa Wb Fa Fb. destruct (Add_spec K a b HK Wa Wb Fa Fb) as (? & ? & ?).
  destruct (Sub_spec K a b HK Wa Wb Fa Fb) as (? & ? & ?). auto 6.
Qed.

Lemma arithmetic_exact_witness :
  exists a b, ParseDecimal "1.25" = Ok a /\ ParseDecimal "-30" = Ok b /\
    scaled 2 (Add a b) = 125 + -3000 /\ scaled 2 (Sub a b) = 125 - -3000.
Proof.
  do 2 eexists. split; [reflexivity|]. split; [reflexivity|].
  edestruct (arithmetic_exact 2) as (_ & _ & -> & _ & _ & ->); cycle 5; [split; reflexivity|lia|..];
    try (by apply (ParseDecimal_wf "1.25")); try (by apply (ParseDecimal_wf "-30")); done.
Defined.

(** [Compare] is the order of the numbers themselves, whatever their digits and
    exponents: it answers the sign of the comparison of the exact values. *)
Lemma Compare_exact K a b :
  dec_wf a -> dec_wf b -> fits K a -> fits K b ->
  Compare a b = cmp_int (scaled K a ?= scaled K b).
Proof. apply Compare_spec. Qed.

Lemma Compare_exact_witness :
  exists a b, ParseDecimal "10" = Ok a /\ ParseDecimal "9.99" = Ok b /\
    Compare a b = cmp_int (1000 ?= 999).
Proof.
  do 2 eexists. split; [reflexivity|]. split; [reflexivity|].
  apply (Compare_exact 2); [by apply (ParseDecimal_wf "10")|by apply (ParseDecimal_wf "9.99")|done..].
Defined.

(** Printing a number and parsing it back is the identity on every number that
    parses: canonicalisation is idempotent and stored numbers survive the wire. *)
Lemma ParseDecimal_canonical s d :
  ParseDecimal s = Ok d -> ParseDecimal (dec_String d) = Ok d.
Proof. intros [W R]%ParseDecimal_wf. by apply ParseDecimal_String. Qed.

Lemma ParseDecimal_canonical_witness :
  exists d, ParseDecimal "-001.2300e+4" = Ok d /\ dec_String d = "-12300" /\
    ParseDecimal (dec_String d) = Ok d.
Proof.
  eexists. split; [reflexivity|]. split; [reflexivity|].
  by apply (ParseDecimal_canonical "-001.2300e+4").
Defined.

(** Sums leave the range that parses: [Add] rechecks neither the 38 digits nor the
    exponent, so two numbers that parse can have a sum whose printed form no longer
    does; an item holding that sum cannot be read back. *)
Lemma Add_leaves_range :
  exists s t a b, ParseDecimal s = Ok a /\ ParseDecimal t = Ok b /\
    ParseDecimal (dec_String (Add a b)) =
      Err err_digits38.
Proof.
  exists "1E+40", "1". do 2 eexists.
  split; [reflexivity|]. split; [reflexivity|]. vm_compute. reflexivity.
Qed.
