(* ===== verification/Wire.v ===== *)
(** * Wire: JSON documents as encoding/json presents them, and base64

    A [json.RawMessage] is the [json] of the prelude that it spells.  [unmarshal_*] are the
    conversions [json.Unmarshal] makes into the target types the code uses, with
    [null] leaving the zero value, and [json_len] is the length of what
    [json.Marshal] writes.  [base64_encode] and [base64_decode] are
    [base64.StdEncoding]. *)

From Stdlib Require Import Wf_nat.
From S2P Require Import Prelude.

Definition unmarshal_string (j : json) : option string :=
  match j with JStr s => Some s | JNull => Some "" | _ => None end.

Definition unmarshal_bool (j : json) : option bool :=
  match j with JBool b => Some b | JNull => Some false | _ => None end.

Definition unmarshal_object (j : json) : option (gmap string json) :=
  match j with JObj m => Some m | JNull => Some ∅ | _ => None end.

Definition unmarshal_array (j : json) : option (list json) :=
  match j with JArr l => Some l | JNull => Some [] | _ => None end.

Definition unmarshal_strings (j : json) : option (list string) :=
  l ← unmarshal_array j; mapM unmarshal_string l.

(** A struct field as [json.Unmarshal] finds it: the exact name, else one that differs
    in case. *)
Definition field (name : string) (m : gmap string json) : option json :=
  match m !! name with
  | Some j => Some j
  | None => snd <$> List.find (fun e => equal_fold e.1 name) (map_to_list m)
  end.

(** Decoded into a type that [null] leaves alone, an absent field is [null]. *)
Definition member (name : string) (m : gmap string json) : json := default JNull (field name m).

(** [reflect.DeepEqual] of two decoded documents. *)
Fixpoint json_eqb (a b : json) : bool :=
  match a, b with
  | JNull, JNull => true
  | JBool x, JBool y => Bool.eqb x y
  | JNum x, JNum y | JStr x, JStr y => String.eqb x y
  | JArr l, JArr l' =>
      (fix go l l' := match l, l' with
       | [], [] => true
       | x :: l, y :: l' => json_eqb x y && go l l'
       | _, _ => false
       end) l l'
  | JObj m, JObj m' =>
      Nat.eqb (size m) (size m') &&
      map_fold (fun k x acc => match m' !! k with Some y => json_eqb x y | None => false end && acc) true m
  | _, _ => false
  end.

(** Induction over a document and all the documents inside it. *)
Fixpoint json_nodes (j : json) : nat :=
  match j with
  | JArr l => foldr (fun x acc => json_nodes x + acc) 1 l
  | JObj m => map_fold (fun _ x acc => json_nodes x + acc) 1 m
  | _ => 1
  end%nat.

Lemma foldr_add_base {A} (f : A -> nat) (b : nat) l :
  (foldr (fun x acc => f x + acc) (S b) l = S (foldr (fun x acc => f x + acc) b l))%nat.
Proof. induction l as [|x l IH]; simpl; [done|]. rewrite IH. lia. Qed.

Lemma map_fold_add_base {K A} `{Countable K} (f : A -> nat) (b : nat) (m : gmap K A) :
  (map_fold (fun _ x acc => f x + acc) (S b) m = S (map_fold (fun _ x acc => f x + acc) b m))%nat.
Proof.
  induction m as [|k x m Hk Hfst IH] using map_first_key_ind; [by rewrite !map_fold_empty|].
  rewrite !map_fold_insert_first_key, IH by done. lia.
Qed.

Lemma json_nodes_elem l x : x ∈ l -> (json_nodes x < json_nodes (JArr l))%nat.
Proof.
  intros Hx. cbn [json_nodes]. rewrite foldr_add_base.
  pose proof (foldr_add_ge json_nodes 0 l x Hx). lia.
Qed.

Lemma json_nodes_member m k x : m !! k = Some x -> (json_nodes x < json_nodes (JObj m))%nat.
Proof.
  intros Hx. cbn [json_nodes]. rewrite map_fold_add_base.
  pose proof (map_fold_add_ge json_nodes 0 m k x Hx). lia.
Qed.

Lemma json_ind_nested (P : json -> Prop) :
  P JNull -> (forall b, P (JBool b)) -> (forall t, P (JNum t)) -> (forall s, P (JStr s)) ->
  (forall l, (forall x, x ∈ l -> P x) -> P (JArr l)) ->
  (forall m, (forall k x, m !! k = Some x -> P x) -> P (JObj m)) ->
  forall j, P j.
Proof.
  intros H0 H1 H2 H3 H4 H5 j.
  induction j as [j IH] using (induction_ltof1 _ json_nodes). unfold ltof in IH.
  destruct j as [| | | |l|m]; auto.
  - apply H4. intros x Hx. by apply IH, json_nodes_elem.
  - apply H5. intros k x Hx. by eapply IH, json_nodes_member.
Qed.

(** ** The length of the marshalled text *)

(** One byte of a string literal, HTML escaping included. *)
Definition escaped_len (c : ascii) : Z :=
  let b := byte_of c in
  if (b =? 34) || (b =? 92) then 2
  else if (b =? 8) || (b =? 9) || (b =? 10) || (b =? 12) || (b =? 13) then 2
  else if (b <? 32) || (b =? 60) || (b =? 62) || (b =? 38) then 6
  else 1.

(** U+2028 and U+2029 are three bytes that become a six-byte escape. *)
Definition is_line_sep (a b c : ascii) : bool :=
  (byte_of a =? 226) && (byte_of b =? 128) && ((byte_of c =? 168) || (byte_of c =? 169)).

Fixpoint str_body_len (s : string) : Z :=
  match s with
  | EmptyString => 0
  | String a s1 =>
      match s1 with
      | String b (String c s3) =>
          if is_line_sep a b c then 6 + str_body_len s3 else escaped_len a + str_body_len s1
      | _ => escaped_len a + str_body_len s1
      end
  end.

Lemma str_body_len_bound s : str_body_len s <= 6 * slen s.
Proof.
  induction s as [s IH] using (induction_ltof1 _ String.length). unfold ltof in IH.
  assert (forall c, escaped_len c <= 6) as He by (intros c; unfold escaped_len; repeat case_match; lia).
  assert (forall c t, slen (String c t) = 1 + slen t) as Hs by (intros c t; unfold slen; cbn [String.length]; lia).
  destruct s as [|a [|b [|c s]]]; [done|..].
  - cbn [str_body_len]. rewrite Hs. specialize (He a). unfold slen. simpl. lia.
  - specialize (IH (String b "")). cbn [str_body_len]. cbn [str_body_len] in IH. rewrite !Hs in *. specialize (He a).
    specialize (IH ltac:(simpl; lia)). lia.
  - pose proof (IH s ltac:(simpl; lia)) as IH1. specialize (IH (String b (String c s)) ltac:(simpl; lia)).
    change (str_body_len (String a (String b (String c s)))) with
      (if is_line_sep a b c then 6 + str_body_len s else escaped_len a + str_body_len (String b (String c s))).
    rewrite !Hs in *. specialize (He a). unfold slen in *. destruct (is_line_sep a b c); lia.
Qed.

Definition str_len (s : string) : Z := 2 + str_body_len s.

(** [n] members inside brackets: the brackets and the commas between. *)
Definition seq_overhead (n : Z) : Z := 2 + Z.max 0 (n - 1).

Fixpoint json_len (j : json) : Z :=
  match j with
  | JNull => 4
  | JBool b => if b then 4 else 5
  | JNum t => slen t
  | JStr s => str_len s
  | JArr l => foldr (fun x acc => json_len x + acc) (seq_overhead (Z.of_nat (length l))) l
  | JObj m => map_fold (fun k x acc => str_len k + 1 + json_len x + acc)
                       (seq_overhead (Z.of_nat (size m))) m
  end.

(** ** Base64 *)

Definition b64_char (n : Z) : ascii :=
  if n <? 26 then chr (n + 65)
  else if n <? 52 then chr (n - 26 + 97)
  else if n <? 62 then chr (n - 52 + 48)
  else if n =? 62 then "+" else "/".

Definition b64_val (c : ascii) : option Z :=
  let b := byte_of c in
  if (65 <=? b) && (b <=? 90) then Some (b - 65)
  else if (97 <=? b) && (b <=? 122) then Some (b - 97 + 26)
  else if (48 <=? b) && (b <=? 57) then Some (b - 48 + 52)
  else if b =? 43 then Some 62
  else if b =? 47 then Some 63
  else None.

Definition b64_pad : ascii := "=".

Fixpoint base64_encode (s : string) : string :=
  match s with
  | EmptyString => EmptyString
  | String a EmptyString =>
      let x := byte_of a in
      String (b64_char (x / 4)) (String (b64_char (x mod 4 * 16))
        (String b64_pad (String b64_pad EmptyString)))
  | String a (String b EmptyString) =>
      let x := byte_of a in let y := byte_of b in
      String (b64_char (x / 4)) (String (b64_char (x mod 4 * 16 + y / 16))
        (String (b64_char (y mod 16 * 4)) (String b64_pad EmptyString)))
  | String a (String b (String c s')) =>
      let x := byte_of a in let y := byte_of b in let z := byte_of c in
      String (b64_char (x / 4)) (String (b64_char (x mod 4 * 16 + y / 16))
        (String (b64_char (y mod 16 * 4 + z / 64)) (String (b64_char (z mod 64))
          (base64_encode s'))))
  end.

(** The decoder skips newlines anywhere. *)
Fixpoint strip_newlines (s : string) : string :=
  match s with
  | EmptyString => EmptyString
  | String c s' =>
      if (byte_of c =? 10) || (byte_of c =? 13) then strip_newlines s'
      else String c (strip_newlines s')
  end.

(** Groups of four; padding only closes the last one, and the bits a padded group
    leaves over are ignored. *)
Fixpoint b64_groups (s : string) : option string :=
  match s with
  | EmptyString => Some EmptyString
  | String a (String b (String c (String d s'))) =>
      x ← b64_val a; y ← b64_val b;
      let o1 := chr (x * 4 + y / 16) in
      if Ascii.eqb c b64_pad then
        if Ascii.eqb d b64_pad then
          match s' with EmptyString => Some (String o1 EmptyString) | _ => None end
        else None
      else
        z ← b64_val c;
        let o2 := chr (y mod 16 * 16 + z / 4) in
        if Ascii.eqb d b64_pad then
          match s' with EmptyString => Some (String o1 (String o2 EmptyString)) | _ => None end
        else
          w ← b64_val d;
          let o3 := chr (z mod 4 * 64 + w) in
          rest ← b64_groups s';
          Some (String o1 (String o2 (String o3 rest)))
  | _ => None
  end.

Definition base64_decode (s : string) : option string := b64_groups (strip_newlines s).

(** ** Base64 round trip *)

(** Checks a property of the 64 alphabet indices by computation. *)
Lemma b64_forall (P : Z -> bool) :
  forallb (fun k => P (Z.of_nat k)) (seq 0 64) = true -> forall n, 0 <= n < 64 -> P n = true.
Proof.
  intros H n Hn. rewrite forallb_forall in H.
  rewrite <- (Z2Nat.id n) by lia. apply H, in_seq. lia.
Qed.

Lemma b64_val_char n : 0 <= n < 64 -> b64_val (b64_char n) = Some n.
Proof.
  intros Hn.
  pose proof (b64_forall (fun n => match b64_val (b64_char n) with Some m => m =? n | None => false end)
    eq_refl n Hn) as H.
  cbv beta in H. destruct (b64_val (b64_char n)) as [m|]; [|done]. f_equal. lia.
Qed.

Lemma b64_char_plain n :
  0 <= n < 64 ->
  Ascii.eqb (b64_char n) b64_pad = false /\
  (byte_of (b64_char n) =? 10) || (byte_of (b64_char n) =? 13) = false.
Proof.
  intros Hn.
  assert (negb (Ascii.eqb (b64_char n) b64_pad) &&
          negb ((byte_of (b64_char n) =? 10) || (byte_of (b64_char n) =? 13)) = true) as H.
  { apply (b64_forall (fun n => negb (Ascii.eqb (b64_char n) b64_pad) &&
          negb ((byte_of (b64_char n) =? 10) || (byte_of (b64_char n) =? 13)))); [vm_compute; reflexivity|done]. }
  apply andb_true_iff in H as [H1 H2]. by rewrite !negb_true_iff in H1, H2.
Qed.

(** Inductions that consume three bytes at a time. *)
Lemma string_ind3 (P : string -> Prop) :
  P "" -> (forall a, P (String a "")) -> (forall a b, P (String a (String b ""))) ->
  (forall a b c s, P s -> P (String a (String b (String c s)))) -> forall s, P s.
Proof.
  intros H0 H1 H2 H3. fix IH 1. intros [|a [|b [|c s]]]; [exact H0|apply H1|apply H2|apply H3, IH].
Qed.

Lemma chr_eq z c : z = byte_of c -> chr z = c.
Proof. intros ->. apply chr_byte_of. Qed.

Lemma strip_newlines_keep n s :
  0 <= n < 64 -> strip_newlines (String (b64_char n) s) = String (b64_char n) (strip_newlines s).
Proof. intros Hn. simpl. by rewrite (proj2 (b64_char_plain n Hn)). Qed.

Lemma strip_newlines_encode s : strip_newlines (base64_encode s) = base64_encode s.
Proof.
  induction s as [|a|a b|a b c s IH] using string_ind3; [done|..]; cbn [base64_encode];
    pose proof (byte_of_range a); try pose proof (byte_of_range b); try pose proof (byte_of_range c);
    rewrite !strip_newlines_keep by zdiv; [done|done|by rewrite IH].
Qed.

(** One group, by the number of padding bytes. *)
Lemma b64_group3 p q r t s :
  0 <= p < 64 -> 0 <= q < 64 -> 0 <= r < 64 -> 0 <= t < 64 ->
  b64_groups (String (b64_char p) (String (b64_char q) (String (b64_char r) (String (b64_char t) s)))) =
  (rest ← b64_groups s;
   Some (String (chr (p * 4 + q / 16)) (String (chr (q mod 16 * 16 + r / 4))
          (String (chr (r mod 4 * 64 + t)) rest)))).
Proof.
  intros Hp Hq Hr Ht. cbn [b64_groups]. rewrite !b64_val_char by done. cbn [mbind option_bind].
  rewrite (proj1 (b64_char_plain r Hr)), (proj1 (b64_char_plain t Ht)). done.
Qed.

Lemma b64_group2 p q r :
  0 <= p < 64 -> 0 <= q < 64 -> 0 <= r < 64 ->
  b64_groups (String (b64_char p) (String (b64_char q) (String (b64_char r) (String b64_pad "")))) =
  Some (String (chr (p * 4 + q / 16)) (String (chr (q mod 16 * 16 + r / 4)) "")).
Proof.
  intros Hp Hq Hr. cbn [b64_groups]. rewrite !b64_val_char by done. cbn [mbind option_bind].
  by rewrite (proj1 (b64_char_plain r Hr)).
Qed.

Lemma b64_group1 p q :
  0 <= p < 64 -> 0 <= q < 64 ->
  b64_groups (String (b64_char p) (String (b64_char q) (String b64_pad (String b64_pad "")))) =
  Some (String (chr (p * 4 + q / 16)) "").
Proof. intros Hp Hq. cbn [b64_groups]. by rewrite !b64_val_char by done. Qed.

Lemma base64_roundtrip s : base64_decode (base64_encode s) = Some s.
Proof.
  unfold base64_decode. rewrite strip_newlines_encode.
  induction s as [|a|a b|a b c s IH] using string_ind3; [done|..]; cbn [base64_encode];
    pose proof (byte_of_range a); try pose proof (byte_of_range b); try pose proof (byte_of_range c).
  - rewrite b64_group1 by zdiv. do 2 f_equal. apply chr_eq. zdiv.
  - rewrite b64_group2 by zdiv. do 2 f_equal; [|f_equal]; apply chr_eq; zdiv.
  - rewrite b64_group3, IH by zdiv. cbn [mbind option_bind].
    do 2 f_equal; [|f_equal; [|f_equal]]; apply chr_eq; zdiv.
Qed.

Lemma base64_len s : slen (base64_encode s) <= 2 * slen s + 4.
Proof.
  assert (forall c t, slen (String c t) = 1 + slen t) as Hs by (intros c t; unfold slen; cbn [String.length]; lia).
  induction s as [|a|a b|a b c s IH] using string_ind3; cbn [base64_encode]; rewrite ?Hs; cbn; lia || (unfold slen in *; lia).
Qed.
