(* ===== verification/UrlBase64.v ===== *)
(** * UrlBase64: base64 for tokens

    [base64.RawURLEncoding]: the alphabet with [-] and [_], and no padding. *)

From S2P Require Import Prelude Wire.

Definition url_of (c : ascii) : ascii := if Ascii.eqb c "+" then "-" else if Ascii.eqb c "/" then "_" else c.
Definition std_of (c : ascii) : ascii := if Ascii.eqb c "-" then "+" else if Ascii.eqb c "_" then "/" else c.
Definition url_char (c : ascii) : bool := negb (Ascii.eqb c "+" || Ascii.eqb c "/" || Ascii.eqb c b64_pad).

Fixpoint drop_pads (s : string) : string :=
  match s with
  | EmptyString => EmptyString
  | String c s' => if Ascii.eqb c b64_pad then drop_pads s' else String c (drop_pads s')
  end.

Fixpoint url_chars (s : string) : bool :=
  match s with EmptyString => true | String c s' => url_char c && url_chars s' end.

Definition raw_url_encode (s : string) : string := smap url_of (drop_pads (base64_encode s)).

(** The padding that completes the last group; one character alone is no group. *)
Definition pads (n : nat) : option string :=
  match (n mod 4)%nat with 0%nat => Some "" | 2%nat => Some "==" | 3%nat => Some "=" | _ => None end.

Definition raw_url_decode (s : string) : option string :=
  let t := strip_newlines s in
  if url_chars t then p ← pads (String.length t); base64_decode (smap std_of t +:+ p) else None.

(** ** Round trip *)

Lemma url_char_spec n :
  0 <= n < 64 ->
  let u := url_of (b64_char n) in
  url_char u = true /\ std_of u = b64_char n /\ ((byte_of u =? 10) || (byte_of u =? 13) = false).
Proof.
  intros Hn u.
  assert (url_char u && Ascii.eqb (std_of u) (b64_char n) && negb ((byte_of u =? 10) || (byte_of u =? 13)) = true) as H.
  { apply (b64_forall (fun n => url_char (url_of (b64_char n)) && Ascii.eqb (std_of (url_of (b64_char n))) (b64_char n) &&
      negb ((byte_of (url_of (b64_char n)) =? 10) || (byte_of (url_of (b64_char n)) =? 13)))); [vm_compute; reflexivity|done]. }
  rewrite !andb_true_iff, negb_true_iff in H. destruct H as [[H1 H2] H3]. apply Ascii.eqb_eq in H2. done.
Qed.

(** What an encoding is: url characters that, padded, are the standard encoding. *)
Record url_encoding (s t : string) : Prop := {
  ue_chars : url_chars t = true;
  ue_lines : strip_newlines t = t;
  ue_pads : exists p, pads (String.length t) = Some p /\ smap std_of t +:+ p = base64_encode s
}.

Lemma pads_step t : pads (4 + t) = pads t.
Proof. unfold pads. replace (4 + t)%nat with (t + 1 * 4)%nat by lia. by rewrite Nat.Div0.mod_add. Qed.

Section one_char.
#[local] Set Default Proof Using "All".
Context (n : Z) (Hn : 0 <= n < 64).
Let u := url_of (b64_char n).

Lemma drop_pads_keep t : drop_pads (String (b64_char n) t) = String (b64_char n) (drop_pads t).
Proof. cbn [drop_pads]. by rewrite (proj1 (b64_char_plain n Hn)). Qed.

Lemma url_chars_keep t : url_chars (String u t) = url_chars t.
Proof. cbn [url_chars]. destruct (url_char_spec n Hn) as (H & _). fold u in H. by rewrite H. Qed.

Lemma url_lines_keep t : strip_newlines (String u t) = String u (strip_newlines t).
Proof. cbn [strip_newlines]. destruct (url_char_spec n Hn) as (_ & _ & H). fold u in H. by rewrite H. Qed.

Lemma url_std_keep t : smap std_of (String u t) = String (b64_char n) (smap std_of t).
Proof. cbn [smap]. f_equal. apply (url_char_spec n Hn). Qed.
End one_char.

Lemma raw_url_encoding s : url_encoding s (raw_url_encode s).
Proof.
  unfold raw_url_encode.
  induction s as [|a|a b|a b c s IH] using string_ind3; [by repeat (split || eexists)|..]; cbn [base64_encode];
    pose proof (byte_of_range a); try pose proof (byte_of_range b); try pose proof (byte_of_range c);
    rewrite !drop_pads_keep by zdiv; cbn [smap]; split; rewrite ?url_chars_keep, ?url_lines_keep by zdiv; try done;
    rewrite ?url_std_keep by zdiv; try (by eexists).
  - apply IH.
  - by rewrite (ue_lines _ _ IH).
  - destruct (ue_pads _ _ IH) as (p & Hp & E). exists p. split; [rewrite <- Hp; apply pads_step|].
    cbn [String.append base64_encode]. by rewrite E.
Qed.

Lemma raw_url_roundtrip s : raw_url_decode (raw_url_encode s) = Some s.
Proof.
  destruct (raw_url_encoding s) as [H1 H2 (p & H3 & H4)]. unfold raw_url_decode. rewrite H2, H1, H3. cbn.
  rewrite H4. apply base64_roundtrip.
Qed.
