(* ===== verification/Item.v ===== *)
(** * Item: DynamoDB attribute values

    Model of src/internal/ddb/item/item.go: the AttributeValue type system, its wire
    form in both directions, equality with DynamoDB's semantics and the item-size
    accounting.  Binary values are byte strings; a map attribute and an item are
    [gmap string Value]. *)

From Stdlib Require Import Wf_nat.
From stdpp Require Import sorting.
From S2P Require Import Prelude Bytes Wire Decimal.

(** One constructor per [Type]; [VZero] is Go's zero [Value{}], whose type is the
    empty string. *)
Inductive Value : Type :=
| VZero
| VS (s : string)
| VN (n : Decimal)
| VB (b : string)
| VBool (b : bool)
| VNull
| VM (m : gmap string Value)
| VL (l : list Value)
| VSS (l : list string)
| VNS (l : list Decimal)
| VBS (l : list string).

Abbreviation Item := (gmap string Value).

Definition TypeS := "S".
Definition TypeN := "N".
Definition TypeB := "B".
Definition TypeBool := "BOOL".
Definition TypeNull := "NULL".
Definition TypeM := "M".
Definition TypeL := "L".
Definition TypeSS := "SS".
Definition TypeNS := "NS".
Definition TypeBS := "BS".

Definition v_type (v : Value) : string :=
  match v with
  | VZero => ""
  | VS _ => TypeS | VN _ => TypeN | VB _ => TypeB | VBool _ => TypeBool | VNull => TypeNull
  | VM _ => TypeM | VL _ => TypeL | VSS _ => TypeSS | VNS _ => TypeNS | VBS _ => TypeBS
  end.

(** ** Decoding the wire form *)

(** [hasDupStrings]: the loop over a set of the strings already seen. *)
Fixpoint hasDupFrom (seen : gset string) (ss : list string) : bool :=
  match ss with
  | [] => false
  | s :: ss' => if bool_decide (s ∈ seen) then true else hasDupFrom ({[s]} ∪ seen) ss'
  end.
Definition hasDupStrings (ss : list string) : bool := hasDupFrom ∅ ss.

(** The nested loops [for i := range out { for j := i + 1; ... } }]. *)
Fixpoint has_dup_pair {A} (same : A -> A -> bool) (l : list A) : bool :=
  match l with
  | [] => false
  | x :: l' => existsb (same x) l' || has_dup_pair same l'
  end.

Definition same_decimal (a b : Decimal) : bool := Compare a b =? 0.

(** The loop over a decoded object: each member converted, the first error
    returned.  Go visits the members in an unspecified order. *)
Definition traverse_map {A B} (f : A -> result B) (m : gmap string A) : result (gmap string B) :=
  map_fold (fun k x acc => out ← acc; y ← f x; Ok (<[k := y]> out)) (Ok ∅) m.

Definition decode_b64 (err : APIError) (s : string) : result string :=
  match base64_decode s with Some b => Ok b | None => Err err end.

(** [fromTagged], with the recursive call to [FromJSON] as an argument. *)
Definition fromTagged (rec : json -> result Value) (tag : string) (inner : json) : result Value :=
  if String.eqb tag TypeS then
    match unmarshal_string inner with
    | Some s => Ok (VS s)
    | None => Err (errValidation "S must be a string")
    end
  else if String.eqb tag TypeN then
    match unmarshal_string inner with
    | Some s => d ← ParseDecimal s; Ok (VN d)
    | None => Err (errValidation "N must be a string-encoded number")
    end
  else if String.eqb tag TypeB then
    match unmarshal_string inner with
    | Some s => b ← decode_b64 (errValidation "B is not valid base64") s; Ok (VB b)
    | None => Err (errValidation "B must be base64")
    end
  else if String.eqb tag TypeBool then
    match unmarshal_bool inner with
    | Some b => Ok (VBool b)
    | None => Err (errValidation "BOOL must be true or false")
    end
  else if String.eqb tag TypeNull then Ok VNull
  else if String.eqb tag TypeM then
    match inner with
    | JObj mm => out ← traverse_map rec mm; Ok (VM out)
    | JNull => Ok (VM ∅)
    | _ => Err (errValidation "M must be an object")
    end
  else if String.eqb tag TypeL then
    match inner with
    | JArr l => out ← mapR rec l; Ok (VL out)
    | JNull => Ok (VL [])
    | _ => Err (errValidation "L must be an array")
    end
  else if String.eqb tag TypeSS then
    match unmarshal_strings inner with
    | None => Err (errValidation "SS must be an array of strings")
    | Some [] => Err (errValidation "SS may not be empty")
    | Some ss =>
        if hasDupStrings ss then Err (errValidation "SS contains duplicate values") else Ok (VSS ss)
    end
  else if String.eqb tag TypeNS then
    match unmarshal_strings inner with
    | None => Err (errValidation "NS must be an array of string-encoded numbers")
    | Some [] => Err (errValidation "NS may not be empty")
    | Some ss =>
        out ← mapR ParseDecimal ss;
        if has_dup_pair same_decimal out then Err (errValidation "NS contains duplicate values")
        else Ok (VNS out)
    end
  else if String.eqb tag TypeBS then
    match unmarshal_strings inner with
    | None => Err (errValidation "BS must be an array of base64 values")
    | Some [] => Err (errValidation "BS may not be empty")
    | Some ss =>
        out ← mapR (decode_b64 (errValidation "BS member is not valid base64")) ss;
        if has_dup_pair String.eqb out then Err (errValidation "BS contains duplicate values")
        else Ok (VBS out)
    end
  else Err (errValidation "unknown AttributeValue type %q").

(** An AttributeValue has exactly one type key. *)
Fixpoint FromJSON (raw : json) : result Value :=
  match raw with
  | JObj m =>
      if negb (Nat.eqb (size m) 1) then
        Err (errValidation "an AttributeValue must have exactly one type key, got %d")
      else
        map_fold (fun tag inner _ => fromTagged FromJSON tag inner)
                 (Err (errValidation "malformed AttributeValue")) m
  | JNull => Err (errValidation "an AttributeValue must have exactly one type key, got %d")
  | _ => Err (errValidation "malformed AttributeValue: %v")
  end.

Definition ItemFromJSON (raw : json) : result Item :=
  match unmarshal_object raw with
  | None => Err (errValidation "malformed item: %v")
  | Some m => traverse_map FromJSON m
  end.

(** ** Encoding to the wire form *)

Definition tagged (tag : string) (inner : json) : json := JObj {[ tag := inner ]}.

Fixpoint JSON (v : Value) : json :=
  match v with
  | VZero => tagged "" JNull
  | VS s => tagged TypeS (JStr s)
  | VN n => tagged TypeN (JStr (dec_String n))
  | VB b => tagged TypeB (JStr (base64_encode b))
  | VBool b => tagged TypeBool (JBool b)
  | VNull => tagged TypeNull (JBool true)
  | VM m => tagged TypeM (JObj (JSON <$> m))
  | VL l => tagged TypeL (JArr (JSON <$> l))
  | VSS l => tagged TypeSS (JArr (JStr <$> l))
  | VNS l => tagged TypeNS (JArr ((fun d => JStr (dec_String d)) <$> l))
  | VBS l => tagged TypeBS (JArr ((fun b => JStr (base64_encode b)) <$> l))
  end.

Definition ItemJSON (it : Item) : json := JObj (JSON <$> it).

(** ** Equality *)

Definition dec_le (a b : Decimal) : Prop := Compare a b <= 0.
#[global] Instance dec_le_dec : RelDecision dec_le.
Proof. intros a b. unfold dec_le. apply _. Defined.

(** [sort.Strings], [sortedBytes] and [sortedDecimals]. *)
Definition sortedDecimals (l : list Decimal) : list Decimal := merge_sort dec_le l.

(** Two slices compared index by index, their lengths first. *)
Fixpoint slices_eq {A} (same : A -> A -> bool) (a b : list A) : bool :=
  match a, b with
  | [], [] => true
  | x :: a', y :: b' => same x y && slices_eq same a' b'
  | _, _ => false
  end.

Definition sameStringSet (a b : list string) : bool :=
  slices_eq String.eqb (sort_strings a) (sort_strings b).

Definition same_decimal_set (a b : list Decimal) : bool :=
  slices_eq same_decimal (sortedDecimals a) (sortedDecimals b).

Fixpoint Equal (a b : Value) {struct a} : bool :=
  match a, b with
  | VS x, VS y => String.eqb x y
  | VN x, VN y => Compare x y =? 0
  | VB x, VB y => String.eqb x y
  | VBool x, VBool y => Bool.eqb x y
  | VNull, VNull => true
  | VM x, VM y =>
      Nat.eqb (size x) (size y) &&
      map_fold (fun k av acc => match y !! k with Some bv => Equal av bv | None => false end && acc)
               true x
  | VL x, VL y =>
      (fix go (x y : list Value) : bool :=
         match x, y with
         | [], [] => true
         | av :: x', bv :: y' => Equal av bv && go x' y'
         | _, _ => false
         end) x y
  | VSS x, VSS y => sameStringSet x y
  | VNS x, VNS y => same_decimal_set x y
  | VBS x, VBS y => sameStringSet x y
  | _, _ => false
  end.

(** ** Size accounting *)

Definition MaxItemSize : Z := Z.shiftl 400 10.

Definition numberSize (d : Decimal) : Z := zlen (d_digits d) / 2 + 1.

Definition sum_by {A} (f : A -> Z) (l : list A) : Z := foldr (fun x acc => f x + acc) 0 l.

Fixpoint valueSize (v : Value) : Z :=
  match v with
  | VZero => 0
  | VS s => slen s
  | VN n => numberSize n
  | VB b => slen b
  | VBool _ | VNull => 1
  | VM m => map_fold (fun k mv acc => slen k + valueSize mv + 1 + acc) 3 m
  | VL l => foldr (fun lv acc => valueSize lv + 1 + acc) 3 l
  | VSS l => sum_by slen l
  | VNS l => sum_by numberSize l
  | VBS l => sum_by slen l
  end.

Definition Size (it : Item) : Z :=
  map_fold (fun k v acc => slen k + valueSize v + acc) 0 it.

(** ** Traversals *)

Lemma traverse_map_empty {A B} (f : A -> result B) : traverse_map f ∅ = Ok ∅.
Proof. unfold traverse_map. by rewrite map_fold_empty. Qed.

Lemma traverse_map_Ok {A B} (f : A -> result B) m m' :
  traverse_map f m = Ok m' <->
  (forall k, match m !! k with
             | Some x => exists y, f x = Ok y /\ m' !! k = Some y
             | None => m' !! k = None
             end).
Proof.
  unfold traverse_map. revert m'.
  induction m as [|k x m Hk Hfst IH] using map_first_key_ind; intros m'.
  - rewrite map_fold_empty. split.
    + intros [= <-] k. by rewrite !lookup_empty.
    + intros H. f_equal. symmetry. apply map_empty. intros k. specialize (H k).
      by rewrite lookup_empty in H.
  - rewrite map_fold_insert_first_key by done. split.
    + intros H. apply result_bind_Ok in H as (out & Hout & H).
      apply result_bind_Ok in H as (y & Hy & [= <-]).
      pose proof (proj1 (IH out) Hout) as Hsp. intros k'.
      destruct (decide (k = k')) as [<-|Hne].
      * rewrite !lookup_insert_eq. eauto.
      * rewrite !lookup_insert_ne by done. apply Hsp.
    + intros H. pose proof (H k) as Hx. rewrite lookup_insert_eq in Hx. destruct Hx as (y & Hy & Hm).
      assert (m' = <[k := y]> (delete k m')) as -> by (by rewrite insert_delete_eq, insert_id).
      rewrite (proj2 (IH (delete k m'))).
      { simpl. by rewrite Hy. }
      intros k'. destruct (decide (k = k')) as [<-|Hne].
      * rewrite Hk. apply lookup_delete_eq.
      * rewrite lookup_delete_ne by done. specialize (H k'). by rewrite lookup_insert_ne in H.
Qed.

Lemma traverse_map_fmap {A B} (f : A -> B) (g : B -> result A) m :
  (forall k x, m !! k = Some x -> g (f x) = Ok x) -> traverse_map g (f <$> m) = Ok m.
Proof.
  intros H. apply traverse_map_Ok. intros k. rewrite lookup_fmap.
  destruct (m !! k) as [x|] eqn:E; simpl; eauto.
Qed.

Lemma mapR_fmap {A B} (f : A -> B) (g : B -> result A) l :
  (forall x, x ∈ l -> g (f x) = Ok x) -> mapR g (f <$> l) = Ok l.
Proof.
  intros H. apply mapR_Ok. induction l as [|x l IH]; simpl; [constructor|].
  constructor; [apply H; left|apply IH; intros y Hy; apply H; by right].
Qed.

Lemma mapM_unmarshal_strings (l : list string) : unmarshal_strings (JArr (JStr <$> l)) = Some l.
Proof.
  unfold unmarshal_strings. simpl. induction l as [|s l IH]; [done|].
  rewrite fmap_cons. simpl. by rewrite IH.
Qed.

Lemma fmap_JStr {A} (f : A -> string) (l : list A) :
  (fun x => JStr (f x)) <$> l = JStr <$> (f <$> l).
Proof. by rewrite <- list_fmap_compose. Qed.

(** ** Well-formed values *)

Lemma hasDupFrom_false seen ss :
  hasDupFrom seen ss = false <-> NoDup ss /\ forall s, s ∈ ss -> s ∉ seen.
Proof.
  revert seen; induction ss as [|s ss IH]; intros seen; simpl.
  - split; [|done]. intros _. split; [constructor|]. intros ? Hs. by apply not_elem_of_nil in Hs.
  - case_bool_decide as Hs.
    + split; [done|]. intros [_ H]. destruct (H s); [left|done].
    + rewrite IH, NoDup_cons. split.
      * intros [Hnd Hf]. split; [split|]; [|done|].
        -- intros Hin. specialize (Hf s Hin). set_solver.
        -- intros x [->|Hx]%elem_of_cons; [done|]. specialize (Hf x Hx). set_solver.
      * intros [[Hni Hnd] Hf]. split; [done|]. intros x Hx.
        specialize (Hf x (list_elem_of_further _ _ _ Hx)).
        assert (x <> s) by congruence. set_solver.
Qed.

Lemma hasDupStrings_false ss : hasDupStrings ss = false <-> NoDup ss.
Proof. unfold hasDupStrings. rewrite hasDupFrom_false. set_solver. Qed.

(** What decoding produces: numbers normalized and in range, sets nonempty and
    without duplicates, at every depth. *)
Inductive value_wf : Value -> Prop :=
| wf_S s : value_wf (VS s)
| wf_N n : dec_wf n -> dec_range n -> value_wf (VN n)
| wf_B b : value_wf (VB b)
| wf_Bool b : value_wf (VBool b)
| wf_Null : value_wf VNull
| wf_M m : (forall k v, m !! k = Some v -> value_wf v) -> value_wf (VM m)
| wf_L l : (forall v, v ∈ l -> value_wf v) -> value_wf (VL l)
| wf_SS l : l <> [] -> NoDup l -> value_wf (VSS l)
| wf_NS l : l <> [] -> Forall (fun n => dec_wf n /\ dec_range n) l ->
            has_dup_pair same_decimal l = false -> value_wf (VNS l)
| wf_BS l : l <> [] -> has_dup_pair String.eqb l = false -> value_wf (VBS l).

Definition item_wf (it : Item) : Prop := forall k v, it !! k = Some v -> value_wf v.

Create HintDb ddb.
#[export] Hint Constructors value_wf : ddb.

Lemma FromJSON_tagged tag inner : FromJSON (tagged tag inner) = fromTagged FromJSON tag inner.
Proof.
  unfold tagged. cbn [FromJSON]. rewrite map_size_singleton. cbn [Nat.eqb negb].
  by rewrite map_fold_singleton.
Qed.

Lemma FromJSON_JSON v : value_wf v -> FromJSON (JSON v) = Ok v.
Proof.
  induction 1 as [s|n Hn Hr|b|b| |m Hm IH|l Hl IH|l Hne Hnd|l Hne Hf Hd|l Hne Hd];
    cbn [JSON]; rewrite FromJSON_tagged; unfold fromTagged; cbn [String.eqb Ascii.eqb TypeS TypeN
      TypeB TypeBool TypeNull TypeM TypeL TypeSS TypeNS TypeBS unmarshal_string unmarshal_bool Bool.eqb].
  - done.
  - by rewrite ParseDecimal_String.
  - unfold decode_b64. by rewrite base64_roundtrip.
  - done.
  - done.
  - rewrite traverse_map_fmap; [done|]. exact IH.
  - rewrite mapR_fmap; [done|]. exact IH.
  - rewrite mapM_unmarshal_strings. destruct l as [|s l]; [done|].
    by rewrite (proj2 (hasDupStrings_false _) Hnd).
  - rewrite fmap_JStr, mapM_unmarshal_strings. destruct l as [|n l]; [done|].
    rewrite (mapR_fmap dec_String ParseDecimal (n :: l)).
    + cbn [mbind result_bind]. by rewrite Hd.
    + intros x Hx. rewrite Forall_forall in Hf. destruct (Hf x Hx). by apply ParseDecimal_String.
  - rewrite fmap_JStr, mapM_unmarshal_strings. destruct l as [|b l]; [done|].
    rewrite (mapR_fmap base64_encode (decode_b64 _) (b :: l)).
    + cbn [mbind result_bind]. by rewrite Hd.
    + intros x Hx. unfold decode_b64. by rewrite base64_roundtrip.
Qed.

Lemma ItemFromJSON_ItemJSON it : item_wf it -> ItemFromJSON (ItemJSON it) = Ok it.
Proof.
  intros H. unfold ItemFromJSON, ItemJSON. simpl. apply traverse_map_fmap.
  intros k v Hv. apply FromJSON_JSON. by eapply H.
Qed.

Lemma mapR_elem {A B} (f : A -> result B) l ys y :
  mapR f l = Ok ys -> y ∈ ys -> exists x, x ∈ l /\ f x = Ok y.
Proof.
  intros H%mapR_Ok Hy. apply list_elem_of_lookup in Hy as [i Hi].
  destruct (Forall2_lookup_r _ _ _ _ _ H Hi) as (x & Hx & E).
  exists x. split; [by eapply list_elem_of_lookup_2|done].
Qed.

Lemma mapR_nonempty {A B} (f : A -> result B) x l ys : mapR f (x :: l) = Ok ys -> ys <> [].
Proof. intros H%mapR_Ok. by inversion H. Qed.

Lemma traverse_map_lookup {A B} (f : A -> result B) m m' k y :
  traverse_map f m = Ok m' -> m' !! k = Some y -> exists x, m !! k = Some x /\ f x = Ok y.
Proof.
  intros H Hk. pose proof (proj1 (traverse_map_Ok f m m') H k) as Hs.
  destruct (m !! k) as [x|]; [|congruence]. destruct Hs as (z & Hz & Hm). exists x. split; congruence.
Qed.

(** Decoding a tag checks everything well-formedness asks, given that the nested
    documents do. *)
Lemma fromTagged_wf rec tag inner v :
  (forall k x v, match inner with JObj m => m !! k = Some x | _ => False end ->
                 rec x = Ok v -> value_wf v) ->
  (forall x v, match inner with JArr l => x ∈ l | _ => False end -> rec x = Ok v -> value_wf v) ->
  fromTagged rec tag inner = Ok v -> value_wf v.
Proof.
  intros HM HL. unfold fromTagged.
  destruct (String.eqb tag TypeS); [case_goal; [|done]; intros [= <-]; auto with ddb|].
  destruct (String.eqb tag TypeN).
  { case_goal; [|done]. intros H'. inv_bind. injection H' as <-.
    apply ParseDecimal_wf in Ha as [??]. auto with ddb. }
  destruct (String.eqb tag TypeB).
  { case_goal; [|done]. intros H'. inv_bind. injection H' as <-. auto with ddb. }
  destruct (String.eqb tag TypeBool); [case_goal; [|done]; intros [= <-]; auto with ddb|].
  destruct (String.eqb tag TypeNull); [intros [= <-]; auto with ddb|].
  destruct (String.eqb tag TypeM).
  { case_goal; try done; [intros [= <-]; constructor; intros ??; by rewrite lookup_empty|].
    intros H'. inv_bind. injection H' as <-. constructor. intros k x Hx.
    destruct (traverse_map_lookup _ _ _ _ _ Ha Hx) as (y & Hy & E). by eapply HM. }
  destruct (String.eqb tag TypeL).
  { case_goal; try done; [intros [= <-]; constructor; intros ? []%not_elem_of_nil|].
    intros H'. inv_bind. injection H' as <-. constructor. intros x Hx.
    destruct (mapR_elem _ _ _ _ Ha Hx) as (y & Hy & E). by eapply HL. }
  destruct (String.eqb tag TypeSS).
  { destruct (unmarshal_strings inner) as [[|s ss]|]; [done| |done].
    destruct (hasDupStrings (s :: ss)) eqn:E; [done|]. intros [= <-].
    constructor; [done|]. by apply hasDupStrings_false. }
  destruct (String.eqb tag TypeNS).
  { destruct (unmarshal_strings inner) as [[|s ss]|]; [done| |done]. intros H'. inv_bind.
    destruct (has_dup_pair same_decimal a) eqn:E; [done|]. injection H' as <-.
    constructor; [by eapply mapR_nonempty| |done]. apply Forall_forall. intros x Hx.
    destruct (mapR_elem _ _ _ _ Ha Hx) as (y & _ & Hy). by eapply ParseDecimal_wf. }
  destruct (String.eqb tag TypeBS).
  { destruct (unmarshal_strings inner) as [[|s ss]|]; [done| |done]. intros H'. inv_bind.
    destruct (has_dup_pair String.eqb a) eqn:E; [done|]. injection H' as <-.
    constructor; [by eapply mapR_nonempty|done]. }
  done.
Qed.

Lemma FromJSON_wf j v : FromJSON j = Ok v -> value_wf v.
Proof.
  revert v. induction j as [j IH] using (induction_ltof1 _ json_nodes). unfold ltof in IH.
  destruct j as [| | | | |m]; try done. intros v.
  cbn [FromJSON]. destruct (negb (Nat.eqb (size m) 1)); [done|].
  destruct (map_fold_last (fun tag inner => fromTagged FromJSON tag inner)
    (Err (errValidation "malformed AttributeValue")) m) as [->|(tag & inner & Hk & ->)]; [done|].
  apply json_nodes_member in Hk as Hin.
  apply fromTagged_wf.
  - intros k x v' Hx. apply IH. destruct inner as [| | | | |m']; try done.
    apply json_nodes_member in Hx. lia.
  - intros x v' Hx. apply IH. destruct inner as [| | | |l|]; try done.
    apply json_nodes_elem in Hx. lia.
Qed.

Lemma ItemFromJSON_wf j it : ItemFromJSON j = Ok it -> item_wf it.
Proof.
  unfold ItemFromJSON. destruct (unmarshal_object j) as [m|]; [|done]. intros H k v Hv.
  destruct (traverse_map_lookup _ _ _ _ _ H Hv) as (x & _ & Hx). by eapply FromJSON_wf.
Qed.

(** Induction over a value and all the values inside it. *)
Fixpoint value_nodes (v : Value) : nat :=
  match v with
  | VL l => foldr (fun x acc => value_nodes x + acc) 1 l
  | VM m => map_fold (fun _ x acc => value_nodes x + acc) 1 m
  | _ => 1
  end%nat.

Lemma Value_ind_nested (P : Value -> Prop) :
  P VZero -> (forall s, P (VS s)) -> (forall n, P (VN n)) -> (forall b, P (VB b)) ->
  (forall b, P (VBool b)) -> P VNull ->
  (forall m, (forall k x, m !! k = Some x -> P x) -> P (VM m)) ->
  (forall l, (forall x, x ∈ l -> P x) -> P (VL l)) ->
  (forall l, P (VSS l)) -> (forall l, P (VNS l)) -> (forall l, P (VBS l)) -> forall v, P v.
Proof.
  intros H0 H1 H2 H3 H4 H5 HM HL H6 H7 H8 v.
  induction v as [v IH] using (induction_ltof1 _ value_nodes). unfold ltof in IH.
  destruct v as [| | | | | |m|l| | |]; auto.
  - apply HM. intros k x Hx. apply IH. cbn [value_nodes]. rewrite map_fold_add_base.
    pose proof (map_fold_add_ge value_nodes 0 m k x Hx). lia.
  - apply HL. intros x Hx. apply IH. cbn [value_nodes]. rewrite foldr_add_base.
    pose proof (foldr_add_ge value_nodes 0 l x Hx). lia.
Qed.

(** ** What attribute values promise *)

(** C26: Items survive storage: an item read from the wire, whatever spelling it arrived
    in, is written as JSON that reads back as exactly that item. *)
Theorem stored_item_rereads j it :
  ItemFromJSON j = Ok it -> ItemFromJSON (ItemJSON it) = Ok it.
Proof. intros H%ItemFromJSON_wf. by apply ItemFromJSON_ItemJSON. Qed.

Definition sample_item : json :=
  JObj {[ "id" := tagged TypeS (JStr "x");
          "n" := tagged TypeN (JStr "01.50");
          "l" := tagged TypeL (JArr [tagged TypeNull (JBool true); tagged TypeBS (JArr [JStr "AA=="])]) ]}.

Lemma stored_item_rereads_witness :
  exists it, ItemFromJSON sample_item = Ok it /\ ItemFromJSON (ItemJSON it) = Ok it.
Proof. eexists. split; [reflexivity|]. apply (stored_item_rereads sample_item). reflexivity. Defined.
