(* ===== verification/KeyEnc.v ===== *)
(** * KeyEnc: order-preserving key encoding

    Model of src/internal/ddb/keyenc/keyenc.go.  A key value (S, N or B) becomes a
    byte string whose lexicographic order is DynamoDB's key order, and no encoding
    is a prefix of another, so composite keys and prefix scans are exact. *)

From S2P Require Import Prelude Bytes Decimal Item.

Definition tagB : ascii := chr 1.
Definition tagN : ascii := chr 2.
Definition tagS : ascii := chr 3.

(** 0x00 becomes 0x00 0xFF, and 0x00 0x01 terminates. *)
Fixpoint escapeBytes (b : string) : string :=
  match b with
  | EmptyString => String (chr 0) (String (chr 1) EmptyString)
  | String c b' =>
      if byte_of c =? 0 then String (chr 0) (String (chr 255) (escapeBytes b'))
      else String c (escapeBytes b')
  end.

(** [binary.BigEndian.PutUint16]. *)
Definition be16 (n : Z) : string := String (chr (n / 256)) (String (chr n) EmptyString).

(** [^b] on a byte. *)
Definition complement_byte (c : ascii) : ascii := chr (255 - byte_of c).

Definition number_payload (d : Decimal) : string :=
  let exp := (d_exp d + 200) mod 65536 in
  be16 exp +:+ String.string_of_list_ascii (d_digits d) +:+ String (chr 0) EmptyString.

Definition encodeNumber (d : Decimal) : string :=
  if IsZero d then String tagN (String (chr 1) EmptyString)
  else if d_neg d then String tagN (String (chr 0) (smap complement_byte (number_payload d)))
  else String tagN (String (chr 2) (number_payload d)).

Definition Encode (v : Value) : result string :=
  match v with
  | VS s => Ok (String tagS (escapeBytes s))
  | VB b => Ok (String tagB (escapeBytes b))
  | VN n => Ok (encodeNumber n)
  | _ => Err (plain_error "keyenc: %s is not a valid key type (want S, N, or B)")
  end.

Definition Composite (pk : Value) (sk : option Value) : result string :=
  out ← Encode pk;
  match sk with
  | None => Ok out
  | Some sk => skb ← Encode sk; Ok (out +:+ skb)
  end.

Definition typeTag (v : Value) : Z :=
  match v with VB _ => byte_of tagB | VN _ => byte_of tagN | _ => byte_of tagS end.

Definition CompareValues (a b : Value) : Z :=
  if negb (typeTag a =? typeTag b) then (if typeTag a <? typeTag b then -1 else 1)
  else match a, b with
       | VS x, VS y => cmp_int (bytes_cmp x y)
       | VB x, VB y => cmp_int (bytes_cmp x y)
       | VN x, VN y => Compare x y
       | _, _ => 0
       end.

(** The values a key attribute holds. *)
Definition key_value (v : Value) : Prop :=
  match v with VS _ | VB _ => True | VN n => dec_wf n /\ dec_range n | _ => False end.

(** ** Strings that differ before either ends

    [differ o s t]: [s] and [t] part at a byte both have, ordered by [o] there.
    Unlike [bytes_cmp], this survives appending anything to either, and reverses
    under complement. *)

Definition differ (o : comparison) (s t : string) : Prop :=
  exists p c d s' t', s = p +:+ String c s' /\ t = p +:+ String d t' /\
    (byte_of c ?= byte_of d) = o /\ o <> Eq.

Definition ordered (o : comparison) (s t : string) : Prop :=
  (o = Eq /\ s = t) \/ differ o s t.

(** The order of a sequence of two parts. *)


Lemma differ_head o c d s t :
  (byte_of c ?= byte_of d) = o -> o <> Eq -> differ o (String c s) (String d t).
Proof. intros H Ho. exists "", c, d, s, t. done. Qed.

Lemma differ_app o s t x y : differ o s t -> differ o (s +:+ x) (t +:+ y).
Proof.
  intros (p & c & d & s' & t' & -> & -> & H & Ho). exists p, c, d, (s' +:+ x), (t' +:+ y).
  by rewrite !sapp_assoc.
Qed.

Lemma differ_prefix o p s t : differ o s t -> differ o (p +:+ s) (p +:+ t).
Proof.
  intros (q & c & d & s' & t' & -> & -> & H & Ho). exists (p +:+ q), c, d, s', t'.
  by rewrite !sapp_assoc.
Qed.

Lemma differ_cmp o s t : differ o s t -> bytes_cmp s t = o.
Proof.
  intros (p & c & d & s' & t' & -> & -> & H & Ho). rewrite bytes_cmp_app. simpl. rewrite H.
  by destruct o.
Qed.

Lemma byte_of_complement c : byte_of (complement_byte c) = 255 - byte_of c.
Proof. unfold complement_byte. pose proof (byte_of_range c). apply byte_of_chr_small. lia. Qed.

Lemma differ_complement o s t :
  differ o s t -> differ (CompOpp o) (smap complement_byte s) (smap complement_byte t).
Proof.
  intros (p & c & d & s' & t' & -> & -> & H & Ho). rewrite !smap_app. apply differ_prefix.
  simpl. apply differ_head; [|by destruct o].
  rewrite !byte_of_complement, <- H, <- Z.compare_antisym.
  destruct (Z.compare_spec (255 - byte_of c) (255 - byte_of d)); symmetry;
    [apply Z.compare_eq_iff|apply Z.compare_lt_iff|apply Z.compare_gt_iff]; lia.
Qed.

Lemma ordered_app o1 o2 s t x y :
  ordered o1 s t -> ordered o2 x y -> ordered (lex o1 o2) (s +:+ x) (t +:+ y).
Proof.
  intros [[-> ->]|H1] H2; simpl.
  - destruct H2 as [[-> ->]|H2]; [by left|right]. by apply differ_prefix.
  - right. assert (lex o1 o2 = o1) as ->.
    { destruct H1 as (? & ? & ? & ? & ? & ? & ? & ? & ?). by destruct o1. }
    by apply differ_app.
Qed.

Lemma ordered_complement o s t :
  ordered o s t -> ordered (CompOpp o) (smap complement_byte s) (smap complement_byte t).
Proof. intros [[-> ->]|H]; [by left|right; by apply differ_complement]. Qed.

Lemma ordered_cmp o s t : ordered o s t -> bytes_cmp s t = o.
Proof. intros [[-> ->]|H]; [apply bytes_cmp_refl|by apply differ_cmp]. Qed.

Lemma ordered_refl s : ordered Eq s s.
Proof. by left. Qed.

Lemma ordered_byte c d x y o :
  ordered o x y -> ordered (lex (byte_of c ?= byte_of d) o) (String c x) (String d y).
Proof.
  intros H. change (String c x) with (String c "" +:+ x). change (String d y) with (String d "" +:+ y).
  apply ordered_app; [|done]. destruct (Z.compare_spec (byte_of c) (byte_of d)) as [E|E|E].
  - apply byte_of_inj in E as ->. apply ordered_refl.
  - right. by apply differ_head; [apply Z.compare_lt_iff|].
  - right. by apply differ_head; [apply Z.compare_gt_iff|].
Qed.

(** ** The parts of an encoding *)

Lemma escape_ordered s t : ordered (bytes_cmp s t) (escapeBytes s) (escapeBytes t).
Proof.
  revert t; induction s as [|c s IH]; intros [|d t]; cbn [escapeBytes bytes_cmp].
  - apply ordered_refl.
  - right. destruct (Z.eqb_spec (byte_of d) 0).
    + apply (differ_prefix _ (String (chr 0) "")). by apply differ_head.
    + apply differ_head; [|done]. change (byte_of (chr 0)) with 0.
      apply Z.compare_lt_iff. pose proof (byte_of_range d). lia.
  - right. destruct (Z.eqb_spec (byte_of c) 0).
    + apply (differ_prefix _ (String (chr 0) "")). by apply differ_head.
    + apply differ_head; [|done]. change (byte_of (chr 0)) with 0.
      apply Z.compare_gt_iff. pose proof (byte_of_range c). lia.
  - assert (forall o, match byte_of c ?= byte_of d with Eq => o | o' => o' end =
      lex (byte_of c ?= byte_of d) o) as -> by (intros; by destruct (byte_of c ?= byte_of d)).
    specialize (IH t). pose proof (byte_of_range c). pose proof (byte_of_range d).
    destruct (Z.eqb_spec (byte_of c) 0) as [Ec|Ec], (Z.eqb_spec (byte_of d) 0) as [Ed|Ed].
    + rewrite Ec, Ed. simpl. by apply (ordered_app Eq _ (String (chr 0) (String (chr 255) ""))
        (String (chr 0) (String (chr 255) ""))); [apply ordered_refl|].
    + right. rewrite Ec. assert ((0 ?= byte_of d) = Lt) as -> by (apply Z.compare_lt_iff; lia).
      apply differ_head; [|done]. apply Z.compare_lt_iff. change (byte_of (chr 0)) with 0. lia.
    + right. rewrite Ed. assert ((byte_of c ?= 0) = Gt) as -> by (apply Z.compare_gt_iff; lia).
      apply differ_head; [|done]. apply Z.compare_gt_iff. change (byte_of (chr 0)) with 0. lia.
    + by apply ordered_byte.
Qed.

Lemma be16_ordered u v :
  0 <= u < 65536 -> 0 <= v < 65536 -> ordered (u ?= v) (be16 u) (be16 v).
Proof.
  intros Hu Hv.
  assert (lex (u / 256 ?= v / 256) (lex (u mod 256 ?= v mod 256) Eq) = (u ?= v)) as <-.
  { destruct (Z.compare_spec (u / 256) (v / 256)) as [E|E|E]; simpl;
      [destruct (Z.compare_spec (u mod 256) (v mod 256)) as [F|F|F]; simpl|..]; symmetry;
      (apply Z.compare_eq_iff + apply Z.compare_lt_iff + apply Z.compare_gt_iff); zdiv. }
  unfold be16.
  replace (u / 256) with (byte_of (chr (u / 256))) at 1 by (apply byte_of_chr_small; zdiv).
  replace (v / 256) with (byte_of (chr (v / 256))) at 1 by (apply byte_of_chr_small; zdiv).
  rewrite <- !byte_of_chr. do 2 apply ordered_byte. apply ordered_refl.
Qed.

Local Abbreviation str := String.string_of_list_ascii.
Local Abbreviation nul := (String (chr 0) EmptyString).

(** Digit strings compared with the shorter one padded. *)
Definition pad_cmp (a b : list ascii) : comparison :=
  let '(ad, bd) := pad_right a b in chars_cmp ad bd.

Lemma pad_cmp_cons c d a b : pad_cmp (c :: a) (d :: b) = lex (byte_of c ?= byte_of d) (pad_cmp a b).
Proof.
  unfold pad_cmp, pad_right. rewrite !zlen_cons.
  replace (zlen b + 1 - (zlen a + 1)) with (zlen b - zlen a) by lia.
  replace (zlen a + 1 - (zlen b + 1)) with (zlen a - zlen b) by lia.
  destruct (Z.ltb_spec (zlen a + 1) (zlen b + 1)), (Z.ltb_spec (zlen a) (zlen b)); try lia;
    [simpl; by destruct (byte_of c ?= byte_of d)|].
  destruct (Z.ltb_spec (zlen b + 1) (zlen a + 1)), (Z.ltb_spec (zlen b) (zlen a)); try lia;
    simpl; by destruct (byte_of c ?= byte_of d).
Qed.

Lemma dnum_zero_last l : digitsP l -> dnum l = 0 -> l = [] \/ last l = Some ch0.
Proof.
  induction l as [|c l IH] using rev_ind; [auto|]. intros [Hl Hc]%Forall_app H0. right.
  rewrite last_snoc. inversion Hc as [|?? Hd]; subst. f_equal. apply dval_eq0; [done|].
  rewrite dnum_app in H0. pose proof (dnum_bound l Hl). apply is_digit_range in Hd.
  change (dnum [c]) with (dval c * 1 + 0) in H0. change (zlen [c]) with 1 in H0. nia.
Qed.

Lemma pad_cmp_nil l : digitsP l -> l <> [] -> last l <> Some ch0 -> pad_cmp [] l = Lt.
Proof.
  intros Hl Hne Hlast. unfold pad_cmp, pad_right. change (zlen (@nil ascii)) with 0.
  assert (0 < zlen l) by (destruct l; [done|rewrite zlen_cons; pose proof (zlen_nonneg l); lia]).
  rewrite (proj2 (Z.ltb_lt _ _)), app_nil_l by done.
  rewrite chars_cmp_num, dnum_zeros; auto with dec; [|rewrite zlen_zeros; lia].
  apply Z.compare_lt_iff. pose proof (dnum_bound l Hl).
  destruct (Z.eq_dec (dnum l) 0) as [E|]; [|lia]. by destruct (dnum_zero_last l Hl E).
Qed.

Lemma pad_cmp_antisym a b : pad_cmp b a = CompOpp (pad_cmp a b).
Proof.
  assert (forall x y, chars_cmp y x = CompOpp (chars_cmp x y)) as Ha.
  { intros x; induction x as [|c x IH]; intros [|d y]; simpl; try done.
    rewrite (Z.compare_antisym (byte_of c)). destruct (byte_of c ?= byte_of d); simpl; auto. }
  unfold pad_cmp, pad_right.
  destruct (Z.ltb_spec (zlen a) (zlen b)), (Z.ltb_spec (zlen b) (zlen a)); try lia; apply Ha.
Qed.

Lemma digit_above_nul c : is_digit c = true -> (byte_of (chr 0) ?= byte_of c) = Lt.
Proof.
  intros H%is_digit_range. unfold dval in H. change (byte_of (chr 0)) with 0.
  apply Z.compare_lt_iff. lia.
Qed.

Lemma digits_ordered a b :
  digitsP a -> digitsP b -> last a <> Some ch0 -> last b <> Some ch0 ->
  ordered (pad_cmp a b) (str a +:+ nul) (str b +:+ nul).
Proof.
  intros Ha. revert b. induction Ha as [|c a Hc Ha IH]; intros b Hb Hla Hlb.
  - destruct Hb as [|d b Hd Hb]; [apply ordered_refl|]. right.
    rewrite pad_cmp_nil by (by constructor || done). simpl. apply differ_head; [|done].
    by apply digit_above_nul.
  - destruct Hb as [|d b Hd Hb].
    + right. rewrite pad_cmp_antisym, pad_cmp_nil by (by constructor || done). simpl.
      apply differ_head; [|done]. rewrite Z.compare_antisym. by rewrite digit_above_nul.
    + rewrite pad_cmp_cons. simpl. apply ordered_byte, IH; [done|by destruct a|by destruct b].
Qed.

Lemma payload_ordered a b :
  dec_wf a -> dec_wf b -> dec_range a -> dec_range b ->
  ordered (compareMagnitude a b ?= 0) (number_payload a) (number_payload b).
Proof.
  intros Wa Wb [_ Ra] [_ Rb].
  assert ((compareMagnitude a b ?= 0) =
          lex (d_exp a + 200 ?= d_exp b + 200) (pad_cmp (d_digits a) (d_digits b))) as ->.
  { unfold compareMagnitude, pad_cmp.
    destruct (Z.eqb_spec (d_exp a) (d_exp b)) as [->|].
    - rewrite Z.compare_refl. simpl. destruct (pad_right _ _) as [x y]. by destruct (chars_cmp x y).
    - destruct (Z.ltb_spec (d_exp a) (d_exp b)); simpl.
      + by assert ((d_exp a + 200 ?= d_exp b + 200) = Lt) as -> by (apply Z.compare_lt_iff; lia).
      + by assert ((d_exp a + 200 ?= d_exp b + 200) = Gt) as -> by (apply Z.compare_gt_iff; lia). }
  unfold number_payload. rewrite !Z.mod_small by lia. apply ordered_app; [apply be16_ordered; lia|].
  destruct Wa, Wb. by apply digits_ordered.
Qed.

Lemma class_differ x y s t :
  x <> y -> 0 <= x < 256 -> 0 <= y < 256 ->
  ordered (x ?= y) (String tagN (String (chr x) s)) (String tagN (String (chr y) t)).
Proof.
  intros Hne Hx Hy. right. apply (differ_prefix _ (String tagN "")), differ_head.
  - by rewrite !byte_of_chr_small.
  - by intros ?%Z.compare_eq.
Qed.

Lemma number_ordered a b :
  dec_wf a -> dec_wf b -> dec_range a -> dec_range b ->
  ordered (Compare a b ?= 0) (encodeNumber a) (encodeNumber b).
Proof.
  intros Wa Wb Ra Rb. unfold encodeNumber, Compare.
  destruct (IsZero a) eqn:Za, (IsZero b) eqn:Zb; cbn [andb]; [apply ordered_refl|..].
  - destruct (d_neg b); [by apply (class_differ 1 0)|by apply (class_differ 1 2)].
  - destruct (d_neg a); [by apply (class_differ 0 1)|by apply (class_differ 2 1)].
  - pose proof (payload_ordered a b Wa Wb Ra Rb) as Hp.
    generalize dependent (number_payload a). generalize dependent (number_payload b). intros pb pa Hp.
    destruct (d_neg a), (d_neg b); cbn [Bool.eqb negb]; [|by apply (class_differ 0 2)|by apply (class_differ 2 0)|].
    + apply (ordered_app Eq _ (String tagN (String (chr 0) "")) (String tagN (String (chr 0) "")));
        [apply ordered_refl|].
      change (ordered (- compareMagnitude a b ?= 0) (smap complement_byte pa) (smap complement_byte pb)).
      assert ((- compareMagnitude a b ?= 0) = CompOpp (compareMagnitude a b ?= 0)) as ->
        by (by destruct (compareMagnitude a b)).
      by apply ordered_complement.
    + by apply (ordered_app Eq _ (String tagN (String (chr 2) "")) (String tagN (String (chr 2) "")));
        [apply ordered_refl|].
Qed.

(** ** Key values *)

Lemma cmp_int_compare o : (cmp_int o ?= 0) = o.
Proof. by destruct o. Qed.

Lemma Encode_ordered a b ea eb :
  key_value a -> key_value b -> Encode a = Ok ea -> Encode b = Ok eb ->
  ordered (CompareValues a b ?= 0) ea eb.
Proof.
  intros Ka Kb.
  destruct a as [|x|x|x| | | | | | |]; try done; destruct b as [|y|y|y| | | | | | |]; try done;
    intros [= <-] [= <-]; unfold CompareValues; simpl;
    try (right; unfold encodeNumber; repeat case_match; by apply differ_head).
  - rewrite cmp_int_compare. apply (ordered_app Eq _ (String tagS "") (String tagS ""));
      [apply ordered_refl|apply escape_ordered].
  - destruct Ka, Kb. by apply number_ordered.
  - rewrite cmp_int_compare. apply (ordered_app Eq _ (String tagB "") (String tagB ""));
      [apply ordered_refl|apply escape_ordered].
Qed.

Lemma Encode_key_value a : key_value a -> exists ea, Encode a = Ok ea.
Proof. destruct a; try done; simpl; eauto. Qed.

(** ** What key order promises *)

Lemma Compare_sign a b : cmp_int (Compare a b ?= 0) = Compare a b.
Proof.
  unfold Compare. destruct (IsZero a && IsZero b); [done|].
  destruct (IsZero a); [by destruct (d_neg b)|]. destruct (IsZero b); [by destruct (d_neg a)|].
  destruct (negb _); [by destruct (d_neg a)|].
  assert (exists o, compareMagnitude a b = cmp_int o) as [o ->].
  { unfold compareMagnitude. destruct (negb _).
    - destruct (_ <? _); [by exists Lt|by exists Gt].
    - destruct (pad_right _ _). eauto. }
  by destruct (d_neg a), o.
Qed.

Lemma CompareValues_sign a b : cmp_int (CompareValues a b ?= 0) = CompareValues a b.
Proof.
  unfold CompareValues. destruct (negb _); [by destruct (_ <? _)|].
  destruct a, b; try done; [|by apply Compare_sign|]; by destruct (bytes_cmp _ _).
Qed.

(** The order of an optional sort key: a key without one comes first. *)
Definition cmp_sort (a b : option Value) : comparison :=
  match a, b with
  | Some x, Some y => CompareValues x y ?= 0
  | Some _, None => Gt
  | None, Some _ => Lt
  | None, None => Eq
  end.

Lemma Composite_Ok pk sk e :
  Composite pk sk = Ok e -> exists ep es, Encode pk = Ok ep /\ e = ep +:+ es /\
    match sk with Some v => Encode v = Ok es | None => es = "" end.
Proof.
  unfold Composite. intros (ep & Hp & H)%result_bind_Ok. destruct sk as [v|].
  - apply result_bind_Ok in H as (es & Hs & [= <-]). eauto.
  - injection H as <-. exists ep, "". by rewrite sapp_nil_r.
Qed.

Lemma Encode_nonempty v e : Encode v = Ok e -> exists c e', e = String c e'.
Proof.
  destruct v; try done; simpl; intros [= <-]; unfold encodeNumber; repeat case_goal; eauto.
Qed.

(** C5: Byte order of encoded keys is DynamoDB's key order: on any two values a key may
    hold (strings, binaries, and numbers that parse), [bytes.Compare] of the encodings
    answers exactly what [CompareValues] answers. *)
Theorem Encode_order a b ea eb :
  key_value a -> key_value b -> Encode a = Ok ea -> Encode b = Ok eb ->
  cmp_int (bytes_cmp ea eb) = CompareValues a b.
Proof.
  intros Ka Kb Ha Hb. pose proof (Encode_ordered a b ea eb Ka Kb Ha Hb) as H.
  apply ordered_cmp in H as ->. apply CompareValues_sign.
Qed.

Lemma Encode_order_witness :
  let minus_half := VN (mkDecimal true ["5"%char] 0) in
  exists ea eb, Encode minus_half = Ok ea /\ Encode (VN Zero) = Ok eb /\
    cmp_int (bytes_cmp ea eb) = CompareValues minus_half (VN Zero).
Proof.
  do 2 eexists. split; [reflexivity|]. split; [reflexivity|].
  apply Encode_order; [|..|reflexivity|reflexivity]; split; try (by apply Zero_wf);
    repeat constructor; done.
Defined.

(** Composite keys order by partition key and then by sort key, two composite keys
    are equal only when their parts are, and the keys of one partition are exactly
    those that start with the encoding of its partition key. *)
Lemma Composite_order pk pk' sk sk' e e' p :
  key_value pk -> key_value pk' ->
  match sk with Some v => key_value v | None => True end ->
  match sk' with Some v => key_value v | None => True end ->
  Composite pk sk = Ok e -> Composite pk' sk' = Ok e' -> Encode pk = Ok p ->
  bytes_cmp e e' = lex (CompareValues pk pk' ?= 0) (cmp_sort sk sk') /\
  (has_prefix e' p = true <-> CompareValues pk pk' = 0).
Proof.
  intros Kp Kp' Ks Ks' (ep & es & Hp & -> & Hs)%Composite_Ok (ep' & es' & Hp' & -> & Hs')%Composite_Ok.
  rewrite Hp. intros [= <-].
  destruct (Encode_ordered _ _ _ _ Kp Kp' Hp Hp') as [[E <-]|D].
  - rewrite bytes_cmp_app, has_prefix_app. apply Z.compare_eq in E as ->. split; [|done]. simpl.
    destruct sk as [v|], sk' as [v'|]; subst; simpl; [|..|done].
    + by apply ordered_cmp, Encode_ordered.
    + by apply Encode_nonempty in Hs as (? & ? & ->).
    + by apply Encode_nonempty in Hs' as (? & ? & ->).
  - pose proof (differ_cmp _ _ _ (differ_app _ _ _ es es' D)) as ->.
    destruct D as (q & c & d & s & t & -> & -> & Hcd & Ho). split; [by destruct (_ ?= 0)|].
    split; [|intros E; by rewrite E in Ho].
    rewrite has_prefix_spec. intros (u & Hu). rewrite !sapp_assoc in Hu. apply sapp_inj_l in Hu.
    injection Hu as -> _. rewrite Z.compare_refl in Hcd. congruence.
Qed.

Lemma Composite_order_witness :
  exists e e' p, Composite (VS "a") None = Ok e /\ Composite (VS "a") (Some (VS "b")) = Ok e' /\
    bytes_cmp e e' = Lt /\ has_prefix e' p = true.
Proof.
  exists (String tagS (escapeBytes "a")),
    (String tagS (escapeBytes "a") +:+ String tagS (escapeBytes "b")), (String tagS (escapeBytes "a")).
  split; [done|]. split; [done|].
  edestruct (Composite_order (VS "a") (VS "a") None (Some (VS "b"))) as [H1 H2]; [done..|].
  split; [exact H1|by apply H2].
Defined.
