(* ===== verification/Lexer.v ===== *)
(** * Lexer: tokens, the request environment and the parser's cursor

    Model of src/internal/ddb/expr/lexer.go, reserved.go and the environment of
    path.go.  The expression languages share one token stream, one cursor over it
    and one environment, whose used sets grow as references are resolved.

    Reading the token slice out of range is a Go panic: it is a value of the
    parser's result type, and the theorems show it never happens. *)

From S2P Require Import Prelude Bytes Decimal Item.

(** ** Tokens *)

Inductive tokKind :=
| tokEOF | tokIdent | tokNameRef | tokValueRef | tokCompare | tokLParen | tokRParen
| tokComma | tokDot | tokLBracket | tokRBracket | tokNumber | tokPlus | tokMinus.

#[global] Instance tokKind_eq_dec : EqDecision tokKind.
Proof. solve_decision. Defined.

Record token := mkToken { kind : tokKind; text : string; tpos : Z }.

Definition errSyntax (format : string) : APIError :=
  Errf 400 "ValidationException" ("Invalid expression: " +:+ format).

Definition between (lo hi : Z) (c : ascii) : bool := (lo <=? byte_of c) && (byte_of c <=? hi).

Definition isIdentStart (c : ascii) : bool :=
  between 97 122 c || between 65 90 c || Ascii.eqb c "_".
Definition isIdentChar (c : ascii) : bool := isIdentStart c || between 48 57 c.
Definition isNumberChar (c : ascii) : bool := between 48 57 c.

Definition is_space (c : ascii) : bool :=
  Ascii.eqb c " " || (byte_of c =? 9) || (byte_of c =? 10) || (byte_of c =? 13).

(** The longest prefix whose bytes satisfy [p], and the rest: the scanning loops. *)
Fixpoint span (p : ascii -> bool) (s : string) : string * string :=
  match s with
  | EmptyString => (EmptyString, EmptyString)
  | String c s' => if p c then let '(a, b) := span p s' in (String c a, b) else (EmptyString, s)
  end.

(** One-byte tokens. *)
Definition punctuation (c : ascii) : option tokKind :=
  if Ascii.eqb c "(" then Some tokLParen
  else if Ascii.eqb c ")" then Some tokRParen
  else if Ascii.eqb c "," then Some tokComma
  else if Ascii.eqb c "." then Some tokDot
  else if Ascii.eqb c "[" then Some tokLBracket
  else if Ascii.eqb c "]" then Some tokRBracket
  else if Ascii.eqb c "+" then Some tokPlus
  else if Ascii.eqb c "-" then Some tokMinus
  else if Ascii.eqb c "=" then Some tokCompare
  else None.

(** The token at the head of a source that starts with [c]: its kind, its text and
    what follows it. *)
Definition scan (c : ascii) (s : string) : result (tokKind * string * string) :=
  match punctuation c with
  | Some k => Ok (k, String c "", s)
  | None =>
      if Ascii.eqb c "<" then
        match s with
        | String d s' =>
            if Ascii.eqb d ">" then Ok (tokCompare, "<>", s')
            else if Ascii.eqb d "=" then Ok (tokCompare, "<=", s')
            else Ok (tokCompare, "<", s)
        | EmptyString => Ok (tokCompare, "<", s)
        end
      else if Ascii.eqb c ">" then
        match s with
        | String d s' => if Ascii.eqb d "=" then Ok (tokCompare, ">=", s') else Ok (tokCompare, ">", s)
        | EmptyString => Ok (tokCompare, ">", s)
        end
      else if Ascii.eqb c "#" then
        let '(a, b) := span isIdentChar s in
        match a with
        | EmptyString => Err (errSyntax "dangling # at offset %d")
        | _ => Ok (tokNameRef, String c a, b)
        end
      else if Ascii.eqb c ":" then
        let '(a, b) := span isIdentChar s in
        match a with
        | EmptyString => Err (errSyntax "dangling : at offset %d")
        | _ => Ok (tokValueRef, String c a, b)
        end
      else if isNumberChar c then
        let '(a, b) := span isNumberChar (String c s) in Ok (tokNumber, a, b)
      else if isIdentStart c then
        let '(a, b) := span isIdentChar (String c s) in Ok (tokIdent, a, b)
      else Err (errSyntax "unexpected character %q at offset %d")
  end.

(** The loop of [lex], at offset [i]; each round consumes at least one byte. *)
Fixpoint lex_loop (fuel : nat) (i : Z) (s : string) : result (list token) :=
  match fuel, s with
  | _, EmptyString => Ok [mkToken tokEOF "" i]
  | O, _ => Err (errSyntax "out of fuel")
  | S fuel', String c s' =>
      if is_space c then lex_loop fuel' (i + 1) s'
      else
        r ← scan c s';
        let '(k, t, rest) := r in
        toks ← lex_loop fuel' (i + slen t) rest;
        Ok (mkToken k t i :: toks)
  end.

Definition lex_tokens (src : string) : result (list token) := lex_loop (String.length src) 0 src.

(** ** Reserved words *)

Definition reservedList : list string := [
  "ABORT"; "ABSOLUTE"; "ACTION"; "ADD"; "AFTER"; "AGENT"; "AGGREGATE"; "ALL"; "ALLOCATE";
  "ALTER"; "ANALYZE"; "AND"; "ANY"; "ARCHIVE"; "ARE"; "ARRAY"; "AS"; "ASC"; "ASCII";
  "ASENSITIVE"; "ASSERTION"; "ASYMMETRIC"; "AT"; "ATOMIC"; "ATTACH"; "ATTRIBUTE"; "AUTH";
  "AUTHORIZATION"; "AUTHORIZE"; "AUTO"; "AVG"; "BACK"; "BACKUP"; "BASE"; "BATCH"; "BEFORE";
  "BEGIN"; "BETWEEN"; "BIGINT"; "BINARY"; "BIT"; "BLOB"; "BLOCK"; "BOOLEAN"; "BOTH"; "BREADTH";
  "BUCKET"; "BULK"; "BY"; "BYTE"; "CALL"; "CALLED"; "CALLING"; "CAPACITY"; "CASCADE"; "CASCADED";
  "CASE"; "CAST"; "CATALOG"; "CHAR"; "CHARACTER"; "CHECK"; "CLASS"; "CLOB"; "CLOSE"; "CLUSTER";
  "CLUSTERED"; "CLUSTERING"; "CLUSTERS"; "COALESCE"; "COLLATE"; "COLLATION"; "COLLECTION";
  "COLUMN"; "COLUMNS"; "COMBINE"; "COMMENT"; "COMMIT"; "COMPACT"; "COMPILE"; "COMPRESS";
  "CONDITION"; "CONFLICT"; "CONNECT"; "CONNECTION"; "CONSISTENCY"; "CONSISTENT"; "CONSTRAINT";
  "CONSTRAINTS"; "CONSTRUCTOR"; "CONSUMED"; "CONTINUE"; "CONVERT"; "COPY"; "CORRESPONDING";
  "COUNT"; "COUNTER"; "CREATE"; "CROSS"; "CUBE"; "CURRENT"; "CURSOR"; "CYCLE"; "DATA";
  "DATABASE"; "DATE"; "DATETIME"; "DAY"; "DEALLOCATE"; "DEC"; "DECIMAL"; "DECLARE"; "DEFAULT";
  "DEFERRABLE"; "DEFERRED"; "DEFINE"; "DEFINED"; "DEFINITION"; "DELETE"; "DELIMITED"; "DEPTH";
  "DEREF"; "DESC"; "DESCRIBE"; "DESCRIPTOR"; "DETACH"; "DETERMINISTIC"; "DIAGNOSTICS";
  "DIRECTORIES"; "DISABLE"; "DISCONNECT"; "DISTINCT"; "DISTRIBUTE"; "DO"; "DOMAIN"; "DOUBLE";
  "DROP"; "DUMP"; "DURATION"; "DYNAMIC"; "EACH"; "ELEMENT"; "ELSE"; "ELSEIF"; "EMPTY"; "ENABLE";
  "END"; "EQUAL"; "EQUALS"; "ERROR"; "ESCAPE"; "ESCAPED"; "EVAL"; "EVALUATE"; "EXCEEDED";
  "EXCEPT"; "EXCEPTION"; "EXCEPTIONS"; "EXCLUSIVE"; "EXEC"; "EXECUTE"; "EXISTS"; "EXIT";
  "EXPLAIN"; "EXPLODE"; "EXPORT"; "EXPRESSION"; "EXTENDED"; "EXTERNAL"; "EXTRACT"; "FAIL";
  "FALSE"; "FAMILY"; "FETCH"; "FIELDS"; "FILE"; "FILTER"; "FILTERING"; "FINAL"; "FINISH";
  "FIRST"; "FIXED"; "FLATTERN"; "FLOAT"; "FOR"; "FORCE"; "FOREIGN"; "FORMAT"; "FORWARD"; "FOUND";
  "FREE"; "FROM"; "FULL"; "FUNCTION"; "FUNCTIONS"; "GENERAL"; "GENERATE"; "GET"; "GLOB";
  "GLOBAL"; "GO"; "GOTO"; "GRANT"; "GREATER"; "GROUP"; "GROUPING"; "HANDLER"; "HASH"; "HAVE";
  "HAVING"; "HEAP"; "HIDDEN"; "HOLD"; "HOUR"; "IDENTIFIED"; "IDENTITY"; "IF"; "IGNORE";
  "IMMEDIATE"; "IMPORT"; "IN"; "INCLUDING"; "INCLUSIVE"; "INCREMENT"; "INCREMENTAL"; "INDEX";
  "INDEXED"; "INDEXES"; "INDICATOR"; "INFINITE"; "INITIALLY"; "INLINE"; "INNER"; "INNTER";
  "INOUT"; "INPUT"; "INSENSITIVE"; "INSERT"; "INSTEAD"; "INT"; "INTEGER"; "INTERSECT";
  "INTERVAL"; "INTO"; "INVALIDATE"; "IS"; "ISOLATION"; "ITEM"; "ITEMS"; "ITERATE"; "JOIN"; "KEY";
  "KEYS"; "LAG"; "LANGUAGE"; "LARGE"; "LAST"; "LATERAL"; "LEAD"; "LEADING"; "LEAVE"; "LEFT";
  "LENGTH"; "LESS"; "LEVEL"; "LIKE"; "LIMIT"; "LIMITED"; "LINES"; "LIST"; "LOAD"; "LOCAL";
  "LOCALTIME"; "LOCALTIMESTAMP"; "LOCATION"; "LOCATOR"; "LOCK"; "LOCKS"; "LOG"; "LOGED"; "LONG";
  "LOOP"; "LOWER"; "MAP"; "MATCH"; "MATERIALIZED"; "MAX"; "MAXLEN"; "MEMBER"; "MERGE"; "METHOD";
  "METRICS"; "MIN"; "MINUS"; "MINUTE"; "MISSING"; "MOD"; "MODE"; "MODIFIES"; "MODIFY"; "MODULE";
  "MONTH"; "MULTI"; "MULTISET"; "NAME"; "NAMES"; "NATIONAL"; "NATURAL"; "NCHAR"; "NCLOB"; "NEW";
  "NEXT"; "NO"; "NONE"; "NOT"; "NULL"; "NULLIF"; "NUMBER"; "NUMERIC"; "OBJECT"; "OF"; "OFFLINE";
  "OFFSET"; "OLD"; "ON"; "ONLINE"; "ONLY"; "OPAQUE"; "OPEN"; "OPERATOR"; "OPTION"; "OR"; "ORDER";
  "ORDINALITY"; "OTHER"; "OTHERS"; "OUT"; "OUTER"; "OUTPUT"; "OVER"; "OVERLAPS"; "OVERRIDE";
  "OWNER"; "PAD"; "PARALLEL"; "PARAMETER"; "PARAMETERS"; "PARTIAL"; "PARTITION"; "PARTITIONED";
  "PARTITIONS"; "PATH"; "PERCENT"; "PERCENTILE"; "PERMISSION"; "PERMISSIONS"; "PIPE";
  "PIPELINED"; "PLAN"; "POOL"; "POSITION"; "PRECISION"; "PREPARE"; "PRESERVE"; "PRIMARY";
  "PRIOR"; "PRIVATE"; "PRIVILEGES"; "PROCEDURE"; "PROCESSED"; "PROJECT"; "PROJECTION";
  "PROPERTY"; "PROVISIONING"; "PUBLIC"; "PUT"; "QUERY"; "QUIT"; "QUORUM"; "RAISE"; "RANDOM";
  "RANGE"; "RANK"; "RAW"; "READ"; "READS"; "REAL"; "REBUILD"; "RECORD"; "RECURSIVE"; "REDUCE";
  "REF"; "REFERENCE"; "REFERENCES"; "REFERENCING"; "REGEXP"; "REGION"; "REINDEX"; "RELATIVE";
  "RELEASE"; "REMAINDER"; "RENAME"; "REPEAT"; "REPLACE"; "REQUEST"; "RESET"; "RESIGNAL";
  "RESOURCE"; "RESPONSE"; "RESTORE"; "RESTRICT"; "RESULT"; "RETURN"; "RETURNING"; "RETURNS";
  "REVERSE"; "REVOKE"; "RIGHT"; "ROLE"; "ROLES"; "ROLLBACK"; "ROLLUP"; "ROUTINE"; "ROW"; "ROWS";
  "RULE"; "RULES"; "SAMPLE"; "SATISFIES"; "SAVE"; "SAVEPOINT"; "SCAN"; "SCHEMA"; "SCOPE";
  "SCROLL"; "SEARCH"; "SECOND"; "SECTION"; "SEGMENT"; "SEGMENTS"; "SELECT"; "SELF"; "SEMI";
  "SENSITIVE"; "SEPARATE"; "SEQUENCE"; "SERIALIZABLE"; "SESSION"; "SET"; "SETS"; "SHARD";
  "SHARE"; "SHARED"; "SHORT"; "SHOW"; "SIGNAL"; "SIMILAR"; "SIZE"; "SKEWED"; "SMALLINT";
  "SNAPSHOT"; "SOME"; "SOURCE"; "SPACE"; "SPACES"; "SPARSE"; "SPECIFIC"; "SPECIFICTYPE"; "SPLIT";
  "SQL"; "SQLCODE"; "SQLERROR"; "SQLEXCEPTION"; "SQLSTATE"; "SQLWARNING"; "START"; "STATE";
  "STATIC"; "STATUS"; "STORAGE"; "STORE"; "STORED"; "STREAM"; "STRING"; "STRUCT"; "STYLE"; "SUB";
  "SUBMULTISET"; "SUBPARTITION"; "SUBSTRING"; "SUBTYPE"; "SUM"; "SUPER"; "SYMMETRIC"; "SYNONYM";
  "SYSTEM"; "TABLE"; "TABLESAMPLE"; "TEMP"; "TEMPORARY"; "TERMINATED"; "TEXT"; "THAN"; "THEN";
  "THROUGHPUT"; "TIME"; "TIMESTAMP"; "TIMEZONE"; "TINYINT"; "TO"; "TOKEN"; "TOTAL"; "TOUCH";
  "TRAILING"; "TRANSACTION"; "TRANSFORM"; "TRANSLATE"; "TRANSLATION"; "TREAT"; "TRIGGER"; "TRIM";
  "TRUE"; "TRUNCATE"; "TTL"; "TUPLE"; "TYPE"; "UNDER"; "UNDO"; "UNION"; "UNIQUE"; "UNIT";
  "UNKNOWN"; "UNLOGGED"; "UNNEST"; "UNPROCESSED"; "UNSIGNED"; "UNTIL"; "UPDATE"; "UPPER"; "URL";
  "USAGE"; "USE"; "USER"; "USERS"; "USING"; "UUID"; "VACUUM"; "VALUE"; "VALUED"; "VALUES";
  "VARCHAR"; "VARIABLE"; "VARIANCE"; "VARINT"; "VARYING"; "VIEW"; "VIEWS"; "VIRTUAL"; "VOID";
  "WAIT"; "WHEN"; "WHENEVER"; "WHERE"; "WHILE"; "WINDOW"; "WITH"; "WITHIN"; "WITHOUT"; "WORK";
  "WRAPPED"; "WRITE"; "YEAR"; "ZONE"
].

Definition reservedWord (w : string) : bool := bool_decide (to_upper w ∈ reservedList).

(** ** The environment of a request *)

Record Env := mkEnv {
  Names : gmap string string;    (* "#n" -> attribute name *)
  Values : gmap string Value;    (* ":v" -> value *)
  usedN : gset string;
  usedV : gset string
}.

Definition NewEnv (names : gmap string string) (values : gmap string Value) : Env :=
  mkEnv names values ∅ ∅.

Definition useName (ref : string) (e : Env) : Env :=
  mkEnv (Names e) (Values e) ({[ ref ]} ∪ usedN e) (usedV e).
Definition useValue (ref : string) (e : Env) : Env :=
  mkEnv (Names e) (Values e) (usedN e) ({[ ref ]} ∪ usedV e).

(** Any reference left unused is the error: the two loops stop at the first. *)
Definition CheckAllUsed (e : Env) : option APIError :=
  if negb (bool_decide (dom (Names e) ⊆ usedN e)) then
    Some (errValidation "Value provided in ExpressionAttributeNames unused in expressions: keys: {%s}")
  else if negb (bool_decide (dom (Values e) ⊆ usedV e)) then
    Some (errValidation "Value provided in ExpressionAttributeValues unused in expressions: keys: {%s}")
  else None.

(** ** The cursor *)

Record parser := mkParser { toks : list token; pos : nat; env : Env; what : string }.

(** What a parsing function answers: a value and the moved cursor, an error, a panic,
    or no answer yet. *)
Inductive presult (A : Type) : Type :=
| PDone (a : A) (p : parser)
| PErr (e : APIError)
| PPanic
| PFuel.
Arguments PDone {_} _ _.
Arguments PErr {_} _.
Arguments PPanic {_}.
Arguments PFuel {_}.

Definition P (A : Type) : Type := parser -> presult A.

#[global] Instance P_ret : MRet P := fun _ a p => PDone a p.
#[global] Instance P_bind : MBind P := fun _ _ f m p =>
  match m p with
  | PDone a p' => f a p'
  | PErr e => PErr e
  | PPanic => PPanic
  | PFuel => PFuel
  end.

Definition fail {A} (e : APIError) : P A := fun _ => PErr e.
Definition out_of_fuel {A} : P A := fun _ => PFuel.

Definition peek : P token := fun p =>
  match toks p !! pos p with Some t => PDone t p | None => PPanic end.

Definition move (n : nat) (p : parser) : parser := mkParser (toks p) n (env p) (what p).

Definition next : P token := fun p =>
  match toks p !! pos p with Some t => PDone t (move (S (pos p)) p) | None => PPanic end.

Definition backup : P unit := fun p => PDone tt (move (pos p - 1) p).

Definition atEOF : P bool := t ← peek; mret (bool_decide (kind t = tokEOF)).

Definition expect (k : tokKind) (what : string) : P token :=
  t ← next;
  if decide (kind t = k) then mret t
  else fail (errSyntax "expected %s at offset %d, got %q").

(** The first of [words] the next identifier is, in any case; consumed if so. *)
Definition keyword (words : list string) : P (option string) :=
  t ← peek;
  if decide (kind t = tokIdent) then
    if existsb (equal_fold (text t)) words then _ ← next; mret (Some (to_upper (text t)))
    else mret None
  else mret None.

Definition bareName (t : token) : P unit :=
  if reservedWord (text t) then
    fail (errValidation "Invalid %s: Attribute name is a reserved keyword; reserved keyword: %s")
  else mret tt.

Definition resolveName (ref : string) : P string := fun p =>
  match Names (env p) !! ref with
  | Some name => PDone name (mkParser (toks p) (pos p) (useName ref (env p)) (what p))
  | None => PErr (errSyntax "expression attribute name %s is not defined")
  end.

Definition resolveValue (ref : string) : P Value := fun p =>
  match Values (env p) !! ref with
  | Some v => PDone v (mkParser (toks p) (pos p) (useValue ref (env p)) (what p))
  | None => PErr (errSyntax "expression attribute value %s is not defined")
  end.

(** Runs a grammar on an expression's source; the request's environment comes back
    with its used sets grown. *)
Definition run {A} (m : P A) (src : string) (e : Env) (what : string) : outcome (A * Env) :=
  match lex_tokens src with
  | Err err => Ret (Err err)
  | Ok ts =>
      match m (mkParser ts 0 e what) with
      | PDone a p => Ret (Ok (a, env p))
      | PErr err => Ret (Err err)
      | PPanic => Panic
      | PFuel => OutOfFuel
      end
  end.

(** ** Tokens tile the source *)

Fixpoint all_chars (p : ascii -> bool) (s : string) : bool :=
  match s with EmptyString => true | String c s' => p c && all_chars p s' end.

Definition is_ref_text (mark : ascii) (t : string) : bool :=
  match t with
  | String c (String d t') => Ascii.eqb c mark && isIdentChar d && all_chars isIdentChar t'
  | _ => false
  end.

(** The texts each kind of token has. *)
Definition token_text (k : tokKind) (t : string) : bool :=
  match k with
  | tokEOF => String.eqb t ""
  | tokIdent => match t with String c t' => isIdentStart c && all_chars isIdentChar t' | _ => false end
  | tokNameRef => is_ref_text "#" t
  | tokValueRef => is_ref_text ":" t
  | tokCompare => existsb (String.eqb t) ["="; "<>"; "<"; "<="; ">"; ">="]
  | tokNumber => match t with String c t' => isNumberChar c && all_chars isNumberChar t' | _ => false end
  | tokLParen => String.eqb t "("
  | tokRParen => String.eqb t ")"
  | tokComma => String.eqb t ","
  | tokDot => String.eqb t "."
  | tokLBracket => String.eqb t "["
  | tokRBracket => String.eqb t "]"
  | tokPlus => String.eqb t "+"
  | tokMinus => String.eqb t "-"
  end.

(** [tiles i s ts]: from offset [i], [s] is the texts of [ts] in order with only white
    space between them, each token at its offset, and [ts] ends with the one [tokEOF]. *)
Inductive tiles : Z -> string -> list token -> Prop :=
| tiles_eof i : tiles i "" [mkToken tokEOF "" i]
| tiles_space i c s ts : is_space c = true -> tiles (i + 1) s ts -> tiles i (String c s) ts
| tiles_token i k t s ts :
    k <> tokEOF -> token_text k t = true -> tiles (i + slen t) s ts ->
    tiles i (t +:+ s) (mkToken k t i :: ts).

Definition lex_errors : list APIError :=
  [errSyntax "dangling # at offset %d"; errSyntax "dangling : at offset %d";
   errSyntax "unexpected character %q at offset %d"].

Lemma span_spec p s a b : span p s = (a, b) -> s = a +:+ b /\ all_chars p a = true.
Proof.
  revert a b; induction s as [|c s IH]; intros a b; simpl; [by intros [= <- <-]|].
  destruct (p c) eqn:E; [|by intros [= <- <-]]. destruct (span p s) as [x y].
  intros [= <- <-]. destruct (IH x y eq_refl) as [-> Hx]. simpl. by rewrite E, Hx.
Qed.

Lemma punctuation_spec c k : punctuation c = Some k -> k <> tokEOF /\ token_text k (String c "") = true.
Proof.
  unfold punctuation. repeat (case_goal; [intros [= <-]; split; [done|];
    match goal with H : Ascii.eqb c _ = true |- _ => apply Ascii.eqb_eq in H as -> end; done|]). done.
Qed.

Lemma span_keeps_head p c s a b :
  span p (String c s) = (a, b) -> p c = true ->
  exists a', a = String c a' /\ String c s = a +:+ b /\ all_chars p a' = true.
Proof.
  intros H Hc. destruct (span_spec _ _ _ _ H) as [E Ha]. simpl in H. rewrite Hc in H.
  destruct (span p s) as [x y]. injection H as <- <-. simpl in Ha. rewrite Hc in Ha. eauto.
Qed.

Lemma scan_spec c s k t rest :
  scan c s = Ok (k, t, rest) -> String c s = t +:+ rest /\ k <> tokEOF /\ token_text k t = true.
Proof.
  unfold scan. destruct (punctuation c) eqn:Hp.
  { intros [= -> <- <-]. by apply punctuation_spec in Hp. }
  destruct (Ascii.eqb_spec c "<") as [->|_].
  { destruct s as [|d s]; [by intros [= <- <- <-]|].
    destruct (Ascii.eqb_spec d ">") as [->|_]; [by intros [= <- <- <-]|].
    by destruct (Ascii.eqb_spec d "=") as [->|_]; intros [= <- <- <-]. }
  destruct (Ascii.eqb_spec c ">") as [->|_].
  { destruct s as [|d s]; [by intros [= <- <- <-]|].
    by destruct (Ascii.eqb_spec d "=") as [->|_]; intros [= <- <- <-]. }
  destruct (Ascii.eqb_spec c "#") as [->|_].
  { destruct (span _ s) as [[|d a] b] eqn:Hs; [done|]. intros [= <- <- <-].
    by apply span_spec in Hs as [-> Ha]. }
  destruct (Ascii.eqb_spec c ":") as [->|_].
  { destruct (span _ s) as [[|d a] b] eqn:Hs; [done|]. intros [= <- <- <-].
    by apply span_spec in Hs as [-> Ha]. }
  destruct (isNumberChar c) eqn:Hn.
  { destruct (span _ (String c s)) as [a b] eqn:Hs. intros [= <- <- <-].
    destruct (span_keeps_head _ _ _ _ _ Hs Hn) as (a' & -> & E & Ha). simpl. by rewrite Hn. }
  destruct (isIdentStart c) eqn:Hi; [|done].
  destruct (span _ (String c s)) as [a b] eqn:Hs. intros [= <- <- <-].
  destruct (span_keeps_head _ _ _ _ _ Hs) as (a' & -> & E & Ha); [unfold isIdentChar; by rewrite Hi|].
  simpl. by rewrite Hi.
Qed.

Lemma scan_error c s e : scan c s = Err e -> e ∈ lex_errors.
Proof. unfold scan, lex_errors. repeat case_goal; try done; intros [= <-]; set_solver. Qed.

Lemma token_text_nonempty k t : k <> tokEOF -> token_text k t = true -> (0 < String.length t)%nat.
Proof. destruct k, t; simpl; try done; lia. Qed.

Lemma lex_loop_spec fuel i s :
  (String.length s <= fuel)%nat ->
  match lex_loop fuel i s with Ok ts => tiles i s ts | Err e => e ∈ lex_errors end.
Proof.
  revert i s; induction fuel as [|fuel IH]; intros i [|c s] Hf; simpl in *; try constructor; try lia.
  destruct (is_space c) eqn:Hsp.
  { specialize (IH (i + 1) s). destruct (lex_loop fuel (i + 1) s); [constructor; [done|]|]; apply IH; lia. }
  destruct (scan c s) as [[[k t] rest]|e] eqn:Hs; simpl; [|by eapply scan_error].
  apply scan_spec in Hs as (E & Hk & Ht). pose proof (token_text_nonempty k t Hk Ht).
  assert (String.length rest <= fuel)%nat as Hr.
  { apply (f_equal String.length) in E. rewrite string_length_app in E. simpl in E. lia. }
  specialize (IH (i + slen t) rest Hr). destruct (lex_loop fuel _ rest); simpl; [|done].
  rewrite E. by constructor.
Qed.

(** ** What parsing functions do to the cursor

    [consumed n p]: [p] after reading [n] tokens, every reference among them marked
    used.  [parses k m]: from any valid cursor, [m] answers an error, or a value
    having consumed at least [k] tokens and left a valid cursor; it neither panics
    nor runs out of fuel. *)

Definition mark (t : token) (e : Env) : Env :=
  match kind t with
  | tokNameRef => useName (text t) e
  | tokValueRef => useValue (text t) e
  | _ => e
  end.

Definition marks (ts : list token) (e : Env) : Env := foldl (fun e t => mark t e) e ts.

Definition consumed (n : nat) (p : parser) : parser :=
  mkParser (toks p) (pos p + n) (marks (take n (drop (pos p) (toks p))) (env p)) (what p).

Definition valid (p : parser) : Prop :=
  (pos p < length (toks p))%nat /\ exists t, last (toks p) = Some t /\ kind t = tokEOF.

Definition remaining (p : parser) : nat := length (toks p) - pos p.

Definition parses_at {A} (k : nat) (m : P A) (p : parser) : Prop :=
  match m p with
  | PDone _ p' => exists n, (k <= n)%nat /\ p' = consumed n p /\ valid p'
  | PErr _ => True
  | PPanic | PFuel => False
  end.

Definition parses {A} (k : nat) (m : P A) : Prop := forall p, valid p -> parses_at k m p.

Lemma consumed_0 p : consumed 0 p = p.
Proof. destruct p. unfold consumed. simpl. by rewrite Nat.add_0_r. Qed.

Lemma consumed_plus n k p : consumed n (consumed k p) = consumed (k + n) p.
Proof.
  unfold consumed. simpl. f_equal; [lia|]. unfold marks. rewrite <- foldl_app. f_equal.
  by rewrite <- drop_drop, take_take_drop.
Qed.

Lemma remaining_consumed n p : remaining (consumed n p) = (remaining p - n)%nat.
Proof. unfold remaining, consumed. simpl. lia. Qed.

Lemma valid_peek p : valid p -> exists t, toks p !! pos p = Some t.
Proof. intros [H _]. by apply lookup_lt_is_Some_2. Qed.

Lemma valid_remaining p : valid p -> (0 < remaining p)%nat.
Proof. intros [H _]. unfold remaining. lia. Qed.

Lemma consumed_one p t : toks p !! pos p = Some t ->
  consumed 1 p = mkParser (toks p) (S (pos p)) (mark t (env p)) (what p).
Proof.
  intros H. unfold consumed. rewrite Nat.add_1_r. f_equal.
  apply drop_S in H as ->. done.
Qed.

Lemma valid_next p t :
  valid p -> toks p !! pos p = Some t -> kind t <> tokEOF -> valid (consumed 1 p).
Proof.
  intros [Hp (e & He & Hk)] Ht Hn. unfold consumed. split; [simpl|by exists e].
  rewrite last_lookup in He. destruct (decide (pos p = pred (length (toks p)))) as [E|]; [|lia].
  rewrite <- E, Ht in He. congruence.
Qed.

(** A sequence of parsing functions. *)
Lemma parses_at_bind {A B} k j (m : P A) (f : A -> P B) p :
  parses_at k m p ->
  (forall a n, (k <= n)%nat -> m p = PDone a (consumed n p) -> valid (consumed n p) ->
    parses_at j (f a) (consumed n p)) ->
  parses_at (k + j) (m ≫= f) p.
Proof.
  unfold parses_at, mbind, P_bind. intros Hm Hf. destruct (m p) as [a p'|e| |] eqn:E; try done.
  destruct Hm as (n & Hn & -> & Hv). specialize (Hf a n Hn eq_refl Hv).
  destruct (f a (consumed n p)) as [b p'|e| |]; try done.
  destruct Hf as (n' & Hn' & -> & Hv'). exists (n + n')%nat. split; [lia|].
  by rewrite <- consumed_plus.
Qed.

Lemma parses_at_weaken {A} k j (m : P A) p : (j <= k)%nat -> parses_at k m p -> parses_at j m p.
Proof.
  intros H. unfold parses_at. destruct (m p); try done. intros (n & ? & ? & ?). exists n.
  split; [lia|done].
Qed.

Lemma parses_ret {A} (a : A) : parses 0 (mret a).
Proof. intros p Hp. exists 0%nat. by rewrite consumed_0. Qed.

Lemma parses_fail {A} k e : parses k (fail e : P A).
Proof. by intros p Hp. Qed.

(** Reading the token under the cursor, with what is then known of it. *)
Lemma parses_peek {B} k (f : token -> P B) p :
  valid p -> (forall t, toks p !! pos p = Some t -> parses_at k (f t) p) -> parses_at k (peek ≫= f) p.
Proof.
  intros Hp Hf. destruct (valid_peek p Hp) as [t Ht]. specialize (Hf t Ht). revert Hf.
  unfold parses_at, mbind, P_bind, peek. by rewrite Ht.
Qed.

(** [next] is one consumed token when the token is no reference. *)
Definition plain_kind (k : tokKind) : bool :=
  match k with tokEOF | tokNameRef | tokValueRef => false | _ => true end.

Lemma next_plain p t :
  toks p !! pos p = Some t -> plain_kind (kind t) = true -> next p = PDone t (consumed 1 p).
Proof.
  intros Ht Hk. unfold next. rewrite Ht, (consumed_one p t Ht). unfold move, mark.
  by destruct (kind t).
Qed.

Lemma PDone_inj {A} (a b : A) p q : PDone a p = PDone b q -> a = b /\ p = q.
Proof. by intros [= -> ->]. Qed.

Lemma parses_next {B} k (f : token -> P B) p t :
  valid p -> toks p !! pos p = Some t -> plain_kind (kind t) = true ->
  parses_at k (f t) (consumed 1 p) -> parses_at (S k) (next ≫= f) p.
Proof.
  intros Hp Ht Hk Hf. apply (parses_at_bind 1 k).
  - unfold parses_at. rewrite (next_plain p t Ht Hk). exists 1%nat. split; [done|]. split; [done|].
    apply (valid_next p t); [done..|]. by destruct (kind t).
  - intros a n _ Ha _. rewrite (next_plain p t Ht Hk) in Ha. by apply PDone_inj in Ha as [<- <-].
Qed.

Lemma parses_expect k w : plain_kind k = true -> parses 1 (expect k w).
Proof.
  intros Hk p Hp. unfold expect. destruct (valid_peek p Hp) as [t Ht].
  unfold parses_at, mbind, P_bind. destruct (decide (kind t = k)) as [<-|Hn].
  - rewrite (next_plain p t Ht Hk), decide_True by done. exists 1%nat. split; [done|]. split; [done|].
    apply (valid_next p t); [done..|]. by destruct (kind t).
  - unfold next. rewrite Ht, decide_False by done. done.
Qed.

(** [keyword] consumes the word it finds, and nothing otherwise. *)
Lemma keyword_spec ws p :
  valid p ->
  keyword ws p = PDone None p \/
  exists w, keyword ws p = PDone (Some w) (consumed 1 p) /\ valid (consumed 1 p).
Proof.
  intros Hp. destruct (valid_peek p Hp) as [t Ht].
  unfold keyword, mbind, P_bind, peek. rewrite Ht. destruct (decide _) as [Hk|_]; [|by left].
  destruct (existsb _ ws); [|by left]. right. exists (to_upper (text t)).
  rewrite (next_plain p t Ht) by (by rewrite Hk). split; [done|].
  apply (valid_next p t); [done..|by rewrite Hk].
Qed.

Lemma parses_keyword {B} k ws (f : option string -> P B) p :
  valid p ->
  parses_at k (f None) p ->
  (forall w, valid (consumed 1 p) -> parses_at (k - 1) (f (Some w)) (consumed 1 p)) ->
  parses_at k (keyword ws ≫= f) p.
Proof.
  intros Hp Hnone Hsome. unfold parses_at, mbind, P_bind.
  destruct (keyword_spec ws p Hp) as [->|(w & -> & Hv)]; [done|].
  specialize (Hsome w Hv). unfold parses_at in Hsome.
  destruct (f _ (consumed 1 p)) as [b p'|e| |]; try done.
  destruct Hsome as (n & Hn & -> & Hv'). exists (S n). split; [lia|].
  by rewrite consumed_plus in *.
Qed.

Lemma parses_bareName t : parses 0 (bareName t).
Proof. unfold bareName. destruct (reservedWord _); [apply parses_fail|apply parses_ret]. Qed.

(** Reading a reference and resolving it marks it used: one consumed token. *)
Lemma resolveName_next p t :
  valid p -> toks p !! pos p = Some t -> kind t = tokNameRef ->
  parses_at 1 (_ ← next; resolveName (text t)) p.
Proof.
  intros Hp Ht Hk. unfold parses_at, mbind, P_bind, next, resolveName. rewrite Ht. simpl.
  destruct (Names (env p) !! text t) as [s|]; [|done]. exists 1%nat. split; [done|].
  pose proof (valid_next p t Hp Ht) as Hv. rewrite (consumed_one p t Ht) in *. unfold mark in *.
  rewrite Hk in *. split; [done|]. by apply Hv.
Qed.

Lemma resolveValue_next p t :
  valid p -> toks p !! pos p = Some t -> kind t = tokValueRef ->
  parses_at 1 (_ ← next; resolveValue (text t)) p.
Proof.
  intros Hp Ht Hk. unfold parses_at, mbind, P_bind, next, resolveValue. rewrite Ht. simpl.
  destruct (Values (env p) !! text t) as [s|]; [|done]. exists 1%nat. split; [done|].
  pose proof (valid_next p t Hp Ht) as Hv. rewrite (consumed_one p t Ht) in *. unfold mark in *.
  rewrite Hk in *. split; [done|]. by apply Hv.
Qed.

(** ** Running a whole grammar *)

Lemma tiles_end i s ts : tiles i s ts -> exists t, last ts = Some t /\ kind t = tokEOF.
Proof.
  induction 1 as [| |? ? ? ? ts ? ? ? (t & Ht & Hk)]; [by eexists|done|]. exists t.
  by destruct ts.
Qed.

(** Only the last token is the end of the expression. *)
Lemma tiles_eof_last i s ts n t :
  tiles i s ts -> ts !! n = Some t -> kind t = tokEOF -> S n = length ts.
Proof.
  intros H. revert n. induction H as [| |? k tx ? ts Hk ? ? IH]; intros n.
  - by destruct n.
  - eauto.
  - destruct n as [|n]; [by intros [= <-]|]. intros Hn Ht. simpl. f_equal. by apply IH.
Qed.

Lemma lex_tokens_tiles src :
  match lex_tokens src with Ok ts => tiles 0 src ts | Err e => e ∈ lex_errors end.
Proof. by apply lex_loop_spec. Qed.

Definition parse_all {A} (m : P A) (err : APIError) : P A :=
  a ← m;
  e ← atEOF;
  if e : bool then mret a else fail err.

Lemma mark_eof t e : kind t = tokEOF -> mark t e = e.
Proof. unfold mark. by intros ->. Qed.

(** A grammar that reads up to the end of the source, or answers an error. *)
Definition ends {A} (m : P A) : Prop := forall p, valid p ->
  match m p with
  | PDone _ p' => exists n t, p' = consumed n p /\ toks p !! (pos p + n)%nat = Some t /\ kind t = tokEOF
  | PErr _ => True
  | PPanic | PFuel => False
  end.

Lemma ends_parse_all {A} k (m : P A) err : parses k m -> ends (parse_all m err).
Proof.
  intros Hm p Hp. specialize (Hm p Hp). unfold parse_all, parses_at, mbind, P_bind in *.
  destruct (m p) as [a p'| | |]; try done. destruct Hm as (n & _ & -> & Hv).
  destruct (valid_peek _ Hv) as [t Hn]. unfold atEOF, mbind, P_bind, peek. rewrite Hn. simpl.
  case_bool_decide as Hk; [|done]. by exists n, t.
Qed.

(** Run on a source it answers a tree or an error, never a panic, and with a tree every
    reference of the source is marked used. *)
Lemma run_ends {A} (m : P A) src e what :
  ends m ->
  match run m src e what with
  | Ret (Ok (_, e')) => exists ts, lex_tokens src = Ok ts /\ e' = marks ts e
  | Ret (Err _) => True
  | Panic | OutOfFuel => False
  end.
Proof.
  intros Hm. unfold run. pose proof (lex_tokens_tiles src) as Ht.
  destruct (lex_tokens src) as [ts|]; [|done]. set (p := mkParser ts 0 e what).
  assert (valid p) as Hp.
  { pose proof (tiles_end _ _ _ Ht) as He. split; [|done]. simpl.
    destruct He as (t & He & _). destruct ts; [done|simpl; lia]. }
  specialize (Hm p Hp). destruct (m p) as [a p'| | |]; try done.
  destruct Hm as (n & t & -> & Hn & Hk). exists ts. split; [done|].
  assert (S n = length ts) as Hl by (by eapply tiles_eof_last).
  simpl. rewrite drop_0. assert (ts = take n ts ++ [t]) as E.
  { rewrite <- (take_drop n ts) at 1. f_equal. rewrite (drop_S ts t n Hn).
    by rewrite drop_ge by lia. }
  rewrite E at 2. unfold marks. rewrite foldl_app. simpl. by rewrite mark_eof.
Qed.

(** Some reference token of the expression has this kind and text. *)
Definition mentions (k : tokKind) (r : string) (ts : list token) : Prop :=
  Exists (fun t => kind t = k /\ text t = r) ts.

(** The unused-reference check after such a run: it passes exactly when every name and
    value of the request was used before or appears in this source. *)
Definition unused_check (src : string) (e e' : Env) : Prop :=
  exists ts, lex_tokens src = Ok ts /\
    (CheckAllUsed e' = None <->
     (forall r, r ∈ dom (Names e) -> r ∈ usedN e \/ mentions tokNameRef r ts) /\
     (forall r, r ∈ dom (Values e) -> r ∈ usedV e \/ mentions tokValueRef r ts)).

Lemma mark_used t e :
  Names (mark t e) = Names e /\ Values (mark t e) = Values e /\
  (forall r, r ∈ usedN (mark t e) <-> r ∈ usedN e \/ kind t = tokNameRef /\ text t = r) /\
  (forall r, r ∈ usedV (mark t e) <-> r ∈ usedV e \/ kind t = tokValueRef /\ text t = r).
Proof.
  unfold mark. destruct (kind t); simpl; repeat split; intros; try set_solver by intuition congruence;
    rewrite ?elem_of_union, ?elem_of_singleton in *; intuition congruence.
Qed.

Lemma marks_used ts e :
  Names (marks ts e) = Names e /\ Values (marks ts e) = Values e /\
  (forall r, r ∈ usedN (marks ts e) <-> r ∈ usedN e \/ mentions tokNameRef r ts) /\
  (forall r, r ∈ usedV (marks ts e) <-> r ∈ usedV e \/ mentions tokValueRef r ts).
Proof.
  unfold mentions. revert e; induction ts as [|t ts IH]; intros e.
  { change (marks [] e) with e. setoid_rewrite Exists_nil. tauto. }
  change (marks (t :: ts) e) with (marks ts (mark t e)).
  destruct (IH (mark t e)) as (-> & -> & HN & HV). destruct (mark_used t e) as (-> & -> & MN & MV).
  split; [done|]. split; [done|].
  split; intros r; rewrite Exists_cons; [rewrite HN, MN|rewrite HV, MV]; tauto.
Qed.

Lemma run_unused {A} (m : P A) src e what :
  ends m ->
  match run m src e what with
  | Ret (Ok (_, e')) => unused_check src e e'
  | Ret (Err _) => True
  | Panic | OutOfFuel => False
  end.
Proof.
  intros Hm. pose proof (run_ends m src e what Hm) as H.
  destruct (run _ _ _ _) as [[[c e']|]| |]; try done. destruct H as (ts & Hl & ->).
  exists ts. split; [done|]. destruct (marks_used ts e) as (EN & EV & HN & HV).
  unfold CheckAllUsed. rewrite EN, EV. setoid_rewrite <- HN. setoid_rewrite <- HV.
  rewrite <- !elem_of_subseteq. do 2 (case_bool_decide; simpl; [|by split; [done|intros [? ?]]]).
  tauto.
Qed.

(** The lexer loses and invents nothing: the tokens of a source are its bytes in order,
    cut at token boundaries with only white space left out, each at its offset and with a
    text its kind allows, and the end token last; otherwise the answer is one of the three
    lexical errors. *)
Lemma lex_tiles src :
  match lex_tokens src with Ok ts => tiles 0 src ts | Err e => e ∈ lex_errors end.
Proof. apply lex_tokens_tiles. Qed.
