(* ===== verification/Path.v ===== *)
(** * Path: document paths

    Model of src/internal/ddb/expr/path.go: parsing a path, printing it and reading
    the value it names.  Writing through a path mutates shared maps and slices; that
    half is in Heap.v, over a store. *)

From stdpp Require Import pretty.
From S2P Require Import Prelude Decimal Item Lexer.

(** A step is an attribute name, or a list index when [attr] is empty. *)
Record pathSeg := mkSeg { attr : string; index : Z }.

#[global] Instance pathSeg_eq_dec : EqDecision pathSeg.
Proof. solve_decision. Defined.

Abbreviation Path := (list pathSeg).

Definition is_attr (s : pathSeg) : bool := negb (String.eqb (attr s) "").

(** [Path.Root]; [None] is the index panic on an empty path. *)
Definition Root (p : Path) : option string := attr <$> head p.

Definition seg_text (first : bool) (s : pathSeg) : string :=
  if negb (is_attr s) then "[" +:+ pretty (Z.to_N (index s)) +:+ "]"
  else if first then attr s else "." +:+ attr s.

Fixpoint path_text (first : bool) (p : Path) : string :=
  match p with [] => "" | s :: p' => seg_text first s +:+ path_text false p' end.

Definition path_String (p : Path) : string := path_text true p.

(** ** Parsing *)

(** [strconv.Atoi] on digits, its error ignored: it saturates. *)
Fixpoint atoi_loop (acc : Z) (s : string) : Z :=
  match s with EmptyString => acc | String c s' => atoi_loop (acc * 10 + dval c) s' end.
Definition atoi (s : string) : Z := Z.min (atoi_loop 0 s) (2 ^ 63 - 1).

Definition parsePathHead : P pathSeg :=
  t ← next;
  match kind t with
  | tokIdent => _ ← bareName t; mret (mkSeg (text t) 0)
  | tokNameRef => name ← resolveName (text t); mret (mkSeg name 0)
  | _ => fail (errSyntax "expected an attribute name at offset %d, got %s")
  end.

Fixpoint parsePath_loop (fuel : nat) (segs : Path) : P Path :=
  match fuel with
  | O => out_of_fuel
  | S fuel' =>
      t ← peek;
      match kind t with
      | tokDot =>
          _ ← next;
          seg ← parsePathHead;
          parsePath_loop fuel' (segs ++ [seg])
      | tokLBracket =>
          _ ← next;
          numTok ← expect tokNumber "a list index";
          _ ← expect tokRBracket "]";
          parsePath_loop fuel' (segs ++ [mkSeg "" (atoi (text numTok))])
      | _ => mret segs
      end
  end.

(** Every round consumes tokens, so the rounds are no more than the tokens. *)
Definition parsePath : P Path := fun p =>
  (seg ← parsePathHead; parsePath_loop (length (toks p)) [seg]) p.

(** ** Reading *)

(** The value under [cur] that the remaining steps name. *)
Fixpoint get_from (cur : Value) (segs : Path) : option Value :=
  match segs with
  | [] => Some cur
  | seg :: segs' =>
      if is_attr seg then
        match cur with
        | VM m => match m !! attr seg with Some v => get_from v segs' | None => None end
        | _ => None
        end
      else
        match cur with
        | VL l =>
            if (index seg <? 0) || (index seg >=? zlen l) then None
            else match l !! Z.to_nat (index seg) with Some v => get_from v segs' | None => None end
        | _ => None
        end
  end.

Definition Get (p : Path) (it : Item) : option Value :=
  match p with
  | [] => None
  | seg :: segs =>
      match it !! attr seg with Some cur => get_from cur segs | None => None end
  end.

(** ** Parsing never panics *)

Lemma parses_head : parses 1 parsePathHead.
Proof.
  intros p Hp. destruct (valid_peek p Hp) as [t Ht].
  assert (parses_at 1 (_ ← next; resolveName (text t)) p \/ kind t <> tokNameRef) as HN.
  { destruct (decide (kind t = tokNameRef)); [left|by right]. by apply resolveName_next. }
  unfold parsePathHead.
  destruct (kind t) eqn:Hk; try (unfold parses_at, mbind, P_bind, next; by rewrite Ht, Hk).
  - apply (parses_next 0 _ p t); [done|done|by rewrite Hk|]. rewrite Hk.
    apply (parses_at_bind 0 0).
    + apply parses_bareName. apply (valid_next p t); [done..|by rewrite Hk].
    + intros; by apply parses_ret.
  - destruct HN as [HN|]; [|done]. unfold parses_at, mbind, P_bind, next in *. rewrite Ht in *.
    rewrite Hk. by destruct (resolveName (text t) _).
Qed.

Lemma parses_loop fuel segs p :
  valid p -> (remaining p <= fuel)%nat -> parses_at 0 (parsePath_loop fuel segs) p.
Proof.
  revert segs p; induction fuel as [|fuel IH]; intros segs p Hp Hf.
  { pose proof (valid_remaining p Hp). lia. }
  cbn [parsePath_loop]. apply parses_peek; [done|]. intros t Ht.
  destruct (kind t) eqn:Hk; try by apply parses_ret.
  - apply (parses_at_weaken 1); [lia|]. eapply parses_next; [done..|by rewrite Hk|].
    assert (valid (consumed 1 p)) as Hv by (apply (valid_next p t); [done..|by rewrite Hk]).
    apply (parses_at_weaken (1 + 0)); [lia|].
    apply parses_at_bind; [by apply parses_head|]. intros seg n Hn _ Hv'.
    apply IH; [done|]. rewrite !remaining_consumed. lia.
  - apply (parses_at_weaken 1); [lia|]. eapply parses_next; [done..|by rewrite Hk|].
    assert (valid (consumed 1 p)) as Hv by (apply (valid_next p t); [done..|by rewrite Hk]).
    apply (parses_at_weaken (1 + (1 + 0))); [lia|].
    apply parses_at_bind; [by apply parses_expect|]. intros t1 n Hn _ Hv1.
    apply parses_at_bind; [by apply parses_expect|]. intros t2 n2 Hn2 _ Hv2.
    apply IH; [done|]. rewrite !remaining_consumed. lia.
Qed.

Lemma parses_path : parses 1 parsePath.
Proof.
  intros p Hp. unfold parsePath, parses_at. apply (parses_at_bind 1 0); [by apply parses_head|].
  intros seg n Hn _ Hv. apply parses_loop; [done|]. unfold remaining. simpl. lia.
Qed.
