(* ===== verification/Cond.v ===== *)
(** * Cond: condition and filter expressions

    Model of src/internal/ddb/expr/cond.go: the grammar OR > AND > NOT > primary, its
    operands, and the evaluation of the parsed tree against an item. *)

From S2P Require Import Prelude Decimal Item Lexer Path.

(** ** Operands *)

Inductive operand :=
| pathOperand (path : Path)
| valueOperand (ref : string) (v : Value)
| sizeOperand (path : Path).

Definition describe (o : operand) : string :=
  match o with
  | pathOperand path => path_String path
  | valueOperand ref _ => ref
  | sizeOperand path => "size(" +:+ path_String path +:+ ")"
  end.

(** [itoa] of cond.go: digits of a length, in a 12-byte buffer. *)
Definition cond_itoa (n : Z) : string :=
  if n =? 0 then "0" else String.string_of_list_ascii (itoa_loop 12 n []).

(** What [size] measures, where it is defined. *)
Definition value_count (v : Value) : option Z :=
  match v with
  | VS s | VB s => Some (slen s)
  | VL l => Some (zlen l)
  | VM m => Some (Z.of_nat (size m))
  | VSS l | VBS l => Some (zlen l)
  | VNS l => Some (zlen l)
  | _ => None
  end.

Definition number_of (n : Z) : Decimal :=
  match ParseDecimal (cond_itoa n) with Ok d => d | Err _ => Zero end.

(** The operand's value, or its absence. *)
Definition operand_value (o : operand) (it : Item) : result (option Value) :=
  match o with
  | pathOperand path => Ok (Get path it)
  | valueOperand _ v => Ok (Some v)
  | sizeOperand path =>
      match Get path it with
      | None => Ok None
      | Some v =>
          match value_count v with
          | Some n => Ok (Some (VN (number_of n)))
          | None => Err (errSyntax "size() is not defined for type %s")
          end
      end
  end.

Definition parseOperand : P operand :=
  t ← peek;
  let asPath := (path ← parsePath; mret (pathOperand path)) in
  match kind t with
  | tokValueRef =>
      _ ← next;
      v ← resolveValue (text t);
      mret (valueOperand (text t) v)
  | tokIdent =>
      if equal_fold (text t) "size" then
        _ ← next;
        t2 ← peek;
        if decide (kind t2 = tokLParen) then
          _ ← next;
          path ← parsePath;
          _ ← expect tokRParen ")";
          mret (sizeOperand path)
        else
          _ ← backup; (* plain attribute actually named "size" *)
          asPath
      else asPath
  | tokNameRef => asPath
  | _ => fail (errSyntax "expected an operand at offset %d, got %s")
  end.

(** ** The tree *)

(** A function without a second argument is [existsNode], the others [funcNode]: the
    code's one node type with its [arg] nil or not. *)
Inductive condNode :=
| andNode (l r : condNode)
| orNode (l r : condNode)
| notNode (inner : condNode)
| groupNode (inner : condNode)
| cmpNode (op : string) (left right : operand)
| betweenNode (val lo hi : operand)
| inNode (val : operand) (opts : list operand)
| existsNode (name : string) (path : Path)
| funcNode (name : string) (path : Path) (arg : operand).

(** ** The parser *)

Definition is_existence (name : string) : bool :=
  String.eqb name "attribute_exists" || String.eqb name "attribute_not_exists".

Definition is_bool_func (name : string) : bool :=
  is_existence name || String.eqb name "attribute_type" || String.eqb name "begins_with" ||
  String.eqb name "contains".

Definition parseBoolFunc : P condNode :=
  t ← next;
  let name := to_lower (text t) in
  _ ← expect tokLParen ("( after " +:+ name);
  path ← parsePath;
  if is_existence name then
    _ ← expect tokRParen ")";
    mret (existsNode name path)
  else
    _ ← expect tokComma ", between arguments";
    arg ← parseOperand;
    _ ← expect tokRParen ")";
    mret (funcNode name path arg).

(** The options of IN, up to the token that is no comma. *)
Fixpoint parseOpts (fuel : nat) (opts : list operand) : P (list operand) :=
  match fuel with
  | O => out_of_fuel
  | S fuel' =>
      o ← parseOperand;
      t ← peek;
      if decide (kind t = tokComma) then _ ← next; parseOpts fuel' (opts ++ [o])
      else mret (opts ++ [o])
  end.

(** A condition led by an operand. *)
Definition parseComparison : P condNode :=
  left ← parseOperand;
  t ← peek;
  if decide (kind t = tokCompare) then
    _ ← next;
    right ← parseOperand;
    mret (cmpNode (text t) left right)
  else
  b ← keyword ["BETWEEN"];
  match b with
  | Some _ =>
      lo ← parseOperand;
      a ← keyword ["AND"];
      match a with
      | None => fail (errSyntax "BETWEEN requires AND")
      | Some _ => hi ← parseOperand; mret (betweenNode left lo hi)
      end
  | None =>
      i ← keyword ["IN"];
      match i with
      | Some _ =>
          _ ← expect tokLParen "( after IN";
          opts ← (fun p => parseOpts (length (toks p)) [] p);
          _ ← expect tokRParen ")";
          mret (inNode left opts)
      | None => fail (errSyntax "expected a comparator, BETWEEN, or IN at offset %d")
      end
  end.

(** The levels of the grammar call each other; [fuel] bounds the depth of calls. *)
Fixpoint parseOr (fuel : nat) : P condNode :=
  match fuel with
  | O => out_of_fuel
  | S fuel => left ← parseAnd fuel; parseOr_loop fuel left
  end
with parseOr_loop (fuel : nat) (left : condNode) : P condNode :=
  match fuel with
  | O => out_of_fuel
  | S fuel =>
      kw ← keyword ["OR"];
      match kw with
      | None => mret left
      | Some _ => right ← parseAnd fuel; parseOr_loop fuel (orNode left right)
      end
  end
with parseAnd (fuel : nat) : P condNode :=
  match fuel with
  | O => out_of_fuel
  | S fuel => left ← parseNot fuel; parseAnd_loop fuel left
  end
with parseAnd_loop (fuel : nat) (left : condNode) : P condNode :=
  match fuel with
  | O => out_of_fuel
  | S fuel =>
      kw ← keyword ["AND"];
      match kw with
      | None => mret left
      | Some _ => right ← parseNot fuel; parseAnd_loop fuel (andNode left right)
      end
  end
with parseNot (fuel : nat) : P condNode :=
  match fuel with
  | O => out_of_fuel
  | S fuel =>
      kw ← keyword ["NOT"];
      match kw with
      | Some _ => inner ← parseNot fuel; mret (notNode inner)
      | None => parsePrimaryCond fuel
      end
  end
with parsePrimaryCond (fuel : nat) : P condNode :=
  match fuel with
  | O => out_of_fuel
  | S fuel =>
      t ← peek;
      if decide (kind t = tokLParen) then
        _ ← next;
        inner ← parseOr fuel;
        _ ← expect tokRParen ")";
        mret (groupNode inner)
      else if bool_decide (kind t = tokIdent) && is_bool_func (to_lower (text t)) then parseBoolFunc
      else parseComparison
  end.

(** Four calls at most separate two tokens, so four times the tokens is enough. *)
Definition parse_fuel (p : parser) : nat := 4 * length (toks p) + 4.

Definition parseCond (src : string) (e : Env) (what : string) : outcome (condNode * Env) :=
  run (parse_all (fun p => parseOr (parse_fuel p) p) (errSyntax "unexpected %s after the expression"))
    src e what.

Definition ParseCondition (src : string) (e : Env) : outcome (condNode * Env) :=
  parseCond src e "ConditionExpression".
Definition ParseFilter (src : string) (e : Env) : outcome (condNode * Env) :=
  parseCond src e "FilterExpression".

(** ** Evaluation *)

Definition cmp_eval (op : string) (lo ro : operand) (it : Item) : result bool :=
  l ← operand_value lo it;
  r ← operand_value ro it;
  match l, r with
  | Some l, Some r =>
      if String.eqb op "=" then Ok (Equal l r)
      else if String.eqb op "<>" then Ok (negb (Equal l r))
      else
        let ordered := match l, r with
          | VS x, VS y => Some (cmp_int (bytes_cmp x y))
          | VN x, VN y => Some (Compare x y)
          | VB x, VB y => Some (cmp_int (bytes_cmp x y))
          | _, _ => None
          end in
        match ordered with
        | None => Ok false
        | Some cmp =>
            if String.eqb op "<" then Ok (cmp <? 0)
            else if String.eqb op "<=" then Ok (cmp <=? 0)
            else if String.eqb op ">" then Ok (cmp >? 0)
            else if String.eqb op ">=" then Ok (cmp >=? 0)
            else Err (errSyntax "unknown comparator %q")
        end
  | _, _ => Ok false
  end.

Fixpoint in_eval (v : Value) (opts : list operand) (it : Item) : result bool :=
  match opts with
  | [] => Ok false
  | o :: opts' =>
      ov ← operand_value o it;
      match ov with
      | Some ov => if Equal v ov then Ok true else in_eval v opts' it
      | None => in_eval v opts' it
      end
  end.

(** An absent operand reads as the zero [item.Value]. *)
Definition value_or_zero (v : option Value) : Value := default VZero v.

Definition contains_eval (v needle : Value) : bool :=
  match v with
  | VS s => match needle with VS n => contains s n | _ => false end
  | VSS l => existsb (fun s => match needle with VS n => String.eqb s n | _ => false end) l
  | VNS l => existsb (fun d => match needle with VN n => Compare d n =? 0 | _ => false end) l
  | VBS l => existsb (fun b => match needle with VB n => String.eqb b n | _ => false end) l
  | VL l => existsb (fun lv => Equal lv needle) l
  | _ => false
  end.

Definition func_eval (name : string) (path : Path) (arg : operand) (it : Item) : result bool :=
  if String.eqb name "attribute_type" then
    match Get path it with
    | None => Ok false
    | Some v =>
        want ← operand_value arg it;
        match value_or_zero want with
        | VS w => Ok (String.eqb (v_type v) w)
        | _ => Err (errSyntax "attribute_type expects a string type name")
        end
    end
  else if String.eqb name "begins_with" then
    match Get path it with
    | None => Ok false
    | Some v =>
        prefix ← operand_value arg it;
        match v, value_or_zero prefix with
        | VS s, VS p => Ok (has_prefix s p)
        | VB s, VB p => Ok (has_prefix s p)
        | _, _ => Ok false
        end
    end
  else if String.eqb name "contains" then
    match Get path it with
    | None => Ok false
    | Some v =>
        needle ← operand_value arg it;
        Ok (contains_eval v (value_or_zero needle))
    end
  else Err (errSyntax "unknown function %q").

Definition exists_eval (name : string) (path : Path) (it : Item) : result bool :=
  let exists_ := match Get path it with Some _ => true | None => false end in
  if String.eqb name "attribute_exists" then Ok exists_
  else if String.eqb name "attribute_not_exists" then Ok (negb exists_)
  else Err (errSyntax "unknown function %q").

Fixpoint eval (n : condNode) (it : Item) : result bool :=
  match n with
  | andNode l r =>
      a ← eval l it;
      if a : bool then eval r it else Ok false
  | orNode l r =>
      a ← eval l it;
      if a : bool then Ok true else eval r it
  | notNode inner => v ← eval inner it; Ok (negb v)
  | groupNode inner => eval inner it
  | cmpNode op l r => cmp_eval op l r it
  | betweenNode val lo hi =>
      a ← cmp_eval ">=" val lo it;
      if a : bool then cmp_eval "<=" val hi it else Ok false
  | inNode val opts =>
      v ← operand_value val it;
      match v with Some v => in_eval v opts it | None => Ok false end
  | existsNode name path => exists_eval name path it
  | funcNode name path arg => func_eval name path arg it
  end.

Definition Eval (c : condNode) (it : Item) : result bool := eval c it.

(** ** Parsing never panics and never runs out of fuel *)

Lemma parses_map {A B} k (m : P A) (f : A -> B) p :
  parses_at k m p -> parses_at k (a ← m; mret (f a)) p.
Proof.
  intros H. rewrite <- (Nat.add_0_r k). apply parses_at_bind; [done|].
  intros a n _ _ Hv. by apply parses_ret.
Qed.

(** One function after another, each from a valid cursor. *)
Lemma parses_seq {A B} k j (m : P A) (f : A -> P B) p :
  parses k m -> valid p -> (forall a n, (k <= n)%nat -> valid (consumed n p) -> parses_at j (f a) (consumed n p)) ->
  parses_at j (m ≫= f) p.
Proof.
  intros Hm Hp Hf. apply (parses_at_weaken (k + j)); [lia|]. apply parses_at_bind; [by apply Hm|].
  intros a n Hn _ Hv. by apply Hf.
Qed.

Lemma parses_seq1 {A B} k (m : P A) (f : A -> P B) p :
  parses 1 m -> valid p -> (forall a n, (1 <= n)%nat -> valid (consumed n p) -> parses_at k (f a) (consumed n p)) ->
  parses_at (S k) (m ≫= f) p.
Proof.
  intros Hm Hp Hf. apply (parses_at_bind 1 k); [by apply Hm|]. intros a n Hn _ Hv. by apply Hf.
Qed.

(** [next] on a token known to be no end and no reference, the count left alone. *)
Lemma parses_next0 {B} k (f : token -> P B) p t :
  valid p -> toks p !! pos p = Some t -> plain_kind (kind t) = true ->
  (valid (consumed 1 p) -> parses_at k (f t) (consumed 1 p)) -> parses_at k (next ≫= f) p.
Proof.
  intros Hp Ht Hk Hf. apply (parses_at_weaken (S k)); [lia|]. eapply parses_next; [done..|].
  apply Hf, (valid_next p t); [done..|]. by destruct (kind t).
Qed.

Create HintDb parse.
#[export] Hint Resolve parses_path parses_head parses_ret parses_fail : parse.
#[export] Hint Extern 1 (parses _ (expect _ _)) => apply parses_expect; reflexivity : parse.

Lemma parses_path_operand : parses 1 (path ← parsePath; mret (pathOperand path)).
Proof. intros p Hp. by apply parses_map, parses_path. Qed.

Lemma parses_value_operand p t :
  valid p -> toks p !! pos p = Some t -> kind t = tokValueRef ->
  parses_at 1 (_ ← next; v ← resolveValue (text t); mret (valueOperand (text t) v)) p.
Proof.
  intros Hp Ht Hk. pose proof (resolveValue_next p t Hp Ht Hk) as H. revert H.
  unfold parses_at, mbind, P_bind, next. rewrite Ht.
  by destruct (resolveValue (text t) _).
Qed.

(** Looking one token past an identifier and coming back. *)
Lemma backup_next {B} (f : unit -> P B) p : (backup ≫= f) (move (S (pos p)) p) = f tt p.
Proof. unfold mbind, P_bind, backup, move. simpl. rewrite Nat.sub_0_r. by destruct p. Qed.

Lemma parses_operand : parses 1 parseOperand.
Proof.
  intros p Hp. unfold parseOperand. apply parses_peek; [done|]. intros t Ht.
  destruct (kind t) eqn:Hk; try done; [|by apply parses_path_operand|by apply parses_value_operand].
  destruct (equal_fold (text t) "size"); [|by apply parses_path_operand].
  assert (valid (consumed 1 p)) as Hv by (apply (valid_next p t); [done..|by rewrite Hk]).
  assert (next p = PDone t (consumed 1 p)) as Hn by (apply next_plain; [done|by rewrite Hk]).
  assert (consumed 1 p = move (S (pos p)) p) as Em.
  { unfold next in Hn. rewrite Ht in Hn. by apply PDone_inj in Hn as [_ <-]. }
  destruct (valid_peek _ Hv) as [t2 Ht2].
  destruct (decide (kind t2 = tokLParen)) as [Hk2|Hk2].
  - eapply parses_next; [done..|by rewrite Hk|]. apply parses_peek; [done|]. intros t' Ht'.
    assert (t' = t2) as -> by congruence. rewrite decide_True by done.
    eapply parses_next0; [done..|by rewrite Hk2|]. intros Hv2.
    eapply parses_seq; [eauto with parse|done|]. intros path n _ Hv3.
    eapply parses_seq; [eauto with parse|done|]. intros ? n2 _ Hv4. by apply parses_ret.
  - unfold parses_at. unfold mbind at 1, P_bind at 1. rewrite Hn.
    unfold mbind at 1, P_bind at 1, peek at 1. rewrite Ht2, decide_False by done.
    rewrite Em, backup_next. by apply parses_path_operand.
Qed.
#[export] Hint Resolve parses_operand parses_path_operand : parse.

(** Steps through a parsing function: the next call is a known one, a peek, a keyword
    or a choice on what was read. *)
Ltac parse_step :=
  match goal with
  | |- parses_at _ (mret _) _ => by apply parses_ret
  | |- parses_at _ (fail _) _ => by apply parses_fail
  | |- parses_at _ (peek ≫= _) _ => apply parses_peek; [assumption|intros ? ?]
  | |- parses_at _ (keyword _ ≫= _) _ => apply parses_keyword; [assumption| |intros ? ?]
  | H : toks ?p !! pos ?p = Some ?t, K : kind ?t = _ |- parses_at _ (next ≫= _) ?p =>
      eapply (parses_next0 _ _ p t); [assumption|assumption|by rewrite K|intros ?]
  | |- parses_at _ (_ ≫= _) _ =>
      eapply parses_seq; [solve [eauto with parse]|assumption|intros ? ? ? ?]
  | |- parses_at _ (if decide ?x then _ else _) _ => destruct (decide x)
  | |- parses_at _ (if ?x then _ else _) _ => destruct x eqn:?
  end.

Lemma parses_boolFunc p t :
  valid p -> toks p !! pos p = Some t -> kind t = tokIdent -> parses_at 1 parseBoolFunc p.
Proof.
  intros Hp Ht Hk. unfold parseBoolFunc. eapply parses_next; [done..|by rewrite Hk|].
  assert (valid (consumed 1 p)) by (apply (valid_next p t); [done..|by rewrite Hk]).
  cbv zeta. repeat parse_step.
Qed.

Lemma parses_opts fuel opts p :
  valid p -> (remaining p <= fuel)%nat -> parses_at 0 (parseOpts fuel opts) p.
Proof.
  revert opts p; induction fuel as [|fuel IH]; intros opts p Hp Hf.
  { pose proof (valid_remaining p Hp). lia. }
  cbn [parseOpts]. repeat parse_step. apply IH; [done|]. rewrite !remaining_consumed. lia.
Qed.

Lemma parses_all_opts : parses 0 (fun p => parseOpts (length (toks p)) [] p).
Proof. intros p Hp. apply parses_opts; [done|]. unfold remaining. lia. Qed.
#[export] Hint Resolve parses_all_opts : parse.

Lemma parses_comparison : parses 1 parseComparison.
Proof.
  intros p Hp. unfold parseComparison.
  apply parses_seq1; [apply parses_operand|done|]. intros l n Hn Hv.
  repeat first [parse_step | match goal with |- context [match ?x with Some _ => _ | None => _ end] => destruct x end].
Qed.

(** The levels of the grammar, each with the fuel it needs for what remains. *)
Lemma parses_levels fuel p :
  valid p ->
  ((4 * remaining p + 4 <= fuel)%nat -> parses_at 1 (parseOr fuel) p) /\
  (forall l, (4 * remaining p + 1 <= fuel)%nat -> parses_at 0 (parseOr_loop fuel l) p) /\
  ((4 * remaining p + 3 <= fuel)%nat -> parses_at 1 (parseAnd fuel) p) /\
  (forall l, (4 * remaining p + 1 <= fuel)%nat -> parses_at 0 (parseAnd_loop fuel l) p) /\
  ((4 * remaining p + 2 <= fuel)%nat -> parses_at 1 (parseNot fuel) p) /\
  ((4 * remaining p + 1 <= fuel)%nat -> parses_at 1 (parsePrimaryCond fuel) p).
Proof.
  revert p; induction fuel as [|fuel IH]; intros p Hp; [repeat split; lia|].
  pose proof (valid_remaining p Hp) as Hr.
  assert (forall n, valid (consumed n p) -> (1 <= n)%nat ->
    (4 * remaining (consumed n p) + 4 <= 4 * remaining p)%nat) as Hlt
    by (intros; rewrite remaining_consumed; lia).
  cbn [parseOr parseOr_loop parseAnd parseAnd_loop parseNot parsePrimaryCond].
  repeat split; intros.
  - apply (parses_at_bind 1 0); [apply IH; [done|lia]|]. intros l n Hn _ Hv.
    specialize (Hlt n Hv Hn). apply IH; [done|lia].
  - repeat parse_step. specialize (Hlt _ H0 (le_n _)).
    apply (parses_at_weaken (1 + 0)); [lia|]. apply parses_at_bind; [apply IH; [done|lia]|].
    intros r n Hn _ Hv. rewrite consumed_plus in *. apply IH; [done|].
    rewrite remaining_consumed. lia.
  - apply (parses_at_bind 1 0); [apply IH; [done|lia]|]. intros l n Hn _ Hv.
    specialize (Hlt n Hv Hn). apply IH; [done|lia].
  - repeat parse_step. specialize (Hlt _ H0 (le_n _)).
    apply (parses_at_weaken (1 + 0)); [lia|]. apply parses_at_bind; [apply IH; [done|lia]|].
    intros r n Hn _ Hv. rewrite consumed_plus in *. apply IH; [done|].
    rewrite remaining_consumed. lia.
  - apply parses_keyword; [done|apply IH; [done|lia]|]. intros w Hv. specialize (Hlt _ Hv (le_n _)).
    apply (parses_at_weaken 1); [lia|]. apply parses_map, IH; [done|lia].
  - apply parses_peek; [done|]. intros t Ht. destruct (decide _) as [Hk|].
    + eapply parses_next; [done..|by rewrite Hk|].
      assert (valid (consumed 1 p)) as Hv by (apply (valid_next p t); [done..|by rewrite Hk]).
      specialize (Hlt _ Hv (le_n _)). apply (parses_at_weaken (1 + 0)); [lia|].
      apply parses_at_bind; [apply IH; [done|lia]|]. intros c n Hn _ Hv'. repeat parse_step.
    + destruct (bool_decide _ && _) eqn:Hb; [|by apply parses_comparison].
      apply andb_true_iff in Hb as [Hb%bool_decide_eq_true _]. by eapply parses_boolFunc.
Qed.

Lemma parses_or : parses 1 (fun p => parseOr (parse_fuel p) p).
Proof.
  intros p Hp. destruct (parses_levels (parse_fuel p) p Hp) as [H _]. apply H.
  unfold parse_fuel, remaining. lia.
Qed.

Lemma ends_cond : ends (parse_all (fun p => parseOr (parse_fuel p) p) (errSyntax "unexpected %s after the expression")).
Proof. by eapply ends_parse_all, parses_or. Qed.

(** ** What a condition means

    A reading of conditions that says nothing of evaluation order: operands denote
    values or nothing, numbers compare by their exact value. *)

Definition denotes (it : Item) (o : operand) (v : Value) : Prop := operand_value o it = Ok (Some v).

Inductive orders : Value -> Value -> comparison -> Prop :=
| orders_S a b : orders (VS a) (VS b) (bytes_cmp a b)
| orders_B a b : orders (VB a) (VB b) (bytes_cmp a b)
| orders_N a b K : fits K a -> fits K b -> orders (VN a) (VN b) (scaled K a ?= scaled K b).

Definition relates (op : string) (x y : Value) : Prop :=
  if String.eqb op "=" then Equal x y = true
  else if String.eqb op "<>" then Equal x y = false
  else if String.eqb op "<" then orders x y Lt
  else if String.eqb op "<=" then orders x y Lt \/ orders x y Eq
  else if String.eqb op ">" then orders x y Gt
  else orders x y Gt \/ orders x y Eq.

Definition sat_cmp (it : Item) (op : string) (l r : operand) : Prop :=
  exists x y, denotes it l x /\ denotes it r y /\ relates op x y.

Definition sat_func (name : string) (v arg : Value) : Prop :=
  if String.eqb name "attribute_type" then arg = VS (v_type v)
  else if String.eqb name "begins_with" then
    (exists p t, v = VS (p +:+ t) /\ arg = VS p) \/ (exists p t, v = VB (p +:+ t) /\ arg = VB p)
  else contains_eval v arg = true.

Fixpoint sat (it : Item) (c : condNode) : Prop :=
  match c with
  | andNode l r => sat it l /\ sat it r
  | orNode l r => sat it l \/ sat it r
  | notNode c => ~ sat it c
  | groupNode c => sat it c
  | cmpNode op l r => sat_cmp it op l r
  | betweenNode v lo hi => sat_cmp it ">=" v lo /\ sat_cmp it "<=" v hi
  | inNode v opts => exists o, o ∈ opts /\ sat_cmp it "=" v o
  | existsNode name p =>
      if String.eqb name "attribute_exists" then exists v, Get p it = Some v else Get p it = None
  | funcNode name p arg =>
      exists v, Get p it = Some v /\
        exists a, operand_value arg it = Ok a /\ sat_func name v (value_or_zero a)
  end.

(** An operand has an answer, which is a proper value if any. *)
Definition answers (it : Item) (o : operand) : Prop :=
  exists v, operand_value o it = Ok v /\ forall x, v = Some x -> value_wf x.

(** Every operand has an answer and every operator and function is a known one. *)
Fixpoint ready (it : Item) (c : condNode) : Prop :=
  match c with
  | andNode l r | orNode l r => ready it l /\ ready it r
  | notNode c | groupNode c => ready it c
  | cmpNode op l r => op ∈ ["="; "<>"; "<"; "<="; ">"; ">="] /\ answers it l /\ answers it r
  | betweenNode v lo hi => answers it v /\ answers it lo /\ answers it hi
  | inNode v opts => answers it v /\ Forall (answers it) opts
  | existsNode name _ => is_existence name = true
  | funcNode name _ arg =>
      answers it arg /\
      ((name = "attribute_type" /\ exists s, denotes it arg (VS s)) \/
       name = "begins_with" \/ name = "contains")
  end.

Lemma cmp_int_lt o : (cmp_int o <? 0) = true <-> o = Lt.
Proof. by destruct o. Qed.
Lemma cmp_int_gt o : (cmp_int o >? 0) = true <-> o = Gt.
Proof. by destruct o. Qed.
Lemma cmp_int_le o : (cmp_int o <=? 0) = true <-> o = Lt \/ o = Eq.
Proof. destruct o; vm_compute; split; intros; auto; destruct_or?; done. Qed.
Lemma cmp_int_ge o : (cmp_int o >=? 0) = true <-> o = Gt \/ o = Eq.
Proof. destruct o; vm_compute; split; intros; auto; destruct_or?; done. Qed.

(** Two numbers always have a common scale. *)
Lemma fits_exists a b : exists K, fits K a /\ fits K b.
Proof.
  exists (Z.max (zlen (d_digits a) - d_exp a) (zlen (d_digits b) - d_exp b)). unfold fits. lia.
Qed.

(** The code's ordered comparison is [orders]: one outcome, or none. *)
Lemma orders_code x y :
  value_wf x -> value_wf y ->
  match (match x, y with
         | VS x, VS y => Some (cmp_int (bytes_cmp x y))
         | VN x, VN y => Some (Compare x y)
         | VB x, VB y => Some (cmp_int (bytes_cmp x y))
         | _, _ => None
         end) with
  | Some c => exists o, c = cmp_int o /\ forall o', orders x y o' <-> o' = o
  | None => forall o, ~ orders x y o
  end.
Proof.
  intros Wx Wy.
  destruct x, y; try (intros ? Ho; by inversion Ho).
  - eexists. split; [done|]. split; [by inversion 1|intros ->; constructor].
  - destruct (fits_exists n n0) as (K & Fa & Fb). inversion Wx; inversion Wy; subst.
    exists (scaled K n ?= scaled K n0). rewrite (Compare_spec K) by done. split; [done|]. split.
    + intros Ho. inversion Ho as [| |? ? K' Fa' Fb']; subst.
      pose proof (Compare_spec K n n0 H0 H3 Fa Fb) as E1.
      pose proof (Compare_spec K' n n0 H0 H3 Fa' Fb') as E2. rewrite E1 in E2.
      by destruct (scaled K n ?= scaled K n0), (scaled K' n ?= scaled K' n0).
    + intros ->. by constructor.
  - eexists. split; [done|]. split; [by inversion 1|intros ->; constructor].
Qed.

Lemma cmp_eval_meaning it op l r :
  op ∈ ["="; "<>"; "<"; "<="; ">"; ">="] -> answers it l -> answers it r ->
  exists b, cmp_eval op l r it = Ok b /\ (b = true <-> sat_cmp it op l r).
Proof.
  intros Hop (x & Hx & Wx) (y & Hy & Wy). unfold cmp_eval, sat_cmp, denotes. rewrite Hx, Hy. simpl.
  destruct x as [x|]; [|exists false; split; [done|]; split; [done|by intros (? & ? & [=] & _)]].
  destruct y as [y|]; [|exists false; split; [done|]; split; [done|by intros (? & ? & _ & [=] & _)]].
  specialize (Wx x eq_refl). specialize (Wy y eq_refl).
  assert (forall b, (b = true <-> relates op x y) ->
    (b = true <-> exists x' y', Ok (Some x) = Ok (Some x') /\ Ok (Some y) = Ok (Some y') /\ relates op x' y'))
    as Hrel.
  { intros b ->. split; [intros; by exists x, y|]. by intros (? & ? & [= <-] & [= <-] & ?). }
  pose proof (orders_code x y Wx Wy) as Ho. unfold relates in Hrel |- *.
  destruct (match x with VZero => _ | _ => _ end) as [c|].
  - destruct Ho as (o & -> & Ho).
    set_unfold in Hop. destruct_or! Hop; try done; subst op; simpl in *;
      eexists; (split; [reflexivity|]); apply Hrel;
      rewrite ?Ho, ?cmp_int_lt, ?cmp_int_gt, ?cmp_int_le, ?cmp_int_ge, ?negb_true_iff; clear; intuition congruence.
  - set_unfold in Hop. destruct_or! Hop; try done; subst op; simpl in *;
      eexists; (split; [reflexivity|]); apply Hrel; rewrite ?negb_true_iff; naive_solver.
Qed.

Lemma in_eval_meaning it vo v opts :
  operand_value vo it = Ok (Some v) -> value_wf v -> Forall (answers it) opts ->
  exists b, in_eval v opts it = Ok b /\ (b = true <-> exists o, o ∈ opts /\ sat_cmp it "=" vo o).
Proof.
  intros Hv Wv. induction 1 as [|o opts Ho _ (b & E & Hb)].
  { exists false. split; [done|]. split; [done|]. by intros (? & ?%elem_of_nil & _). }
  destruct (cmp_eval_meaning it "=" vo o) as (c & Ec & Hc); [set_solver|exists (Some v); naive_solver|done|].
  setoid_rewrite elem_of_cons. destruct Ho as (w & Ho & _). cbn [in_eval].
  unfold cmp_eval in Ec. rewrite Hv, Ho in Ec. rewrite Ho. simpl in *. destruct w as [w|].
  - injection Ec as Ec. rewrite Ec. destruct c.
    + exists true. split; [done|]. split; [|done]. intros _. exists o. tauto.
    + exists b. split; [done|]. rewrite Hb. split; [intros (o' & ? & ?); eauto|].
      intros (o' & [->|?] & ?); [|eauto]. exfalso. assert (false = true) by (by apply Hc). done.
  - injection Ec as <-. exists b. split; [done|]. rewrite Hb. split; [intros (o' & ? & ?); eauto|].
    intros (o' & [->|?] & ?); [|eauto]. exfalso. assert (false = true) by (by apply Hc). done.
Qed.

Lemma func_eval_meaning it name p arg :
  ready it (funcNode name p arg) ->
  exists b, func_eval name p arg it = Ok b /\ (b = true <-> sat it (funcNode name p arg)).
Proof.
  intros ((a & Ha & _) & Hname). unfold func_eval. simpl. rewrite Ha.
  destruct (Get p it) as [v|]; [|exists false; split; [by destruct_or! Hname; destruct_and? Hname; subst|];
    split; [done|by intros (? & [=] & _)]].
  assert (forall b, (b = true <-> sat_func name v (value_or_zero a)) -> b = true <->
    exists v', Some v = Some v' /\ exists a', Ok a = Ok a' /\ sat_func name v' (value_or_zero a')) as Hs.
  { intros b ->. split; [eauto|]. by intros (? & [= <-] & ? & [= <-] & ?). }
  unfold sat_func in *. destruct Hname as [[-> (s & Hs')]|[-> | -> ]]; simpl in *.
  - unfold denotes in Hs'. rewrite Ha in Hs'. injection Hs' as ->. simpl. eexists. split; [done|].
    apply Hs. rewrite String.eqb_eq. simpl. split; [by intros <-|by intros [= ->]].
  - destruct v, (value_or_zero a) eqn:Ez; eexists; (split; [reflexivity|]); apply Hs;
      rewrite ?has_prefix_spec; naive_solver.
  - eexists. split; [done|]. by apply Hs.
Qed.

Lemma eval_meaning it c :
  ready it c -> exists b, eval c it = Ok b /\ (b = true <-> sat it c).
Proof.
  induction c as [l IHl r IHr|l IHl r IHr|c IH|c IH|op l r|v lo hi|v opts|name p|name p arg]; simpl.
  - intros [(a & -> & Ha)%IHl (b & Eb & Hb)%IHr]. simpl. rewrite Eb. destruct a.
    + exists b. split; [done|]. tauto.
    + exists false. split; [done|]. split; [done|]. intros [H _]. by apply Ha in H.
  - intros [(a & -> & Ha)%IHl (b & Eb & Hb)%IHr]. simpl. rewrite Eb. destruct a.
    + exists true. tauto.
    + exists b. split; [done|]. split; [tauto|]. intros [H|H]; [by apply Ha in H|tauto].
  - intros (b & -> & Hb)%IH. exists (negb b). split; [done|]. rewrite <- Hb. by destruct b.
  - done.
  - intros (Hop & Hl & Hr). by apply cmp_eval_meaning.
  - intros (Hv & Hlo & Hhi).
    destruct (cmp_eval_meaning it ">=" v lo) as (a & -> & Ha); [set_solver|done..|].
    destruct (cmp_eval_meaning it "<=" v hi) as (b & Eb & Hb); [set_solver|done..|].
    simpl. rewrite Eb. destruct a; [exists b; tauto|]. exists false. split; [done|]. split; [done|].
    intros [H _]. by apply Ha in H.
  - intros ((w & Hw & Ww) & Ho). rewrite Hw. simpl. destruct w as [w|].
    + apply (in_eval_meaning it v); auto.
    + exists false. split; [done|]. split; [done|]. intros (o & _ & x & y & Hx & _).
      unfold denotes in Hx. congruence.
  - intros Hn. unfold exists_eval. apply orb_true_iff in Hn as [->%String.eqb_eq | ->%String.eqb_eq]; simpl.
    + eexists. split; [done|]. destruct (Get p it); [by split; eauto|]. split; [done|]. by intros (? & ?).
    + eexists. split; [done|]. by destruct (Get p it); split.
  - by apply func_eval_meaning.
Qed.

(** C7: Evaluation computes the meaning of a condition: when every operand has an answer and
    the operators and functions are known, evaluating ends in a truth value, which is true
    exactly when the item satisfies the condition.  In particular [BETWEEN] is both
    bounds, [IN] is equality with some option, an absent operand satisfies no comparison,
    and numbers compare by their exact value. *)
Theorem eval_correct it c :
  ready it c -> exists b, Eval c it = Ok b /\ (b = true <-> sat it c).
Proof. apply eval_meaning. Qed.

Lemma eval_correct_witness :
  let it : Item := {[ "n" := VN (mkDecimal false ["5"%char] 1) ]} in
  let n := pathOperand [mkSeg "n" 0] in
  let c := notNode (betweenNode n (valueOperand ":lo" (VN Zero)) n) in
  ready it c /\ exists b, Eval c it = Ok b /\ (b = true <-> sat it c).
Proof.
  intros it n c.
  assert (value_wf (VN (mkDecimal false ["5"%char] 1))) as W5.
  { by destruct (ParseDecimal_wf "5" _ eq_refl); constructor. }
  assert (value_wf (VN Zero)) as W0 by (by destruct (ParseDecimal_wf "0" _ eq_refl); constructor).
  assert (ready it c) as R.
  { split; [|split]; eexists; (split; [reflexivity|]); by intros ? [= <-]. }
  split; [done|]. by apply eval_correct.
Defined.
