(* ===== verification/KeyCond.v ===== *)
(** * KeyCond: key condition expressions

    Model of src/internal/ddb/expr/keycond.go: the restricted conditions a query
    accepts, one clause that fixes the partition key and an optional one on the sort
    key.  (Projections, in the same source file, are in Projection.v.) *)

From S2P Require Import Prelude Decimal Item Lexer Path Cond.

Record KeyCondition := mkKeyCondition {
  PKName : string;
  PKValue : Value;
  SKName : string;        (* empty when no sort-key condition *)
  SKOp : string;          (* "=", "<", "<=", ">", ">=", "BETWEEN", "begins_with" *)
  SKValue : Value;        (* operand (or BETWEEN low bound) *)
  SKValue2 : Value        (* BETWEEN high bound *)
}.

Record keyClause := mkClause { c_name : string; c_op : string; c_v1 : Value; c_v2 : Value }.

Definition parseKeyName : P string :=
  t ← next;
  match kind t with
  | tokIdent => _ ← bareName t; mret (text t)
  | tokNameRef => resolveName (text t)
  | _ => fail (errSyntax "expected a key attribute name at offset %d")
  end.

Definition parseKeyValue : P Value :=
  t ← expect tokValueRef "a :value reference";
  resolveValue (text t).

(** The clause after its name: BETWEEN, or a comparator. *)
Definition parseKeyOp (name : string) : P keyClause :=
  b ← keyword ["BETWEEN"];
  match b with
  | Some _ =>
      lo ← parseKeyValue;
      a ← keyword ["AND"];
      match a with
      | None => fail (errSyntax "BETWEEN requires AND")
      | Some _ => hi ← parseKeyValue; mret (mkClause name "BETWEEN" lo hi)
      end
  | None =>
      opTok ← next;
      if negb (bool_decide (kind opTok = tokCompare)) || String.eqb (text opTok) "<>" then
        fail (errSyntax "key conditions support =, <, <=, >, >=, BETWEEN, begins_with")
      else
        v ← parseKeyValue;
        mret (mkClause name (text opTok) v VZero)
  end.

Definition parseKeyClause : P keyClause :=
  t ← peek;
  if bool_decide (kind t = tokIdent) && equal_fold (text t) "begins_with" then
    _ ← next;
    _ ← expect tokLParen "( after begins_with";
    name ← parseKeyName;
    _ ← expect tokComma ", in begins_with";
    v ← parseKeyValue;
    _ ← expect tokRParen ")";
    mret (mkClause name "begins_with" v VZero)
  else
    name ← parseKeyName;
    parseKeyOp name.

Definition parseKeyClauses : P (keyClause * option keyClause) :=
  first ← parseKeyClause;
  a ← keyword ["AND"];
  match a with
  | Some _ => second ← parseKeyClause; mret (first, Some second)
  | None => mret (first, None)
  end.

(** Which clause fixes the partition key: the first with [=]. *)
Definition key_condition (clauses : keyClause * option keyClause) : result KeyCondition :=
  let pair (pk : keyClause) (sk : option keyClause) :=
    match sk with
    | None => mkKeyCondition (c_name pk) (c_v1 pk) "" "" VZero VZero
    | Some sk => mkKeyCondition (c_name pk) (c_v1 pk) (c_name sk) (c_op sk) (c_v1 sk) (c_v2 sk)
    end in
  let '(first, second) := clauses in
  if String.eqb (c_op first) "=" then Ok (pair first second)
  else match second with
       | Some second =>
           if String.eqb (c_op second) "=" then Ok (pair second (Some first))
           else Err (errSyntax "KeyConditionExpression must test the partition key with =")
       | None => Err (errSyntax "KeyConditionExpression must test the partition key with =")
       end.

Definition ParseKeyCondition (src : string) (e : Env) : outcome (KeyCondition * Env) :=
  outcome_bind
    (run (parse_all parseKeyClauses (errSyntax "unexpected %s in KeyConditionExpression"))
       src e "KeyConditionExpression")
    (fun '(clauses, e') => Ret (kc ← key_condition clauses; Ok (kc, e'))).

(** ** Parsing never panics *)

Lemma parses_keyName : parses 1 parseKeyName.
Proof.
  intros p Hp. destruct (valid_peek p Hp) as [t Ht]. unfold parseKeyName.
  assert (kind t = tokNameRef -> parses_at 1 (_ ← next; resolveName (text t)) p) as HN
    by (by apply resolveName_next).
  destruct (kind t) eqn:Hk; try (unfold parses_at, mbind, P_bind, next; by rewrite Ht, Hk).
  - eapply parses_next; [done..|by rewrite Hk|]. rewrite Hk.
    assert (valid (consumed 1 p)) by (apply (valid_next p t); [done..|by rewrite Hk]).
    eapply parses_seq; [apply parses_bareName|done|]. intros. by apply parses_ret.
  - specialize (HN eq_refl). revert HN. unfold parses_at, mbind, P_bind, next. by rewrite Ht, Hk.
Qed.

Lemma parses_keyValue : parses 1 parseKeyValue.
Proof.
  intros p Hp. destruct (valid_peek p Hp) as [t Ht]. unfold parseKeyValue, expect.
  destruct (decide (kind t = tokValueRef)) as [Hk|Hk].
  - pose proof (resolveValue_next p t Hp Ht Hk) as H. revert H.
    unfold parses_at, mbind, P_bind, next. rewrite Ht. by rewrite decide_True.
  - unfold parses_at, mbind, P_bind, next. rewrite Ht. by rewrite decide_False.
Qed.
#[export] Hint Resolve parses_keyName parses_keyValue : parse.

Lemma parses_keyOp name : parses 1 (parseKeyOp name).
Proof.
  intros p Hp. unfold parseKeyOp. apply parses_keyword; [done| |].
  - destruct (valid_peek p Hp) as [t Ht]. destruct (decide (kind t = tokCompare)) as [Hk|Hk].
    + eapply parses_next; [done..|by rewrite Hk|]. rewrite bool_decide_true by done. simpl.
      assert (valid (consumed 1 p)) by (apply (valid_next p t); [done..|by rewrite Hk]).
      repeat parse_step.
    + unfold parses_at, mbind, P_bind, next. by rewrite Ht, bool_decide_false.
  - intros w Hv. simpl. repeat first [parse_step | case_goal].
Qed.
#[export] Hint Resolve parses_keyOp : parse.

Lemma parses_keyClause : parses 1 parseKeyClause.
Proof.
  intros p Hp. unfold parseKeyClause. apply parses_peek; [done|]. intros t Ht.
  destruct (bool_decide _ && _) eqn:E.
  - apply andb_true_iff in E as [Hk%bool_decide_eq_true _].
    eapply parses_next; [done..|by rewrite Hk|].
    assert (valid (consumed 1 p)) by (apply (valid_next p t); [done..|by rewrite Hk]).
    repeat parse_step.
  - apply parses_seq1; [apply parses_keyName|done|]. intros name n _ Hv.
    apply (parses_at_weaken 1); [lia|]. by apply parses_keyOp.
Qed.
#[export] Hint Resolve parses_keyClause : parse.

Lemma parses_keyClauses : parses 0 parseKeyClauses.
Proof. intros p Hp. unfold parseKeyClauses. repeat first [parse_step | case_goal]. Qed.
