(* ===== verification/Heap.v ===== *)
(** * Heap: items whose maps and lists are shared by reference

    An update expression writes through document paths into maps and slices, which Go
    shares by reference: a map copied by [SET a = b] is one map with two names.  This
    file is the store that makes the sharing explicit, and the half of
    src/internal/ddb/expr/path.go that writes to it.

    A map lives at a location.  A list is a slice header: the location of its backing
    array and its length; the array's length is the capacity.  Location 0 is nil. *)

From S2P Require Import Prelude Decimal Item Lexer Path.

Abbreviation loc := nat.

(** [item.Value] with its references. *)
Inductive hval :=
| HZero
| HS (s : string)
| HN (n : Decimal)
| HB (b : string)
| HBool (b : bool)
| HNull
| HM (l : loc)
| HL (a : loc) (len : nat)
| HSS (l : list string)
| HNS (l : list Decimal)
| HBS (l : list string).

Record heap := mkHeap {
  h_maps : gmap loc (gmap string hval);
  h_arrs : gmap loc (list hval);
  h_next : loc
}.

Definition empty_heap : heap := mkHeap ∅ ∅ 1.

Definition map_at (h : heap) (l : loc) : gmap string hval := default ∅ (h_maps h !! l).
Definition arr_at (h : heap) (a : loc) : list hval := default [] (h_arrs h !! a).
Definition slice (h : heap) (a : loc) (len : nat) : list hval := take len (arr_at h a).

Definition alloc_map (m : gmap string hval) (h : heap) : loc * heap :=
  (h_next h, mkHeap (<[h_next h := m]> (h_maps h)) (h_arrs h) (S (h_next h))).
Definition alloc_arr (l : list hval) (h : heap) : loc * heap :=
  (h_next h, mkHeap (h_maps h) (<[h_next h := l]> (h_arrs h)) (S (h_next h))).
Definition write_map (l : loc) (m : gmap string hval) (h : heap) : heap :=
  mkHeap (<[l := m]> (h_maps h)) (h_arrs h) (h_next h).
Definition write_arr (a : loc) (l : list hval) (h : heap) : heap :=
  mkHeap (h_maps h) (<[a := l]> (h_arrs h)) (h_next h).

(** ** Values in and out of the store *)

(** A fresh copy of a value, every map and array its own: what [deepCopy] and the
    decoder build. *)
Fixpoint load (v : Value) (h : heap) : hval * heap :=
  match v with
  | VZero => (HZero, h)
  | VS s => (HS s, h)
  | VN n => (HN n, h)
  | VB b => (HB b, h)
  | VBool b => (HBool b, h)
  | VNull => (HNull, h)
  | VM m =>
      let '(hm, h1) := map_fold (fun k v acc =>
        let '(hm, h0) := acc in let '(x, h1) := load v h0 in (<[k := x]> hm, h1)) (∅, h) m in
      let '(l, h2) := alloc_map hm h1 in (HM l, h2)
  | VL vs =>
      let '(hs, h1) := foldr (fun v acc =>
        let '(hs, h0) := acc in let '(x, h1) := load v h0 in (x :: hs, h1)) ([], h) vs in
      let '(a, h2) := alloc_arr hs h1 in (HL a (length hs), h2)
  | VSS l => (HSS l, h)
  | VNS l => (HNS l, h)
  | VBS l => (HBS l, h)
  end.

(** The entries of a map, each loaded. *)
Definition load_map (m : gmap string Value) (h : heap) : gmap string hval * heap :=
  map_fold (fun k v acc =>
    let '(hm, h0) := acc in let '(x, h1) := load v h0 in (<[k := x]> hm, h1)) (∅, h) m.

Definition all_some {A} (m : gmap string (option A)) : option (gmap string A) :=
  if bool_decide (map_Forall (fun _ x => is_Some x) m) then Some (omap id m) else None.

(** The tree a value is the root of, to a depth; [None] when it is deeper.  A value that
    contains itself is deeper than any depth: the code that sizes or encodes it recurses
    until the stack overflows. *)
Fixpoint freeze (depth : nat) (h : heap) (v : hval) : option Value :=
  match depth with
  | O => None
  | S depth =>
      match v with
      | HZero => Some VZero
      | HS s => Some (VS s)
      | HN n => Some (VN n)
      | HB b => Some (VB b)
      | HBool b => Some (VBool b)
      | HNull => Some VNull
      | HM l => VM <$> all_some (freeze depth h <$> map_at h l)
      | HL a len =>
          if (length (arr_at h a) <? len)%nat then None (* no slice outgrows its array *)
          else VL <$> mapM (freeze depth h) (slice h a len)
      | HSS l => Some (VSS l)
      | HNS l => Some (VNS l)
      | HBS l => Some (VBS l)
      end
  end.

(** No tree is deeper than the number of maps and slices there are. *)
Definition depth_bound (h : heap) : nat :=
  size (h_maps h) + map_fold (fun _ l acc => S (length l) + acc)%nat 0%nat (h_arrs h) + 2.

(** ** Reading *)

Fixpoint hget_from (h : heap) (cur : hval) (segs : Path) : option hval :=
  match segs with
  | [] => Some cur
  | seg :: segs' =>
      if is_attr seg then
        match cur with
        | HM l => match map_at h l !! attr seg with Some v => hget_from h v segs' | None => None end
        | _ => None
        end
      else
        match cur with
        | HL a len =>
            if (index seg <? 0) || (index seg >=? Z.of_nat len) then None
            else match slice h a len !! Z.to_nat (index seg) with
                 | Some v => hget_from h v segs'
                 | None => None
                 end
        | _ => None
        end
  end.

(** [Path.Get] on the item whose map is at [it]. *)
Definition hGet (p : Path) (h : heap) (it : loc) : option hval :=
  match p with
  | [] => None
  | seg :: segs =>
      match map_at h it !! attr seg with Some cur => hget_from h cur segs | None => None end
  end.

(** ** Writing *)

(** [append(l, v)]: in place while the capacity lasts, else into a new array.  How much
    a new array holds beyond the values is the runtime's choice: [grow]. *)
Definition append_slice (grow : nat -> nat) (a : loc) (len : nat) (v : hval) (h : heap) : hval * heap :=
  if (len <? length (arr_at h a))%nat then
    (HL a (S len), write_arr a (<[len := v]> (arr_at h a)) h)
  else
    let '(b, h') := alloc_arr (slice h a len ++ [v] ++ replicate (grow len) HZero) h in
    (HL b (S len), h').

(** [append(l[:i], l[i+1:]...)]: shifts the tail down in place, the old last cell stays. *)
Definition remove_slice (a : loc) (len i : nat) (h : heap) : hval * heap :=
  let l := arr_at h a in
  (HL a (len - 1), write_arr a (take i l ++ take (len - 1 - i) (drop (S i) l) ++ drop (len - 1) l) h).

Section writes.
  Context (grow : nat -> nat).

(** [Path.parent]. *)
Definition hparent (p : Path) (h : heap) (it : loc) : result hval :=
  match hGet (removelast p) h it with
  | Some v => Ok v
  | None => Err (errSyntax "document path %s has missing intermediate attributes")
  end.

(** [Path.Set].  Storing a changed list header back into its parent is [Set] on the
    shorter path: the recursion is bounded by the length of the path. *)
Fixpoint hSet_fuel (fuel : nat) (p : Path) (v : hval) (h : heap) (it : loc) : result heap :=
  match fuel, p with
  | O, _ | _, [] => Ok h
  | S fuel', [seg] => Ok (write_map it (<[attr seg := v]> (map_at h it)) h)
  | S fuel', _ =>
      parent ← hparent p h it;
      match last p with
      | None => Ok h
      | Some seg =>
          if is_attr seg then
            match parent with
            | HM l => Ok (write_map l (<[attr seg := v]> (map_at h l)) h)
            | _ => Err (errSyntax "document path %s traverses a non-map value")
            end
          else
            match parent with
            | HL a len =>
                if index seg >=? Z.of_nat len then
                  let '(parent', h') := append_slice grow a len v h in
                  hSet_fuel fuel' (removelast p) parent' h' it
                else
                  let h' := write_arr a (<[Z.to_nat (index seg) := v]> (arr_at h a)) h in
                  hSet_fuel fuel' (removelast p) parent h' it
            | _ => Err (errSyntax "document path %s indexes a non-list value")
            end
      end
  end.

Definition hSet (p : Path) (v : hval) (h : heap) (it : loc) : result heap :=
  hSet_fuel (length p) p v h it.

(** [Path.Remove]; missing parents make it a no-op. *)
Definition hRemove (p : Path) (h : heap) (it : loc) : result heap :=
  match p with
  | [] => Ok h
  | [seg] => Ok (write_map it (delete (attr seg) (map_at h it)) h)
  | _ =>
      match hparent p h it with
      | Err _ => Ok h
      | Ok parent =>
          match last p with
          | None => Ok h
          | Some seg =>
              if is_attr seg then
                match parent with
                | HM l => Ok (write_map l (delete (attr seg) (map_at h l)) h)
                | _ => Ok h
                end
              else
                match parent with
                | HL a len =>
                    if (0 <=? index seg) && (index seg <? Z.of_nat len) then
                      let '(parent', h') := remove_slice a len (Z.to_nat (index seg)) h in
                      hSet (removelast p) parent' h' it
                    else Ok h
                | _ => Ok h
                end
          end
      end
  end.
End writes.

(** ** Reading a value out of the store *)

Lemma all_some_Some {A} (m : gmap string (option A)) m' :
  all_some m = Some m' <-> m = Some <$> m'.
Proof.
  unfold all_some. case_bool_decide as H.
  - split.
    + intros [= <-]. apply map_eq. intros k. rewrite lookup_fmap, lookup_omap.
      destruct (m !! k) as [x|] eqn:E; [|done]. destruct (H k x E) as [y ->]. done.
    + intros ->. f_equal. apply map_eq. intros k. rewrite lookup_omap, lookup_fmap.
      by destruct (m' !! k).
  - split; [done|]. intros ->. destruct H. intros k x. rewrite lookup_fmap.
    destruct (m' !! k); [|done]. intros [= <-]. eauto.
Qed.

Lemma all_some_None {A B} (f : A -> option B) (m : gmap string A) :
  all_some (f <$> m) = None -> exists k x, m !! k = Some x /\ f x = None.
Proof.
  unfold all_some. case_bool_decide as H; [done|]. intros _.
  apply map_not_Forall in H as (k & x & Hk & Hx); [|solve_decision].
  rewrite lookup_fmap in Hk. destruct (m !! k) as [y|] eqn:E; [|done]. injection Hk as <-.
  exists k, y. split; [done|]. destruct (f y); [|done]. destruct Hx. eauto.
Qed.

Lemma all_some_mono {A B} (f g : A -> option B) (m : gmap string A) m' :
  (forall x y, f x = Some y -> g x = Some y) -> all_some (f <$> m) = Some m' -> all_some (g <$> m) = Some m'.
Proof.
  rewrite !all_some_Some. intros Hfg E. apply map_eq. intros k.
  apply (f_equal (lookup k)) in E. rewrite !lookup_fmap in *.
  destruct (m !! k) as [x|]; simpl in *; [|done].
  destruct (m' !! k) as [y|]; [|done]. simpl in *. injection E as E. by rewrite (Hfg _ _ E).
Qed.

Lemma all_some_ext {A B} (f g : A -> option B) (m : gmap string A) :
  (forall k x, m !! k = Some x -> f x = g x) -> all_some (f <$> m) = all_some (g <$> m).
Proof. intros H. f_equal. by apply map_fmap_ext. Qed.

Lemma mapM_ext_in {A B} (f g : A -> option B) l :
  (forall x, x ∈ l -> f x = g x) -> mapM f l = mapM g l.
Proof.
  induction l as [|x l IH]; intros H; simpl; [done|].
  rewrite (H x) by left. rewrite IH; [done|]. intros y Hy. apply H. by right.
Qed.

Lemma mapM_elem {A B} (f : A -> option B) l l' x : mapM f l = Some l' -> x ∈ l -> is_Some (f x).
Proof.
  intros E%mapM_Some (i & Hi)%list_elem_of_lookup.
  destruct (Forall2_lookup_l _ _ _ _ _ E Hi) as (y & _ & Hy). eauto.
Qed.

Lemma freeze_mono d d' h v x : (d <= d')%nat -> freeze d h v = Some x -> freeze d' h v = Some x.
Proof.
  revert d' v x; induction d as [|d IH]; intros [|d'] v x Hd; try done; [lia|].
  assert (forall v x, freeze d h v = Some x -> freeze d' h v = Some x) as IH' by (intros; apply IH; [lia|done]).
  destruct v; simpl; try done.
  - destruct (all_some _) as [m|] eqn:E; [|done]. by rewrite (all_some_mono _ _ _ _ IH' E).
  - destruct (_ <? _)%nat; [done|]. destruct (mapM _ _) as [l|] eqn:E; [|done]. apply mapM_Some in E.
    intros [= <-]. simpl. erewrite (proj2 (mapM_Some _ _ _)); [done|].
    eapply Forall2_impl; [done|]. eauto.
Qed.

(** *** How deep a tree can be

    The containers a deep chain passes through are all different, so the number of maps
    and slices bounds the depth of every tree. *)

Definition node := (loc + loc * nat)%type.

Definition node_value (k : node) : hval :=
  match k with inl l => HM l | inr (a, n) => HL a n end.

(** The nonempty containers: the maps, and the nonempty prefixes of the arrays. *)
Definition arr_nodes (e : loc * list hval) : list node :=
  (fun n => inr (fst e, S n)) <$> seq 0 (length (snd e)).

Definition nodes (h : heap) : list node :=
  (inl ∘ fst <$> map_to_list (h_maps h)) ++ (map_to_list (h_arrs h) ≫= arr_nodes).

Lemma nodes_length h : (length (nodes h) + 2 <= depth_bound h)%nat.
Proof.
  unfold nodes, depth_bound. rewrite length_app, length_fmap, length_map_to_list.
  enough (length (map_to_list (h_arrs h) ≫= arr_nodes) <=
    map_fold (fun _ l acc => S (length l) + acc)%nat 0%nat (h_arrs h))%nat by lia.
  rewrite map_fold_foldr. induction (map_to_list (h_arrs h)) as [|[a l] ls IH]; [done|].
  rewrite bind_cons, length_app. unfold arr_nodes at 1. rewrite length_fmap, length_seq. simpl in *. lia.
Qed.

(** A value one step deeper than its store-read depth has a child just as deep. *)
Lemma deep_child d h v :
  is_Some (freeze (S (S d)) h v) -> freeze (S d) h v = None ->
  exists k c, k ∈ nodes h /\ freeze (S d) h (node_value k) = None /\
    is_Some (freeze (S (S d)) h (node_value k)) /\
    is_Some (freeze (S d) h c) /\ freeze d h c = None.
Proof.
  destruct v as [| | | | | |l|a n| | |]; try done.
  - intros [x Hx] Hn. cbn [freeze] in Hn. destruct (all_some (freeze d h <$> _)) eqn:E; [done|].
    apply all_some_None in E as (k & c & Hk & Hc).
    assert (inl l ∈ nodes h) as Hin.
    { unfold nodes. apply elem_of_app. left. apply list_elem_of_fmap. unfold map_at in Hk.
      destruct (h_maps h !! l) as [m|] eqn:Em; [|done]. exists (l, m). split; [done|].
      by apply elem_of_map_to_list. }
    exists (inl l), c. split; [done|]. cbn [node_value].
    assert (freeze (S d) h (HM l) = None) as Hn'.
    { cbn [freeze]. destruct (all_some _) eqn:E; [|done]. exfalso. apply all_some_Some in E.
      apply (f_equal (lookup k)) in E. rewrite !lookup_fmap, Hk in E. simpl in E. rewrite Hc in E.
      by destruct (g !! k). }
    split; [done|]. split; [by exists x|]. split; [|done].
    remember (S d) as d'. cbn [freeze] in Hx. destruct (all_some _) as [m|] eqn:E; [|done].
    apply all_some_Some in E. apply (f_equal (lookup k)) in E. rewrite !lookup_fmap, Hk in E.
    simpl in E. destruct (m !! k); [|done]. injection E as ->. eauto.
  - intros [x Hx] Hn. destruct (Nat.ltb_spec (length (arr_at h a)) n) as [|Hlen].
    { cbn [freeze] in Hx. rewrite (proj2 (Nat.ltb_lt _ _)) in Hx; done. }
    assert (forall e, freeze (S e) h (HL a n) = VL <$> mapM (freeze e h) (slice h a n)) as Ef.
    { intros e. cbn [freeze]. by rewrite (proj2 (Nat.ltb_ge _ _)). }
    rewrite Ef in Hx, Hn. destruct (mapM (freeze d h) _) eqn:E; [done|].
    apply mapM_None_1 in E as E'. apply Exists_exists in E' as (c & Hin & Hc).
    assert (0 < n)%nat by (destruct n; [unfold slice in Hin; simpl in Hin; set_solver|lia]).
    exists (inr (a, n)), c. cbn [node_value]. rewrite !Ef, E. split.
    { unfold nodes, arr_nodes. apply elem_of_app. right. apply list_elem_of_bind. exists (a, arr_at h a).
      split.
      - apply list_elem_of_fmap. exists (n - 1)%nat. simpl. split; [by replace (S (n - 1)) with n by lia|].
        apply elem_of_seq. lia.
      - apply elem_of_map_to_list. unfold arr_at in *. destruct (h_arrs h !! a); [done|simpl in *; lia]. }
    split; [done|]. split; [by exists x|]. split; [|done].
    destruct (mapM (freeze (S d) h) _) as [l|] eqn:E2; [|done]. by eapply mapM_elem.
Qed.

Lemma deep_chain d h v :
  is_Some (freeze (S d) h v) -> freeze d h v = None ->
  exists ks, length ks = d /\ NoDup ks /\ ks ⊆ nodes h /\
    forall k, k ∈ ks -> is_Some (freeze (S d) h (node_value k)).
Proof.
  revert v; induction d as [|d IH]; intros v Hs Hn.
  { exists []. split; [done|]. split; [constructor|]. split; [set_solver|]. intros k Hk. set_solver. }
  destruct (deep_child d h v Hs Hn) as (k & c & Hk & Hkn & Hks & Hc & Hcn).
  destruct (IH c Hc Hcn) as (ks & Hl & Hnd & Hsub & Hf).
  exists (k :: ks). split; [simpl; lia|]. split.
  { constructor; [|done]. intros Hin. destruct (Hf k Hin) as [x Hx]. congruence. }
  split; [set_solver|]. intros k' [->|Hk']%elem_of_cons; [done|].
  destruct (Hf k' Hk') as [x Hx]. exists x. eapply freeze_mono; [|done]. lia.
Qed.

(** The depth bound reads every tree there is to read. *)
Lemma freeze_bound d h v x : freeze d h v = Some x -> freeze (depth_bound h) h v = Some x.
Proof.
  induction d as [|d IH]; [done|]. intros Hs.
  destruct (freeze d h v) as [y|] eqn:E.
  { rewrite (freeze_mono d (S d) h v y) in Hs; [|lia|done]. apply IH. congruence. }
  destruct (deep_chain d h v) as (ks & Hl & Hnd & Hsub & _); [eauto|done|].
  apply (freeze_mono (S d)); [|done].
  assert (length ks <= length (nodes h))%nat; [|pose proof (nodes_length h); lia].
  apply submseteq_length, NoDup_submseteq; [done|]. intros k Hk. by apply Hsub.
Qed.

(** ** Store values and the values they represent *)

Definition rep (h : heap) (x : hval) (v : Value) : Prop := exists d, freeze d h x = Some v.

Lemma rep_bound h x v : rep h x v -> freeze (depth_bound h) h x = Some v.
Proof. intros [d H]. by eapply freeze_bound. Qed.

(** One layer of [rep]. *)
Definition shape (h : heap) (x : hval) (v : Value) : Prop :=
  match x, v with
  | HZero, VZero | HNull, VNull => True
  | HS a, VS b | HB a, VB b => a = b
  | HN a, VN b => a = b
  | HBool a, VBool b => a = b
  | HM l, VM m => forall k, option_Forall2 (rep h) (map_at h l !! k) (m !! k)
  | HL a n, VL vs => (n <= length (arr_at h a))%nat /\ Forall2 (rep h) (slice h a n) vs
  | HSS a, VSS b | HBS a, VBS b => a = b
  | HNS a, VNS b => a = b
  | _, _ => False
  end.

Lemma all_some_rel {A B} (f : A -> option B) (m : gmap string A) (m' : gmap string B) :
  all_some (f <$> m) = Some m' <-> forall k, option_Forall2 (fun x y => f x = Some y) (m !! k) (m' !! k).
Proof.
  rewrite all_some_Some. split.
  - intros E k. apply (f_equal (lookup k)) in E. rewrite !lookup_fmap in E.
    destruct (m !! k), (m' !! k); simpl in E; try done; constructor. congruence.
  - intros H. apply map_eq. intros k. rewrite !lookup_fmap.
    destruct (H k) as [x y E|]; simpl; congruence.
Qed.

Lemma rep_shape h x v : rep h x v <-> shape h x v.
Proof.
  split.
  - intros [[|d] H]; [done|]. destruct x; simpl in H; try (injection H as <-; done).
    + destruct (all_some _) as [m|] eqn:E; [|done]. injection H as <-. simpl. intros k.
      rewrite all_some_rel in E. destruct (E k); constructor. by exists d.
    + destruct (Nat.ltb_spec (length (arr_at h a)) len); [done|].
      destruct (mapM _ _) as [vs|] eqn:E; [|done]. injection H as <-. simpl.
      split; [done|]. apply mapM_Some in E. eapply Forall2_impl; [done|]. intros y w Hy. by exists d.
  - destruct x, v; simpl; try done; try (intros ->; by exists 1%nat); try (intros _; by exists 1%nat).
    + intros H. exists (S (depth_bound h)). cbn [freeze].
      assert (all_some (freeze (depth_bound h) h <$> map_at h l) = Some m) as ->; [|done].
      apply all_some_rel. intros k. destruct (H k); constructor. by apply rep_bound.
    + intros [Hlen H]. exists (S (depth_bound h)). cbn [freeze]. rewrite (proj2 (Nat.ltb_ge _ _)) by done.
      erewrite (proj2 (mapM_Some _ _ _)); [done|]. eapply Forall2_impl; [done|]. intros. by apply rep_bound.
Qed.

Lemma hget_from_rep h segs x v :
  rep h x v -> option_Forall2 (rep h) (hget_from h x segs) (get_from v segs).
Proof.
  revert x v; induction segs as [|s segs IH]; intros x v H; [by constructor|].
  cbn [hget_from get_from]. apply rep_shape in H.
  destruct (is_attr s), x, v; simpl in H; try done; try constructor.
  - destruct (H (attr s)); [by apply IH|constructor].
  - destruct H as [Hlen H]. pose proof (Forall2_length _ _ _ H) as Hl.
    unfold slice in Hl. rewrite length_take_le in Hl by done. unfold zlen. rewrite <- Hl.
    destruct (_ || _); [constructor|].
    destruct (proj1 (Forall2_lookup _ _ _) H (Z.to_nat (index s))); [by apply IH|constructor].
Qed.

(** ** Stores that agree

    [r] is the map being written (an item's own map): nothing else refers to it.  A
    [good] value refers to what exists and not to [r]; in a [closed] store everything
    stored outside [r] is good, so writing [r] and allocating change no good value. *)

Definition good (r n : loc) (x : hval) : Prop :=
  match x with HM l => l <> r /\ (l < n)%nat | HL a _ => (a < n)%nat | _ => True end.

Definition closed (r : loc) (h : heap) : Prop :=
  (forall l k x, l <> r -> map_at h l !! k = Some x -> good r (h_next h) x) /\
  (forall a x, x ∈ arr_at h a -> good r (h_next h) x).

Definition agree (r : loc) (h h' : heap) : Prop :=
  (h_next h <= h_next h')%nat /\
  (forall l, l <> r -> (l < h_next h)%nat -> map_at h' l = map_at h l) /\
  (forall a, (a < h_next h)%nat -> arr_at h' a = arr_at h a).

Lemma agree_refl r h : agree r h h.
Proof. done. Qed.

Lemma agree_trans r h1 h2 h3 : agree r h1 h2 -> agree r h2 h3 -> agree r h1 h3.
Proof.
  intros (N & M & A) (N' & M' & A'). split; [lia|].
  split; [intros; rewrite M', M by lia|intros; rewrite A', A by lia]; done.
Qed.

Lemma good_mono r n n' x : (n <= n')%nat -> good r n x -> good r n' x.
Proof. destruct x; simpl; try done; lia. Qed.

Lemma slice_in h a n x : x ∈ slice h a n -> x ∈ arr_at h a.
Proof. unfold slice. intros H. by eapply subseteq_take. Qed.

Lemma freeze_agree r h h' d x :
  closed r h -> agree r h h' -> good r (h_next h) x -> freeze d h' x = freeze d h x.
Proof.
  intros [CM CA] (N & M & A). revert x; induction d as [|d IH]; intros x G; [done|].
  destruct x; try done; cbn [freeze].
  - destruct G as [Hl Hn]. rewrite (M l Hl Hn). f_equal. apply all_some_ext.
    intros k x Hx. apply IH. by eapply CM.
  - unfold slice. rewrite (A a G). destruct (_ <? _)%nat; [done|]. f_equal. apply mapM_ext_in. intros x Hx.
    apply IH, (CA a). by eapply slice_in.
Qed.

(** A good value that represents. *)
Definition means (r : loc) (h : heap) (x : hval) (v : Value) : Prop :=
  good r (h_next h) x /\ rep h x v.

Lemma means_agree r h h' x v : closed r h -> agree r h h' -> means r h x v -> means r h' x v.
Proof.
  intros C E [G [d R]]. split; [destruct E; by eapply good_mono|]. exists d.
  by rewrite (freeze_agree r h h' d x C E G).
Qed.

Lemma hget_from_good r h segs x y :
  closed r h -> good r (h_next h) x -> hget_from h x segs = Some y -> good r (h_next h) y.
Proof.
  intros [CM CA]. revert x; induction segs as [|s segs IH]; intros x G; simpl; [by intros [= <-]|].
  destruct (is_attr s), x; try done.
  - destruct (map_at h l !! attr s) eqn:E; [|done]. destruct G as [Hl _]. eapply IH, CM; eauto.
  - destruct (_ || _); [done|]. destruct (slice h a len !! _) eqn:E; [|done].
    eapply IH, CA, slice_in, list_elem_of_lookup_2. done.
Qed.

Lemma hget_from_means r h segs x v :
  closed r h -> means r h x v -> option_Forall2 (means r h) (hget_from h x segs) (get_from v segs).
Proof.
  intros C [G R]. pose proof (hget_from_rep h segs x v R) as H.
  destruct (hget_from h x segs) as [y|] eqn:E; inversion H; subst; constructor.
  split; [by eapply hget_from_good|done].
Qed.

(** *** Allocation and writing *)

Lemma map_at_write l m h l' :
  map_at (write_map l m h) l' = if decide (l' = l) then m else map_at h l'.
Proof.
  unfold map_at, write_map. simpl. destruct (decide (l' = l)) as [->|]; [by rewrite lookup_insert_eq|].
  by rewrite lookup_insert_ne by done.
Qed.

Lemma arr_at_alloc l h a :
  arr_at (alloc_arr l h).2 a = if decide (a = h_next h) then l else arr_at h a.
Proof.
  unfold arr_at, alloc_arr. simpl. destruct (decide (a = h_next h)) as [->|]; [by rewrite lookup_insert_eq|].
  by rewrite lookup_insert_ne by done.
Qed.

Lemma map_at_alloc m h l :
  map_at (alloc_map m h).2 l = if decide (l = h_next h) then m else map_at h l.
Proof.
  unfold map_at, alloc_map. simpl. destruct (decide (l = h_next h)) as [->|]; [by rewrite lookup_insert_eq|].
  by rewrite lookup_insert_ne by done.
Qed.

Lemma agree_alloc_arr r l h : agree r h (alloc_arr l h).2.
Proof.
  split; [simpl; lia|]. split; [done|]. intros a Ha. rewrite arr_at_alloc.
  by rewrite decide_False by lia.
Qed.

Lemma agree_alloc_map r m h : agree r h (alloc_map m h).2.
Proof.
  split; [simpl; lia|]. split; [|done]. intros l _ Hl. rewrite map_at_alloc.
  by rewrite decide_False by lia.
Qed.

Lemma agree_write r m h : agree r h (write_map r m h).
Proof.
  split; [done|]. split; [|done]. intros l Hl _. by rewrite map_at_write, decide_False.
Qed.

Lemma closed_write r m h : closed r h -> closed r (write_map r m h).
Proof.
  intros [CM CA]. split; [|done]. intros l k x Hl. rewrite map_at_write, decide_False by done.
  by apply CM.
Qed.

Lemma closed_alloc_arr r l h :
  closed r h -> (forall x, x ∈ l -> good r (h_next h) x) -> closed r (alloc_arr l h).2.
Proof.
  intros [CM CA] Hl. split.
  - intros l' k x Hl' Hx. eapply good_mono, CM; eauto. simpl. lia.
  - intros a x. rewrite arr_at_alloc. intros Hx. apply (good_mono _ (h_next h)); [simpl; lia|].
    destruct (decide _); eauto.
Qed.

Lemma closed_alloc_map r m h :
  closed r h -> (forall k x, m !! k = Some x -> good r (h_next h) x) -> closed r (alloc_map m h).2.
Proof.
  intros [CM CA] Hm. split.
  - intros l k x Hl. rewrite map_at_alloc. intros Hx. apply (good_mono _ (h_next h)); [simpl; lia|].
    destruct (decide _); eauto.
  - intros a x Hx. eapply good_mono, CA; eauto. simpl. lia.
Qed.
