(* ===== verification/Update.v ===== *)
(** * Update: update expressions

    Model of src/internal/ddb/expr/update.go: the SET / REMOVE / ADD / DELETE grammar
    and the application of a parsed update to a copy of an item, over the store of
    Heap.v. *)

From S2P Require Import Prelude Decimal Item Lexer Path Cond Heap.

(** ** The parsed update *)

Inductive setExpr :=
| operandExpr (o : operand)
| arithmeticExpr (op : string) (left right : setExpr)
| listAppendExpr (a b : setExpr)
| ifNotExistsExpr (path : Path) (def : setExpr).

Record setAction := mkSet { set_path : Path; set_expr : setExpr }.
Record addAction := mkAdd { add_path : Path; add_ref : operand }.
Record deleteAction := mkDelete { del_path : Path; del_ref : operand }.

Record Update := mkUpdate {
  sets : list setAction;
  removes : list Path;
  adds : list addAction;
  deletes : list deleteAction
}.

(** ** Parsing *)

Fixpoint parseSetTerm (fuel : nat) : P setExpr :=
  match fuel with
  | O => out_of_fuel
  | S fuel' =>
      t ← peek;
      let name := to_lower (text t) in
      if bool_decide (kind t = tokIdent) && String.eqb name "list_append" then
        _ ← next;
        _ ← expect tokLParen "( after list_append";
        a ← parseSetTerm fuel';
        _ ← expect tokComma ", in list_append";
        b ← parseSetTerm fuel';
        _ ← expect tokRParen ")";
        mret (listAppendExpr a b)
      else if bool_decide (kind t = tokIdent) && String.eqb name "if_not_exists" then
        _ ← next;
        _ ← expect tokLParen "( after if_not_exists";
        path ← parsePath;
        _ ← expect tokComma ", in if_not_exists";
        def ← parseSetTerm fuel';
        _ ← expect tokRParen ")";
        mret (ifNotExistsExpr path def)
      else
        o ← parseOperand;
        mret (operandExpr o)
  end.

(** A nested term starts after its function's name, so the tokens bound the nesting. *)
Definition parse_term : P setExpr := fun p => parseSetTerm (length (toks p)) p.

Definition parseSetExpr : P setExpr :=
  left ← parse_term;
  t ← peek;
  match kind t with
  | tokPlus | tokMinus =>
      op ← next;
      right ← parse_term;
      mret (arithmeticExpr (text op) left right)
  | _ => mret left
  end.

(** The actions of a clause, separated by commas: the loop the four clauses share. *)
Fixpoint parseActions {A} (fuel : nat) (action : P A) (acc : list A) : P (list A) :=
  match fuel with
  | O => out_of_fuel
  | S fuel' =>
      a ← action;
      t ← peek;
      if decide (kind t = tokComma) then _ ← next; parseActions fuel' action (acc ++ [a])
      else mret (acc ++ [a])
  end.

Definition parse_list {A} (action : P A) : P (list A) :=
  fun p => parseActions (length (toks p)) action [] p.

Definition parseSetAction : P setAction :=
  path ← parsePath;
  t ← next;
  if negb (bool_decide (kind t = tokCompare)) || negb (String.eqb (text t) "=") then
    fail (errSyntax "SET requires = at offset %d")
  else
    rhs ← parseSetExpr;
    mret (mkSet path rhs).

Definition parseAddAction : P addAction :=
  path ← parsePath;
  val ← parseOperand;
  mret (mkAdd path val).

Definition parseDeleteAction : P deleteAction :=
  path ← parsePath;
  val ← parseOperand;
  mret (mkDelete path val).

Definition parseClause (kw : string) (u : Update) : P Update :=
  if String.eqb kw "SET" then
    l ← parse_list parseSetAction; mret (mkUpdate (sets u ++ l) (removes u) (adds u) (deletes u))
  else if String.eqb kw "REMOVE" then
    l ← parse_list parsePath; mret (mkUpdate (sets u) (removes u ++ l) (adds u) (deletes u))
  else if String.eqb kw "ADD" then
    l ← parse_list parseAddAction; mret (mkUpdate (sets u) (removes u) (adds u ++ l) (deletes u))
  else if String.eqb kw "DELETE" then
    l ← parse_list parseDeleteAction; mret (mkUpdate (sets u) (removes u) (adds u) (deletes u ++ l))
  else mret u.

Fixpoint parseClauses (fuel : nat) (seen : list string) (u : Update) : P Update :=
  match fuel with
  | O => out_of_fuel
  | S fuel' =>
      e ← atEOF;
      if e : bool then mret u
      else
        kw ← keyword ["SET"; "REMOVE"; "ADD"; "DELETE"];
        match kw with
        | None => fail (errSyntax "expected SET, REMOVE, ADD, or DELETE at offset %d, got %s")
        | Some kw =>
            if bool_decide (kw ∈ seen) then fail (errSyntax "the %s clause may appear at most once")
            else u' ← parseClause kw u; parseClauses fuel' (kw :: seen) u'
        end
  end.

Definition update_paths (u : Update) : list Path :=
  (set_path <$> sets u) ++ removes u ++ (add_path <$> adds u) ++ (del_path <$> deletes u).

(** The checks on a whole update: some action, and no two on one document path. *)
Definition check_update (u : Update) : result Update :=
  match update_paths u with
  | [] => Err (errSyntax "update expression has no actions")
  | ps => if hasDupStrings (path_String <$> ps)
          then Err (errSyntax "two document paths overlap with each other: %s") else Ok u
  end.

Definition empty_update : Update := mkUpdate [] [] [] [].

Definition parseUpdate : P Update := fun p => parseClauses (S (length (toks p))) [] empty_update p.

Definition ParseUpdate (src : string) (e : Env) : outcome (Update * Env) :=
  outcome_bind (run parseUpdate src e "UpdateExpression")
    (fun '(u, e') => Ret (u' ← check_update u; Ok (u', e'))).

(** ** Evaluating right-hand sides *)

(** The values of the request, each loaded once: every use of a reference is that one. *)
Abbreviation refs := (gmap string hval).

Definition hvalue_count (h : heap) (v : hval) : option Z :=
  match v with
  | HS s | HB s => Some (slen s)
  | HL _ len => Some (Z.of_nat len)
  | HM l => Some (Z.of_nat (size (map_at h l)))
  | HSS l | HBS l => Some (zlen l)
  | HNS l => Some (zlen l)
  | _ => None
  end.

Definition hoperand_value (tbl : refs) (o : operand) (h : heap) (it : loc) : result (option hval) :=
  match o with
  | pathOperand path => Ok (hGet path h it)
  | valueOperand ref _ => Ok (tbl !! ref)
  | sizeOperand path =>
      match hGet path h it with
      | None => Ok None
      | Some v =>
          match hvalue_count h v with
          | Some n => Ok (Some (HN (number_of n)))
          | None => Err (errSyntax "size() is not defined for type %s")
          end
      end
  end.

Fixpoint set_value (tbl : refs) (e : setExpr) (h : heap) (it : loc) : result (hval * heap) :=
  match e with
  | operandExpr o =>
      v ← hoperand_value tbl o h it;
      match v with
      | Some v => Ok (v, h)
      | None => Err (errSyntax "the document path %s does not exist")
      end
  | arithmeticExpr op a b =>
      l ← set_value tbl a h it;
      r ← set_value tbl b (snd l) it;
      match fst l, fst r with
      | HN a, HN b => Ok (HN (if String.eqb op "+" then Add a b else Sub a b), snd r)
      | _, _ => Err (errSyntax "arithmetic requires Number operands, got %s and %s")
      end
  | listAppendExpr a b =>
      l ← set_value tbl a h it;
      r ← set_value tbl b (snd l) it;
      match fst l, fst r with
      | HL x n, HL y m =>
          let '(z, h') := alloc_arr (slice (snd r) x n ++ slice (snd r) y m) (snd r) in
          Ok (HL z (n + m), h')
      | _, _ => Err (errSyntax "list_append requires two lists, got %s and %s")
      end
  | ifNotExistsExpr path def =>
      match hGet path h it with
      | Some v => Ok (v, h)
      | None => set_value tbl def h it
      end
  end.

(** ** The actions *)

Definition containsStr (l : list string) (s : string) : bool := bool_decide (s ∈ l).
Definition contains_decimal (l : list Decimal) (d : Decimal) : bool := existsb (same_decimal d) l.

(** Appends what is not there yet. *)
Definition merge {A} (member : list A -> A -> bool) (cur inc : list A) : list A :=
  foldl (fun merged x => if member merged x then merged else merged ++ [x]) cur inc.

(** Keeps what is not dropped. *)
Definition subtract {A} (member : list A -> A -> bool) (cur drop : list A) : list A :=
  List.filter (fun x => negb (member drop x)) cur.

Section apply.
  Context (grow : nat -> nat) (tbl : refs) (it : loc).

Definition applySet (a : setAction) (h : heap) : result heap :=
  v ← set_value tbl (set_expr a) h it;
  hSet grow (set_path a) (fst v) (snd v) it.

Definition applyAdd (a : addAction) (h : heap) : result heap :=
  inc ← hoperand_value tbl (add_ref a) h it;
  match inc with
  | None => Err (errSyntax "ADD operand is missing")
  | Some inc =>
      match hGet (add_path a) h it with
      | None =>
          match inc with
          | HN _ | HSS _ | HNS _ | HBS _ => hSet grow (add_path a) inc h it
          | _ => Err (errSyntax "ADD requires a Number or set operand, got %s")
          end
      | Some cur =>
          match cur, inc with
          | HN c, HN i => hSet grow (add_path a) (HN (Add c i)) h it
          | HSS c, HSS i => hSet grow (add_path a) (HSS (merge containsStr c i)) h it
          | HNS c, HNS i => hSet grow (add_path a) (HNS (merge contains_decimal c i)) h it
          | HBS c, HBS i => hSet grow (add_path a) (HBS (merge containsStr c i)) h it
          | _, _ => Err (errSyntax "ADD type mismatch: %s vs %s")
          end
      end
  end.

(** A set left empty takes its attribute with it. *)
Definition keep_or_remove {A} (path : Path) (kept : list A) (v : hval) (h : heap) : result heap :=
  match kept with [] => hRemove grow path h it | _ => hSet grow path v h it end.

Definition applyDelete (a : deleteAction) (h : heap) : result heap :=
  sub ← hoperand_value tbl (del_ref a) h it;
  match sub with
  | None => Err (errSyntax "DELETE operand is missing")
  | Some sub =>
      match hGet (del_path a) h it with
      | None => Ok h
      | Some cur =>
          match cur, sub with
          | HSS c, HSS s => let k := subtract containsStr c s in keep_or_remove (del_path a) k (HSS k) h
          | HNS c, HNS s =>
              let k := subtract contains_decimal c s in keep_or_remove (del_path a) k (HNS k) h
          | HBS c, HBS s => let k := subtract containsStr c s in keep_or_remove (del_path a) k (HBS k) h
          | _, _ => Err (errSyntax "DELETE requires matching set types, got %s and %s")
          end
      end
  end.

(** A loop over actions, stopping at the first error. *)
Fixpoint each {A} (f : A -> heap -> result heap) (l : list A) (h : heap) : result heap :=
  match l with [] => Ok h | a :: l' => h' ← f a h; each f l' h' end.

Definition apply_actions (u : Update) (h : heap) : result heap :=
  h ← each applySet (sets u) h;
  h ← each (fun p h => hRemove grow p h it) (removes u) h;
  h ← each applyAdd (adds u) h;
  each applyDelete (deletes u) h.
End apply.

(** [Update.Apply], on a copy of the item: the store afterwards and where the item is. *)
Definition Apply (grow : nat -> nat) (vals : gmap string Value) (u : Update) (orig : Item) :
  result (loc * heap) :=
  let '(tbl, h0) := load_map vals empty_heap in
  let '(m, h1) := load_map orig h0 in
  let '(it, h2) := alloc_map m h1 in
  h ← apply_actions grow tbl it u h2;
  Ok (it, h).

(** The updated item as its readers see it: they walk the tree to the end, so a value
    that contains itself crashes the process. *)
Definition Apply_item (grow : nat -> nat) (vals : gmap string Value) (u : Update) (orig : Item) :
  outcome Item :=
  match Apply grow vals u orig with
  | Err e => Ret (Err e)
  | Ok (it, h) =>
      match freeze (depth_bound h) h (HM it) with
      | Some (VM m) => Ret (Ok m)
      | _ => Panic
      end
  end.

(** ** Parsing never panics *)

Lemma parses_setTerm fuel p :
  valid p -> (remaining p <= fuel)%nat -> parses_at 1 (parseSetTerm fuel) p.
Proof.
  revert p; induction fuel as [|fuel IH]; intros p Hp Hf.
  { pose proof (valid_remaining p Hp). lia. }
  cbn [parseSetTerm]. apply parses_peek; [done|]. intros t Ht. cbv zeta.
  destruct (bool_decide (kind t = tokIdent) && String.eqb (to_lower (text t)) "list_append") eqn:E1;
    [|destruct (bool_decide (kind t = tokIdent) && String.eqb (to_lower (text t)) "if_not_exists") eqn:E2];
    try (apply andb_true_iff in E1 as [Hk%bool_decide_eq_true _]);
    try (apply andb_true_iff in E2 as [Hk%bool_decide_eq_true _]);
    try (eapply parses_next; [done..|by rewrite Hk|];
         assert (valid (consumed 1 p)) by (apply (valid_next p t); [done..|by rewrite Hk]));
    [| |by apply parses_map, parses_operand].
  - eapply parses_seq; [eauto with parse|done|]. intros ? n1 _ Hv1.
    apply (parses_at_weaken (1 + 0)); [lia|].
    apply parses_at_bind; [apply IH; [done|rewrite !remaining_consumed; lia]|]. intros la n2 _ _ Hv2.
    eapply parses_seq; [eauto with parse|done|]. intros ? n3 _ Hv3.
    apply (parses_at_weaken (1 + 0)); [lia|].
    apply parses_at_bind; [apply IH; [done|rewrite !remaining_consumed; lia]|]. intros lb n4 _ _ Hv4.
    repeat parse_step.
  - eapply parses_seq; [eauto with parse|done|]. intros ? n1 _ Hv1.
    eapply parses_seq; [eauto with parse|done|]. intros path n2 _ Hv2.
    eapply parses_seq; [eauto with parse|done|]. intros ? n3 _ Hv3.
    apply (parses_at_weaken (1 + 0)); [lia|].
    apply parses_at_bind; [apply IH; [done|rewrite !remaining_consumed; lia]|]. intros lb n4 _ _ Hv4.
    repeat parse_step.
Qed.

Lemma parses_term : parses 1 parse_term.
Proof. intros p Hp. apply parses_setTerm; [done|]. unfold remaining. lia. Qed.
#[export] Hint Resolve parses_term : parse.

Lemma parses_setExpr : parses 0 parseSetExpr.
Proof.
  intros p Hp. unfold parseSetExpr. eapply parses_seq; [eauto with parse|done|]. intros a n _ Hv.
  apply parses_peek; [done|]. intros t Ht. destruct (kind t) eqn:Hk; repeat parse_step.
Qed.
#[export] Hint Resolve parses_setExpr : parse.

Lemma parses_actions {A} (action : P A) fuel acc p :
  parses 1 action -> valid p -> (remaining p <= fuel)%nat ->
  parses_at 0 (parseActions fuel action acc) p.
Proof.
  intros Ha. revert acc p; induction fuel as [|fuel IH]; intros acc p Hp Hf.
  { pose proof (valid_remaining p Hp). lia. }
  cbn [parseActions]. repeat parse_step. apply IH; [done|]. rewrite !remaining_consumed. lia.
Qed.

Lemma parses_list {A} (action : P A) : parses 1 action -> parses 0 (parse_list action).
Proof. intros Ha p Hp. apply parses_actions; [done..|]. unfold remaining. lia. Qed.

Lemma parses_setAction : parses 1 parseSetAction.
Proof.
  intros p Hp. unfold parseSetAction. apply parses_seq1; [apply parses_path|done|]. intros path n _ Hv.
  destruct (valid_peek _ Hv) as [t Ht]. destruct (decide (kind t = tokCompare)) as [Hk|Hk].
  - eapply parses_next0; [done..|by rewrite Hk|]. intros Hv'. repeat parse_step.
  - unfold parses_at, mbind, P_bind, next. by rewrite Ht, bool_decide_false.
Qed.

Lemma parses_addAction : parses 1 parseAddAction.
Proof. intros p Hp. unfold parseAddAction. apply parses_seq1; [apply parses_path|done|]. intros. repeat parse_step. Qed.

Lemma parses_deleteAction : parses 1 parseDeleteAction.
Proof. intros p Hp. unfold parseDeleteAction. apply parses_seq1; [apply parses_path|done|]. intros. repeat parse_step. Qed.
#[export] Hint Resolve parses_list parses_setAction parses_addAction parses_deleteAction : parse.

Lemma parses_clause kw u : parses 0 (parseClause kw u).
Proof. intros p Hp. unfold parseClause. repeat parse_step. Qed.
#[export] Hint Resolve parses_clause : parse.

(** The clauses end at the end of the source. *)
Lemma clauses_end fuel seen u p :
  valid p -> (remaining p <= fuel)%nat ->
  match parseClauses fuel seen u p with
  | PDone _ p' => exists n t, p' = consumed n p /\ toks p !! (pos p + n)%nat = Some t /\ kind t = tokEOF
  | PErr _ => True
  | PPanic | PFuel => False
  end.
Proof.
  revert seen u p; induction fuel as [|fuel IH]; intros seen u p Hp Hf.
  { pose proof (valid_remaining p Hp). lia. }
  destruct (valid_peek p Hp) as [t Ht]. cbn [parseClauses]. unfold atEOF.
  unfold mbind, P_bind, peek, mret, P_ret. rewrite Ht. case_bool_decide as Hk.
  { exists 0%nat, t. by rewrite consumed_0, Nat.add_0_r. }
  destruct (keyword_spec ["SET"; "REMOVE"; "ADD"; "DELETE"] p Hp) as [->|(kw & -> & Hv)]; [done|].
  case_bool_decide; [done|]. pose proof (parses_clause kw u _ Hv) as Hc. unfold parses_at in Hc.
  destruct (parseClause kw u _) as [u' p'| | |]; try done. destruct Hc as (n & _ & -> & Hv').
  specialize (IH (kw :: seen) u' _ Hv'). rewrite consumed_plus in *.
  rewrite remaining_consumed in IH. specialize (IH ltac:(lia)).
  destruct (parseClauses fuel _ _ _) as [u'' p''| | |]; try done.
  destruct IH as (k & t' & -> & Ht' & Hk'). exists (1 + n + k)%nat, t'. rewrite consumed_plus.
  split; [done|]. split; [|done]. simpl in Ht'. by replace (pos p + (1 + n + k))%nat with (pos p + S n + k)%nat by lia.
Qed.

Lemma ends_update : ends parseUpdate.
Proof. intros p Hp. apply clauses_end; [done|]. unfold remaining. lia. Qed.
