(* ===== verification/UpdateSpec.v ===== *)
(** * UpdateSpec: what updates do, by value

    The abstract specification of update expressions whose targets are top-level
    attributes: right-hand sides are values of the item, and actions insert and delete
    attributes of a finite map.  The theorems show that the code, over its store of
    shared maps and slices, implements it; and that beyond it the sharing shows. *)

From S2P Require Import Prelude Decimal Item Lexer Path Cond KeyCond Heap Update.

(** ** The specification *)

Definition spec_operand (vals : gmap string Value) (o : operand) (m : Item) : result (option Value) :=
  match o with
  | valueOperand ref _ => Ok (vals !! ref)
  | _ => operand_value o m
  end.

Fixpoint spec_value (vals : gmap string Value) (e : setExpr) (m : Item) : result Value :=
  match e with
  | operandExpr o =>
      v ← spec_operand vals o m;
      match v with
      | Some v => Ok v
      | None => Err (errSyntax "the document path %s does not exist")
      end
  | arithmeticExpr op a b =>
      x ← spec_value vals a m;
      y ← spec_value vals b m;
      match x, y with
      | VN x, VN y => Ok (VN (if String.eqb op "+" then Add x y else Sub x y))
      | _, _ => Err (errSyntax "arithmetic requires Number operands, got %s and %s")
      end
  | listAppendExpr a b =>
      x ← spec_value vals a m;
      y ← spec_value vals b m;
      match x, y with
      | VL x, VL y => Ok (VL (x ++ y))
      | _, _ => Err (errSyntax "list_append requires two lists, got %s and %s")
      end
  | ifNotExistsExpr path def =>
      match Get path m with Some v => Ok v | None => spec_value vals def m end
  end.

(** A top-level path's attribute. *)
Definition root_of (p : Path) : string := match p with [seg] => attr seg | _ => "" end.

Definition spec_set (vals : gmap string Value) (a : setAction) (m : Item) : result Item :=
  v ← spec_value vals (set_expr a) m;
  Ok (<[root_of (set_path a) := v]> m).

Definition spec_remove (p : Path) (m : Item) : result Item := Ok (delete (root_of p) m).

Definition spec_add (vals : gmap string Value) (a : addAction) (m : Item) : result Item :=
  let k := root_of (add_path a) in
  inc ← spec_operand vals (add_ref a) m;
  match inc with
  | None => Err (errSyntax "ADD operand is missing")
  | Some inc =>
      match m !! k, inc with
      | None, (VN _ | VSS _ | VNS _ | VBS _) => Ok (<[k := inc]> m)
      | None, _ => Err (errSyntax "ADD requires a Number or set operand, got %s")
      | Some (VN c), VN i => Ok (<[k := VN (Add c i)]> m)
      | Some (VSS c), VSS i => Ok (<[k := VSS (merge containsStr c i)]> m)
      | Some (VNS c), VNS i => Ok (<[k := VNS (merge contains_decimal c i)]> m)
      | Some (VBS c), VBS i => Ok (<[k := VBS (merge containsStr c i)]> m)
      | Some _, _ => Err (errSyntax "ADD type mismatch: %s vs %s")
      end
  end.

(** A set left empty is deleted. *)
Definition spec_keep {A} (k : string) (kept : list A) (v : Value) (m : Item) : result Item :=
  match kept with [] => Ok (delete k m) | _ => Ok (<[k := v]> m) end.

Definition spec_delete (vals : gmap string Value) (a : deleteAction) (m : Item) : result Item :=
  let k := root_of (del_path a) in
  sub ← spec_operand vals (del_ref a) m;
  match sub with
  | None => Err (errSyntax "DELETE operand is missing")
  | Some sub =>
      match m !! k, sub with
      | None, _ => Ok m
      | Some (VSS c), VSS s => let l := subtract containsStr c s in spec_keep k l (VSS l) m
      | Some (VNS c), VNS s => let l := subtract contains_decimal c s in spec_keep k l (VNS l) m
      | Some (VBS c), VBS s => let l := subtract containsStr c s in spec_keep k l (VBS l) m
      | Some _, _ => Err (errSyntax "DELETE requires matching set types, got %s and %s")
      end
  end.

Fixpoint spec_each {A} (f : A -> Item -> result Item) (l : list A) (m : Item) : result Item :=
  match l with [] => Ok m | a :: l' => m' ← f a m; spec_each f l' m' end.

Definition spec_update (vals : gmap string Value) (u : Update) (m : Item) : result Item :=
  m ← spec_each (spec_set vals) (sets u) m;
  m ← spec_each spec_remove (removes u) m;
  m ← spec_each (spec_add vals) (adds u) m;
  spec_each (spec_delete vals) (deletes u) m.

(** The updates it is about: every target is one attribute. *)
Definition top_level (u : Update) : Prop := Forall (fun p => length p = 1%nat) (update_paths u).

(** ** Loading builds fresh trees *)

(** Location 0 is never allocated. *)
Definition fresh (h : heap) : Prop := (0 < h_next h)%nat /\ map_at h 0%nat = ∅.

Lemma fresh_alloc_map m h : fresh h -> fresh (alloc_map m h).2.
Proof. intros [H E]. split; [simpl; lia|]. by rewrite map_at_alloc, decide_False by lia. Qed.

Lemma fresh_alloc_arr l h : fresh h -> fresh (alloc_arr l h).2.
Proof. intros [H E]. split; [simpl; lia|done]. Qed.

(** What loading one value does, whatever the rest of the store. *)
Definition loads (v : Value) : Prop := forall h,
  fresh h -> closed 0 h ->
  let '(x, h') := load v h in
  closed 0 h' /\ agree 0 h h' /\ fresh h' /\ means 0 h' x v.

Definition load_entry (k : string) (v : Value) (acc : gmap string hval * heap) : gmap string hval * heap :=
  let '(hm, h0) := acc in let '(x, h1) := load v h0 in (<[k := x]> hm, h1).

Lemma load_map_fold m h : load_map m h = map_fold load_entry (∅, h) m.
Proof. reflexivity. Qed.

Lemma load_map_spec m h :
  (forall k v, m !! k = Some v -> loads v) -> fresh h -> closed 0 h ->
  let '(hm, h') := load_map m h in
  closed 0 h' /\ agree 0 h h' /\ fresh h' /\
  forall k, option_Forall2 (means 0 h') (hm !! k) (m !! k).
Proof.
  intros Hl Hn C. rewrite load_map_fold. revert Hl.
  apply (map_fold_weak_ind (fun r m => (forall k v, m !! k = Some v -> loads v) ->
    let '(hm, h') := r in closed 0 h' /\ agree 0 h h' /\ fresh h' /\
    forall k, option_Forall2 (means 0 h') (hm !! k) (m !! k)) load_entry).
  - intros _. split; [done|]. split; [apply agree_refl|]. split; [done|]. intros k.
    rewrite !lookup_empty. constructor.
  - intros k v m' [hm h1] Hk IH Hl.
    destruct IH as (C1 & A1 & N1 & M1).
    { intros k' v' Hk'. apply (Hl k'). rewrite lookup_insert_ne by congruence. done. }
    unfold load_entry. pose proof (Hl k v (lookup_insert_eq _ _ _) h1 N1 C1) as L.
    destruct (load v h1) as [x h2]. destruct L as (C2 & A2 & N2 & M2).
    split; [done|]. split; [by eapply agree_trans|]. split; [done|]. intros k'.
    destruct (decide (k' = k)) as [->|]; [rewrite !lookup_insert_eq; by constructor|].
    rewrite !lookup_insert_ne by done. destruct (M1 k'); constructor. by apply (means_agree 0 h1).
Qed.

Definition load_cell (v : Value) (acc : list hval * heap) : list hval * heap :=
  let '(hs, h0) := acc in let '(x, h1) := load v h0 in (x :: hs, h1).

Lemma load_list_spec vs h :
  (forall v, v ∈ vs -> loads v) -> fresh h -> closed 0 h ->
  let '(hs, h') := foldr load_cell ([], h) vs in
  closed 0 h' /\ agree 0 h h' /\ fresh h' /\ Forall2 (means 0 h') hs vs.
Proof.
  intros Hl Hn C. induction vs as [|v vs IH]; simpl.
  { split; [done|]. split; [apply agree_refl|]. split; [done|constructor]. }
  specialize (IH ltac:(intros; apply Hl; by right)).
  destruct (foldr load_cell ([], h) vs) as [hs h1]. destruct IH as (C1 & A1 & N1 & M1).
  unfold load_cell. pose proof (Hl v ltac:(by left) h1 N1 C1) as L.
  destruct (load v h1) as [x h2]. destruct L as (C2 & A2 & N2 & M2).
  split; [done|]. split; [by eapply agree_trans|]. split; [done|]. constructor; [done|].
  eapply Forall2_impl; [done|]. intros. by apply (means_agree 0 h1).
Qed.

Lemma means_map r h l hm m :
  l <> r -> (l < h_next h)%nat -> map_at h l = hm ->
  (forall k, option_Forall2 (means r h) (hm !! k) (m !! k)) -> means r h (HM l) (VM m).
Proof.
  intros Hr Hl E H. split; [done|]. apply rep_shape. simpl. intros k. rewrite E.
  destruct (H k) as [x v [_ Hx]|]; by constructor.
Qed.

Lemma load_spec v : loads v.
Proof.
  induction v as [| | | | | |m IH|l IH| | |] using Value_ind_nested; intros h Hn C; cbn [load];
    try (split; [done|]; split; [apply agree_refl|]; split; [done|]; split; [done|by exists 1%nat]).
  - pose proof (load_map_spec m h IH Hn C) as L. rewrite load_map_fold in L.
    change (map_fold _ (∅, h) m) with (map_fold load_entry (∅, h) m).
    destruct (map_fold load_entry (∅, h) m) as [hm h1]. destruct L as (C1 & A1 & N1 & M1).
    destruct (alloc_map hm h1) as [l h2] eqn:E.
    assert (l = h_next h1) as -> by (by injection E). assert (h2 = (alloc_map hm h1).2) as -> by (by rewrite E).
    assert (agree 0 h1 (alloc_map hm h1).2) as A2 by apply agree_alloc_map.
    split. { apply closed_alloc_map; [done|]. intros k x Hx. pose proof (M1 k) as Hk. rewrite Hx in Hk.
      by inversion Hk as [? ? [? _]|]. }
    split; [by eapply agree_trans|]. split; [by apply fresh_alloc_map|].
    destruct N1. eapply means_map; [lia|simpl; lia|by rewrite map_at_alloc, decide_True|].
    intros k. destruct (M1 k); constructor. by apply (means_agree 0 h1).
  - pose proof (load_list_spec l h IH Hn C) as L.
    change (foldr _ ([], h) l) with (foldr load_cell ([], h) l).
    destruct (foldr load_cell ([], h) l) as [hs h1]. destruct L as (C1 & A1 & N1 & M1).
    destruct (alloc_arr hs h1) as [a h2] eqn:E.
    assert (a = h_next h1) as -> by (by injection E). assert (h2 = (alloc_arr hs h1).2) as -> by (by rewrite E).
    assert (agree 0 h1 (alloc_arr hs h1).2) as A2 by apply agree_alloc_arr.
    split. { apply closed_alloc_arr; [done|]. intros x Hx. apply list_elem_of_lookup in Hx as (i & Hi).
      by destruct (Forall2_lookup_l _ _ _ _ _ M1 Hi) as (? & _ & [? _]). }
    split; [by eapply agree_trans|]. split; [by apply fresh_alloc_arr|].
    split; [simpl; lia|]. apply rep_shape. cbn [shape]. unfold slice.
    rewrite arr_at_alloc, decide_True by done. split; [done|]. rewrite take_ge by lia.
    eapply Forall2_impl; [done|]. intros x v M. by apply (means_agree 0 h1 _ x v C1 A2 M).
Qed.

(** ** The code simulates the specification *)

Section simulation.
Context (grow : nat -> nat) (r : loc) (vals : gmap string Value) (tbl : gmap string hval).

(** The store [h] holds the item [m] in the map [r], and the request's values. *)
Record sim (h : heap) (m : Item) : Prop := {
  sim_closed : closed r h;
  sim_root k : option_Forall2 (means r h) (map_at h r !! k) (m !! k);
  sim_refs k : option_Forall2 (means r h) (tbl !! k) (vals !! k)
}.

Lemma sim_agree h h' m : sim h m -> agree r h h' -> closed r h' -> map_at h' r = map_at h r -> sim h' m.
Proof.
  intros [C S T] A C' E. split; [done| |]; intros k; [rewrite E; destruct (S k)|destruct (T k)];
    constructor; by apply (means_agree r h).
Qed.

Lemma sim_write h m k x v :
  sim h m -> means r h x v -> sim (write_map r (<[k := x]> (map_at h r)) h) (<[k := v]> m).
Proof.
  intros [C S T] M. pose proof (agree_write r (<[k := x]> (map_at h r)) h) as A.
  split; [by apply closed_write| |]; intros k'.
  - rewrite map_at_write, decide_True by done. destruct (decide (k' = k)) as [->|].
    + rewrite !lookup_insert_eq. constructor. by apply (means_agree r h).
    + rewrite !lookup_insert_ne by done. destruct (S k'); constructor. by apply (means_agree r h).
  - destruct (T k'); constructor. by apply (means_agree r h).
Qed.

Lemma sim_delete h m k : sim h m -> sim (write_map r (delete k (map_at h r)) h) (delete k m).
Proof.
  intros [C S T]. pose proof (agree_write r (delete k (map_at h r)) h) as A.
  split; [by apply closed_write| |]; intros k'.
  - rewrite map_at_write, decide_True by done. destruct (decide (k' = k)) as [->|].
    + rewrite !lookup_delete_eq. constructor.
    + rewrite !lookup_delete_ne by done. destruct (S k'); constructor. by apply (means_agree r h).
  - destruct (T k'); constructor. by apply (means_agree r h).
Qed.

Lemma sim_alloc h m l :
  sim h m -> (forall x, x ∈ l -> good r (h_next h) x) -> (r < h_next h)%nat -> sim (alloc_arr l h).2 m.
Proof.
  intros S Hl Hr. eapply sim_agree; [done|apply agree_alloc_arr|by apply closed_alloc_arr, Hl; apply S|done].
Qed.

Lemma hGet_means h m p : sim h m -> option_Forall2 (means r h) (hGet p h r) (Get p m).
Proof.
  intros [C S _]. destruct p as [|s p]; [constructor|]. simpl.
  destruct (S (attr s)); [by apply hget_from_means|constructor].
Qed.

(** Related results: equal errors, or related values. *)
Definition rel_result {A B} (R : A -> B -> Prop) (a : result A) (b : result B) : Prop :=
  match a, b with Ok x, Ok y => R x y | Err e, Err e' => e = e' | _, _ => False end.

Lemma rel_bind {A B C D} (R : A -> B -> Prop) (Q : C -> D -> Prop) a b f g :
  rel_result R a b -> (forall x y, R x y -> rel_result Q (f x) (g y)) ->
  rel_result Q (a ≫= f) (b ≫= g).
Proof. destruct a, b; simpl; try done; auto. Qed.

Lemma value_count_means h x v : means r h x v -> hvalue_count h x = value_count v.
Proof.
  intros [_ R%rep_shape]. destruct x, v; simpl in R; try done; subst; try done; simpl.
  - do 2 f_equal. rewrite <- !size_dom. f_equal. apply set_eq. intros k.
    rewrite !elem_of_dom. destruct (R k); [split; eauto|done].
  - destruct R as [Hlen R]. apply Forall2_length in R. unfold slice in R.
    rewrite length_take_le in R by done. unfold zlen. by rewrite R.
Qed.

Lemma operand_means h m o :
  sim h m -> rel_result (option_Forall2 (means r h)) (hoperand_value tbl o h r) (spec_operand vals o m).
Proof.
  intros S. destruct o as [p|ref v|p]; simpl; [by apply hGet_means|apply S|].
  destruct (hGet_means h m p S) as [x v M|]; [|constructor].
  rewrite (value_count_means h x v M). destruct (value_count v); [|done]. constructor.
  split; [done|by exists 1%nat].
Qed.

(** A scalar means itself in any store. *)
Lemma means_shape h x v :
  match x with HM _ | HL _ _ => False | _ => True end -> shape h x v -> means r h x v.
Proof. intros Hx Hs. split; [by destruct x|]. by apply rep_shape. Qed.

(** What a right-hand side answers: its value, in a store that still holds the item. *)
Definition value_sim (m : Item) (h : heap) (a : hval * heap) (v : Value) : Prop :=
  sim a.2 m /\ agree r h a.2 /\ (r < h_next a.2)%nat /\ means r a.2 a.1 v.

Lemma set_value_sim e h m :
  sim h m -> (r < h_next h)%nat ->
  rel_result (value_sim m h) (set_value tbl e h r) (spec_value vals e m).
Proof.
  revert h; induction e as [o|op a IHa b IHb|a IHa b IHb|p e IH]; intros h S Hr;
    cbn [set_value spec_value].
  - eapply rel_bind; [by apply operand_means|]. intros x v M. destruct M as [x v M|]; [|done].
    split; [done|]. split; [apply agree_refl|done].
  - eapply rel_bind; [by apply IHa|]. intros [x h1] v (S1 & A1 & R1 & M1).
    eapply rel_bind; [by apply IHb|]. intros [y h2] w (S2 & A2 & R2 & M2). simpl in *.
    apply (means_agree r h1 h2 _ _ (sim_closed _ _ S1) A2) in M1 as [_ M1%rep_shape].
    destruct M2 as [_ M2%rep_shape].
    destruct x, v; simpl in M1; try done; destruct y, w; simpl in M2; try done. subst.
    split; [done|]. split; [by eapply agree_trans|]. split; [done|]. by apply means_shape.
  - eapply rel_bind; [by apply IHa|]. intros [x h1] v (S1 & A1 & R1 & M1).
    eapply rel_bind; [by apply IHb|]. intros [y h2] w (S2 & A2 & R2 & M2). cbn [fst snd] in *.
    apply (means_agree r h1 h2 _ _ (sim_closed _ _ S1) A2) in M1 as [G1 M1%rep_shape].
    destruct M2 as [G2 M2%rep_shape].
    destruct x, v; cbn [shape] in M1; try done; destruct y, w; cbn [shape] in M2; try done.
    destruct M1 as [L1 M1], M2 as [L2 M2].
    set (cells := slice h2 a0 len ++ slice h2 a1 len0).
    assert (forall x, x ∈ cells -> good r (h_next h2) x) as Gl.
    { intros x [Hx|Hx]%elem_of_app; eapply (proj2 (sim_closed _ _ S2)), slice_in; done. }
    destruct (alloc_arr cells h2) as [z h3] eqn:E.
    assert (z = h_next h2) as -> by (by injection E). assert (h3 = (alloc_arr cells h2).2) as -> by (by rewrite E).
    assert (agree r h2 (alloc_arr cells h2).2) as A3 by apply agree_alloc_arr.
    split; [by apply sim_alloc|]. split; [eapply agree_trans; [done|by eapply agree_trans]|].
    split; [simpl; lia|]. split; [simpl; lia|]. apply rep_shape. cbn [shape fst snd].
    assert (length cells = len + len0)%nat as Ll.
    { unfold cells. rewrite length_app. unfold slice. by rewrite !length_take_le. }
    unfold slice. rewrite arr_at_alloc, decide_True by done. split; [lia|]. rewrite take_ge by lia.
    assert (Forall2 (means r h2) cells (l ++ l0)) as Hm.
    { apply Forall2_same_length_lookup_2; [rewrite Ll, length_app|].
      - apply Forall2_length in M1, M2. unfold slice in *. rewrite length_take_le in * by done. lia.
      - intros i x v Hx Hv. split; [by eapply Gl, list_elem_of_lookup_2|].
        pose proof (Forall2_app M1 M2) as M.
        destruct (Forall2_lookup_l _ _ _ _ _ M Hx) as (v' & Hv' & ?). fold cells in Hv'. congruence. }
    eapply Forall2_impl; [done|]. intros x v M. apply (means_agree r h2 _ x v (sim_closed _ _ S2) A3 M).
  - destruct (hGet_means h m p S) as [x v M|]; [|by apply IH].
    split; [done|]. split; [apply agree_refl|done].
Qed.

(** *** Actions *)

Definition held (h : heap) (m : Item) : Prop := sim h m /\ (r < h_next h)%nat.

Lemma hSet_top p x v h m :
  length p = 1%nat -> held h m -> means r h x v ->
  rel_result held (hSet grow p x h r) (Ok (<[root_of p := v]> m)).
Proof.
  destruct p as [|s [|]]; try done. intros _ [S Hr] M. split; [|done]. by apply sim_write.
Qed.

Lemma hRemove_top p h m :
  length p = 1%nat -> held h m -> rel_result held (hRemove grow p h r) (Ok (delete (root_of p) m)).
Proof. destruct p as [|s [|]]; try done. intros _ [S Hr]. split; [|done]. by apply sim_delete. Qed.

Lemma hGet_top p h m :
  length p = 1%nat -> sim h m -> option_Forall2 (means r h) (hGet p h r) (m !! root_of p).
Proof.
  destruct p as [|s [|]]; try done. intros _ S. simpl. by destruct (sim_root _ _ S (attr s)); constructor.
Qed.

Lemma applySet_sim a h m :
  length (set_path a) = 1%nat -> held h m ->
  rel_result held (applySet grow tbl r a h) (spec_set vals a m).
Proof.
  intros Hp [S Hr]. eapply rel_bind; [by apply set_value_sim|].
  intros [x h'] v (S' & _ & Hr' & M). by apply hSet_top.
Qed.

(** A top-level write of a scalar. *)
Lemma hSet_scalar p x v h m :
  length p = 1%nat -> held h m -> match x with HM _ | HL _ _ => False | _ => True end -> shape h x v ->
  rel_result held (hSet grow p x h r) (Ok (<[root_of p := v]> m)).
Proof. intros. apply hSet_top; [done..|by apply means_shape]. Qed.

Lemma applyAdd_sim a h m :
  length (add_path a) = 1%nat -> held h m ->
  rel_result held (applyAdd grow tbl r a h) (spec_add vals a m).
Proof.
  intros Hp H. pose proof H as [S Hr]. eapply rel_bind; [by apply operand_means|].
  intros x v M. destruct M as [x v M|]; [|done].
  destruct (hGet_top (add_path a) h m Hp S) as [y w N|].
  - destruct M as [_ M%rep_shape], N as [_ N%rep_shape].
    destruct y, w; simpl in N; try done; destruct x, v; simpl in M; try done; subst;
      by apply hSet_scalar.
  - pose proof M as [_ R%rep_shape]. destruct x, v; simpl in R; try done; by apply hSet_top.
Qed.

Lemma keep_sim {A} p (kept : list A) x v h m :
  length p = 1%nat -> held h m -> match x with HM _ | HL _ _ => False | _ => True end -> shape h x v ->
  rel_result held (keep_or_remove grow r p kept x h) (spec_keep (root_of p) kept v m).
Proof.
  intros Hp H Hx Hs. destruct kept; [by apply hRemove_top|by apply hSet_scalar].
Qed.

Lemma applyDelete_sim a h m :
  length (del_path a) = 1%nat -> held h m ->
  rel_result held (applyDelete grow tbl r a h) (spec_delete vals a m).
Proof.
  intros Hp H. pose proof H as [S Hr]. eapply rel_bind; [by apply operand_means|].
  intros x v M. destruct M as [x v M|]; [|done].
  destruct (hGet_top (del_path a) h m Hp S) as [y w N|]; [|done].
  destruct M as [_ M%rep_shape], N as [_ N%rep_shape].
  destruct y, w; simpl in N; try done; destruct x, v; simpl in M; try done; subst; by apply keep_sim.
Qed.

Lemma each_sim {A} (ok : A -> Prop) (f : A -> heap -> result heap) (g : A -> Item -> result Item) l h m :
  (forall a h m, ok a -> held h m -> rel_result held (f a h) (g a m)) ->
  Forall ok l -> held h m -> rel_result held (each f l h) (spec_each g l m).
Proof.
  intros Hf Hl. revert h m; induction Hl as [|a l Ha _ IH]; intros h m H; [done|]. simpl.
  eapply rel_bind; [by apply Hf|]. intros h' m' H'. by apply IH.
Qed.

Lemma actions_sim u h m :
  top_level u -> held h m -> rel_result held (apply_actions grow tbl r u h) (spec_update vals u m).
Proof.
  intros T H. unfold top_level, update_paths in T. rewrite !Forall_app, !Forall_fmap in T.
  destruct T as (T1 & T2 & T3 & T4).
  eapply rel_bind; [apply (each_sim (fun a => length (set_path a) = 1%nat)); [intros; by apply applySet_sim|done|done]|]. intros h1 m1 H1.
  eapply rel_bind; [apply (each_sim (fun p => length p = 1%nat)); [intros; by apply hRemove_top|done|done]|]. intros h2 m2 H2.
  eapply rel_bind; [apply (each_sim (fun a => length (add_path a) = 1%nat)); [intros; by apply applyAdd_sim|done|done]|]. intros h3 m3 H3.
  apply (each_sim (fun a => length (del_path a) = 1%nat)); [intros; by apply applyDelete_sim|done|done].
Qed.

End simulation.

(** ** The update as a whole *)

Lemma closed_empty : closed 0 empty_heap.
Proof.
  split; [intros l k x _; unfold map_at; simpl; by rewrite lookup_empty|].
  intros a x. unfold arr_at. simpl. rewrite lookup_empty. set_solver.
Qed.

Lemma fresh_empty : fresh empty_heap.
Proof. split; [simpl; lia|done]. Qed.

Lemma load_all m h :
  fresh h -> closed 0 h ->
  let '(hm, h') := load_map m h in
  closed 0 h' /\ agree 0 h h' /\ fresh h' /\ forall k, option_Forall2 (means 0 h') (hm !! k) (m !! k).
Proof. intros F C. apply load_map_spec; [|done..]. intros. apply load_spec. Qed.

(** Giving an item a map of its own: from here on nothing else refers to it. *)
Lemma own_map hm h :
  fresh h -> closed 0 h -> (forall k x, hm !! k = Some x -> good 0 (h_next h) x) ->
  closed (h_next h) (alloc_map hm h).2 /\
  (forall x v, means 0 h x v -> means (h_next h) (alloc_map hm h).2 x v).
Proof.
  intros [Hn H0] [CM CA] Hm.
  assert (forall x, good 0 (h_next h) x -> good (h_next h) (S (h_next h)) x) as Hg.
  { intros []; simpl; try done; lia. }
  split.
  - split.
    + intros l k x Hl. rewrite map_at_alloc, decide_False by done. intros Hx. apply Hg.
      destruct (decide (l = 0%nat)) as [->|]; [|by eapply CM]. by rewrite H0, lookup_empty in Hx.
    + intros a x Hx. by eapply Hg, CA.
  - intros x v [G [d R]]. split; [by apply Hg|]. exists d.
    rewrite <- R. apply (freeze_agree 0); [done|apply agree_alloc_map|done].
Qed.

Lemma Apply_top grow vals u orig :
  top_level u ->
  rel_result (fun a m => rep a.2 (HM a.1) (VM m)) (Apply grow vals u orig) (spec_update vals u orig).
Proof.
  intros T. unfold Apply.
  pose proof (load_all vals empty_heap fresh_empty closed_empty) as L.
  destruct (load_map vals empty_heap) as [tbl h0]. destruct L as (C0 & _ & F0 & M0).
  pose proof (load_all orig h0 F0 C0) as L.
  destruct (load_map orig h0) as [hm h1]. destruct L as (C1 & A1 & F1 & M1).
  destruct (alloc_map hm h1) as [r h2] eqn:E.
  assert (r = h_next h1) as -> by (by injection E). assert (h2 = (alloc_map hm h1).2) as -> by (by rewrite E).
  destruct (own_map hm h1 F1 C1) as [C2 M2].
  { intros k x Hx. pose proof (M1 k) as Hk. rewrite Hx in Hk. by inversion Hk as [? ? [? _]|]. }
  assert (held (h_next h1) vals tbl (alloc_map hm h1).2 orig) as H.
  { split; [|simpl; lia]. split; [done| |]; intros k.
    - rewrite map_at_alloc, decide_True by done. destruct (M1 k); constructor. by apply M2.
    - destruct (M0 k); constructor. by apply M2, (means_agree 0 h0). }
  pose proof (actions_sim grow _ _ _ u _ _ T H) as S.
  destruct (apply_actions _ _ _ _ _) as [h3|], (spec_update vals u orig) as [m|]; simpl in *; try done.
  destruct S as [[_ S _] _]. apply rep_shape. simpl. intros k.
  destruct (S k) as [x v [_ R]|]; by constructor.
Qed.

(** C6: Updates of top-level attributes are what they say: whatever the item and the
    request's values, applying a parsed update whose targets are single attributes ends,
    and answers the error or exactly the item of the specification, where SET binds
    values, REMOVE deletes, ADD adds numbers and unites sets, and DELETE subtracts sets;
    the shared maps and slices of the implementation do not show. *)
Theorem Apply_refines grow vals u orig :
  top_level u -> Apply_item grow vals u orig = Ret (spec_update vals u orig).
Proof.
  intros T. pose proof (Apply_top grow vals u orig T) as H. unfold Apply_item.
  destruct (Apply grow vals u orig) as [[r h]|], (spec_update vals u orig) as [m|]; simpl in H; try done.
  - by rewrite (rep_bound h _ _ H).
  - by subst.
Qed.

Definition sample_update : Update :=
  mkUpdate [mkSet [mkSeg "a" 0] (listAppendExpr (operandExpr (pathOperand [mkSeg "m" 0; mkSeg "l" 0]))
                                   (operandExpr (valueOperand ":l" (VL []))))]
    [[mkSeg "gone" 0]] [] [].

Lemma Apply_refines_witness :
  let vals : gmap string Value := {[ ":l" := VL [VNull] ]} in
  let it : Item := {[ "m" := VM {[ "l" := VL [VBool true] ]} ]} in
  top_level sample_update /\
  Apply_item (fun n => n) vals sample_update it = Ret (spec_update vals sample_update it).
Proof.
  intros vals it. assert (top_level sample_update) as T by (repeat constructor).
  split; [done|]. by apply Apply_refines.
Defined.

(** Beyond top-level targets the sharing shows.  [SET a = b, b.x = :v] binds one map
    to two names, so the second action changes [a] too, where by value [a] keeps the old
    map.  And a map can be made to contain itself: [SET b.y = b] parses and applies, and the
    item it leaves has no end: no depth reads it back, so sizing or encoding it never
    returns. *)
Lemma updates_alias :
  (let v := VS "new" in
   let it : Item := {[ "b" := VM {[ "x" := VS "old" ]} ]} in
   exists u e', ParseUpdate "SET a = b, b.x = :v" (NewEnv ∅ {[ ":v" := v ]}) = Ret (Ok (u, e')) /\
     forall grow, Apply_item grow {[ ":v" := v ]} u it =
       Ret (Ok {[ "a" := VM {[ "x" := v ]}; "b" := VM {[ "x" := v ]} ]})) /\
  let it : Item := {[ "b" := VM ∅ ]} in
  exists u e', ParseUpdate "SET b.y = b" (NewEnv ∅ ∅) = Ret (Ok (u, e')) /\
    forall grow, Apply_item grow ∅ u it = Panic /\
      exists r h, Apply grow ∅ u it = Ok (r, h) /\ forall d, freeze d h (HM r) = None.
Proof.
  split; [do 2 eexists; split; [vm_compute; reflexivity|]; intros grow; vm_compute; reflexivity|].
  do 2 eexists. split; [vm_compute; reflexivity|]. intros grow. split; [vm_compute; reflexivity|].
  do 2 eexists. split; [vm_compute; reflexivity|]. intros d.
  match goal with |- freeze d ?h (HM ?r) = None => set (hp := h) end.
  destruct (freeze d hp _) as [v|] eqn:E; [|done]. apply freeze_bound in E. vm_compute in E. done.
Qed.
