(* ===== verification/Projection.v ===== *)
(** * Projection: projection expressions

    Model of the second half of src/internal/ddb/expr/keycond.go: the paths a request
    asks to keep, and the item rebuilt from what they name.  The parts it keeps are
    shared with the item, so it runs on the store of Heap.v. *)

From S2P Require Import Prelude Decimal Item Lexer Path Cond KeyCond Heap Update UpdateSpec.

Abbreviation Projection := (list Path).

Definition parseProjection : P Projection := parse_list parsePath.

Definition ParseProjection (src : string) (e : Env) : outcome (Projection * Env) :=
  run (parse_all parseProjection (errSyntax "unexpected %s in ProjectionExpression"))
    src e "ProjectionExpression".

(** [graft]: writes [v] under [out] at a path, making maps on the way; a path through a
    list appends the element to the list attribute. *)
Fixpoint graft (grow : nat -> nat) (out : loc) (segs : Path) (v : hval) (h : heap) : heap :=
  match segs with
  | [] => h
  | head :: rest =>
      match rest with
      | [] => if is_attr head then write_map out (<[attr head := v]> (map_at h out)) h else h
      | seg :: _ =>
          if negb (is_attr head) then h
          else if negb (is_attr seg) then
            match map_at h out !! attr head with
            | None =>
                let '(l, h') := append_slice grow 0%nat 0%nat v h in
                write_map out (<[attr head := l]> (map_at h' out)) h'
            | Some (HL a len) =>
                let '(l, h') := append_slice grow a len v h in
                write_map out (<[attr head := l]> (map_at h' out)) h'
            | Some _ => h (* the list field of a value that is no list *)
            end
          else
            let '(l, h1) := match map_at h out !! attr head with
              | Some (HM l) => (l, h)
              | _ => alloc_map ∅ h
              end in
            let h2 := graft grow l rest v h1 in
            write_map out (<[attr head := HM l]> (map_at h2 out)) h2
      end
  end.

(** [Projection.Apply] on the item at [it], into the map at [out]. *)
Fixpoint project (grow : nat -> nat) (it out : loc) (paths : Projection) (h : heap) : heap :=
  match paths with
  | [] => h
  | p :: paths' =>
      project grow it out paths'
        (match hGet p h it with Some v => graft grow out p v h | None => h end)
  end.

Definition Projection_Apply (grow : nat -> nat) (pr : Projection) (it : Item) : outcome Item :=
  let '(m, h0) := load_map it empty_heap in
  let '(src, h1) := alloc_map m h0 in
  let '(out, h2) := alloc_map ∅ h1 in
  let h := project grow src out pr h2 in
  match freeze (depth_bound h) h (HM out) with
  | Some (VM m) => Ret (Ok m)
  | _ => Panic
  end.

(** ** Top-level projections are restrictions *)

Definition top_name (p : Path) : option string :=
  match p with [seg] => if is_attr seg then Some (attr seg) else None | _ => None end.

Definition restrict (names : list string) (it : Item) : Item :=
  filter (fun '(k, _) => k ∈ names) it.

(** What holds while projecting: the item is whole, and the result holds what was asked. *)
Record projecting (src out : loc) (h : heap) (it : Item) (done : list string) : Prop := {
  pr_closed : closed out h;
  pr_src : src <> out /\ (src < h_next h)%nat /\ (out < h_next h)%nat;
  pr_item k : option_Forall2 (means out h) (map_at h src !! k) (it !! k);
  pr_out k : option_Forall2 (means out h) (map_at h out !! k) (restrict done it !! k)
}.

Lemma restrict_lookup names it k :
  restrict names it !! k = if decide (k ∈ names) then it !! k else None.
Proof.
  unfold restrict. destruct (decide (k ∈ names)).
  - destruct (it !! k) eqn:E; [by apply map_lookup_filter_Some_2|].
    apply map_lookup_filter_None. by left.
  - apply map_lookup_filter_None. right. by intros.
Qed.

Lemma project_step grow src out h it names k :
  projecting src out h it names -> is_attr (mkSeg k 0) = true -> forall i,
  projecting src out
    (match hGet [mkSeg k i] h src with Some v => graft grow out [mkSeg k i] v h | None => h end)
    it (names ++ [k]).
Proof.
  intros [C (Ne & Ls & Lo) I O] Hk i. cbn [hGet hget_from attr]. unfold is_attr in Hk. simpl in Hk.
  assert (forall k', restrict (names ++ [k]) it !! k' =
    if decide (k' = k) then it !! k else restrict names it !! k') as Er.
  { intros k'. rewrite !restrict_lookup. destruct (decide (k' = k)) as [->|].
    - rewrite decide_True; [done|]. apply elem_of_app. right. by apply list_elem_of_singleton.
    - destruct (decide (k' ∈ names)); [rewrite decide_True; [done|]; apply elem_of_app; by left|].
      rewrite decide_False; [done|]. rewrite elem_of_app, list_elem_of_singleton. tauto. }
  destruct (map_at h src !! k) as [x|] eqn:Ex.
  - cbn [graft]. unfold is_attr. simpl. rewrite Hk.
    pose proof (agree_write out (<[k := x]> (map_at h out)) h) as A.
    pose proof (I k) as Hx. rewrite Ex in Hx. destruct (it !! k) as [v|] eqn:Ei; [|by inversion Hx].
    assert (means out h x v) as M by (by inversion Hx).
    split; [by apply closed_write|done| |]; intros k'.
    + rewrite map_at_write, decide_False by done. destruct (I k'); constructor. by apply (means_agree out h).
    + rewrite map_at_write, decide_True, Er by done. destruct (decide (k' = k)) as [->|].
      * rewrite lookup_insert_eq. constructor. by apply (means_agree out h).
      * rewrite lookup_insert_ne by done. destruct (O k'); constructor. by apply (means_agree out h).
  - split; [done..|]. intros k'. rewrite Er. destruct (decide (k' = k)) as [->|]; [|apply O].
    pose proof (I k) as Hx. rewrite Ex in Hx. destruct (it !! k) eqn:Ei; [by inversion Hx|].
    pose proof (O k) as Ho. rewrite restrict_lookup, Ei in Ho. by destruct (decide (k ∈ names)).
Qed.

Lemma project_all grow src out names ps h it done :
  Forall2 (fun k p => top_name p = Some k) names ps -> projecting src out h it done ->
  projecting src out (project grow src out ps h) it (done ++ names).
Proof.
  intros H. revert h done. induction H as [|k p names ps Hp _ IH]; intros h done P.
  { by rewrite app_nil_r. }
  destruct p as [|s [|]]; try discriminate Hp. cbn [top_name] in Hp.
  destruct (is_attr s) eqn:Ha; [|discriminate Hp]. injection Hp as <-.
  change (attr s :: names) with ([attr s] ++ names). rewrite app_assoc.
  destruct s as [k i]. cbn [project attr]. apply IH, project_step; done.
Qed.

(** Projecting onto top-level attributes restricts the item to them: the result has
    exactly the named attributes the item has, with the item's values; in whatever order
    and however often they are named. *)
Lemma Projection_restricts grow pr it names :
  Forall2 (fun k p => top_name p = Some k) names pr ->
  Projection_Apply grow pr it = Ret (Ok (restrict names it)).
Proof.
  intros H. unfold Projection_Apply.
  pose proof (load_all it empty_heap fresh_empty closed_empty) as L.
  destruct (load_map it empty_heap) as [m h0]. destruct L as (C0 & _ & F0 & M0).
  assert (forall k x, m !! k = Some x -> good 0 (h_next h0) x) as Gm.
  { intros k x Hx. pose proof (M0 k) as Hk. rewrite Hx in Hk. by inversion Hk as [? ? [? _]|]. }
  destruct (alloc_map m h0) as [src h1] eqn:E1.
  assert (src = h_next h0) as Es by (by injection E1).
  assert (h1 = (alloc_map m h0).2) as Eh1 by (by rewrite E1).
  assert (closed 0 h1) as C1 by (subst h1; by apply closed_alloc_map).
  assert (fresh h1) as F1 by (subst h1; by apply fresh_alloc_map).
  assert (agree 0 h0 h1) as A1 by (subst h1; apply agree_alloc_map).
  destruct (alloc_map ∅ h1) as [out h2] eqn:E2.
  assert (out = h_next h1) as Eo by (by injection E2).
  assert (h2 = (alloc_map ∅ h1).2) as Eh2 by (by rewrite E2).
  destruct (own_map ∅ h1 F1 C1) as [C2 M2]; [intros k x Hx; by rewrite lookup_empty in Hx|].
  assert (h_next h1 = S (h_next h0)) as En by (subst h1; done).
  assert (projecting src out h2 it []) as P.
  { subst out h2. split; [done|split; [lia|simpl; lia]| |]; intros k.
    - rewrite map_at_alloc, decide_False by lia. subst h1 src. rewrite map_at_alloc, decide_True by done.
      destruct (M0 k); constructor; by apply M2, (means_agree 0 h0 (alloc_map m h0).2).
    - rewrite map_at_alloc, decide_True, restrict_lookup by done. rewrite lookup_empty.
      rewrite decide_False by (by intros ?%not_elem_of_nil). constructor. }
  pose proof (project_all grow src out names pr h2 it [] H P) as [_ _ _ O].
  change ([] ++ names) with names in O.
  assert (rep (project grow src out pr h2) (HM out) (VM (restrict names it))) as R.
  { apply rep_shape. simpl. intros k. destruct (O k) as [x v [_ R]|]; by constructor. }
  by rewrite (rep_bound _ _ _ R).
Qed.

Lemma Projection_restricts_witness :
  let it : Item := {[ "a" := VS "1"; "b" := VM {[ "x" := VNull ]}; "c" := VS "2" ]} in
  Projection_Apply (fun n => n) [[mkSeg "b" 0]; [mkSeg "z" 0]; [mkSeg "b" 0]] it =
    Ret (Ok (restrict ["b"; "z"; "b"] it)).
Proof. intros it. apply Projection_restricts. repeat constructor. Defined.

Lemma ends_projection :
  ends (parse_all parseProjection (errSyntax "unexpected %s in ProjectionExpression")).
Proof. by eapply ends_parse_all, parses_list, parses_path. Qed.

(** C27: No source text makes any of the expression parsers panic or run out of fuel: each
    answers a tree or an error, and with a tree the check for unused references passes
    exactly when every name and value the request supplied was used before or appears in
    the source. *)
Theorem parsers_total src e :
  let answered {A} (o : outcome (A * Env)) := match o with
    | Ret (Ok (_, e')) => unused_check src e e'
    | Ret (Err _) => True
    | Panic | OutOfFuel => False
    end in
  answered (ParseCondition src e) /\ answered (ParseFilter src e) /\
  answered (ParseKeyCondition src e) /\ answered (ParseUpdate src e) /\
  answered (ParseProjection src e).
Proof.
  intros answered. unfold answered.
  split; [apply (run_unused _ _ _ _ ends_cond)|]. split; [apply (run_unused _ _ _ _ ends_cond)|].
  split.
  - unfold ParseKeyCondition.
    pose proof (run_unused _ src e "KeyConditionExpression"
      (ends_parse_all _ _ (errSyntax "unexpected %s in KeyConditionExpression") parses_keyClauses)) as H.
    destruct (run _ _ _ _) as [[[c e']|]| |]; try done. simpl. by destruct (key_condition c).
  - split; [|apply (run_unused _ _ _ _ ends_projection)].
    unfold ParseUpdate. pose proof (run_unused _ src e "UpdateExpression" ends_update) as H.
    destruct (run _ _ _ _) as [[[u e']|]| |]; try done. simpl. by destruct (check_update u).
Qed.
