(* ===== verification/Bolt.v ===== *)
(** * Bolt: the embedded key/value store, as the engine relies on it

    The engine keeps its state in bbolt, a third-party library.  [Bolt] is the
    operations the engine calls on a bucket and [BoltLaws] the documented behaviour
    the theorems use: a bucket is a finite map from byte strings, its cursor visits
    the keys in byte order, a put may be refused, and its sequence counts up.
    [mem_bolt] is a bucket in memory that satisfies the laws.

    Two answers of bbolt are less than they seem.  [Stats] walks the pages of a bucket as
    they were committed, so a transaction that writes has to ask the bucket it began with.
    And a cursor over a bucket that changes may show unexpected keys: [bwalk] is what one
    shows whose keys are deleted as they come, and only its first key is known.

    A bucket's values are typed by what the engine marshals into them. *)

From stdpp Require Import sorting.
From S2P Require Import Prelude.

Class Bolt := {
  bucket : Type -> Type;
  bempty {V} : bucket V;
  bget {V} : string -> bucket V -> option V;
  bput {V} : string -> V -> bucket V -> result (bucket V);
  bdelete {V} : string -> bucket V -> bucket V;
  bentries {V} : bucket V -> list (string * V);       (* in cursor order *)
  bsequence {V} : bucket V -> Z;
  bnext_sequence {V} : bucket V -> bucket V;
  bkeyn {V} : bucket V -> Z;                           (* Stats().KeyN, of a committed bucket *)
  bwalk {V} : bucket V -> list string                  (* First and Next, deleting each key *)
}.

Class BoltLaws (B : Bolt) := {
  bget_bempty V k : bget (V := V) k bempty = None;
  bget_bput V k (v : V) b b' k' :
    bput k v b = Ok b' -> bget k' b' = if decide (k' = k) then Some v else bget k' b;
  bget_bdelete V k k' (b : bucket V) :
    bget k' (bdelete k b) = if decide (k' = k) then None else bget k' b;
  bentries_sorted V (b : bucket V) : StronglySorted bytes_lt (fst <$> bentries b);
  bentries_bget V (b : bucket V) k v : (k, v) ∈ bentries b <-> bget k b = Some v;
  bsequence_bempty V : bsequence (V := V) bempty = 0;
  bsequence_bput V k (v : V) b b' : bput k v b = Ok b' -> bsequence b' = bsequence b;
  bsequence_bdelete V k (b : bucket V) : bsequence (bdelete k b) = bsequence b;
  bsequence_next V (b : bucket V) : bsequence (bnext_sequence b) = bsequence b + 1;
  bget_next V k (b : bucket V) : bget k (bnext_sequence b) = bget k b;
  bkeyn_entries V (b : bucket V) : bkeyn b = Z.of_nat (length (bentries b));
  bwalk_first V (b : bucket V) : head (bwalk b) = fst <$> head (bentries b)
}.

(** ** A bucket in memory *)

Definition entry_le {V} (a b : string * V) : Prop := bytes_cmp a.1 b.1 <> Gt.

#[global] Instance entry_le_dec {V} : RelDecision (@entry_le V).
Proof. intros a b. unfold entry_le. destruct (bytes_cmp a.1 b.1); [left|left|right]; auto. Defined.

Definition maxKeySize : Z := 32768.

(** The keys of one leaf that a cursor shows when each is deleted as it comes: the rest
    move up by one, and the cursor passes over the next. *)
Fixpoint every_other {A} (l : list A) : list A :=
  match l with
  | a :: l' => a :: match l' with [] => [] | _ :: l'' => every_other l'' end
  | [] => []
  end.

#[global] Instance mem_bolt : Bolt := {|
  bucket V := (gmap string V * Z)%type;
  bempty V := (∅, 0);
  bget V k b := b.1 !! k;
  bput V k v b :=
    if String.eqb k "" then Err (plain_error "key required")
    else if maxKeySize <? slen k then Err (plain_error "key too large")
    else Ok (<[k := v]> b.1, b.2);
  bdelete V k b := (delete k b.1, b.2);
  bentries V b := merge_sort entry_le (map_to_list b.1);
  bsequence V b := b.2;
  bnext_sequence V b := (b.1, b.2 + 1);
  bkeyn V b := Z.of_nat (size b.1);
  bwalk V b := every_other (merge_sort entry_le (map_to_list b.1)).*1
|}.

#[global] Instance entry_le_total {V} : Total (@entry_le V).
Proof.
  intros a b. unfold entry_le. rewrite (bytes_cmp_antisym a.1 b.1). destruct (bytes_cmp a.1 b.1); auto.
Qed.

#[global] Instance entry_le_trans {V} : Transitive (@entry_le V).
Proof.
  intros a b c. unfold entry_le. intros H1 H2 H3.
  destruct (bytes_cmp a.1 b.1) eqn:E1; [| |done].
  - apply bytes_cmp_eq in E1. rewrite E1 in H3. done.
  - destruct (bytes_cmp b.1 c.1) eqn:E2; [| |done].
    + apply bytes_cmp_eq in E2. rewrite <- E2 in H3. congruence.
    + pose proof (bytes_cmp_trans Lt _ _ _ ltac:(done) E1 E2). congruence.
Qed.

(** Sorted with no two equal keys is strictly sorted. *)
Lemma entries_strict {V} (l : list (string * V)) :
  StronglySorted entry_le l -> NoDup l.*1 -> StronglySorted bytes_lt l.*1.
Proof.
  induction 1 as [|e l _ IH He]; simpl; [constructor|]. rewrite NoDup_cons. intros [Hn Hd].
  constructor; [auto|]. apply Forall_forall. intros k Hk.
  apply list_elem_of_fmap in Hk as (x & -> & Hx). pose proof (proj1 (Forall_forall (entry_le e) l) He) as He2. specialize (He2 x Hx). unfold entry_le, bytes_lt in *.
  destruct (bytes_cmp e.1 x.1) eqn:E; [|done..]. apply bytes_cmp_eq in E. destruct Hn.
  rewrite E. apply list_elem_of_fmap. eauto.
Qed.

#[global] Instance mem_bolt_laws : BoltLaws mem_bolt.
Proof.
  split; simpl.
  - intros. apply lookup_empty.
  - intros V k v b b' k'. destruct (String.eqb k ""); [done|]. destruct (_ <? _); [done|].
    intros [= <-]. simpl. destruct (decide (k' = k)) as [->|]; [apply lookup_insert_eq|by apply lookup_insert_ne].
  - intros V k k' b. destruct (decide (k' = k)) as [->|]; [apply lookup_delete_eq|by apply lookup_delete_ne].
  - intros V b. apply entries_strict; [apply StronglySorted_merge_sort; apply _|].
    rewrite merge_sort_Permutation. apply NoDup_fst_map_to_list.
  - intros V b k v. rewrite merge_sort_Permutation. apply elem_of_map_to_list.
  - done.
  - intros V k v b b'. destruct (String.eqb k ""); [done|]. destruct (_ <? _); [done|]. by intros [= <-].
  - done.
  - done.
  - done.
  - intros V b. rewrite (merge_sort_Permutation entry_le). by rewrite length_map_to_list.
  - intros V b. by destruct (merge_sort _ _).
Qed.
