(* ===== verification/Cursor.v ===== *)
(** * Cursor: positions in a bucket

    What bbolt's cursors visit, as the rests of a bucket's entries in cursor order. *)

From stdpp Require Import sorting.
From S2P Require Import Prelude Bolt.

(** ** Cursors *)

(** [Cursor.Seek] and [Next]: what starts at the first key not below [k]. *)
Fixpoint seek {V} (k : string) (l : list (string * V)) : list (string * V) :=
  match l with
  | [] => []
  | e :: l' => if bytes_ltb e.1 k then seek k l' else l
  end.

(** What precedes the first key not below [k], last first: [Seek], then [Prev]. *)
Fixpoint before_rev {V} (k : string) (l acc : list (string * V)) : list (string * V) :=
  match l with
  | [] => acc
  | e :: l' => if bytes_ltb e.1 k then before_rev k l' (e :: acc) else acc
  end.

(** Resuming after a key: past it when it is there, else at the next one. *)
Definition seek_after {V} (k : string) (l : list (string * V)) : list (string * V) :=
  match seek k l with
  | e :: l' => if String.eqb e.1 k then l' else e :: l'
  | [] => []
  end.

(** ** Positions in a sorted bucket *)

Definition key_lt {V} (a b : string * V) : Prop := bytes_lt a.1 b.1.

Lemma sorted_entries {V} (l : list (string * V)) : StronglySorted bytes_lt l.*1 -> StronglySorted key_lt l.
Proof.
  induction l as [|e l IH]; intros H; [constructor|]. inversion H as [|?? Hl He]; subst.
  constructor; [by apply IH|]. apply Forall_forall. intros x Hx. rewrite Forall_forall in He.
  apply He. by apply list_elem_of_fmap_2.
Qed.

Lemma bytes_ltb_lt s t : bytes_ltb s t = false <-> ~ bytes_lt s t.
Proof. rewrite <- bytes_ltb_spec. by destruct (bytes_ltb s t). Qed.

Lemma filter_all {A} (p : A -> bool) (l : list A) : (forall x, x ∈ l -> p x = true) -> List.filter p l = l.
Proof.
  induction l as [|x l IH]; intros H; [done|]. simpl. rewrite (H x) by left. f_equal. apply IH.
  intros y Hy. apply H. by right.
Qed.

Lemma filter_none {A} (p : A -> bool) (l : list A) : (forall x, x ∈ l -> p x = false) -> List.filter p l = [].
Proof.
  induction l as [|x l IH]; intros H; [done|]. simpl. rewrite (H x) by left. apply IH.
  intros y Hy. apply H. by right.
Qed.

Lemma elem_of_filter_bool {A} (p : A -> bool) (l : list A) x : x ∈ List.filter p l <-> x ∈ l /\ p x = true.
Proof. rewrite !list_elem_of_In. apply filter_In. Qed.

(** [Seek] stops at the first key not below its argument. *)
Lemma seek_filter {V} k (l : list (string * V)) :
  StronglySorted key_lt l -> seek k l = List.filter (fun e => negb (bytes_ltb e.1 k)) l.
Proof.
  induction 1 as [|e l Hl IH He]; [done|]. simpl. destruct (bytes_ltb e.1 k) eqn:E; simpl; [done|].
  f_equal. symmetry. apply filter_all. intros x Hx. rewrite Forall_forall in He. specialize (He x Hx).
  apply negb_true_iff, bytes_ltb_lt. intros Hlt. apply bytes_ltb_lt in E. apply E. by etrans.
Qed.

Lemma seek_after_filter {V} k (l : list (string * V)) :
  StronglySorted key_lt l -> seek_after k l = List.filter (fun e => bytes_ltb k e.1) l.
Proof.
  intros H. unfold seek_after. induction H as [|e l Hl IH He]; [done|]. simpl.
  rewrite Forall_forall in He. unfold key_lt in He.
  assert (bytes_lt k e.1 -> forall x, x ∈ l -> bytes_ltb k x.1 = true) as Habove.
  { intros Hk x Hx. apply bytes_ltb_spec. etrans; [done|by apply He]. }
  assert (forall a b, bytes_lt a b -> bytes_ltb b a = false) as Hasym.
  { intros a b Hab. apply bytes_ltb_lt. intros Hba. apply (bytes_lt_irrefl a). by etrans. }
  destruct (bytes_lt_trichotomy e.1 k) as [Hlt|[<-|Hlt]].
  - by rewrite (proj2 (bytes_ltb_spec _ _) Hlt), IH, (Hasym _ _ Hlt).
  - rewrite !(proj2 (bytes_ltb_lt _ _)), String.eqb_refl by apply bytes_lt_irrefl. symmetry.
    apply filter_all. intros x Hx. by apply bytes_ltb_spec, He.
  - rewrite (Hasym _ _ Hlt). destruct (String.eqb_spec e.1 k) as [E|]; [rewrite E in Hlt; by destruct (bytes_lt_irrefl k)|].
    rewrite (proj2 (bytes_ltb_spec _ _) Hlt). f_equal. symmetry. by apply filter_all, Habove.
Qed.

Lemma before_rev_filter {V} k (l acc : list (string * V)) :
  StronglySorted key_lt l ->
  before_rev k l acc = List.filter (fun e => bytes_ltb e.1 k) (reverse l) ++ acc.
Proof.
  intros H. revert acc. induction H as [|e l Hl IH He]; intros acc; [done|]. simpl. rewrite reverse_cons.
  rewrite List.filter_app. simpl. destruct (bytes_ltb e.1 k) eqn:E.
  - rewrite IH. by rewrite <- app_assoc.
  - rewrite app_nil_r, filter_none; [done|]. intros x Hx. rewrite elem_of_reverse in Hx.
    rewrite Forall_forall in He. specialize (He x Hx). apply bytes_ltb_lt in E. apply bytes_ltb_lt.
    intros Hlt. apply E. unfold key_lt in He. by etrans.
Qed.

(** ** The keys that start with a prefix are together *)

Lemma noprefix_cmp s p x : has_prefix s p = false -> bytes_cmp s (p +:+ x) = bytes_cmp s p /\ bytes_cmp s p <> Eq.
Proof.
  revert s; induction p as [|c p IH]; intros s; [by destruct s|]. destruct s as [|d s]; [done|].
  cbn [has_prefix String.append bytes_cmp]. destruct (Ascii.eqb_spec c d) as [<-|Hne].
  - rewrite Z.compare_refl. apply IH.
  - intros _. destruct (Z.compare_spec (byte_of d) (byte_of c)) as [E|E|E]; [|done..].
    apply byte_of_inj in E. congruence.
Qed.

Lemma noprefix_lt s p x : has_prefix s p = false -> bytes_lt s (p +:+ x) <-> bytes_lt s p.
Proof. intros H. unfold bytes_lt. by rewrite (proj1 (noprefix_cmp s p x H)). Qed.

Lemma noprefix_gt s p x : has_prefix s p = false -> bytes_lt (p +:+ x) s <-> bytes_lt p s.
Proof.
  intros H. unfold bytes_lt. rewrite (bytes_cmp_antisym s), (bytes_cmp_antisym s p).
  by rewrite (proj1 (noprefix_cmp s p x H)).
Qed.

Lemma prefix_not_below s p : has_prefix s p = true -> ~ bytes_lt s p.
Proof.
  intros (x & ->)%has_prefix_spec. unfold bytes_lt. rewrite <- (sapp_nil_r p) at 2. rewrite bytes_cmp_app.
  by destruct x.
Qed.

(** ** Filters of sorted lists *)

Lemma filter_cons_bool {A} (f : A -> bool) x l : List.filter f (x :: l) = if f x then x :: List.filter f l else List.filter f l.
Proof. done. Qed.

Lemma filter_swap {A} (p q : A -> bool) l : List.filter p (List.filter q l) = List.filter q (List.filter p l).
Proof.
  induction l as [|x l IH]; [done|]. cbn [List.filter].
  destruct (p x) eqn:Ep, (q x) eqn:Eq; cbn [List.filter]; rewrite ?Ep, ?Eq, ?IH; done.
Qed.

Lemma filter_implied {A} (p q : A -> bool) l :
  (forall x, x ∈ l -> p x = true -> q x = true) -> List.filter p (List.filter q l) = List.filter p l.
Proof.
  intros H. rewrite filter_swap. apply filter_all. intros x [Hx Hp]%elem_of_filter_bool. auto.
Qed.

Lemma sorted_filter {A} (R : A -> A -> Prop) (p : A -> bool) l :
  StronglySorted R l -> StronglySorted R (List.filter p l).
Proof.
  induction 1 as [|x l Hl IH Hx]; [constructor|]. rewrite filter_cons_bool. destruct (p x); [|done].
  constructor; [done|]. rewrite Forall_forall in Hx. apply Forall_forall. intros y [Hy _]%elem_of_filter_bool. auto.
Qed.

Lemma sorted_snoc {A} (R : A -> A -> Prop) l x :
  StronglySorted R l -> (forall y, y ∈ l -> R y x) -> StronglySorted R (l ++ [x]).
Proof.
  induction 1 as [|y l Hl IH Hy]; intros H; simpl; [repeat constructor|].
  constructor; [apply IH; intros z Hz; apply H; by right|].
  apply Forall_app. split; [done|]. constructor; [apply H; by left|constructor].
Qed.

Lemma sorted_reverse {A} (R : A -> A -> Prop) l : StronglySorted R l -> StronglySorted (flip R) (reverse l).
Proof.
  induction 1 as [|x l Hl IH Hx]; [constructor|]. rewrite reverse_cons. apply sorted_snoc; [done|].
  intros y Hy. rewrite elem_of_reverse in Hy. rewrite Forall_forall in Hx. by apply Hx.
Qed.

Lemma sorted_omap {A C} (R : A -> A -> Prop) (Q : C -> C -> Prop) (f : A -> option C) l :
  (forall x y a b, x ∈ l -> y ∈ l -> f x = Some a -> f y = Some b -> R x y -> Q a b) ->
  StronglySorted R l -> StronglySorted Q (omap f l).
Proof.
  intros H Hl. induction Hl as [|x l Hl IH Hx]; [constructor|]. simpl.
  assert (StronglySorted Q (omap f l)) as IH' by (apply IH; intros x' y' a b ? ?; apply H; by right).
  destruct (f x) as [a|] eqn:E; [|done]. constructor; [done|]. rewrite Forall_forall in Hx. apply Forall_forall.
  intros b (y & Hy & Eb)%list_elem_of_omap. apply (H x y a b); [by left|by right|done|done|by apply Hx].
Qed.

(** ** Sorted lists are determined by their members *)

#[global] Instance key_lt_trans {V} : Transitive (@key_lt V).
Proof. intros a b c. unfold key_lt. apply bytes_lt_trans. Qed.

Lemma sorted_unique {V} (l l' : list (string * V)) :
  StronglySorted key_lt l -> StronglySorted key_lt l' -> (forall e, e ∈ l <-> e ∈ l') -> l = l'.
Proof.
  assert (forall l : list (string * V), StronglySorted key_lt l -> NoDup l) as Hnd.
  { induction 1 as [|e l0 Hl IH He]; constructor; [|done]. rewrite Forall_forall in He. intros Hin.
    apply (bytes_lt_irrefl e.1), (He e Hin). }
  assert (AntiSymm (=) (@key_lt V)) as Ha.
  { intros a b Hab Hba. exfalso. apply (bytes_lt_irrefl a.1). by transitivity b.1. }
  intros Hl Hl' Hm. apply (StronglySorted_unique key_lt); [done..|]. apply NoDup_Permutation; auto.
Qed.

(** ** Writes to a bucket *)

Section writes.
Context `{B : Bolt} {BL : BoltLaws B}.
#[local] Set Default Proof Using "BL".

(** Putting a greater key appends. *)
Lemma bentries_bput_last {V} (b b' : bucket V) k v :
  (forall e, e ∈ bentries b -> bytes_lt e.1 k) -> bput k v b = Ok b' -> bentries b' = bentries b ++ [(k, v)].
Proof.
  intros Hk Hp. apply sorted_unique.
  - apply sorted_entries, bentries_sorted.
  - apply sorted_snoc; [apply sorted_entries, bentries_sorted|]. intros e He. by apply Hk.
  - intros [k' v']. rewrite bentries_bget, (bget_bput _ _ _ _ _ _ Hp), elem_of_app, list_elem_of_singleton, bentries_bget.
    destruct (decide (k' = k)) as [->|]; [|intuition congruence].
    split; [intros [= ->]; by right|]. intros [Hb|[= ->]]; [|done].
    apply bentries_bget, Hk in Hb. by destruct (bytes_lt_irrefl k).
Qed.

Lemma bentries_next {V} (b : bucket V) : bentries (bnext_sequence b) = bentries b.
Proof.
  apply sorted_unique; [apply sorted_entries, bentries_sorted..|]. intros [k v].
  by rewrite !bentries_bget, bget_next.
Qed.

Lemma bget_delete_all {V} ks (b : bucket V) k : bget k (foldl (fun b k => bdelete k b) b ks) = if decide (k ∈ ks) then None else bget k b.
Proof.
  revert b. induction ks as [|k' ks IH]; intros b; [done|]. cbn [foldl]. rewrite IH, bget_bdelete.
  repeat case_decide; try done; set_solver.
Qed.

Lemma bget_deleted_some {V} ks (b : bucket V) k v : bget k (foldl (fun b k => bdelete k b) b ks) = Some v -> bget k b = Some v.
Proof. rewrite bget_delete_all. by case_decide. Qed.

Lemma bentries_bempty {V} : bentries (V := V) bempty = [].
Proof. apply elem_of_nil_inv. intros [k v]. by rewrite bentries_bget, bget_bempty. Qed.

End writes.

(** ** No key twice *)

Lemma StronglySorted_NoDup {A} (R : relation A) `{!Irreflexive R} (l : list A) : StronglySorted R l -> NoDup l.
Proof.
  induction 1 as [|x l _ IH Hx]; [constructor|]. constructor; [|done]. intros Hin.
  rewrite Forall_forall in Hx. specialize (Hx x Hin). by apply irreflexivity in Hx.
Qed.

Lemma bentries_keys_NoDup `{BL : BoltLaws} {V} (b : bucket V) : NoDup (bentries b).*1.
Proof. apply (StronglySorted_NoDup bytes_lt), bentries_sorted. Qed.

Lemma bentries_NoDup `{BL : BoltLaws} {V} (b : bucket V) : NoDup (bentries b).
Proof. apply (NoDup_fmap_1 fst), bentries_keys_NoDup. Qed.
