(* ===== verification/Tx.v ===== *)
(** * Tx: transactions

    A transaction over a state: an error, or an answer and the state it leaves.
    [run_update] is bbolt's [Update], which keeps what a transaction wrote unless it
    failed; [run_view] is [View]. *)

From S2P Require Import Prelude.

Definition Tx (S A : Type) : Type := S -> result (A * S).

#[global] Instance Tx_ret {S} : MRet (Tx S) := fun _ a s => Ok (a, s).
#[global] Instance Tx_bind {S} : MBind (Tx S) := fun _ _ f m s => match m s with Ok (a, s') => f a s' | Err e => Err e end.

Section transactions.
Context {S : Type}.

Definition tx_throw {A} (e : APIError) : Tx S A := fun _ => Err e.
Definition tx_read : Tx S S := fun s => Ok (s, s).
Definition tx_modify (f : S -> S) : Tx S unit := fun s => Ok (tt, f s).
Definition tx_lift {A} (r : result A) : Tx S A := fun s => match r with Ok a => Ok (a, s) | Err e => Err e end.

Definition run_update {A} (f : Tx S A) (s : S) : result A * S :=
  match f s with Ok (a, s') => (Ok a, s') | Err e => (Err e, s) end.
Definition run_view {A} (f : Tx S A) (s : S) : result A :=
  match f s with Ok (a, _) => Ok a | Err e => Err e end.

Fixpoint tx_each {A} (f : A -> Tx S unit) (l : list A) : Tx S unit :=
  match l with
  | [] => mret tt
  | a :: rest => _ ← f a; tx_each f rest
  end.

(** A property of states that a transaction keeps. *)
Definition tx_keeps (P : S -> Prop) {A} (f : Tx S A) : Prop := forall s a s', P s -> f s = Ok (a, s') -> P s'.

Lemma bind_ok {A B} (m : Tx S A) (f : A -> Tx S B) s b s' :
  (m ≫= f) s = Ok (b, s') <-> exists a s1, m s = Ok (a, s1) /\ f a s1 = Ok (b, s').
Proof.
  unfold mbind, Tx_bind. destruct (m s) as [[a s1]|e]; split.
  - intros H. by exists a, s1.
  - intros (a' & s1' & [= <- <-] & H). done.
  - done.
  - by intros (? & ? & [=] & _).
Qed.

Lemma lift_ok {A} (r : result A) s a s' : tx_lift r s = Ok (a, s') <-> r = Ok a /\ s' = s.
Proof. unfold tx_lift. destruct r; split; [by intros [= <- <-]|by intros [[= <-] ->]|done|by intros [[=] _]]. Qed.

Lemma update_ok {A} (f : Tx S A) s r s' :
  run_update f s = (r, s') -> (exists a, r = Ok a /\ f s = Ok (a, s')) \/ (exists e, r = Err e /\ f s = Err e /\ s' = s).
Proof.
  unfold run_update. destruct (f s) as [[a s1]|e]; intros [= <- <-]; [left; by exists a|right; by exists e].
Qed.

Lemma keeps_update P {A} (f : Tx S A) s : tx_keeps P f -> P s -> P (run_update f s).2.
Proof.
  intros Hf HP. destruct (run_update f s) as [r s'] eqn:E. apply update_ok in E as [(a & _ & E)|(e & _ & _ & ->)]; [|done].
  by eapply Hf.
Qed.
End transactions.

(** Unfolds the primitives of transactions in the goal. *)
Ltac run_tx := unfold mret, Tx_ret, mbind, Tx_bind, tx_throw, tx_read, tx_modify, tx_lift in *; cbv beta iota.
