(* ===== verification/Table.v ===== *)
(** * Table: the database, table definitions, keys and expiry

    Model of src/internal/ddb/store/store.go: the buckets, the table schema, the
    encoding of primary and index keys, and TTL.  A transaction is a function of the
    database that answers an error or a value and the new database; [Update] commits
    it or leaves the database alone, [View] discards what it wrote.

    The clock is read as one instant per operation, in nanoseconds. *)

From stdpp Require Import pretty.
From S2P Require Import Prelude Bytes Wire Decimal Item KeyEnc Bolt.

(** ** Schemas *)

Record KeyPart := mkKeyPart { kp_name : string; kp_type : string }.

#[global] Instance KeyPart_eq_dec : EqDecision KeyPart.
Proof. solve_decision. Defined.

Record Index := mkIndex {
  ix_name : string;
  ix_hash : KeyPart;
  ix_range : option KeyPart;
  ix_projection : string;        (* ALL | KEYS_ONLY | INCLUDE *)
  ix_non_key_attrs : list string;
  ix_local : bool;
  ix_read_cap : Z;
  ix_write_cap : Z
}.

(** A table definition, less the identity its ARNs are minted for, which is never
    stored.  [t_stream_spec] is the document the stored text spells, [None] when the
    text is empty or no JSON. *)
Record Table := mkTable {
  t_name : string;
  t_hash : KeyPart;
  t_range : option KeyPart;
  t_indexes : list Index;
  t_created : Z;
  t_ttl_attribute : string;
  t_ttl_enabled : bool;
  t_tags : gmap string string;
  t_billing_mode : string;
  t_read_cap : Z;
  t_write_cap : Z;
  t_deletion_protection : bool;
  t_stream_spec : option json;
  t_sse_enabled : bool;
  t_sse_type : string;
  t_sse_key_id : string;
  t_item_count : Z
}.

Definition set_created (n : Z) (t : Table) : Table :=
  mkTable (t_name t) (t_hash t) (t_range t) (t_indexes t) n (t_ttl_attribute t) (t_ttl_enabled t)
    (t_tags t) (t_billing_mode t) (t_read_cap t) (t_write_cap t) (t_deletion_protection t)
    (t_stream_spec t) (t_sse_enabled t) (t_sse_type t) (t_sse_key_id t) (t_item_count t).

Definition FindIndex (name : string) (t : Table) : option Index :=
  List.find (fun ix => String.eqb (ix_name ix) name) (t_indexes t).

Definition errTableNotFound : APIError :=
  Errf 400 "ResourceNotFoundException" "Requested resource not found: Table: %s not found".

(** ** Keys *)

(** An attribute under its key part's name and of its type, or why not. *)
Definition key_attr (kp : KeyPart) (it : Item) : result Value :=
  match it !! kp_name kp with
  | None => Err (errValidation "missing the key %s in the item")
  | Some v =>
      if String.eqb (v_type v) (kp_type kp) then Ok v
      else Err (errValidation "key %s expects type %s, got %s")
  end.

(** The error of an encoding, as a validation error. *)
Definition as_validation {A} (r : result A) : result A :=
  match r with Ok a => Ok a | Err e => Err (errValidation "%v") end.

Definition primaryKey (t : Table) (it : Item) : result string :=
  pk ← key_attr (t_hash t) it;
  match t_range t with
  | None => as_validation (Composite pk None)
  | Some r => sk ← key_attr r it; as_validation (Composite pk (Some sk))
  end.

(** An index attribute; absent or mistyped, the item is not in the index. *)
Definition index_attr (kp : KeyPart) (it : Item) : option Value :=
  match it !! kp_name kp with
  | Some v => if String.eqb (v_type v) (kp_type kp) then Some v else None
  | None => None
  end.

Definition indexKeyFor (idx : Index) (it : Item) (primary : string) : result (option string) :=
  let entry kb := kb +:+ be32 (slen primary) +:+ primary in
  match index_attr (ix_hash idx) it with
  | None => Ok None
  | Some pk =>
      match ix_range idx with
      | None => kb ← Composite pk None; Ok (Some (entry kb))
      | Some r =>
          match index_attr r it with
          | None => Ok None
          | Some sk => kb ← Composite pk (Some sk); Ok (Some (entry kb))
          end
      end
  end.

Definition KeyFromWire (t : Table) (raw : json) : result (string * Item) :=
  key ← ItemFromJSON raw;
  let want := match t_range t with Some _ => 2%nat | None => 1%nat end in
  if negb (Nat.eqb (size key) want) then
    Err (errValidation "the provided key element does not match the schema")
  else kb ← primaryKey t key; Ok (kb, key).

(** ** Expiry *)

Definition unix (now : Z) : Z := now / 1000000000.

Definition expired (now : Z) (t : Table) (it : Item) : bool :=
  if negb (t_ttl_enabled t) || String.eqb (t_ttl_attribute t) "" then false
  else match it !! t_ttl_attribute t with
       | Some (VN n) =>
           match ParseDecimal (pretty (unix now)) with
           | Ok epoch => Compare n epoch <=? 0
           | Err _ => false
           end
       | _ => false
       end.

(** [it[name]], the zero value when absent. *)
Definition attr_or_zero (name : string) (it : Item) : Value := default VZero (it !! name).

(** The key attributes of an item, in wire form. *)
Definition keyOf (t : Table) (it : Item) : json :=
  let key : Item := {[ kp_name (t_hash t) := attr_or_zero (kp_name (t_hash t)) it ]} in
  ItemJSON (match t_range t with
            | Some r => <[kp_name r := attr_or_zero (kp_name r) it]> key
            | None => key
            end).

(** ** The database *)

Definition dataBucket (table : string) : string := "d:" +:+ table.
Definition indexBucket (table index : string) : string := "x:" +:+ table +:+ "/" +:+ index.
Definition streamBucket (table : string) : string := "stream:" +:+ table.

(** The stored idempotency outcome of a transaction. *)
Record txRecord := mkTxRecord { tx_hash : string; tx_expiry : Z; tx_ok : bool }.

Record storedStreamRecord := mkStreamRecord {
  Seq : Z;
  EventName : string;             (* INSERT | MODIFY | REMOVE *)
  Keys : json;
  Old : option json;
  New : option json;
  CreatedNs : Z;
  SizeBytes : Z
}.

(** The buckets by name, one map for each type of value stored. *)
Record DB `{Bolt} := mkDB {
  db_tables : option (bucket Table);
  db_tx : option (bucket txRecord);
  db_data : gmap string (bucket json);
  db_index : gmap string (bucket string);
  db_stream : gmap string (bucket storedStreamRecord)
}.

Definition empty_DB `{Bolt} : DB := mkDB _ None None ∅ ∅ ∅.

Definition bucket_or_empty `{Bolt} {V} (o : option (bucket V)) : bucket V := default bempty o.

Section database.
Context `{Bolt}.

Definition set_tables (b : bucket Table) (db : DB) : DB :=
  mkDB _ (Some b) (db_tx db) (db_data db) (db_index db) (db_stream db).
Definition set_tx (b : bucket txRecord) (db : DB) : DB :=
  mkDB _ (db_tables db) (Some b) (db_data db) (db_index db) (db_stream db).
Definition set_data (m : gmap string (bucket json)) (db : DB) : DB :=
  mkDB _ (db_tables db) (db_tx db) m (db_index db) (db_stream db).
Definition set_index (m : gmap string (bucket string)) (db : DB) : DB :=
  mkDB _ (db_tables db) (db_tx db) (db_data db) m (db_stream db).
Definition set_stream (m : gmap string (bucket storedStreamRecord)) (db : DB) : DB :=
  mkDB _ (db_tables db) (db_tx db) (db_data db) (db_index db) m.

(** ** Transactions *)

Definition T (A : Type) : Type := DB -> outcome (A * DB).

#[global] Instance T_ret : MRet T := fun _ a db => Ret (Ok (a, db)).
#[global] Instance T_bind : MBind T := fun _ _ f m db => '(a, db') ← m db; f a db'.

Definition lift {A} (r : result A) : T A := fun db => Ret (a ← r; Ok (a, db)).
Definition throw {A} (e : APIError) : T A := fun _ => Ret (Err e).
Definition crash {A} : T A := fun _ => Panic.
Definition read : T DB := fun db => Ret (Ok (db, db)).
Definition modify (f : DB -> DB) : T unit := fun db => Ret (Ok (tt, f db)).

(** [db.Update]: commits, or rolls back on an error. *)
Definition Update {A} (f : T A) (db : DB) : DB * outcome A :=
  match f db with
  | Ret (Ok (a, db')) => (db', Ret (Ok a))
  | Ret (Err e) => (db, Ret (Err e))
  | Panic => (db, Panic)
  | OutOfFuel => (db, OutOfFuel)
  end.

(** [db.View]. *)
Definition View {A} (f : T A) (db : DB) : outcome A := '(a, _) ← f db; mret a.

(** A loop over a list within a transaction. *)
Fixpoint forEach {A} (f : A -> T unit) (l : list A) : T unit :=
  match l with [] => mret tt | a :: l' => _ ← f a; forEach f l' end.

(** [CreateBucketIfNotExists] followed by writes: the bucket, empty if new, after [f]. *)
Definition put_index (name : string) (k v : string) : T unit :=
  db ← read;
  b ← lift (bput k v (bucket_or_empty (db_index db !! name)));
  modify (set_index (<[name := b]> (db_index db))).

(** ** Tables *)

Definition getTable (name : string) : T Table :=
  db ← read;
  match db_tables db ≫= bget name with
  | Some t => mret t
  | None => throw errTableNotFound
  end.

Definition GetTable (name : string) : DB -> outcome Table := View (getTable name).

Definition createTable (now : Z) (t : Table) : T Table :=
  let t := set_created (unix now) t in
  db ← read;
  let b := bucket_or_empty (db_tables db) in
  match bget (t_name t) b with
  | Some _ => throw (Errf 400 "ResourceInUseException" "Table already exists: %s")
  | None => b' ← lift (bput (t_name t) t b); _ ← modify (set_tables b'); mret t
  end.

Definition CreateTable (now : Z) (t : Table) (db : DB) : DB * outcome Table :=
  if String.eqb (t_name t) "" then (db, Ret (Err (errValidation "TableName is required")))
  else Update (createTable now t) db.

(** Writes the entries of one index for everything in the table. *)
Definition backfillIndex (t : Table) (idx : Index) : T unit :=
  db ← read;
  match db_data db !! dataBucket (t_name t) with
  | None => mret tt
  | Some data =>
      let name := indexBucket (t_name t) (ix_name idx) in
      _ ← modify (fun db => set_index (<[name := bucket_or_empty (db_index db !! name)]> (db_index db)) db);
      forEach (fun '(k, raw) =>
        it ← lift (ItemFromJSON raw);
        xkey ← lift (indexKeyFor idx it k);
        match xkey with
        | None => mret tt
        | Some xkey => put_index name xkey k
        end) (bentries data)
  end.

Definition sameIndexSchema (a b : Index) : bool :=
  bool_decide (ix_hash a = ix_hash b) && String.eqb (ix_projection a) (ix_projection b) &&
  bool_decide (ix_range a = ix_range b).

Definition drop_index (table name : string) : T unit :=
  modify (fun db => set_index (delete (indexBucket table name) (db_index db)) db).

(** The last of several indexes with one name, as a map built in order holds it. *)
Definition index_named (name : string) (l : list Index) : option Index :=
  List.find (fun ix => String.eqb (ix_name ix) name) (reverse l).

Definition updateTable (name : string) (fn : Table -> result Table) : T Table :=
  before ← getTable name;
  t ← lift (fn before);
  db ← read;
  b ← lift (bput name t (bucket_or_empty (db_tables db)));
  _ ← modify (set_tables b);
  _ ← forEach (fun ix =>
        let keep := match index_named (ix_name ix) (t_indexes before) with
                    | Some prev => sameIndexSchema prev ix
                    | None => false
                    end in
        if keep then mret tt
        else _ ← drop_index name (ix_name ix); backfillIndex t ix) (t_indexes t);
  _ ← forEach (fun ix =>
        if existsb (fun ix' => String.eqb (ix_name ix') (ix_name ix)) (t_indexes t) then mret tt
        else drop_index name (ix_name ix)) (t_indexes before);
  mret t.

Definition UpdateTable (name : string) (fn : Table -> result Table) (db : DB) : DB * outcome Table :=
  Update (updateTable name fn) db.

Definition deleteTable (name : string) : T Table :=
  t ← getTable name;
  if t_deletion_protection t then
    throw (errValidation "table %s has deletion protection enabled")
  else
    _ ← modify (fun db => set_tables (bdelete name (bucket_or_empty (db_tables db))) db);
    _ ← modify (fun db => set_data (delete (dataBucket name) (db_data db)) db);
    _ ← forEach (fun ix => drop_index name (ix_name ix)) (t_indexes t);
    mret t.

Definition DeleteTable (name : string) (db : DB) : DB * outcome Table := Update (deleteTable name) db.

Definition ListTables (db : DB) : list string :=
  match db_tables db with None => [] | Some b => sort_strings (bentries b).*1 end.
End database.
