(* ===== verification/Items.v ===== *)
(** * Items: reads and writes of single items, and the change stream

    Model of src/internal/ddb/store/items.go and stream.go, and of the TTL sweep of
    store.go: every write refreshes the table's indexes and appends to its stream in
    the same transaction. *)

From S2P Require Import Prelude Bytes Wire Decimal Item KeyEnc Lexer Path Cond Heap Update Bolt Table.

(** ** Streams *)

Definition streamMaxRecords : Z := 1000.

Definition streamState (t : Table) : option string :=
  match t_stream_spec t with
  | None => None
  | Some j =>
      match unmarshal_object j with
      | None => None
      | Some m =>
          match unmarshal_bool (member "StreamEnabled" m), unmarshal_string (member "StreamViewType" m) with
          | Some true, Some vt => Some (if String.eqb vt "" then "NEW_AND_OLD_IMAGES" else vt)
          | _, _ => None
          end
      end
  end.

(** [binary.BigEndian.PutUint64], and back. *)
Definition streamKey (seq : Z) : string := be64 seq.

Definition keysWire (t : Table) (img : Item) : json :=
  let names := match t_range t with
    | Some r => [kp_name (t_hash t); kp_name r]
    | None => [kp_name (t_hash t)]
    end in
  ItemJSON (filter (fun '(k, _) => k ∈ names) img).

Section streams.
Context `{Bolt}.

(** [b.Stats().KeyN] in a transaction that began on [begun]: a bucket made since counts none. *)
Definition stream_keys (begun : DB) (name : string) : Z :=
  match db_stream begun !! name with Some b => bkeyn b | None => 0 end.

(** Drops records beyond the bound, as the cursor shows them: [keyn] is the count. *)
Definition pruneStream (keyn : Z) (b : bucket storedStreamRecord) : bucket storedStreamRecord :=
  let over := keyn - streamMaxRecords in
  if over <=? 0 then b
  else foldl (fun b k => bdelete k b) b (take (Z.to_nat over) (bwalk b)).

Definition event_name (old new : option Item) : string :=
  match old, new with
  | None, Some _ => "INSERT"
  | _, None => "REMOVE"
  | _, _ => "MODIFY"
  end.

Definition stream_record (now seq : Z) (t : Table) (old new : option Item) (img : Item) : storedStreamRecord :=
  mkStreamRecord seq (event_name old new) (keysWire t img) (ItemJSON <$> old) (ItemJSON <$> new) now
    (match new, old with Some it, _ => Size it | None, Some it => Size it | None, None => 0 end).

(** [begun] is the database that the transaction began with. *)
Definition captureStream (now : Z) (begun : DB) (t : Table) (old new : option Item) : T unit :=
  match streamState t with
  | None => mret tt
  | Some _ =>
      match (match new with Some _ => new | None => old end) with
      | None => mret tt
      | Some img =>
          db ← read;
          let name := streamBucket (t_name t) in
          let b := bnext_sequence (bucket_or_empty (db_stream db !! name)) in
          let seq := bsequence b in
          b' ← lift (bput (streamKey seq) (stream_record now seq t old new img) b);
          modify (set_stream (<[name := pruneStream (stream_keys begun name) b']> (db_stream db)))
      end
  end.

(** The records after a sequence number, oldest first, and the highest stored. *)
Definition StreamRecords (table : string) (afterSeq : Z) (limit : Z) (db : DB) :
  list storedStreamRecord * Z :=
  let limit := if limit <=? 0 then 100 else limit in
  match db_stream db !! streamBucket table with
  | None => ([], 0)
  | Some b =>
      foldl (fun '(out, latest) e =>
        let r := e.2 in
        if (Seq r <=? afterSeq) || (limit <=? zlen out) then (out, Seq r)
        else (out ++ [r], Seq r)) ([], 0) (bentries b)
  end.

Definition LatestStreamSeq (table : string) (db : DB) : Z :=
  match db_stream db !! streamBucket table with
  | None => 0
  | Some b => match last (bentries b) with Some e => be_value 0 e.1 | None => 0 end
  end.
End streams.

(** ** Conditions *)

Definition errConditionFailed (old : option Item) (returnOld : bool) : APIError :=
  let e := Errf 400 "ConditionalCheckFailedException" "The conditional request failed" in
  mkAPIError (Code e) (Status e) (Message e) (SenderFault e)
    (if returnOld then ItemJSON <$> old else None).

(** A parsed condition and whether a failure carries the old item. *)
Record Cond := mkCond { c_expr : option condNode; c_return_old : bool }.

(** Evaluates the condition against the current item, the empty one when absent. *)
Definition check (c : option Cond) (cur : option Item) : result unit :=
  match c with
  | Some (mkCond (Some e) returnOld) =>
      ok ← Eval e (default ∅ cur);
      if ok : bool then Ok tt else Err (errConditionFailed cur returnOld)
  | _ => Ok tt
  end.

(** An update expression with the request values its references stand for. *)
Record UpdateExpr := mkUpdateExpr { ue_update : Update.Update; ue_values : gmap string Value }.

(** ** Single items *)

Section items.
Context `{Bolt} (grow : nat -> nat) (now : Z).

(** One index after a write: the old entry goes when its key changes, the new comes. *)
Definition writeIndex (t : Table) (key : string) (old new : option Item) (idx : Index) : T unit :=
  let name := indexBucket (t_name t) (ix_name idx) in
  let key_in (o : option Item) := match o with Some it => indexKeyFor idx it key | None => Ok None end in
  oldKey ← lift (key_in old);
  newKey ← lift (key_in new);
  db ← read;
  let b := bucket_or_empty (db_index db !! name) in
  let b := match oldKey with
    | Some ok => if bool_decide (newKey = Some ok) then b else bdelete ok b
    | None => b
    end in
  b ← lift (match newKey with Some nk => bput nk key b | None => Ok b end);
  modify (set_index (<[name := b]> (db_index db))).

Definition writeItem (begun : DB) (t : Table) (key : string) (old new : option Item) : T unit :=
  db ← read;
  let name := dataBucket (t_name t) in
  let b := bucket_or_empty (db_data db !! name) in
  b ← lift (match new with None => Ok (bdelete key b) | Some it => bput key (ItemJSON it) b end);
  _ ← modify (set_data (<[name := b]> (db_data db)));
  _ ← forEach (writeIndex t key old new) (t_indexes t);
  captureStream now begun t old new.

(** The current item under a key: [None] when absent or expired. *)
Definition loadItem (t : Table) (key : string) : T (option Item) :=
  db ← read;
  match db_data db !! dataBucket (t_name t) ≫= bget key with
  | None => mret None
  | Some raw =>
      it ← lift (ItemFromJSON raw);
      mret (if expired now t it then None else Some it)
  end.

Definition putItem (begun : DB) (table : string) (it : Item) (cond : option Cond) : T (option Item) :=
  t ← getTable table;
  key ← lift (primaryKey t it);
  cur ← loadItem t key;
  _ ← lift (check cond cur);
  _ ← writeItem begun t key cur (Some it);
  mret cur.

Definition PutItem (table : string) (rawItem : json) (cond : option Cond) (db : DB) :
  DB * outcome (option Item) :=
  match ItemFromJSON rawItem with
  | Err e => (db, Ret (Err e))
  | Ok it =>
      if MaxItemSize <? Size it then
        (db, Ret (Err (errValidation "item size %d exceeds the %d byte limit")))
      else Table.Update (putItem db table it cond) db
  end.

Definition getItem (table : string) (rawKey : json) : T (option Item) :=
  t ← getTable table;
  key ← lift (KeyFromWire t rawKey);
  loadItem t key.1.

Definition GetItem (table : string) (rawKey : json) (db : DB) : outcome (option Item) :=
  View (getItem table rawKey) db.

Definition deleteItem (begun : DB) (table : string) (rawKey : json) (cond : option Cond) : T (option Item) :=
  t ← getTable table;
  key ← lift (KeyFromWire t rawKey);
  cur ← loadItem t key.1;
  _ ← lift (check cond cur);
  match cur with
  | None => mret None
  | Some _ => _ ← writeItem begun t key.1 cur None; mret cur
  end.

Definition DeleteItem (table : string) (rawKey : json) (cond : option Cond) (db : DB) :
  DB * outcome (option Item) := Table.Update (deleteItem db table rawKey cond) db.

(** The attributes an update may not change. *)
Definition key_names (t : Table) : list string :=
  kp_name (t_hash t) :: match t_range t with Some r => [kp_name r] | None => [] end.

(** The first key attribute an update changed. *)
Definition changed_key (t : Table) (base next : Item) : option string :=
  List.find (fun k => negb (Equal (attr_or_zero k next) (attr_or_zero k base))) (key_names t).

(** [upd.Apply] when there is an update expression. *)
Definition apply_update (upd : option UpdateExpr) (base : Item) : outcome Item :=
  match upd with
  | None => Ret (Ok base)
  | Some u => Apply_item grow (ue_values u) (ue_update u) base
  end.

Definition updateItem (begun : DB) (table : string) (rawKey : json) (upd : option UpdateExpr) (cond : option Cond) :
  T (option Item * Item) :=
  t ← getTable table;
  key ← lift (KeyFromWire t rawKey);
  cur ← loadItem t key.1;
  _ ← lift (check cond cur);
  let base := default key.2 cur in
  next ← (fun db => next ← apply_update upd base; Ret (Ok (next, db)));
  match changed_key t base next with
  | Some _ => throw (errValidation "the update expression may not modify the key attribute %s")
  | None =>
      if MaxItemSize <? Size next then
        throw (errValidation "updated item size %d exceeds the %d byte limit")
      else
        _ ← writeItem begun t key.1 cur (Some next);
        mret (cur, next)
  end.

Definition UpdateItem (table : string) (rawKey : json) (upd : option UpdateExpr) (cond : option Cond)
  (db : DB) : DB * outcome (option Item * Item) := Table.Update (updateItem db table rawKey upd cond) db.

(** ** The TTL sweep *)

(** The wire keys of a table's expired items. *)
Definition doomed (name : string) (t : Table) (db : DB) : list json :=
  match db_data db !! dataBucket name with
  | None => []
  | Some b => omap (fun e =>
      match ItemFromJSON e.2 with
      | Ok it => if expired now t it then Some (keyOf t it) else None
      | Err _ => None
      end) (bentries b)
  end.

Definition sweep_table (db : DB) (name : string) : DB :=
  match GetTable name db with
  | Ret (Ok t) =>
      if negb (t_ttl_enabled t) then db
      else foldl (fun db k => (DeleteItem name k None db).1) db (doomed name t db)
  | _ => db
  end.

Definition SweepTTL (db : DB) : DB := foldl sweep_table db (ListTables db).
End items.
