(* ===== verification/Query.v ===== *)
(** * Query: queries and scans

    Model of src/internal/ddb/store/query.go: cursor walks over the encoded keys, with
    paging.  A cursor position is what remains of the bucket's entries in its order. *)

From S2P Require Import Prelude Wire Decimal Item KeyEnc Lexer Path Cond KeyCond Bolt Cursor Table.

(** One megabyte of evaluated data ends a page. *)
Definition pageSizeBytes : Z := Z.shiftl 1 20.

Record QueryInput := mkQueryInput {
  q_table : string;
  q_index : string;               (* optional *)
  q_keycond : KeyCondition;
  q_filter : option condNode;
  q_forward : bool;               (* ScanIndexForward *)
  q_limit : Z;
  q_start : option json           (* ExclusiveStartKey *)
}.

Record QueryOutput := mkQueryOutput {
  o_items : list Item;
  o_count : Z;
  o_scanned : Z;
  o_last : option Item            (* None when the page completes the result set *)
}.

Definition no_output : QueryOutput := mkQueryOutput [] 0 0 None.

(** ** Conditions on the sort key and projections *)

Definition skMatches (kc : KeyCondition) (it : Item) : result bool :=
  match it !! SKName kc with
  | None => Ok false
  | Some v =>
      let cmp b := if String.eqb (v_type v) (v_type b) then Some (CompareValues v b) else None in
      let compare (p : Z -> bool) := Ok (match cmp (SKValue kc) with Some c => p c | None => false end) in
      if String.eqb (SKOp kc) "=" then Ok (Equal v (SKValue kc))
      else if String.eqb (SKOp kc) "<" then compare (fun c => c <? 0)
      else if String.eqb (SKOp kc) "<=" then compare (fun c => c <=? 0)
      else if String.eqb (SKOp kc) ">" then compare (fun c => c >? 0)
      else if String.eqb (SKOp kc) ">=" then compare (fun c => c >=? 0)
      else if String.eqb (SKOp kc) "BETWEEN" then
        Ok (match cmp (SKValue kc), cmp (SKValue2 kc) with
            | Some lo, Some hi => (lo >=? 0) && (hi <=? 0)
            | _, _ => false
            end)
      else if String.eqb (SKOp kc) "begins_with" then
        Ok (match v, SKValue kc with
            | VS s, VS p | VB s, VB p => has_prefix s p
            | _, _ => false
            end)
      else Err (errValidation "unsupported sort key operator %q")
  end.

Definition opt_names (k : option KeyPart) : list string :=
  match k with Some r => [kp_name r] | None => [] end.

Definition projectIndex (idx : option Index) (t : Table) (it : Item) : Item :=
  match idx with
  | None => it
  | Some ix =>
      if String.eqb (ix_projection ix) "" || String.eqb (ix_projection ix) "ALL" then it
      else
        let keep := [kp_name (t_hash t); kp_name (ix_hash ix)] ++ opt_names (t_range t) ++
          opt_names (ix_range ix) ++
          (if String.eqb (ix_projection ix) "INCLUDE" then ix_non_key_attrs ix else []) in
        filter (fun '(k, _) => k ∈ keep) it
  end.

(** The position of an item, as the attributes a client sends back. *)
Definition lastKey (t : Table) (idx : option Index) (it : Item) : Item :=
  let add (k : option KeyPart) (m : Item) :=
    match k with Some r => <[kp_name r := attr_or_zero (kp_name r) it]> m | None => m end in
  let out := add (t_range t) {[ kp_name (t_hash t) := attr_or_zero (kp_name (t_hash t)) it ]} in
  match idx with
  | None => out
  | Some ix => add (ix_range ix) (add (Some (ix_hash ix)) out)
  end.

Definition startPosition (t : Table) (idx : option Index) (raw : json) : result string :=
  attrs ← ItemFromJSON raw;
  primary ← primaryKey t attrs;
  match idx with
  | None => Ok primary
  | Some ix =>
      match indexKeyFor ix attrs primary with
      | Ok (Some xkey) => Ok xkey
      | _ => Err (errValidation "ExclusiveStartKey does not match the index schema")
      end
  end.

(** ** The walk *)

(** What a walk carries: the page so far and the bytes it evaluated. *)
Record page := mkPage { p_out : QueryOutput; p_bytes : Z }.

Section walk.
Context (now : Z) (t : Table) (idx : option Index) (filt : option condNode) (limit : Z).

Definition keeps (it : Item) : result bool :=
  match filt with None => Ok true | Some f => Eval f it end.

(** Takes one evaluated item into the page; [false] when the page is full. *)
Definition take_item (it : Item) (raw : json) (pg : page) : result (page * bool) :=
  let out := p_out pg in
  let scanned := o_scanned out + 1 in
  let bytes := p_bytes pg + json_len raw in
  kept ← keeps it;
  let items := if kept : bool then o_items out ++ [projectIndex idx t it] else o_items out in
  let count := if kept then o_count out + 1 else o_count out in
  if ((0 <? limit) && (limit <=? scanned)) || (pageSizeBytes <=? bytes) then
    Ok (mkPage (mkQueryOutput items count scanned (Some (lastKey t idx it))) bytes, false)
  else Ok (mkPage (mkQueryOutput items count scanned (o_last out)) bytes, true).

(** One entry of a query: [false] ends the walk.  [load] is the item bytes an entry
    stands for. *)
Definition visit (pkEnc : string) (kc : KeyCondition) {V} (load : V -> outcome (option json))
  (e : string * V) (pg : page) : outcome (page * bool) :=
  if negb (has_prefix e.1 pkEnc) then mret (pg, false)
  else
    raw ← load e.2;
    match raw with
    | None => mret (pg, true)
    | Some raw =>
        it ← Ret (ItemFromJSON raw);
        if expired now t it then mret (pg, true)
        else
          ok ← Ret (if String.eqb (SKName kc) "" then Ok true else skMatches kc it);
          if ok : bool then Ret (take_item it raw pg) else mret (pg, true)
    end.

Fixpoint walk {V} (step : string * V -> page -> outcome (page * bool)) (l : list (string * V)) (pg : page) :
  outcome page :=
  match l with
  | [] => mret pg
  | e :: l' => r ← step e pg; if r.2 : bool then walk step l' r.1 else mret r.1
  end.

(** Backwards, entries above the partition are skipped and the walk ends below it. *)
Definition visit_back (pkEnc : string) (kc : KeyCondition) {V} (load : V -> outcome (option json))
  (e : string * V) (pg : page) : outcome (page * bool) :=
  if negb (has_prefix e.1 pkEnc) then mret (pg, negb (bytes_ltb e.1 pkEnc))
  else visit pkEnc kc load e pg.

(** One entry of a scan. *)
Definition visit_scan (segment : string -> bool) {V} (load : V -> outcome (option json))
  (e : string * V) (pg : page) : outcome (page * bool) :=
  raw ← load e.2;
  match raw with
  | None => mret (pg, true)
  | Some raw =>
      it ← Ret (ItemFromJSON raw);
      if expired now t it then mret (pg, true)
      else if negb (segment e.1) then mret (pg, true)
      else Ret (take_item it raw pg)
  end.
End walk.

(** Nine bytes above every encoded sort key. *)
Definition above : string := smap (fun _ => chr 255) "123456789".

Definition query_walk {V} (now : Z) (in_ : QueryInput) (t : Table) (idx : option Index) (pkEnc : string)
  (startAfter : option string) (load : V -> outcome (option json)) (l : list (string * V)) : outcome page :=
  let pg := mkPage no_output 0 in
  let run := visit now t idx (q_filter in_) (q_limit in_) pkEnc (q_keycond in_) load in
  let back := visit_back now t idx (q_filter in_) (q_limit in_) pkEnc (q_keycond in_) load in
  if q_forward in_ then
    walk run (match startAfter with Some k => seek_after k l | None => seek pkEnc l end) pg
  else
    walk back (match startAfter with
               | Some k => before_rev k l []
               | None => before_rev (pkEnc +:+ above) l []
               end) pg.

(** [fnv.New32a]. *)
Fixpoint fnv32a (h : Z) (s : string) : Z :=
  match s with
  | EmptyString => h
  | String c s' => fnv32a ((Z.lxor h (byte_of c) * 16777619) mod 4294967296) s'
  end.

Definition segmentOf (key : string) (total : Z) : Z := fnv32a 2166136261 key mod total.

Record ScanInput := mkScanInput {
  s_table : string;
  s_index : string;
  s_filter : option condNode;
  s_limit : Z;
  s_start : option json;
  s_segment : Z;
  s_total : Z
}.

Section query.
Context `{Bolt} (now : Z).

(** The index a request names, [None] for the table itself. *)
Definition find_index (name : string) (t : Table) : result (option Index) :=
  if String.eqb name "" then Ok None
  else match FindIndex name t with
       | Some ix => Ok (Some ix)
       | None => Err (errValidation "table %s has no index %s")
       end.

(** The item an index entry refers to; without a data bucket, a nil dereference. *)
Definition chase (t : Table) (db : DB) (k : string) : outcome (option json) :=
  match db_data db !! dataBucket (t_name t) with
  | Some b => mret (bget k b)
  | None => Panic
  end.

Definition start_after (t : Table) (idx : option Index) (start : option json) : result (option string) :=
  match start with
  | None => Ok None
  | Some raw => k ← startPosition t idx raw; Ok (Some k)
  end.

(** An entry of the table is the item itself. *)
Definition itself (raw : json) : outcome (option json) := mret (Some raw).

Definition page_of (o : outcome page) : T QueryOutput := fun db => pg ← o; mret (p_out pg, db).

Definition query (in_ : QueryInput) : T QueryOutput :=
  t ← getTable (q_table in_);
  idx ← lift (find_index (q_index in_) t);
  let hash := match idx with Some ix => ix_hash ix | None => t_hash t end in
  let rng := match idx with Some ix => ix_range ix | None => t_range t end in
  let kc := q_keycond in_ in
  if negb (String.eqb (PKName kc) (kp_name hash)) then
    throw (errValidation "query condition tests %s, but the partition key is %s")
  else if negb (String.eqb (SKName kc) "") &&
          match rng with Some r => negb (String.eqb (SKName kc) (kp_name r)) | None => true end then
    throw (errValidation "query condition tests a non-sort-key attribute %s")
  else
    pkEnc ← lift (as_validation (Encode (PKValue kc)));
    db ← read;
    match idx with
    | None =>
        match db_data db !! dataBucket (t_name t) with
        | None => mret no_output
        | Some b =>
            k ← lift (start_after t idx (q_start in_));
            page_of (query_walk now in_ t idx pkEnc k itself (bentries b))
        end
    | Some ix =>
        match db_index db !! indexBucket (t_name t) (ix_name ix) with
        | None => mret no_output
        | Some b =>
            k ← lift (start_after t idx (q_start in_));
            page_of (query_walk now in_ t idx pkEnc k (chase t db) (bentries b))
        end
    end.

Definition Query (in_ : QueryInput) (db : DB) : outcome QueryOutput := View (query in_) db.

Definition scan_walk {V} (in_ : ScanInput) (t : Table) (idx : option Index) (k : option string)
  (load : V -> outcome (option json)) (l : list (string * V)) : outcome page :=
  let segment key := if 1 <? s_total in_ then segmentOf key (s_total in_) =? s_segment in_ else true in
  walk (visit_scan now t idx (s_filter in_) (s_limit in_) segment load)
    (match k with Some k => seek_after k l | None => l end) (mkPage no_output 0).

Definition scan (in_ : ScanInput) : T QueryOutput :=
  t ← getTable (s_table in_);
  idx ← lift (find_index (s_index in_) t);
  db ← read;
  match idx with
  | None =>
      match db_data db !! dataBucket (t_name t) with
      | None => mret no_output
      | Some b =>
          k ← lift (start_after t idx (s_start in_));
          page_of (scan_walk in_ t idx k itself (bentries b))
      end
  | Some ix =>
      match db_index db !! indexBucket (t_name t) (ix_name ix) with
      | None => mret no_output
      | Some b =>
          k ← lift (start_after t idx (s_start in_));
          page_of (scan_walk in_ t idx k (chase t db) (bentries b))
      end
  end.

Definition Scan (in_ : ScanInput) (db : DB) : outcome QueryOutput := View (scan in_) db.
End query.
