(* ===== verification/Txn.v ===== *)
(** * Txn: transactions

    Model of src/internal/ddb/store/txn.go: a write transaction replays a recorded
    outcome, or decides every operation against the state before it and then applies
    them all. *)

From S2P Require Import Prelude Wire Decimal Item KeyEnc Lexer Path Cond Heap Update Bolt Table Items.

Record TxWriteOp := mkOp {
  op_table : string;
  op_put : option json;
  op_update_key : option json;
  op_update : option UpdateExpr;
  op_delete_key : option json;
  op_check_key : option json;
  op_cond : option Cond;
  op_return_old : bool
}.

Record CancellationReason := mkReason { r_code : string; r_message : string; r_item : option json }.

(** One decided operation: what phase 2 writes. *)
Record txPlanned := mkPlanned {
  pl_table : Table;
  pl_key : string;
  pl_old : option Item;
  pl_next : option Item
}.

(** What planning an operation answers: the write ([None] for a check) and the key it
    touches, or the reason it cancels the transaction. *)
Inductive planned :=
| Planned (p : option txPlanned) (key : string)
| Canceled (r : CancellationReason).

(** The outcome of a write transaction that raised no other error. *)
Inductive tx_outcome :=
| Committed
| TransactionCanceled (reasons : list CancellationReason).

Definition txTokenTTL : Z := 600.

Section txn.
Context `{Bolt} (grow : nat -> nat) (now : Z).

(** Whether a token's recorded outcome decides the request. *)
Definition txReplay (token requestHash : string) : T bool :=
  if String.eqb token "" then mret false
  else
    db ← read;
    let b := bucket_or_empty (db_tx db) in
    _ ← modify (set_tx b);
    match bget token b with
    | None => mret false
    | Some rec =>
        if tx_expiry rec <=? unix now then mret false
        else if negb (String.eqb (tx_hash rec) requestHash) then
          throw (Errf 400 "IdempotentParameterMismatchException"
            "ClientRequestToken was reused with different parameters")
        else if tx_ok rec then mret true
        else throw (Errf 400 "TransactionCanceledException" "transaction was previously canceled")
    end.

Definition txRecord_write (token requestHash : string) (ok : bool) : T unit :=
  if String.eqb token "" then mret tt
  else
    db ← read;
    b ← lift (bput token (mkTxRecord requestHash (unix now + txTokenTTL) ok) (bucket_or_empty (db_tx db)));
    modify (set_tx b).

Definition conditionReason (e : APIError) (cur : option Item) (returnOld : bool) : CancellationReason :=
  mkReason "ConditionalCheckFailed" (Message e) (if returnOld then ItemJSON <$> cur else None).

Definition validation_reason (message : string) : CancellationReason :=
  mkReason "ValidationError" message None.

(** Loads the current item and evaluates the condition on it; [k] continues. *)
Definition on_current (t : Table) (op : TxWriteOp) (key : string)
  (k : option Item -> T planned) : T planned :=
  cur ← loadItem now t key;
  match check (op_cond op) cur with
  | Err e => mret (Canceled (conditionReason e cur (op_return_old op)))
  | Ok _ => k cur
  end.

Definition planPut (t : Table) (op : TxWriteOp) (raw : json) : T planned :=
  match ItemFromJSON raw with
  | Err e => mret (Canceled (validation_reason (Message e)))
  | Ok it =>
      match primaryKey t it with
      | Err e => mret (Canceled (validation_reason (Message e)))
      | Ok key =>
          if MaxItemSize <? Size it then
            mret (Canceled (validation_reason "item size exceeds the 400 KB limit"))
          else on_current t op key (fun cur => mret (Planned (Some (mkPlanned t key cur (Some it))) key))
      end
  end.

(** The updated item, or why the update cancels. *)
Definition plan_next (t : Table) (upd : option UpdateExpr) (base : Item) : outcome (sum Item CancellationReason) :=
  match upd with
  | None => Panic
  | Some u =>
      match Apply_item grow (ue_values u) (ue_update u) base with
      | Ret (Err e) => mret (inr (validation_reason (Message e)))
      | Ret (Ok next) =>
          match changed_key t base next with
          | Some k =>
              mret (inr (validation_reason ("the update expression may not modify the key attribute " +:+ k)))
          | None =>
              if MaxItemSize <? Size next then
                mret (inr (validation_reason "updated item size exceeds the 400 KB limit"))
              else mret (inl next)
          end
      | Panic => Panic
      | OutOfFuel => OutOfFuel
      end
  end.

Definition planUpdate (t : Table) (op : TxWriteOp) (rawKey : json) : T planned :=
  match KeyFromWire t rawKey with
  | Err e => mret (Canceled (validation_reason (Message e)))
  | Ok (key, keyAttrs) =>
      on_current t op key (fun cur db =>
        n ← plan_next t (op_update op) (default keyAttrs cur);
        match n with
        | inr r => mret (Canceled r, db)
        | inl next => mret (Planned (Some (mkPlanned t key cur (Some next))) key, db)
        end)
  end.

Definition planDelete (t : Table) (op : TxWriteOp) (rawKey : json) : T planned :=
  match KeyFromWire t rawKey with
  | Err e => mret (Canceled (validation_reason (Message e)))
  | Ok (key, _) => on_current t op key (fun cur => mret (Planned (Some (mkPlanned t key cur None)) key))
  end.

Definition planCheck (t : Table) (op : TxWriteOp) (rawKey : json) : T planned :=
  match KeyFromWire t rawKey with
  | Err e => mret (Canceled (validation_reason (Message e)))
  | Ok (key, _) => on_current t op key (fun _ => mret (Planned None key))
  end.

Definition planOp (op : TxWriteOp) : T planned := fun db =>
  match getTable (op_table op) db with
  | Ret (Err _) => mret (Canceled (mkReason "ResourceNotFound" (op_table op) None), db)
  | Ret (Ok (t, _)) =>
      match op_put op, op_update_key op, op_delete_key op, op_check_key op with
      | Some raw, _, _, _ => planPut t op raw db
      | None, Some key, _, _ => planUpdate t op key db
      | None, None, Some key, _ => planDelete t op key db
      | None, None, None, Some key => planCheck t op key db
      | None, None, None, None => mret (Canceled (validation_reason "empty transact item"), db)
      end
  | Panic => Panic
  | OutOfFuel => OutOfFuel
  end.

Definition no_reason : CancellationReason := mkReason "None" "" None.

(** Every operation in order: the plan, the reason of each, and whether any cancels.
    Two operations on one item refuse the request. *)
Fixpoint txPlan (seen : list string) (ops : list TxWriteOp) :
  T (list (option txPlanned) * list CancellationReason * bool) :=
  match ops with
  | [] => mret ([], [], false)
  | op :: ops' =>
      p ← planOp op;
      match p with
      | Canceled r =>
          '(plan, reasons, _) ← txPlan seen ops';
          mret (None :: plan, r :: reasons, true)
      | Planned w key =>
          let dk := op_table op +:+ String (chr 0) key in
          if negb (String.eqb key "") && bool_decide (dk ∈ seen) then
            throw (errValidation "Transaction request cannot include multiple operations on one item")
          else
            '(plan, reasons, canceled) ← txPlan (if String.eqb key "" then seen else dk :: seen) ops';
            mret (w :: plan, no_reason :: reasons, canceled)
      end
  end.

Definition apply_planned (begun : DB) (p : option txPlanned) : T unit :=
  match p with
  | None => mret tt
  | Some p => writeItem now begun (pl_table p) (pl_key p) (pl_old p) (pl_next p)
  end.

(** A canceled transaction is an error that carries the reasons: it rolls back. *)
Definition transactWrite (ops : list TxWriteOp) (token requestHash : string) :
  DB -> outcome (tx_outcome * DB) := fun db0 =>
  '(replayed, db) ← txReplay token requestHash db0;
  if replayed : bool then mret (Committed, db)
  else
    '(plan, reasons, canceled, db) ← txPlan [] ops db;
    if canceled : bool then mret (TransactionCanceled reasons, db0)
    else
      '(_, db) ← forEach (apply_planned db0) plan db;
      '(_, db) ← txRecord_write token requestHash true db;
      mret (Committed, db).

Definition TransactWrite (ops : list TxWriteOp) (token requestHash : string) (db : DB) :
  DB * outcome tx_outcome :=
  if (Nat.eqb (length ops) 0) || (100 <? zlen ops) then
    (db, Ret (Err (errValidation "TransactWriteItems accepts 1-100 operations, got %d")))
  else Table.Update (transactWrite ops token requestHash) db.

Fixpoint get_all (keys : list (string * json)) : T (list (option Item)) :=
  match keys with
  | [] => mret []
  | (table, rawKey) :: keys' =>
      it ← getItem now table rawKey;
      its ← get_all keys';
      mret (it :: its)
  end.

Definition TransactGet (keys : list (string * json)) (db : DB) : outcome (list (option Item)) :=
  if (Nat.eqb (length keys) 0) || (100 <? zlen keys) then
    Ret (Err (errValidation "TransactGetItems accepts 1-100 gets, got %d"))
  else View (get_all keys) db.

Definition CountItems (table : string) (db : DB) : Z :=
  match db_data db !! dataBucket table with Some b => bkeyn b | None => 0 end.
End txn.
