(* ===== verification/StoreInv.v ===== *)
(** * StoreInv: what the engine keeps true

    The invariant that ties a table's items to its indexes, and its preservation by
    every write. *)

From S2P Require Import Prelude Bytes Wire Decimal Item KeyEnc Lexer Path Cond Heap Update Bolt Table Items Txn.

(** ** Index entries determine their items *)

Lemma be32_inj m n x y : be32 m +:+ x = be32 n +:+ y -> x = y.
Proof. unfold be32. simpl. by intros [= _ _ _ _ ->]. Qed.

Lemma Encode_key_wf v e : value_wf v -> Encode v = Ok e -> key_value v.
Proof. destruct v; try done; intros W _; inversion W; subst; try done. Qed.

Lemma Composite_ordered pk pk' sk sk' e e' :
  key_value pk -> key_value pk' ->
  match sk, sk' with
  | Some v, Some v' => key_value v /\ key_value v'
  | None, None => True
  | _, _ => False
  end ->
  Composite pk sk = Ok e -> Composite pk' sk' = Ok e' -> exists o, ordered o e e'.
Proof.
  intros Kp Kp' Ks (ep & es & Hp & -> & Hs)%Composite_Ok (ep' & es' & Hp' & -> & Hs')%Composite_Ok.
  pose proof (Encode_ordered _ _ _ _ Kp Kp' Hp Hp') as O1.
  destruct sk as [v|], sk' as [v'|]; try done; subst.
  - destruct Ks as [Kv Kv']. eexists. apply ordered_app; [done|]. by apply (Encode_ordered v v').
  - eexists. apply ordered_app; [done|]. apply ordered_refl.
Qed.

Lemma ordered_app_eq o s t x y : ordered o s t -> s +:+ x = t +:+ y -> s = t.
Proof.
  intros [[_ ->]|D] E; [done|]. apply (differ_app _ _ _ x y) in D.
  destruct D as (p & c & d & s' & t' & E1 & E2 & Hcd & Ho). rewrite E1, E2 in E.
  apply sapp_inj_l in E. injection E as -> _. rewrite Z.compare_refl in Hcd. congruence.
Qed.

Lemma index_attr_wf kp it v : item_wf it -> index_attr kp it = Some v -> value_wf v.
Proof.
  unfold index_attr. intros W. destruct (it !! kp_name kp) as [x|] eqn:E; [|done].
  destruct (String.eqb _ _); [|done]. intros [= <-]. by eapply W.
Qed.

(** An index key is a composite of attribute values, then the primary key with its
    length. *)
Lemma indexKeyFor_Ok ix it pk xk :
  item_wf it -> indexKeyFor ix it pk = Ok (Some xk) ->
  exists h s kb, key_value h /\ Composite h s = Ok kb /\ xk = kb +:+ be32 (slen pk) +:+ pk /\
    match ix_range ix, s with Some _, Some v => key_value v | None, None => True | _, _ => False end.
Proof.
  unfold indexKeyFor. intros W. destruct (index_attr (ix_hash ix) it) as [h|] eqn:Eh; [|done].
  assert (forall s kb, Composite h s = Ok kb -> key_value h) as Kh.
  { intros s kb (ep & es & Hp & _)%Composite_Ok. eapply Encode_key_wf; [|done]. by eapply index_attr_wf. }
  destruct (ix_range ix) as [r|].
  - destruct (index_attr r it) as [s|] eqn:Es; [|done].
    intros (kb & Hk & [= <-])%result_bind_Ok. exists h, (Some s), kb.
    split; [by eapply Kh|]. split; [done|]. split; [done|].
    apply Composite_Ok in Hk as (ep & es & _ & _ & Hs). eapply Encode_key_wf; [|done]. by eapply index_attr_wf.
  - intros (kb & Hk & [= <-])%result_bind_Ok. exists h, None, kb. by split; [eapply Kh|].
Qed.

Lemma indexKeyFor_inj ix it it' pk pk' xk :
  item_wf it -> item_wf it' ->
  indexKeyFor ix it pk = Ok (Some xk) -> indexKeyFor ix it' pk' = Ok (Some xk) -> pk = pk'.
Proof.
  intros W W' (h & s & kb & Kh & Hk & -> & Hs)%indexKeyFor_Ok (h' & s' & kb' & Kh' & Hk' & E & Hs')%indexKeyFor_Ok;
    [|done..].
  destruct (Composite_ordered h h' s s' kb kb' Kh Kh') as [o O]; [|done..|].
  { destruct (ix_range ix), s, s'; try done. }
  pose proof (ordered_app_eq _ _ _ _ _ O E) as ->. apply sapp_inj_l in E. by eapply be32_inj.
Qed.

(** ** Transactions step by step *)

#[local] Set Default Proof Using "All".

Section store.
Context `{B : Bolt} {BL : BoltLaws B}.

Lemma T_bind_Ok {A C} (m : T A) (f : A -> T C) db c db' :
  (m ≫= f) db = Ret (Ok (c, db')) <->
  exists a db1, m db = Ret (Ok (a, db1)) /\ f a db1 = Ret (Ok (c, db')).
Proof.
  unfold mbind, T_bind. rewrite outcome_bind_Ok. split.
  - intros ([a db1] & H1 & H2). eauto.
  - intros (a & db1 & H1 & H2). by exists (a, db1).
Qed.

Lemma lift_Ok {A} (r : result A) db a db' : lift r db = Ret (Ok (a, db')) <-> r = Ok a /\ db' = db.
Proof. unfold lift. destruct r; simpl; split; intros; destruct_and?; simplify_eq; done. Qed.

Lemma modify_Ok f db u db' : modify f db = Ret (Ok (u, db')) <-> db' = f db.
Proof. unfold modify. destruct u. split; intros; simplify_eq; done. Qed.

Lemma read_Ok db a db' : read db = Ret (Ok (a, db')) <-> a = db /\ db' = db.
Proof. unfold read. split; intros; destruct_and?; simplify_eq; done. Qed.

Lemma mret_Ok {A} (x a : A) db db' : (mret x : T A) db = Ret (Ok (a, db')) <-> a = x /\ db' = db.
Proof. unfold mret, T_ret. split; intros; destruct_and?; simplify_eq; done. Qed.

(** The bytes under a key of a table's data, and the primary key under an index key. *)
Definition data_get (t : Table) (k : string) (db : DB) : option json :=
  db_data db !! dataBucket (t_name t) ≫= bget k.
Definition index_get (t : Table) (ix : Index) (xk : string) (db : DB) : option string :=
  db_index db !! indexBucket (t_name t) (ix_name ix) ≫= bget xk.

Lemma bget_or_empty {V} (o : option (bucket V)) k : bget k (bucket_or_empty o) = o ≫= bget k.
Proof. destruct o; [done|]. apply bget_bempty. Qed.

(** An item is stored under a key. *)
Definition item_at (t : Table) (k : string) (it : Item) (db : DB) : Prop :=
  exists raw, data_get t k db = Some raw /\ ItemFromJSON raw = Ok it.

(** The table's items are readable, each under its own primary key, and every index
    holds exactly one entry for each item that has its attributes. *)
Record consistent (t : Table) (db : DB) : Prop := {
  con_data k raw : data_get t k db = Some raw ->
    exists it, ItemFromJSON raw = Ok it /\ primaryKey t it = Ok k;
  con_index ix xk pk : ix ∈ t_indexes t ->
    index_get t ix xk db = Some pk <->
    exists it, item_at t pk it db /\ indexKeyFor ix it pk = Ok (Some xk)
}.

(** Index names are distinct: each index has a bucket of its own. *)
Definition table_ok (t : Table) : Prop := NoDup (ix_name <$> t_indexes t).

Lemma indexBucket_inj t i j : indexBucket t i = indexBucket t j -> i = j.
Proof. unfold indexBucket. intros H. by do 3 apply sapp_inj_l in H. Qed.

Definition key_in (ix : Index) (key : string) (o : option Item) : result (option string) :=
  match o with Some it => indexKeyFor ix it key | None => Ok None end.

(** One index's entries after a write. *)
Definition index_after (old new : option string) (key xk : string) (before : option string) : option string :=
  if decide (new = Some xk) then Some key else if decide (old = Some xk) then None else before.

Lemma writeIndex_Ok t key old new ix db u db' :
  writeIndex t key old new ix db = Ret (Ok (u, db')) ->
  exists ok nk, key_in ix key old = Ok ok /\ key_in ix key new = Ok nk /\
    db_data db' = db_data db /\ db_tables db' = db_tables db /\ db_stream db' = db_stream db /\
    forall ix' xk, index_get t ix' xk db' =
      if decide (ix_name ix' = ix_name ix) then index_after ok nk key xk (index_get t ix xk db)
      else index_get t ix' xk db.
Proof.
  unfold writeIndex. rewrite T_bind_Ok. intros (ok & db1 & [Hok ->]%lift_Ok & H).
  rewrite T_bind_Ok in H. destruct H as (nk & db1 & [Hnk ->]%lift_Ok & H).
  rewrite T_bind_Ok in H. destruct H as (db2 & db1 & [-> ->]%read_Ok & H). cbv zeta in H.
  set (b0 := bucket_or_empty _) in H.
  set (b1 := match ok with Some _ => _ | None => _ end) in H.
  rewrite T_bind_Ok in H. destruct H as (b & db1 & [Hb ->]%lift_Ok & ->%modify_Ok).
  exists ok, nk. split; [done|]. split; [done|]. split; [done|]. split; [done|]. split; [done|].
  intros ix' xk. unfold index_get. simpl. destruct (decide (ix_name ix' = ix_name ix)) as [->|Hne].
  - rewrite lookup_insert_eq. simpl. rewrite <- bget_or_empty. fold b0. unfold index_after.
    assert (bget xk b1 = if decide (ok = Some xk) then if decide (nk = Some xk) then bget xk b0 else None
                         else bget xk b0) as E1.
    { unfold b1. destruct ok as [k|]; [|done]. case_bool_decide as Hn.
      - subst nk. by destruct (decide (Some k = Some xk)).
      - rewrite bget_bdelete. destruct (decide (xk = k)) as [->|]; [by rewrite decide_True, decide_False|].
        by rewrite decide_False by congruence. }
    destruct nk as [k|].
    + rewrite (bget_bput _ _ _ _ _ _ Hb). destruct (decide (xk = k)) as [->|Hk].
      * by rewrite decide_True.
      * rewrite decide_False by congruence. rewrite E1. by rewrite (decide_False (P := Some k = Some xk)) by congruence.
    + injection Hb as <-. rewrite E1. by destruct (decide (ok = Some xk)).
  - rewrite lookup_insert_ne; [done|]. intros E%indexBucket_inj. congruence.
Qed.

Lemma writeIndexes_Ok t key old new l db u db' :
  NoDup (ix_name <$> l) -> forEach (writeIndex t key old new) l db = Ret (Ok (u, db')) ->
  db_data db' = db_data db /\ db_tables db' = db_tables db /\ db_stream db' = db_stream db /\
  (forall ix, ix ∈ l -> exists ok nk, key_in ix key old = Ok ok /\ key_in ix key new = Ok nk /\
    forall xk, index_get t ix xk db' = index_after ok nk key xk (index_get t ix xk db)) /\
  (forall ix xk, ix_name ix ∉ ix_name <$> l -> index_get t ix xk db' = index_get t ix xk db).
Proof.
  revert db; induction l as [|ix l IH]; intros db Hnd; cbn [forEach].
  { intros [-> ->]%mret_Ok. repeat split; try done. intros ix Hix. by apply not_elem_of_nil in Hix. }
  rewrite fmap_cons in Hnd. apply NoDup_cons in Hnd as [Hni Hnd].
  rewrite T_bind_Ok. intros (u1 & db1 & H1 & H2).
  apply writeIndex_Ok in H1 as (ok & nk & Ho & Hn & D1 & T1 & S1 & X1).
  destruct (IH db1 Hnd H2) as (D2 & T2 & S2 & X2 & F2).
  split; [congruence|]. split; [congruence|]. split; [congruence|]. split.
  - intros ix' [->|Hin]%elem_of_cons.
    + exists ok, nk. split; [done|]. split; [done|]. intros xk. rewrite F2 by done.
      rewrite X1. by rewrite decide_True.
    + destruct (X2 ix' Hin) as (ok' & nk' & Ho' & Hn' & E). exists ok', nk'. split; [done|].
      split; [done|]. intros xk. rewrite E, X1. rewrite decide_False; [done|].
      intros E'. destruct Hni. rewrite <- E'. by apply list_elem_of_fmap_2.
  - intros ix' xk Hix. rewrite fmap_cons, not_elem_of_cons in Hix. destruct Hix as [Hne Hix].
    rewrite F2, X1 by done. by rewrite decide_False.
Qed.

Lemma captureStream_frame now begun t old new db u db' :
  captureStream now begun t old new db = Ret (Ok (u, db')) ->
  db_data db' = db_data db /\ db_tables db' = db_tables db /\ db_index db' = db_index db.
Proof.
  unfold captureStream. destruct (streamState t); [|by intros [-> ->]%mret_Ok].
  destruct (match new with Some _ => new | None => old end); [|by intros [-> ->]%mret_Ok].
  rewrite T_bind_Ok. intros (db0 & db1 & [-> ->]%read_Ok & H). cbv zeta in H.
  rewrite T_bind_Ok in H. by destruct H as (b & db1 & [_ ->]%lift_Ok & ->%modify_Ok).
Qed.

(** A write of one item: its bytes, the entries of every index, and nothing else. *)
Lemma writeItem_Ok now begun t key old new db u db' :
  table_ok t -> writeItem now begun t key old new db = Ret (Ok (u, db')) ->
  db_tables db' = db_tables db /\
  (forall k, data_get t k db' = if decide (k = key) then ItemJSON <$> new else data_get t k db) /\
  (forall ix, ix ∈ t_indexes t -> exists ok nk, key_in ix key old = Ok ok /\ key_in ix key new = Ok nk /\
    forall xk, index_get t ix xk db' = index_after ok nk key xk (index_get t ix xk db)).
Proof.
  intros Ht. unfold writeItem. rewrite T_bind_Ok. intros (db0 & db1 & [-> ->]%read_Ok & H). cbv zeta in H.
  rewrite T_bind_Ok in H. destruct H as (b & db1 & [Hb ->]%lift_Ok & H).
  rewrite T_bind_Ok in H. destruct H as ([] & db1 & ->%modify_Ok & H).
  rewrite T_bind_Ok in H. destruct H as ([] & db2 & H2 & H3).
  apply writeIndexes_Ok in H2 as (D2 & T2 & _ & X2 & _); [|done].
  apply captureStream_frame in H3 as (D3 & T3 & I3).
  split; [by rewrite T3, T2|]. split.
  - intros k. unfold data_get. rewrite D3, D2. simpl. rewrite lookup_insert_eq. simpl.
    rewrite <- bget_or_empty. destruct new as [it|].
    + rewrite (bget_bput _ _ _ _ _ _ Hb). by destruct (decide (k = key)).
    + injection Hb as <-. rewrite bget_bdelete. by destruct (decide (k = key)).
  - intros ix Hix. destruct (X2 ix Hix) as (ok & nk & Ho & Hn & E). exists ok, nk.
    split; [done|]. split; [done|]. intros xk. unfold index_get in *. by rewrite I3, E.
Qed.

(** ** The invariant is preserved *)

Lemma item_at_wf t k it db : item_at t k it db -> item_wf it.
Proof. intros (raw & _ & H). by eapply ItemFromJSON_wf. Qed.

Lemma item_at_fun t k it it' db : item_at t k it db -> item_at t k it' db -> it = it'.
Proof. intros (r & H1 & H2) (r' & H3 & H4). congruence. Qed.

(** What a write may assume of the old item and must know of the new one. *)
Definition old_ok (t : Table) (key : string) (old : option Item) (db : DB) : Prop :=
  match old with Some it => item_at t key it db | None => data_get t key db = None end.
Definition new_ok (t : Table) (key : string) (new : option Item) : Prop :=
  match new with Some it => item_wf it /\ primaryKey t it = Ok key | None => True end.

Lemma item_at_after t key new db db' :
  new_ok t key new ->
  (forall k, data_get t k db' = if decide (k = key) then ItemJSON <$> new else data_get t k db) ->
  forall k it, item_at t k it db' <-> if decide (k = key) then new = Some it else item_at t k it db.
Proof.
  intros Hn Hd k it. unfold item_at. rewrite Hd. destruct (decide (k = key)) as [->|]; [|done].
  destruct new as [n|]; simpl; [|split; [by intros (? & ? & _)|done]].
  destruct Hn as [Wn _]. pose proof (ItemFromJSON_ItemJSON n Wn) as Hr. split.
  - intros (raw & [= <-] & H). congruence.
  - intros [= ->]. eauto.
Qed.

Lemma writeItem_consistent now begun t key old new db u db' :
  table_ok t -> consistent t db -> old_ok t key old db -> new_ok t key new ->
  writeItem now begun t key old new db = Ret (Ok (u, db')) -> consistent t db'.
Proof.
  intros Ht [CD CI] Ho Hn H. apply writeItem_Ok in H as (_ & D & X); [|done].
  pose proof (item_at_after t key new db db' Hn D) as A.
  split.
  - intros k raw. rewrite D. destruct (decide (k = key)) as [->|]; [|by apply CD].
    destruct new as [it|]; [|done]. intros [= <-]. destruct Hn as [Wn Hp]. exists it.
    by rewrite ItemFromJSON_ItemJSON.
  - intros ix xk pk Hix. destruct (X ix Hix) as (ok & nk & Eo & En & E). rewrite E. clear E X D.
    assert (forall it, item_at t pk it db' -> indexKeyFor ix it pk = Ok (Some xk) ->
      forall it', item_at t key it' db -> indexKeyFor ix it' key = Ok (Some xk) -> pk = key) as Inj.
    { intros it Hit K it' Hit' K'. eapply indexKeyFor_inj; [| |exact K|exact K']; by eapply item_at_wf. }
    unfold index_after. destruct (decide (nk = Some xk)) as [->|Hnk].
    + destruct new as [n|]; [|done]. simpl in En. split.
      * intros [= <-]. exists n. rewrite A, decide_True by done. done.
      * intros (it & Hit & K). f_equal. destruct Hn as [Wn _].
        eapply indexKeyFor_inj; [exact Wn| |exact En|exact K]. by eapply item_at_wf.
    + destruct (decide (pk = key)) as [->|Hpk].
      * split.
        { destruct (decide (ok = Some xk)); [done|]. rewrite (CI ix xk key Hix).
          intros (it & Hit & K). destruct old as [o|]; simpl in *.
          - rewrite (item_at_fun _ _ _ _ _ Ho Hit) in Eo. congruence.
          - destruct Hit as (raw & Hr & _). congruence. }
        { intros (it & Hit & K). apply A in Hit. rewrite decide_True in Hit by done. subst new.
          simpl in En. congruence. }
      * destruct (decide (ok = Some xk)) as [->|].
        { split; [done|]. intros (it & Hit & K). destruct old as [o|]; [|done]. simpl in *.
          destruct Hpk. by eapply Inj. }
        rewrite (CI ix xk pk Hix). setoid_rewrite A. by destruct (decide (pk = key)).
Qed.

Lemma loadItem_Ok now t key db cur db' :
  loadItem now t key db = Ret (Ok (cur, db')) ->
  db' = db /\
  match data_get t key db with
  | None => cur = None
  | Some raw => exists it, ItemFromJSON raw = Ok it /\ cur = if expired now t it then None else Some it
  end.
Proof.
  unfold loadItem. rewrite T_bind_Ok. intros (db0 & db1 & [-> ->]%read_Ok & H).
  unfold data_get. destruct (_ ≫= bget key) as [raw|]; [|by apply mret_Ok in H as [-> ->]].
  rewrite T_bind_Ok in H. destruct H as (it & db1 & [Hit ->]%lift_Ok & [-> ->]%mret_Ok). eauto.
Qed.

Lemma getTable_Ok name db t db' :
  getTable name db = Ret (Ok (t, db')) -> db' = db /\ db_tables db ≫= bget name = Some t.
Proof.
  unfold getTable. rewrite T_bind_Ok. intros (db0 & db1 & [-> ->]%read_Ok & H).
  destruct (db_tables db ≫= bget name); [|done]. by apply mret_Ok in H as [-> ->].
Qed.

(** No item of the table is past its time to live. *)
Definition unexpired (now : Z) (t : Table) (db : DB) : Prop :=
  forall k it, item_at t k it db -> expired now t it = false.

Lemma loadItem_old now t key db cur db' :
  unexpired now t db -> loadItem now t key db = Ret (Ok (cur, db')) -> db' = db /\ old_ok t key cur db.
Proof.
  intros Hu [-> H]%loadItem_Ok. split; [done|]. unfold old_ok.
  destruct (data_get t key db) as [raw|] eqn:E; [|by subst].
  destruct H as (it & Hit & ->). assert (item_at t key it db) as Ha by (by exists raw).
  by rewrite (Hu _ _ Ha).
Qed.

Lemma KeyFromWire_Ok t raw key it :
  KeyFromWire t raw = Ok (key, it) -> item_wf it /\ primaryKey t it = Ok key.
Proof.
  unfold KeyFromWire. intros (k & Hk & H)%result_bind_Ok. apply ItemFromJSON_wf in Hk.
  destruct (negb _); [done|]. by apply result_bind_Ok in H as (kb & Hp & [= -> ->]).
Qed.

(** The table definition a name is bound to. *)
Definition defines (name : string) (t : Table) (db : DB) : Prop := db_tables db ≫= bget name = Some t.

Lemma putItem_consistent now begun name t it cond db old db' :
  defines name t db -> table_ok t -> unexpired now t db -> item_wf it -> consistent t db ->
  putItem now begun name it cond db = Ret (Ok (old, db')) -> consistent t db'.
Proof.
  intros Hd Ht Hu W C. unfold putItem. rewrite T_bind_Ok. intros (t' & db1 & [-> E]%getTable_Ok & H).
  assert (t' = t) as -> by (unfold defines in Hd; congruence).
  rewrite T_bind_Ok in H. destruct H as (key & db1 & [Hk ->]%lift_Ok & H).
  rewrite T_bind_Ok in H. destruct H as (cur & db1 & [-> Ho]%loadItem_old & H); [|done].
  rewrite T_bind_Ok in H. destruct H as ([] & db1 & [_ ->]%lift_Ok & H).
  rewrite T_bind_Ok in H. destruct H as ([] & db1 & H & [-> ->]%mret_Ok).
  eapply writeItem_consistent; [| | | |exact H]; done.
Qed.

Lemma deleteItem_consistent now begun name t rawKey cond db old db' :
  defines name t db -> table_ok t -> unexpired now t db -> consistent t db ->
  deleteItem now begun name rawKey cond db = Ret (Ok (old, db')) -> consistent t db'.
Proof.
  intros Hd Ht Hu C. unfold deleteItem. rewrite T_bind_Ok. intros (t' & db1 & [-> E]%getTable_Ok & H).
  assert (t' = t) as -> by (unfold defines in Hd; congruence).
  rewrite T_bind_Ok in H. destruct H as (key & db1 & [Hk ->]%lift_Ok & H).
  rewrite T_bind_Ok in H. destruct H as (cur & db1 & [-> Ho]%loadItem_old & H); [|done].
  rewrite T_bind_Ok in H. destruct H as ([] & db1 & [_ ->]%lift_Ok & H).
  destruct cur as [it|]; [|by apply mret_Ok in H as [-> ->]].
  rewrite T_bind_Ok in H. destruct H as ([] & db1 & H & [-> ->]%mret_Ok).
  eapply writeItem_consistent; [| | | |exact H]; done.
Qed.

(** *** Updates leave the key alone *)

(** Values equal to the code encode alike: numbers equal in value are one number. *)
Lemma Equal_Encode a b e :
  value_wf a -> value_wf b -> Equal a b = true -> Encode b = Ok e -> v_type a = v_type b /\ Encode a = Ok e.
Proof.
  intros Wa Wb He Hb. destruct b; try done; destruct a; try done; simpl in He.
  - by apply String.eqb_eq in He as ->.
  - split; [done|]. pose proof (Encode_ordered (VN n0) (VN n) _ _ (ltac:(by inversion Wa) : key_value (VN n0))
      (ltac:(by inversion Wb) : key_value (VN n)) eq_refl Hb) as O.
    apply Z.eqb_eq in He. unfold CompareValues in O. simpl in O. rewrite He in O.
    destruct O as [[_ E]|(p & c & d & s & t & _ & _ & _ & Ho)]; [|done].
    cbn [Encode]. by rewrite <- E.
  - by apply String.eqb_eq in He as ->.
Qed.

Lemma key_attr_kept kp next base v :
  item_wf next -> item_wf base -> Equal (attr_or_zero (kp_name kp) next) (attr_or_zero (kp_name kp) base) = true ->
  key_attr kp base = Ok v -> forall e, Encode v = Ok e ->
  exists v', key_attr kp next = Ok v' /\ Encode v' = Ok e.
Proof.
  intros Wn Wb He Hk e Henc. unfold key_attr, attr_or_zero in *.
  destruct (base !! kp_name kp) as [b|] eqn:Eb; [|done].
  destruct (String.eqb_spec (v_type b) (kp_type kp)) as [Et|]; [|done]. injection Hk as ->. simpl in He.
  destruct (next !! kp_name kp) as [n|] eqn:En; simpl in He; [|by destruct v].
  destruct (Equal_Encode n v e (Wn _ _ En) (Wb _ _ Eb) He Henc) as [T E].
  exists n. rewrite T, Et, String.eqb_refl. done.
Qed.

Lemma primaryKey_kept t next base key :
  item_wf next -> item_wf base -> changed_key t base next = None ->
  primaryKey t base = Ok key -> primaryKey t next = Ok key.
Proof.
  intros Wn Wb Hc. unfold changed_key, key_names in Hc.
  assert (forall k, k ∈ kp_name (t_hash t) :: match t_range t with Some r => [kp_name r] | None => [] end ->
    Equal (attr_or_zero k next) (attr_or_zero k base) = true) as He.
  { intros k Hk. apply list_elem_of_In in Hk. pose proof (List.find_none _ _ Hc k Hk) as H.
    by apply negb_false_iff in H. }
  assert (forall v k e, as_validation (Composite v k) = Ok e -> Composite v k = Ok e) as Hav.
  { intros v k e. by destruct (Composite v k). }
  unfold primaryKey. intros (pk & Hpk & H)%result_bind_Ok.
  destruct (t_range t) as [r|] eqn:Er.
  - apply result_bind_Ok in H as (sk & Hsk & H). apply Hav, Composite_Ok in H as (ep & es & Hep & -> & Hes).
    destruct (key_attr_kept (t_hash t) next base pk Wn Wb) with ep as (pk' & -> & Hep'); [apply He; by left|done..|].
    destruct (key_attr_kept r next base sk Wn Wb) with es as (sk' & E & Hes'); [apply He; right; by left|done..|].
    simpl. rewrite E. simpl. unfold Composite. by rewrite Hep', Hes'.
  - apply Hav, Composite_Ok in H as (ep & es & Hep & -> & ->).
    destruct (key_attr_kept (t_hash t) next base pk Wn Wb) with ep as (pk' & -> & Hep'); [apply He; by left|done..|].
    simpl. unfold Composite. rewrite Hep'. simpl. by rewrite sapp_nil_r.
Qed.

Lemma updateItem_consistent grow now begun name t rawKey upd cond db old next db' :
  defines name t db -> table_ok t -> unexpired now t db -> consistent t db -> item_wf next ->
  updateItem grow now begun name rawKey upd cond db = Ret (Ok ((old, next), db')) -> consistent t db'.
Proof.
  intros Hd Ht Hu C Wn. unfold updateItem. rewrite T_bind_Ok. intros (t' & db1 & [-> E]%getTable_Ok & H).
  assert (t' = t) as -> by (unfold defines in Hd; congruence).
  rewrite T_bind_Ok in H. destruct H as ([key attrs] & db1 & [[Wk Hk]%KeyFromWire_Ok ->]%lift_Ok & H).
  rewrite T_bind_Ok in H. destruct H as (cur & db1 & [-> Ho]%loadItem_old & H); [|done].
  rewrite T_bind_Ok in H. destruct H as ([] & db1 & [_ ->]%lift_Ok & H). cbv zeta in H. cbn [fst snd] in *.
  rewrite T_bind_Ok in H. destruct H as (n & db2 & Hn & H).
  apply outcome_bind_Ok in Hn as (n' & _ & [= -> ->]).
  destruct (changed_key t (default attrs cur) n) eqn:Ec; [done|]. destruct (_ <? _); [done|].
  rewrite T_bind_Ok in H. destruct H as ([] & db1 & H & [[= -> ->] ->]%mret_Ok).
  eapply writeItem_consistent; [done|done|exact Ho| |exact H]. split; [done|].
  eapply primaryKey_kept; [done| |done|].
  - destruct cur as [c|]; [by eapply item_at_wf|done].
  - destruct cur as [c|]; [|done]. simpl. destruct Ho as (raw & Hr & Hi).
    destruct (con_data _ _ C _ _ Hr) as (c' & Hc' & Hp). congruence.
Qed.
End store.
