(* ===== verification/StoreSpec.v ===== *)
(** * StoreSpec: what the engine promises

    The properties of single-item operations and of the TTL sweep, on any
    bucket implementation that satisfies the laws. *)

From S2P Require Import Prelude Bytes Wire Decimal Item KeyEnc Lexer Path Cond Heap Update Bolt Cursor Table Items KeyCond Query Txn StoreInv.

#[local] Set Default Proof Using "All".

Section store.
Context `{B : Bolt} {BL : BoltLaws B}.

(** An operation that answers anything but a value leaves the database as it was. *)
Lemma Update_inv {A} (f : T A) db db' r :
  Table.Update f db = (db', r) ->
  (exists a, r = Ret (Ok a) /\ f db = Ret (Ok (a, db'))) \/ (db' = db /\ forall a, r <> Ret (Ok a)).
Proof.
  unfold Table.Update. destruct (f db) as [[[a db1]|e]| |]; intros [= <- <-]; eauto.
Qed.

Lemma Update_keeps {A} (f : T A) db (P : DB -> Prop) :
  P db -> (forall a db', f db = Ret (Ok (a, db')) -> P db') -> P (Table.Update f db).1.
Proof.
  intros H Hf. destruct (Table.Update f db) as [db' r] eqn:E.
  destruct (Update_inv f db db' r E) as [(a & _ & Ha)|[-> _]]; [by eapply Hf|done].
Qed.

Lemma PutItem_consistent now name t raw cond db :
  defines name t db -> table_ok t -> unexpired now t db -> consistent t db ->
  consistent t (PutItem now name raw cond db).1.
Proof.
  intros Hd Ht Hu C. unfold PutItem. destruct (ItemFromJSON raw) as [it|] eqn:E; [|done].
  destruct (_ <? _); [done|]. apply (Update_keeps _ _ (consistent t)); [done|]. intros old db'.
  apply putItem_consistent; [done..|by eapply ItemFromJSON_wf|done].
Qed.

(** C1: Writes keep every index exact.  In a table whose items are readable and unexpired
    and whose index names are distinct, after any PutItem, DeleteItem or UpdateItem,
    successful or not, each item is still readable under its own primary key and each
    index still holds exactly one entry for each item that has its attributes, referring
    to that item (for an update, provided the new item is a well-formed one). *)
Theorem writes_keep_indexes grow now name t db :
  defines name t db -> table_ok t -> unexpired now t db -> consistent t db ->
  (forall raw cond, consistent t (PutItem now name raw cond db).1) /\
  (forall raw cond, consistent t (DeleteItem now name raw cond db).1) /\
  (forall raw upd cond,
     (forall old next, (UpdateItem grow now name raw upd cond db).2 = Ret (Ok (old, next)) -> item_wf next) ->
     consistent t (UpdateItem grow now name raw upd cond db).1).
Proof.
  intros Hd Ht Hu C. split; [|split].
  - intros raw cond. by apply PutItem_consistent.
  - intros raw cond. apply (Update_keeps _ _ (consistent t)); [done|]. intros old db'. by apply deleteItem_consistent.
  - intros raw upd cond Hw. unfold UpdateItem in *. apply (Update_keeps _ _ (consistent t)); [done|]. intros [old next] db' H.
    eapply updateItem_consistent; [done..| |exact H]. apply (Hw old). unfold Table.Update. by rewrite H.
Qed.

(** ** Reading back *)

(** What a read of a key answers: the abstract content of the table. *)
Definition content (now : Z) (t : Table) (key : string) (db : DB) : result (option Item) :=
  match data_get t key db with
  | None => Ok None
  | Some raw => it ← ItemFromJSON raw; Ok (if expired now t it then None else Some it)
  end.

Lemma getTable_defines name t db : defines name t db -> getTable name db = Ret (Ok (t, db)).
Proof. unfold defines, getTable, mbind, T_bind, read. simpl. by intros ->. Qed.

Lemma loadItem_content now t key db : loadItem now t key db = lift (content now t key db) db.
Proof.
  unfold loadItem, content, data_get, mbind, T_bind, read. simpl.
  destruct (db_data db !! dataBucket (t_name t)) as [b|]; simpl; [|done].
  destruct (bget key b) as [raw|]; [|done]. unfold lift. by destruct (ItemFromJSON raw).
Qed.

Lemma GetItem_content now name t rawKey key attrs db :
  defines name t db -> KeyFromWire t rawKey = Ok (key, attrs) ->
  GetItem now name rawKey db = Ret (content now t key db).
Proof.
  intros Hd Hk. unfold GetItem, View, getItem. unfold mbind at 2, T_bind at 1.
  rewrite (getTable_defines _ _ _ Hd). cbn [mbind outcome_mbind outcome_bind].
  unfold mbind, T_bind, lift. rewrite Hk. simpl. rewrite loadItem_content. unfold lift.
  by destruct (content now t key db).
Qed.

Lemma content_write now t key new db db' :
  new_ok t key new ->
  (forall k, data_get t k db' = if decide (k = key) then ItemJSON <$> new else data_get t k db) ->
  forall k, content now t k db' =
    if decide (k = key)
    then Ok (match new with Some it => if expired now t it then None else Some it | None => None end)
    else content now t k db.
Proof.
  intros Hn Hd k. unfold content. rewrite Hd. destruct (decide (k = key)); [|done].
  destruct new as [it|]; [|done]. destruct Hn as [W _]. simpl. by rewrite ItemFromJSON_ItemJSON.
Qed.

(** C3: A table that exists, with distinct index names, is a map from primary keys to items,
    as GetItem shows it: an item past its time to live is stored but not shown.  A PutItem
    that answers has bound its item's key to exactly that item: a GetItem of that key, at
    that instant, answers the item, or nothing when it was put with a time to live that has
    passed; of any other key it answers what it did before; and the PutItem's answer is what
    a GetItem of the key answered before it, an expired item being no answer.  A DeleteItem
    that answers leaves GetItem nothing to show under the key, answers what GetItem did
    before, and changes what it shows of no other key. *)
Theorem table_is_a_map now name t db :
  defines name t db -> table_ok t ->
  (forall raw cond db' old it key, PutItem now name raw cond db = (db', Ret (Ok old)) ->
     ItemFromJSON raw = Ok it -> primaryKey t it = Ok key ->
     content now t key db = Ok old /\
     forall k, content now t k db' =
       if decide (k = key) then Ok (if expired now t it then None else Some it) else content now t k db) /\
  (forall rawKey cond db' old key attrs, DeleteItem now name rawKey cond db = (db', Ret (Ok old)) ->
     KeyFromWire t rawKey = Ok (key, attrs) ->
     content now t key db = Ok old /\
     forall k, content now t k db' = if decide (k = key) then Ok None else content now t k db) /\
  (forall rawKey key attrs, KeyFromWire t rawKey = Ok (key, attrs) ->
     GetItem now name rawKey db = Ret (content now t key db)).
Proof.
  intros Hd Ht. split; [|split].
  - intros raw cond db' old it key Hput Hraw Hkey. unfold PutItem in Hput. rewrite Hraw in Hput.
    destruct (_ <? _); [done|]. apply Update_inv in Hput as [(a & [= <-] & H)|[_ Hf]]; [|by destruct (Hf old)].
    unfold putItem in H. apply T_bind_Ok in H as (t' & db1 & Ht' & H).
    rewrite (getTable_defines _ _ _ Hd) in Ht'. injection Ht' as <- <-.
    apply T_bind_Ok in H as (key' & db1 & [Hk ->]%lift_Ok & H).
    assert (key' = key) as -> by congruence.
    apply T_bind_Ok in H as (cur & db1 & Hc & H). rewrite loadItem_content in Hc.
    apply lift_Ok in Hc as [Hc ->].
    apply T_bind_Ok in H as ([] & db1 & [_ ->]%lift_Ok & H).
    apply T_bind_Ok in H as ([] & db1 & H & [-> ->]%mret_Ok).
    apply writeItem_Ok in H as (_ & D & _); [|done]. split; [done|].
    apply (content_write now t key (Some it)); [|done]. split; [by eapply ItemFromJSON_wf|done].
  - intros rawKey cond db' old key attrs Hdel Hkey. unfold DeleteItem in Hdel.
    apply Update_inv in Hdel as [(a & [= <-] & H)|[_ Hf]]; [|by destruct (Hf old)].
    unfold deleteItem in H. apply T_bind_Ok in H as (t' & db1 & Ht' & H).
    rewrite (getTable_defines _ _ _ Hd) in Ht'. injection Ht' as <- <-.
    apply T_bind_Ok in H as ([key' attrs'] & db1 & [Hk ->]%lift_Ok & H).
    assert (key' = key) as -> by congruence.
    apply T_bind_Ok in H as (cur & db1 & Hc & H). rewrite loadItem_content in Hc. simpl in Hc.
    apply lift_Ok in Hc as [Hc ->].
    apply T_bind_Ok in H as ([] & db1 & [_ ->]%lift_Ok & H).
    destruct cur as [c|].
    + apply T_bind_Ok in H as ([] & db1 & H & [-> ->]%mret_Ok). simpl in H.
      apply writeItem_Ok in H as (_ & D & _); [|done]. split; [done|].
      by apply (content_write now t key None).
    + apply mret_Ok in H as [-> ->]. split; [done|]. intros k. by destruct (decide (k = key)) as [->|].
  - intros rawKey key attrs Hk. by eapply GetItem_content.
Qed.

(** ** The TTL sweep *)

(** Every stored item of a table sits under its own primary key. *)
Definition keyed (t : Table) (db : DB) : Prop :=
  forall k it, item_at t k it db -> primaryKey t it = Ok k.

(** The key attributes of an item name the item. *)
Lemma keyOf_key t it k :
  item_wf it -> primaryKey t it = Ok k ->
  exists key, ItemFromJSON (keyOf t it) = Ok key /\ primaryKey t key = Ok k.
Proof.
  intros W Hp. unfold primaryKey in Hp.
  assert (forall kp v, key_attr kp it = Ok v -> attr_or_zero (kp_name kp) it = v /\ it !! kp_name kp = Some v) as Ha.
  { intros kp v. unfold key_attr, attr_or_zero. destruct (it !! kp_name kp); [|done].
    destruct (String.eqb _ _); [|done]. by intros [= ->]. }
  assert (forall kp m v, key_attr kp it = Ok v -> m !! kp_name kp = Some v -> key_attr kp m = Ok v) as Hk.
  { intros kp m v H E. unfold key_attr in *. rewrite E. destruct (Ha kp v H) as [_ E']. by rewrite E' in H. }
  apply result_bind_Ok in Hp as (pk & Hpk & Hp). destruct (Ha _ _ Hpk) as [Epk Ipk].
  unfold keyOf. rewrite Epk. destruct (t_range t) as [r|] eqn:Er.
  - apply result_bind_Ok in Hp as (sk & Hsk & Hp). destruct (Ha _ _ Hsk) as [Esk Isk]. rewrite Esk.
    eexists. split.
    { apply ItemFromJSON_ItemJSON. intros n v [[<- <-]|[_ [<- <-]%lookup_singleton_Some]]%lookup_insert_Some;
        by eapply W. }
    unfold primaryKey. rewrite Er.
    assert (key_attr (t_hash t) (<[kp_name r := sk]> {[ kp_name (t_hash t) := pk ]}) = Ok pk) as ->.
    { apply Hk; [done|]. destruct (decide (kp_name r = kp_name (t_hash t))) as [E|];
        [rewrite E, lookup_insert_eq; congruence|by rewrite lookup_insert_ne, lookup_singleton_eq]. }
    simpl. rewrite (Hk r _ sk Hsk) by apply lookup_insert_eq. done.
  - eexists. split.
    { apply ItemFromJSON_ItemJSON. intros n v [<- <-]%lookup_singleton_Some. by eapply W. }
    unfold primaryKey. rewrite Er. rewrite (Hk _ _ pk Hpk) by apply lookup_singleton_eq. done.
Qed.

(** Deleting an expired item answers, and does nothing. *)
Lemma delete_expired now name t k it db :
  defines name t db -> item_at t k it db -> primaryKey t it = Ok k -> expired now t it = true ->
  (DeleteItem now name (keyOf t it) None db).1 = db.
Proof.
  intros Hd Hi Hp Hx. unfold DeleteItem.
  apply (Update_keeps _ _ (fun db' => db' = db)); [done|]. intros old db' H.
  unfold deleteItem in H. apply T_bind_Ok in H as (t' & db1 & Ht' & H).
  rewrite (getTable_defines _ _ _ Hd) in Ht'. injection Ht' as <- <-.
  apply T_bind_Ok in H as ([key attrs] & db1 & [Hk ->]%lift_Ok & H).
  assert (key = k) as ->.
  { destruct (keyOf_key t it k (item_at_wf _ _ _ _ Hi) Hp) as (ki & E1 & E2). unfold KeyFromWire in Hk.
    rewrite E1 in Hk. simpl in Hk. destruct (negb _); [done|]. rewrite E2 in Hk. by injection Hk. }
  apply T_bind_Ok in H as (cur & db1 & Hc & H). rewrite loadItem_content in Hc. simpl in Hc.
  apply lift_Ok in Hc as [Hc ->].
  assert (cur = None) as ->.
  { destruct Hi as (raw & Hr & Hi). unfold content in Hc. rewrite Hr, Hi in Hc. simpl in Hc.
    rewrite Hx in Hc. congruence. }
  apply T_bind_Ok in H as ([] & db1 & [_ ->]%lift_Ok & H). by apply mret_Ok in H as [_ ->].
Qed.

Lemma foldl_fixed {A S} (f : S -> A -> S) s l : (forall a, a ∈ l -> f s a = s) -> foldl f s l = s.
Proof.
  intros H. induction l as [|a l IH]; [done|]. simpl. rewrite H by by left. apply IH.
  intros a' Ha'. apply H. by right.
Qed.

(** The TTL sweep removes nothing.  It deletes the items it finds expired through
    DeleteItem, which reads an expired item as absent and so has nothing to delete: on any
    database whose tables are stored under their names and whose items are stored under
    their own keys, the sweep at any time leaves the database exactly as it was. *)
Lemma SweepTTL_removes_nothing now db :
  (forall name t, defines name t db -> t_name t = name /\ keyed t db) ->
  SweepTTL now db = db.
Proof.
  intros Hk. unfold SweepTTL. apply foldl_fixed. intros name _. unfold sweep_table, GetTable, View.
  destruct (getTable name db) as [[[t db1]|]| |] eqn:E; simpl; try done.
  apply getTable_Ok in E as [-> Hd]. destruct (negb (t_ttl_enabled t)); [done|].
  destruct (Hk name t Hd) as [Hn Hkey].
  apply foldl_fixed. intros raw Hin. unfold doomed in Hin.
  destruct (db_data db !! dataBucket name) as [b|] eqn:Eb; [|by apply not_elem_of_nil in Hin].
  apply list_elem_of_omap in Hin as ([k j] & Hin & Hd'). apply bentries_bget in Hin. simpl in Hd'.
  destruct (ItemFromJSON j) as [it|] eqn:Ej; [|done].
  destruct (expired now t it) eqn:Ex; [|done]. injection Hd' as <-.
  assert (item_at t k it db) as Hi.
  { exists j. split; [|done]. unfold data_get. by rewrite Hn, Eb. }
  eapply delete_expired; eauto.
Qed.
End store.

(** ** A table in memory *)

#[local] Set Default Proof Using "Type".

Lemma consistent_empty `{BoltLaws} t db :
  db_data db !! dataBucket (t_name t) = None ->
  (forall ix, db_index db !! indexBucket (t_name t) (ix_name ix) = None) -> consistent t db.
Proof.
  intros Hd Hi. split.
  - intros k raw. unfold data_get. by rewrite Hd.
  - intros ix xk pk _. unfold index_get, item_at, data_get. rewrite Hi, Hd. split; [done|].
    by intros (it & (raw & ? & _) & _).
Qed.

(** A table keyed by the string attribute [id], with an index on the string [tag] and
    items that expire at the time in [ttl]. *)
Definition sample_index : Index :=
  mkIndex "by-tag" (mkKeyPart "tag" "S") None "ALL" [] false 0 0.
Definition sample_table : Table :=
  mkTable "T" (mkKeyPart "id" "S") None [sample_index] 0 "ttl" true ∅ "PAY_PER_REQUEST" 0 0 false None
    false "" "" 0.

Definition sample_db : DB := (CreateTable 0 sample_table empty_DB).1.

Definition str_item (kvs : list (string * string)) (ttl : string) : json :=
  JObj (list_to_map (("ttl", tagged TypeN (JStr ttl)) :: ((fun '(k, v) => (k, tagged TypeS (JStr v))) <$> kvs))).

(** At second 5 an item that expired at second 1 is put. *)
Definition expired_item : json := str_item [("id", "a"); ("tag", "x")] "1".
Definition fresh_item : json := str_item [("id", "a"); ("tag", "y")] "100".
Definition second (n : Z) : Z := n * 1000000000.

Definition expired_db : DB := (PutItem (second 5) "T" expired_item None sample_db).1.

Lemma sample_defines : defines "T" sample_table sample_db.
Proof. vm_compute. reflexivity. Qed.

Lemma sample_ok : table_ok sample_table.
Proof. unfold table_ok. simpl. apply NoDup_singleton. Qed.

Lemma sample_no_items now : unexpired now sample_table sample_db.
Proof. intros k it (raw & Hr & _). unfold data_get in Hr. by vm_compute in Hr. Qed.

Lemma sample_consistent : consistent sample_table sample_db.
Proof. apply consistent_empty; [reflexivity|]. intros ix. apply lookup_empty. Qed.

Lemma writes_keep_indexes_witness :
  consistent sample_table expired_db /\
  exists old, (PutItem (second 5) "T" expired_item None sample_db).2 = Ret (Ok old).
Proof.
  split; [|by eexists; vm_compute; reflexivity].
  apply (writes_keep_indexes (fun n => n) (second 5) "T" sample_table sample_db sample_defines sample_ok
    (sample_no_items _) sample_consistent).
Defined.

Definition sample_read : Item := default ∅ (match ItemFromJSON fresh_item with Ok it => Some it | Err _ => None end).
Definition sample_key : string := match primaryKey sample_table sample_read with Ok k => k | Err _ => "" end.
Definition fresh_db : DB := (PutItem (second 5) "T" fresh_item None sample_db).1.

Lemma fresh_consistent : consistent sample_table fresh_db.
Proof. apply PutItem_consistent; [exact sample_defines|exact sample_ok|apply sample_no_items|exact sample_consistent]. Qed.

Lemma table_is_a_map_witness :
  content (second 5) sample_table sample_key sample_db = Ok None /\
  content (second 5) sample_table sample_key fresh_db = Ok (Some sample_read).
Proof.
  destruct (table_is_a_map (second 5) "T" sample_table sample_db sample_defines sample_ok) as (H & _ & _).
  assert ((PutItem (second 5) "T" fresh_item None sample_db).2 = Ret (Ok None)) as E by (vm_compute; reflexivity).
  destruct (H fresh_item None fresh_db None sample_read sample_key) as [H1 H2].
  - rewrite <- E. unfold fresh_db. by destruct (PutItem _ _ _ _ _).
  - vm_compute. reflexivity.
  - vm_compute. reflexivity.
  - split; [exact H1|]. rewrite H2, decide_True by done. vm_compute. reflexivity.
Defined.

Lemma expired_tables name t : defines name t expired_db -> name = "T" /\ t = sample_table.
Proof.
  intros Hd.
  assert (db_tables expired_db = Some ({[ "T" := sample_table ]}, 0)) as E by (vm_compute; reflexivity).
  unfold defines in Hd. rewrite E in Hd. clear E.
  change (({[ "T" := sample_table ]} : gmap string Table) !! name = Some t) in Hd.
  destruct (decide (name = "T")) as [->|Hn].
  - rewrite lookup_singleton_eq in Hd. by injection Hd as <-.
  - by rewrite lookup_singleton_ne in Hd.
Qed.

Lemma SweepTTL_removes_nothing_witness :
  SweepTTL (second 5) expired_db = expired_db /\ doomed (second 5) "T" sample_table expired_db <> [].
Proof.
  split; [|by vm_compute].
  apply SweepTTL_removes_nothing. intros name t [-> ->]%expired_tables. split; [reflexivity|].
  destruct writes_keep_indexes_witness as [C _]. intros k it (raw & Hr & Hi).
  destruct (con_data _ _ C _ _ Hr) as (it' & Hi' & Hp). congruence.
Defined.

(** Writing over an expired item leaves the old index entry behind.  PutItem reads the
    expired item as absent, so it does not remove that item's index entries; the new item
    is then found in the index under the old item's key: a query for [tag = x] answers an
    item whose [tag] is [y]. *)
Lemma expired_put_leaves_index_entry :
  let db := (PutItem (second 6) "T" fresh_item None expired_db).1 in
  let kc := mkKeyCondition "tag" (VS "x") "" "" VZero VZero in
  exists out it, Query (second 6) (mkQueryInput "T" "by-tag" kc None true 0 None) db = Ret (Ok out) /\
    o_items out = [it] /\ it !! "tag" = Some (VS "y").
Proof. do 2 eexists. split; [vm_compute; reflexivity|]. split; reflexivity. Qed.
