(* ===== verification/TxnSpec.v ===== *)
(** * TxnSpec: what transactions promise

    Atomicity, isolation of the decisions from the writes, one operation per item, and
    idempotency under a client token. *)

From S2P Require Import Prelude Bytes Wire Decimal Item KeyEnc Lexer Path Cond Heap Update Bolt Table Items Txn StoreInv StoreSpec.

#[local] Set Default Proof Using "All".

Section txn.
Context `{B : Bolt} {BL : BoltLaws B} (grow : nat -> nat) (now : Z).

(** ** Planning reads only *)

Definition reads_only {A} (m : T A) : Prop := forall db a db', m db = Ret (Ok (a, db')) -> db' = db.

Lemma reads_mret {A} (a : A) : reads_only (mret a).
Proof. by intros db x db' [_ ->]%mret_Ok. Qed.

Lemma reads_on_current t op key k :
  (forall cur, reads_only (k cur)) -> reads_only (on_current now t op key k).
Proof.
  intros Hk db a db' H. unfold on_current in H. apply T_bind_Ok in H as (cur & db1 & Hc & H).
  rewrite loadItem_content in Hc. apply lift_Ok in Hc as [_ ->].
  destruct (check _ _); [by eapply Hk|by apply mret_Ok in H as [_ ->]].
Qed.

Lemma reads_planOp op : reads_only (planOp grow now op).
Proof.
  intros db p db'. unfold planOp. destruct (getTable (op_table op) db) as [[[t db1]|]| |]; try done;
    [|by intros [= _ <-]].
  destruct (op_put op) as [raw|]; [|destruct (op_update_key op) as [key|];
    [|destruct (op_delete_key op) as [key|]; [|destruct (op_check_key op) as [key|]; [|by intros [= _ <-]]]]].
  - unfold planPut. destruct (ItemFromJSON raw) as [it|]; [|by intros [_ ->]%mret_Ok].
    destruct (primaryKey t it) as [k|]; [|by intros [_ ->]%mret_Ok].
    destruct (_ <? _); [by intros [_ ->]%mret_Ok|]. apply reads_on_current. intros. apply reads_mret.
  - unfold planUpdate. destruct (KeyFromWire t key) as [[k attrs]|]; [|by intros [_ ->]%mret_Ok].
    apply reads_on_current. intros cur db0 a db2 H. apply outcome_bind_Ok in H as ([n|r] & _ & [= _ <-]); done.
  - unfold planDelete. destruct (KeyFromWire t key) as [[k attrs]|]; [|by intros [_ ->]%mret_Ok].
    apply reads_on_current. intros. apply reads_mret.
  - unfold planCheck. destruct (KeyFromWire t key) as [[k attrs]|]; [|by intros [_ ->]%mret_Ok].
    apply reads_on_current. intros. apply reads_mret.
Qed.

(** What each operation was decided to be, on one database: a write, or nothing. *)
Definition decided (db : DB) (op : TxWriteOp) (w : option txPlanned) : Prop :=
  exists p, planOp grow now op db = Ret (Ok (p, db)) /\
    w = match p with Planned w _ => w | Canceled _ => None end.

Definition cancels (db : DB) (op : TxWriteOp) : Prop :=
  exists r, planOp grow now op db = Ret (Ok (Canceled r, db)).

(** The keys of the planned operations, table by table. *)
Definition touched (db : DB) (op : TxWriteOp) (dk : string) : Prop :=
  exists w key, planOp grow now op db = Ret (Ok (Planned w key, db)) /\ key <> "" /\
    dk = op_table op +:+ String (chr 0) key.

Lemma txPlan_Ok seen ops db plan reasons canceled db' :
  txPlan grow now seen ops db = Ret (Ok (plan, reasons, canceled, db')) ->
  db' = db /\ Forall2 (decided db) ops plan /\ length reasons = length ops /\
  (canceled = true <-> Exists (cancels db) ops) /\
  (forall op dk, op ∈ ops -> touched db op dk -> dk ∉ seen) /\
  (forall i j opi opj dk, ops !! i = Some opi -> ops !! j = Some opj ->
     touched db opi dk -> touched db opj dk -> i = j).
Proof.
  revert seen plan reasons canceled db'; induction ops as [|op ops IH]; intros seen plan reasons canceled db'.
  { intros H. apply mret_Ok in H as [[= -> -> ->] ->]. split; [done|]. split; [constructor|].
    split; [done|]. split; [split; [done|by inversion 1]|]. split; [by intros ? ? ?%not_elem_of_nil|].
    intros i j opi opj dk H. by rewrite lookup_nil in H. }
  cbn [txPlan]. intros H. apply T_bind_Ok in H as (p & db1 & Hp & H).
  assert (db1 = db) as -> by (by eapply reads_planOp).
  assert (forall dk, touched db op dk -> exists w key, p = Planned w key /\ key <> "" /\
    dk = op_table op +:+ String (chr 0) key) as Ht.
  { intros dk (w & key & Hw & ? & ?). rewrite Hp in Hw. injection Hw as ->. eauto. }
  destruct p as [w key|r].
  - cbv zeta in H. destruct (negb (String.eqb key "") && _) eqn:Es; [done|].
    apply T_bind_Ok in H as ([[pl rs] cn] & db1 & H & Hr).
    apply mret_Ok in Hr as [[= -> -> ->] ->].
    apply IH in H as (-> & Hd & Hl & Hc & Hs & Hu). split; [done|].
    assert (forall dk, touched db op dk -> key <> "" /\ dk = op_table op +:+ String (chr 0) key) as Ht'.
    { intros dk (w' & key' & [= <- <-] & ? & ?)%Ht. done. }
    assert (forall op' dk, op' ∈ ops -> touched db op' dk -> touched db op dk -> False) as Hdis.
    { intros op' dk Hin Ht1 [Hk ->]%Ht'. apply (Hs op' _ Hin Ht1).
      destruct (String.eqb_spec key ""); [done|]. by left. }
    split; [constructor; [by exists (Planned w key)|done]|]. split; [simpl; lia|]. split.
    { rewrite Hc, Exists_cons. split; [by right|]. intros [(r & Hr)|]; [|done]. by rewrite Hp in Hr. }
    split.
    + intros op' dk [->|Hin]%elem_of_cons Htd.
      * apply Ht' in Htd as [Hk ->]. destruct (String.eqb_spec key ""); [done|]. simpl in Es.
        by apply bool_decide_eq_false in Es.
      * intros Hseen. apply (Hs op' dk Hin Htd). destruct (String.eqb key ""); [done|by right].
    + intros [|i] [|j] opi opj dk Hi Hj Hti Htj; simpl in *; simplify_eq; [done|..].
      * exfalso. by eapply (Hdis opj); [eapply list_elem_of_lookup_2|..].
      * exfalso. by eapply (Hdis opi); [eapply list_elem_of_lookup_2|..].
      * f_equal. by eapply Hu.
  - apply T_bind_Ok in H as ([[pl rs] cn] & db1 & H & Hr).
    apply mret_Ok in Hr as [[= -> -> ->] ->].
    apply IH in H as (-> & Hd & Hl & Hc & Hs & Hu). split; [done|].
    assert (forall dk, ~ touched db op dk) as Ht' by (by intros dk (? & ? & [=] & _)%Ht).
    split; [constructor; [by exists (Canceled r)|done]|]. split; [simpl; lia|]. split.
    { rewrite Exists_cons. split; [intros _; left; by exists r|done]. }
    split.
    + intros op' dk [->|Hin]%elem_of_cons Htd; [by apply Ht' in Htd|by eapply Hs].
    + intros [|i] [|j] opi opj dk Hi Hj Hti Htj; simpl in *; simplify_eq; [done|by apply Ht' in Hti|by apply Ht' in Htj|].
      f_equal. by eapply Hu.
Qed.

(** ** Tokens *)

(** The databases differ at most in the recorded outcomes. *)
Definition same_data (db db' : DB) : Prop :=
  db_tables db' = db_tables db /\ db_data db' = db_data db /\ db_index db' = db_index db /\
  db_stream db' = db_stream db.

Lemma txReplay_Ok token h db b db' :
  txReplay now token h db = Ret (Ok (b, db')) ->
  same_data db db' /\
  (b = true -> exists rec, db_tx db ≫= bget token = Some rec /\ unix now < tx_expiry rec /\ tx_hash rec = h).
Proof.
  unfold txReplay. destruct (String.eqb token ""); [by intros [-> ->]%mret_Ok|].
  intros H. apply T_bind_Ok in H as (db0 & db1 & [-> ->]%read_Ok & H). cbv zeta in H.
  apply T_bind_Ok in H as ([] & db1 & ->%modify_Ok & H). rewrite bget_or_empty in H.
  destruct (db_tx db ≫= bget token) as [rec|]; [|by apply mret_Ok in H as [-> ->]].
  destruct (Z.leb_spec (tx_expiry rec) (unix now)); [by apply mret_Ok in H as [-> ->]|].
  destruct (String.eqb_spec (tx_hash rec) h); [|done]. simpl in H.
  destruct (tx_ok rec); [|done]. apply mret_Ok in H as [-> ->]. split; [done|]. eauto.
Qed.

Lemma txRecord_Ok token h ok db u db' :
  txRecord_write now token h ok db = Ret (Ok (u, db')) ->
  same_data db db' /\
  (token <> "" -> db_tx db' ≫= bget token = Some (mkTxRecord h (unix now + txTokenTTL) ok)).
Proof.
  unfold txRecord_write. destruct (String.eqb_spec token "") as [->|Hne]; [by intros [-> ->]%mret_Ok|].
  intros H. apply T_bind_Ok in H as (db0 & db1 & [-> ->]%read_Ok & H).
  apply T_bind_Ok in H as (b & db1 & [Hb ->]%lift_Ok & ->%modify_Ok). split; [done|]. intros _. simpl.
  rewrite (bget_bput _ _ _ _ _ _ Hb). by rewrite decide_True.
Qed.

(** The parts of a transaction that commits. *)
Lemma transactWrite_Ok ops token h db r db' :
  transactWrite grow now ops token h db = Ret (Ok (r, db')) ->
  (exists rec, r = Committed /\ same_data db db' /\ db_tx db ≫= bget token = Some rec /\
     unix now < tx_expiry rec /\ tx_hash rec = h) \/
  exists db0 plan reasons canceled, same_data db db0 /\
    txPlan grow now [] ops db0 = Ret (Ok (plan, reasons, canceled, db0)) /\
    ((canceled = true /\ r = TransactionCanceled reasons /\ db' = db) \/
     (canceled = false /\ r = Committed /\ exists db1,
        forEach (apply_planned now db) plan db0 = Ret (Ok (tt, db1)) /\ same_data db1 db' /\
        (token <> "" -> db_tx db' ≫= bget token = Some (mkTxRecord h (unix now + txTokenTTL) true)))).
Proof.
  unfold transactWrite. intros H. apply outcome_bind_Ok in H as ([replayed db0] & Hr & H).
  apply txReplay_Ok in Hr as [Hs Hrep]. destruct replayed.
  { injection H as <- <-. left. destruct (Hrep eq_refl) as (rec & ? & ? & ?). eauto 6. }
  right. apply outcome_bind_Ok in H as ([[[plan reasons] canceled] db1] & Hp & H).
  pose proof (txPlan_Ok _ _ _ _ _ _ _ Hp) as (-> & _).
  exists db0, plan, reasons, canceled. split; [done|]. split; [done|]. destruct canceled.
  { injection H as <- <-. by left. }
  right. split; [done|]. apply outcome_bind_Ok in H as ([[] db2] & Ha & H).
  apply outcome_bind_Ok in H as ([[] db3] & Hw & H). injection H as <- <-.
  apply txRecord_Ok in Hw as [? ?]. eauto.
Qed.

(** No two operations touch one item. *)
Definition distinct_items (db : DB) (ops : list TxWriteOp) : Prop :=
  forall i j opi opj dk, ops !! i = Some opi -> ops !! j = Some opj ->
    touched db opi dk -> touched db opj dk -> i = j.

(** C2: A write transaction is all or nothing, and decided before it writes.  Unless it
    commits, the database is exactly as before, and a cancellation has a reason for each
    operation and some operation that cancels.  When it commits, either its token had a
    live recorded outcome with the same request and no data changes; or every operation
    was decided against the one state before the transaction, none cancels, no two touch
    one item, and the data is that state with exactly the decided writes applied in
    order. *)
Theorem TransactWrite_atomic ops token h db :
  match TransactWrite grow now ops token h db with
  | (db', Ret (Ok Committed)) =>
      (same_data db db' /\ exists rec, db_tx db ≫= bget token = Some rec /\
         unix now < tx_expiry rec /\ tx_hash rec = h) \/
      exists db0 plan db1, same_data db db0 /\ Forall2 (decided db0) ops plan /\
        ~ Exists (cancels db0) ops /\ distinct_items db0 ops /\
        forEach (apply_planned now db) plan db0 = Ret (Ok (tt, db1)) /\ same_data db1 db'
  | (db', Ret (Ok (TransactionCanceled reasons))) =>
      db' = db /\ length reasons = length ops /\
      exists db0, same_data db db0 /\ Exists (cancels db0) ops
  | (db', _) => db' = db
  end.
Proof.
  unfold TransactWrite. destruct (_ || _); [done|].
  destruct (Table.Update _ db) as [db' r] eqn:E.
  destruct (Update_inv _ _ _ _ E) as [(a & -> & H)|[-> Hr]];
    [|destruct r as [[a|]| |]; try done; by destruct (Hr a)].
  apply transactWrite_Ok in H as [(rec & -> & ? & ? & ? & ?)|(db0 & plan & reasons & canceled & Hs & Hp & H)].
  { left. eauto. }
  destruct (txPlan_Ok _ _ _ _ _ _ _ Hp) as (_ & Hd & Hl & Hc & _ & Hu).
  destruct H as [(-> & -> & ->)|(-> & -> & db1 & Ha & Hs1 & _)].
  - split; [done|]. split; [done|]. exists db0. split; [done|]. by apply Hc.
  - right. exists db0, plan, db1. repeat (split; [done|]). split; [intros Hx; by apply Hc in Hx|done].
Qed.

(** C25: A retried transaction does not apply twice.  After a transaction under a fresh
    token commits, repeating the request under that token within ten minutes, by any
    clock, answers the same commit and leaves the database untouched; another request
    under that token is refused, and leaves it untouched too. *)
Theorem TransactWrite_idempotent now' ops ops' token h h' db db1 :
  token <> "" -> db_tx db ≫= bget token = None ->
  TransactWrite grow now ops token h db = (db1, Ret (Ok Committed)) ->
  unix now' < unix now + txTokenTTL -> (0 < length ops' <= 100)%nat ->
  TransactWrite grow now' ops' token h' db1 =
    (db1, Ret (if String.eqb h h' then Ok Committed
               else Err (Errf 400 "IdempotentParameterMismatchException"
                      "ClientRequestToken was reused with different parameters"))).
Proof.
  intros Ht Hf H Hn Hlen. unfold TransactWrite in H. destruct (_ || _) in H; [done|].
  apply Update_inv in H as [(a & [= <-] & H)|[_ Hr]]; [|by destruct (Hr Committed)].
  apply transactWrite_Ok in H as [(rec & _ & _ & Hrec & _)|(db0 & plan & reasons & canceled & Hs & Hp & H)];
    [congruence|].
  destruct H as [(_ & [=] & _)|(_ & _ & db2 & _ & _ & Hrec)]. specialize (Hrec Ht).
  unfold TransactWrite. destruct (Nat.eqb_spec (length ops') 0); [lia|].
  rewrite (proj2 (Z.ltb_ge _ _)) by (unfold zlen; lia). simpl.
  destruct (db_tx db1) as [b|] eqn:Eb; [|done].
  assert (set_tx b db1 = db1) as Eset by (unfold set_tx; destruct db1; simpl in *; congruence).
  assert (txReplay now' token h' db1 = Ret (if String.eqb h h' then Ok (true, db1)
    else Err (Errf 400 "IdempotentParameterMismatchException"
                "ClientRequestToken was reused with different parameters"))) as Er.
  { unfold txReplay. destruct (String.eqb_spec token ""); [done|]. unfold mbind, T_bind, read, modify.
    simpl. rewrite Eb. simpl in Hrec |- *. rewrite Hrec, Eset. simpl.
    rewrite (proj2 (Z.leb_gt _ _)) by lia. by destruct (String.eqb h h'). }
  unfold Table.Update, transactWrite. rewrite Er. by destruct (String.eqb h h').
Qed.
End txn.

(** Two items in one transaction under a token. *)
Definition put_op (raw : json) : TxWriteOp :=
  mkOp "T" (Some raw) None None None None None false.
Definition sample_ops : list TxWriteOp :=
  [put_op (str_item [("id", "a")] "100"); put_op (str_item [("id", "b")] "100")].
Definition committed_db : DB := (TransactWrite (fun n => n) (second 5) sample_ops "token" "hash" sample_db).1.

Lemma TransactWrite_idempotent_witness :
  TransactWrite (fun n => n) (second 604) sample_ops "token" "hash" committed_db =
    (committed_db, Ret (Ok Committed)).
Proof.
  apply (TransactWrite_idempotent (fun n => n) (second 5) (second 604) sample_ops sample_ops "token" "hash"
    "hash" sample_db).
  - done.
  - vm_compute. reflexivity.
  - assert ((TransactWrite (fun n => n) (second 5) sample_ops "token" "hash" sample_db).2 = Ret (Ok Committed))
      as E by (vm_compute; reflexivity).
    unfold committed_db. rewrite <- E. by destruct (TransactWrite _ _ _ _ _ _).
  - vm_compute. reflexivity.
  - simpl. lia.
Defined.

(** The two puts commit, so each was decided on the state before and both were written. *)
Lemma TransactWrite_atomic_witness :
  exists db0 plan db1, same_data sample_db db0 /\
    Forall2 (decided (fun n => n) (second 5) db0) sample_ops plan /\
    forEach (apply_planned (second 5) sample_db) plan db0 = Ret (Ok (tt, db1)) /\ same_data db1 committed_db.
Proof.
  pose proof (TransactWrite_atomic (fun n => n) (second 5) sample_ops "token" "hash" sample_db) as H.
  assert ((TransactWrite (fun n => n) (second 5) sample_ops "token" "hash" sample_db).2 = Ret (Ok Committed))
    as E by (vm_compute; reflexivity).
  unfold committed_db. destruct (TransactWrite _ _ _ _ _ _) as [db' r]. simpl in E. subst r. simpl.
  destruct H as [(_ & rec & Hr & _)|(db0 & plan & db1 & ? & ? & _ & _ & ? & ?)].
  - assert (db_tx sample_db ≫= bget "token" = None) as En by (vm_compute; reflexivity).
    rewrite En in Hr. discriminate.
  - exists db0, plan, db1. repeat (split; [assumption|]). assumption.
Defined.
