(* ===== verification/Paging.v ===== *)
(** * Paging: cursor walks and pages

    What the cursor walks of queries and scans visit, what a page evaluates of it, and
    what a client that follows the pages collects. *)

From stdpp Require Import sorting.
From S2P Require Import Prelude Bytes Wire Decimal Item KeyEnc Lexer Path Cond KeyCond Bolt Cursor Table Query.

(** ** What a walk visits *)

(** Forwards from the start of a partition, the walk visits the partition. *)
Lemma walk_forward {V} (step : string * V -> page -> outcome (page * bool)) p l pg :
  StronglySorted key_lt l -> (forall e, e ∈ l -> ~ bytes_lt e.1 p) ->
  (forall e pg, has_prefix e.1 p = false -> step e pg = mret (pg, false)) ->
  walk step l pg = walk step (List.filter (fun e => has_prefix e.1 p) l) pg.
Proof.
  intros Hs Hb Hstep. revert pg. induction Hs as [|e l Hl IH He]; intros pg; [done|].
  rewrite Forall_forall in He. rewrite filter_cons_bool. destruct (has_prefix e.1 p) eqn:E.
  - cbn [walk]. destruct (step e pg) as [[[pg' []]|]| |]; simpl; try done.
    apply IH. intros x Hx. apply Hb. by right.
  - cbn [walk]. rewrite (Hstep e pg E). simpl. rewrite filter_none; [done|]. intros x Hx.
    destruct (has_prefix x.1 p) eqn:Ex; [|done]. apply has_prefix_spec in Ex as (u & Eu).
    exfalso. specialize (He x Hx). unfold key_lt in He. rewrite Eu in He.
    apply (noprefix_lt _ _ _ E) in He. apply (Hb e); [by left|done].
Qed.

(** Backwards, the walk skips what is above the partition. *)
Lemma walk_backward {V} (step : string * V -> page -> outcome (page * bool)) p l pg :
  StronglySorted (flip key_lt) l ->
  (forall e pg, has_prefix e.1 p = false -> step e pg = mret (pg, negb (bytes_ltb e.1 p))) ->
  walk step l pg = walk step (List.filter (fun e => has_prefix e.1 p) l) pg.
Proof.
  intros Hs Hstep. revert pg. induction Hs as [|e l Hl IH He]; intros pg; [done|].
  rewrite Forall_forall in He. rewrite filter_cons_bool. destruct (has_prefix e.1 p) eqn:E.
  - cbn [walk]. destruct (step e pg) as [[[pg' []]|]| |]; simpl; auto.
  - cbn [walk]. rewrite (Hstep e pg E). simpl. destruct (bytes_ltb e.1 p) eqn:Eb; simpl; [|apply IH].
    rewrite filter_none; [done|]. intros x Hx.
    destruct (has_prefix x.1 p) eqn:Ex; [|done]. exfalso. apply (prefix_not_below _ _ Ex).
    etrans; [by apply He|by apply bytes_ltb_spec].
Qed.

(** ** Partial maps over sorted lists *)

Lemma sorted_NoDup {A} (l' : list (string * A)) : StronglySorted (fun a b => a.1 <> b.1) l' -> NoDup l'.*1.
Proof.
  induction 1 as [|a l' Hl IH Ha]; [constructor|]. simpl. constructor; [|done].
  intros (b & E & Hb)%list_elem_of_fmap. rewrite Forall_forall in Ha. by apply (Ha b Hb).
Qed.

Lemma sorted_snd {A} (R : A -> A -> Prop) (l' : list (string * A)) :
  StronglySorted (fun a b => R a.2 b.2) l' -> StronglySorted R l'.*2.
Proof.
  induction 1 as [|a l' Hl IH Ha]; [constructor|]. simpl. constructor; [done|].
  rewrite Forall_forall in Ha. apply Forall_forall. intros b (c & -> & Hc)%list_elem_of_fmap. by apply Ha.
Qed.

Lemma omap_split {A C} (f : A -> option C) l pre c post :
  omap f l = pre ++ c :: post ->
  exists la x lb, l = la ++ x :: lb /\ f x = Some c /\ omap f lb = post.
Proof.
  revert pre; induction l as [|x l IH]; intros pre H; [by destruct pre|]. simpl in H.
  destruct (f x) as [a|] eqn:E.
  - destruct pre as [|a' pre]; injection H as -> H.
    + exists [], x, l. done.
    + destruct (IH pre H) as (la & y & lb & -> & ? & ?). by exists (x :: la), y, lb.
  - destruct (IH pre H) as (la & y & lb & -> & ? & ?). by exists (x :: la), y, lb.
Qed.

(** In a sorted list, what comes after a member is what is greater. *)
Lemma sorted_after {A} (R : A -> A -> Prop) (p : A -> bool) la x lb :
  StronglySorted R (la ++ x :: lb) -> (forall y, R x y -> p y = true) ->
  (forall y, R y x -> p y = false) -> p x = false -> List.filter p (la ++ x :: lb) = lb.
Proof.
  intros Hs Ha Hb Hx. rewrite List.filter_app, filter_cons_bool, Hx.
  assert (StronglySorted R (x :: lb) /\ forall y, y ∈ la -> R y x) as [Hl Hla].
  { induction la as [|z la IH]; [by split; [|intros y Hy%not_elem_of_nil]|]. simpl in Hs.
    inversion Hs as [|?? Hs' Hz]; subst. destruct (IH Hs') as [? ?]. split; [done|].
    rewrite Forall_forall in Hz. intros y [->|Hy]%elem_of_cons; [|auto].
    apply Hz. apply elem_of_app. right. by left. }
  rewrite filter_none by (intros y Hy; apply Hb; auto). apply filter_all.
  inversion Hl as [|?? _ Hf]; subst. rewrite Forall_forall in Hf. auto.
Qed.

Section fill.
Context (t : Table) (idx : option Index) (filt : option condNode) (limit : Z).

(** A page takes evaluated items until it is full. *)
Fixpoint fill (cands : list (Item * json)) (pg : page) : result page :=
  match cands with
  | [] => Ok pg
  | (it, raw) :: cands' =>
      r ← take_item t idx filt limit it raw pg;
      if r.2 : bool then fill cands' r.1 else Ok r.1
  end.

Lemma walk_fill {V} (step : string * V -> page -> outcome (page * bool)) (evals : string * V -> option (Item * json)) l pg :
  (forall e pg, e ∈ l -> step e pg =
     match evals e with None => mret (pg, true) | Some (it, raw) => Ret (take_item t idx filt limit it raw pg) end) ->
  walk step l pg = Ret (fill (omap evals l) pg).
Proof.
  revert pg; induction l as [|e l IH]; intros pg H; [done|]. cbn [walk omap list_omap].
  rewrite H by left. assert (forall pg, walk step l pg = Ret (fill (omap evals l) pg)) as IH'.
  { intros pg'. apply IH. intros e' pg'' He'. apply H. by right. }
  destruct (evals e) as [[it raw]|]; simpl; [|apply IH'].
  destruct (take_item _ _ _ _ it raw pg) as [[pg' []]|]; simpl; auto.
Qed.

(** Whether the filter keeps an item, where it answers. *)
Definition kept (it : Item) : bool := match keeps filt it with Ok b => b | Err _ => false end.

Definition answered (c : Item * json) : Prop := exists b, keeps filt c.1 = Ok b.

(** What reaches the client of some evaluated items. *)
Definition shown (cands : list (Item * json)) : list Item :=
  projectIndex idx t <$> List.filter kept cands.*1.

Lemma shown_app a b : shown (a ++ b) = shown a ++ shown b.
Proof. unfold shown. by rewrite fmap_app, List.filter_app, fmap_app. Qed.

(** A page evaluates a prefix of the candidates: all of them, or up to the one its
    position names. *)
Lemma fill_Ok cands pg :
  Forall answered cands -> o_last (p_out pg) = None ->
  exists pre post pg', cands = pre ++ post /\ fill cands pg = Ok pg' /\
    o_items (p_out pg') = o_items (p_out pg) ++ shown pre /\
    o_scanned (p_out pg') = o_scanned (p_out pg) + zlen pre /\
    (0 < limit -> o_scanned (p_out pg) < limit -> o_scanned (p_out pg') <= limit) /\
    match o_last (p_out pg') with
    | None => post = []
    | Some k => exists c, last pre = Some c /\ k = lastKey t idx c.1
    end.
Proof.
  intros Ha. revert pg. induction Ha as [|[it raw] cands (b & Hb) Ha IH]; intros pg Hpg.
  { exists [], [], pg. unfold zlen. simpl. rewrite Hpg, app_nil_r. repeat split; try done; lia. }
  cbn [fill]. unfold take_item at 1. simpl in Hb.
  assert (shown [(it, raw)] = if b then [projectIndex idx t it] else []) as Es.
  { unfold shown. simpl. unfold kept. rewrite Hb. by destruct b. }
  rewrite Hb. cbn [mbind result_bind]. destruct (_ || _) eqn:Efull; simpl.
  - exists [(it, raw)], cands. eexists. split; [done|]. split; [done|]. simpl. rewrite Es.
    split; [by destruct b; rewrite ?app_nil_r|]. split; [by rewrite zlen_cons|]. split; [lia|]. eauto.
  - match goal with |- context [fill cands ?p] => destruct (IH p) as (pre & post & pg' & -> & -> & Hi & Hs & Hl & Hk) end; [done|].
    apply orb_false_iff in Efull as [El _]. simpl in *.
    exists ((it, raw) :: pre), post, pg'. split; [done|]. split; [done|].
    change ((it, raw) :: pre) with ([(it, raw)] ++ pre). rewrite shown_app, Es, Hi.
    split; [destruct b; by rewrite <- ?app_assoc|]. split; [rewrite zlen_app; change (zlen [(it, raw)]) with 1; lia|].
    split. { intros H0 H1. apply Hl; [done|]. apply andb_false_iff in El as [?|?]; lia. }
    destruct (o_last (p_out pg')); [|done]. destruct Hk as (c & Hc & ->). exists c. split; [|done].
    change ([(it, raw)] ++ pre) with ((it, raw) :: pre). destruct pre; [done|]. done.
Qed.

(** ** Following the pages *)

(** A client asks for pages, from the position each page names, until one has none. *)
Fixpoint collect (fuel : nat) (ask : option json -> outcome QueryOutput) (start : option json) :
  outcome (list Item) :=
  match fuel with
  | O => OutOfFuel
  | S fuel =>
      out ← ask start;
      match o_last out with
      | None => mret (o_items out)
      | Some k =>
          rest ← collect fuel ask (Some (ItemJSON k));
          mret (o_items out ++ rest)
      end
  end.

(** The page that evaluates some candidates from its start. *)
Definition page_on (cands : list (Item * json)) : outcome QueryOutput :=
  pg ← Ret (fill cands (mkPage no_output 0)); mret (p_out pg).

Lemma collect_all fuel ask start cands :
  Forall answered cands -> ask start = page_on cands ->
  (forall pre c post, cands = pre ++ c :: post -> ask (Some (ItemJSON (lastKey t idx c.1))) = page_on post) ->
  (length cands < fuel)%nat ->
  collect fuel ask start = Ret (Ok (shown cands)).
Proof.
  revert start cands; induction fuel as [|fuel IH]; intros start cands Ha Hs Hn Hf; [lia|].
  cbn [collect]. rewrite Hs. unfold page_on.
  destruct (fill_Ok cands (mkPage no_output 0) Ha eq_refl) as (pre & post & pg & -> & -> & Hi & _ & _ & Hk).
  simpl. rewrite Hi. simpl. destruct (o_last (p_out pg)).
  - destruct Hk as (c & Hc & ->). apply last_Some in Hc as (pre' & ->).
    rewrite (IH _ post).
    + simpl. by rewrite (shown_app (pre' ++ [c]) post).
    + by apply Forall_app in Ha as [_ ?].
    + apply (Hn pre' c post). by rewrite <- app_assoc.
    + intros pre c' post' ->. eapply (Hn ((pre' ++ [c]) ++ pre) c' post'). by rewrite !app_assoc.
    + rewrite !length_app in Hf. simpl in Hf. lia.
  - subst post. by rewrite app_nil_r.
Qed.
End fill.
