(* ===== verification/QuerySpec.v ===== *)
(** * QuerySpec: what queries promise

    Whatever the page size, the pages of a query together show exactly the items of the
    table that match its key condition, in key order. *)

From stdpp Require Import sorting.
From S2P Require Import Prelude Bytes Wire Decimal Item KeyEnc Lexer Path Cond KeyCond Heap Update Bolt Cursor Table Items Query Txn StoreInv StoreSpec Paging.

(** ** The key schema a request walks *)

Definition schema_hash (t : Table) (idx : option Index) : KeyPart :=
  match idx with Some ix => ix_hash ix | None => t_hash t end.
Definition schema_range (t : Table) (idx : option Index) : option KeyPart :=
  match idx with Some ix => ix_range ix | None => t_range t end.

(** The partition and sort values of an item, when it has both. *)
Definition parts (t : Table) (idx : option Index) (it : Item) : option (Value * option Value) :=
  h ← index_attr (schema_hash t idx) it;
  match schema_range t idx with
  | None => Some (h, None)
  | Some r => s ← index_attr r it; Some (h, Some s)
  end.

(** The key an item has in the bucket that is walked. *)
Definition cursor_key (idx : option Index) (it : Item) (pk : string) : result (option string) :=
  match idx with None => Ok (Some pk) | Some ix => indexKeyFor ix it pk end.

Definition suffix (idx : option Index) (pk : string) : string :=
  match idx with None => "" | Some _ => be32 (slen pk) +:+ pk end.

Lemma key_attr_index_attr kp it v : key_attr kp it = Ok v <-> index_attr kp it = Some v.
Proof.
  unfold key_attr, index_attr. destruct (it !! kp_name kp); [|done].
  destruct (String.eqb _ _); [|done]. split; congruence.
Qed.

Lemma as_validation_Ok {A} (r : result A) a : as_validation r = Ok a -> r = Ok a.
Proof. by destruct r. Qed.

Lemma primaryKey_parts t it pk :
  primaryKey t it = Ok pk <-> exists h s, parts t None it = Some (h, s) /\ Composite h s = Ok pk.
Proof.
  unfold primaryKey, parts. simpl. split.
  - intros (h & Hh%key_attr_index_attr & H)%result_bind_Ok. rewrite Hh. simpl. destruct (t_range t) as [r|].
    + apply result_bind_Ok in H as (s & Hs%key_attr_index_attr & H%as_validation_Ok).
      exists h, (Some s). by rewrite Hs.
    + apply as_validation_Ok in H. by exists h, None.
  - intros (h & s & H & Hc). destruct (index_attr (t_hash t) it) as [h'|] eqn:Eh; [|done].
    apply key_attr_index_attr in Eh as ->. simpl in *. destruct (t_range t) as [r|].
    + destruct (index_attr r it) as [s'|] eqn:Es; [|done]. apply key_attr_index_attr in Es as ->.
      injection H as -> <-. simpl. by rewrite Hc.
    + injection H as -> <-. by rewrite Hc.
Qed.

(** Cursor keys are composites of the parts, made unique by the primary key. *)
Lemma cursor_key_parts t idx it pk xk :
  primaryKey t it = Ok pk ->
  cursor_key idx it pk = Ok (Some xk) <->
  exists h s kb, parts t idx it = Some (h, s) /\ Composite h s = Ok kb /\ xk = kb +:+ suffix idx pk.
Proof.
  intros Hp. destruct idx as [ix|]; simpl.
  - unfold indexKeyFor, parts. simpl. destruct (index_attr (ix_hash ix) it) as [h|]; simpl;
      [|split; [done|by intros (? & ? & ? & ? & _)]].
    destruct (ix_range ix) as [r|].
    + destruct (index_attr r it) as [s|]; simpl; [|split; [done|by intros (? & ? & ? & ? & _)]].
      rewrite result_bind_Ok. split.
      * intros (kb & Hk & [= <-]). eauto 6.
      * intros (? & ? & kb & [= <- <-] & -> & ->). eauto.
    + rewrite result_bind_Ok. split.
      * intros (kb & Hk & [= <-]). eauto 6.
      * intros (? & ? & kb & [= <- <-] & -> & ->). eauto.
  - apply primaryKey_parts in Hp as (h & s & Hps & Hc). rewrite Hps. split.
    + intros [= <-]. exists h, s, pk. by rewrite sapp_nil_r.
    + intros (? & ? & kb & [= <- <-] & Hk & ->). rewrite Hk in Hc. injection Hc as ->. by rewrite sapp_nil_r.
Qed.

Lemma parts_wf t idx it h s :
  item_wf it -> parts t idx it = Some (h, s) ->
  value_wf h /\ match s with Some v => value_wf v | None => True end.
Proof.
  unfold parts. intros W. destruct (index_attr (schema_hash t idx) it) as [h'|] eqn:Eh; [|done]. simpl.
  assert (value_wf h') by (by eapply index_attr_wf).
  destruct (schema_range t idx) as [r|]; [|by intros [= <- <-]].
  destruct (index_attr r it) as [s'|] eqn:Es; [|done]. intros [= <- <-]. split; [done|].
  by eapply index_attr_wf.
Qed.

(** ** Resuming *)

Definition key_parts (t : Table) (idx : option Index) : list KeyPart :=
  t_hash t :: option_list (t_range t) ++
  match idx with Some ix => ix_hash ix :: option_list (ix_range ix) | None => [] end.

Lemma insert_attr_sub (m it : Item) n : m ⊆ it -> is_Some (it !! n) -> <[n := attr_or_zero n it]> m ⊆ it.
Proof.
  intros Hm [v Hv]. apply insert_subseteq_l; [|done]. unfold attr_or_zero. by rewrite Hv.
Qed.

Lemma is_Some_insert {A} (m : gmap string A) k n v : is_Some (m !! n) \/ n = k -> is_Some (<[k := v]> m !! n).
Proof. intros [?| -> ]; [by apply lookup_insert_is_Some'; right|rewrite lookup_insert_eq; eauto]. Qed.

(** The position of an item holds its key attributes. *)
Lemma lastKey_spec t idx it :
  Forall (fun kp => is_Some (it !! kp_name kp)) (key_parts t idx) ->
  lastKey t idx it ⊆ it /\ Forall (fun kp => is_Some (lastKey t idx it !! kp_name kp)) (key_parts t idx).
Proof.
  intros H. unfold lastKey. unfold key_parts in *. apply Forall_cons in H as [Hh H]. apply Forall_app in H as [Hr H].
  assert ({[kp_name (t_hash t) := attr_or_zero (kp_name (t_hash t)) it]} ⊆ it) as H0.
  { apply insert_attr_sub; [apply map_empty_subseteq|done]. }
  split.
  - destruct idx as [ix|]; [|destruct (t_range t) as [r|]; [inversion Hr; by apply insert_attr_sub|done]].
    apply Forall_cons in H as [Hxh H].
    destruct (ix_range ix) as [xr|]; [inversion H; subst; apply insert_attr_sub; [|done]|];
      (apply insert_attr_sub; [|done]); destruct (t_range t) as [r|]; try done; inversion Hr; by apply insert_attr_sub.
  - rewrite Forall_cons, Forall_app.
    destruct idx as [ix|]; [destruct (ix_range ix) as [xr|]|]; destruct (t_range t) as [r|]; simpl;
      rewrite ?Forall_cons, ?Forall_nil; repeat split; repeat apply is_Some_insert;
      rewrite ?lookup_insert_is_Some', ?lookup_singleton_is_Some; intuition.
Qed.

Lemma lastKey_lookup t idx it kp :
  Forall (fun kp => is_Some (it !! kp_name kp)) (key_parts t idx) -> kp ∈ key_parts t idx ->
  lastKey t idx it !! kp_name kp = it !! kp_name kp.
Proof.
  intros H Hkp. destruct (lastKey_spec t idx it H) as [Hs Hd]. rewrite Forall_forall in Hd.
  destruct (Hd kp Hkp) as [v Hv]. rewrite Hv. symmetry. by eapply lookup_weaken.
Qed.

Lemma parts_present t idx it ps :
  parts t idx it = Some ps ->
  Forall (fun kp => is_Some (it !! kp_name kp)) (schema_hash t idx :: option_list (schema_range t idx)).
Proof.
  assert (forall kp v, index_attr kp it = Some v -> is_Some (it !! kp_name kp)) as Ha.
  { intros kp v. unfold index_attr. destruct (it !! kp_name kp); [eauto|done]. }
  unfold parts. destruct (index_attr (schema_hash t idx) it) eqn:Eh; [|done]. simpl.
  destruct (schema_range t idx) as [r|]; simpl.
  - destruct (index_attr r it) eqn:Er; [|done]. intros _. repeat constructor; eauto.
  - intros _. repeat constructor; eauto.
Qed.

(** The position of an item, sent back, is the key its entry has. *)
Lemma resume t idx it pk xk :
  item_wf it -> primaryKey t it = Ok pk -> cursor_key idx it pk = Ok (Some xk) ->
  startPosition t idx (ItemJSON (lastKey t idx it)) = Ok xk.
Proof.
  intros W Hp Hc.
  assert (Forall (fun kp => is_Some (it !! kp_name kp)) (key_parts t idx)) as Hk.
  { apply primaryKey_parts in Hp as Hp'. destruct Hp' as (? & ? & Hp' & _). apply parts_present in Hp'.
    apply (cursor_key_parts t) in Hc as (? & ? & ? & Hc & _); [|done]. apply parts_present in Hc.
    unfold key_parts. simpl in *. apply Forall_cons in Hp' as [? ?]. constructor; [done|]. apply Forall_app.
    split; [done|]. by destruct idx. }
  destruct (lastKey_spec t idx it Hk) as [Hs _].
  assert (forall kp, kp ∈ key_parts t idx -> index_attr kp (lastKey t idx it) = index_attr kp it /\
    key_attr kp (lastKey t idx it) = key_attr kp it) as Ha.
  { intros kp Hkp. unfold index_attr, key_attr. by rewrite (lastKey_lookup t idx it kp). }
  unfold startPosition. rewrite ItemFromJSON_ItemJSON; [|intros k v Hv; eapply W, lookup_weaken; done]. simpl.
  assert (primaryKey t (lastKey t idx it) = Ok pk) as ->.
  { rewrite <- Hp. unfold primaryKey. rewrite (proj2 (Ha (t_hash t) ltac:(by left))).
    destruct (t_range t) as [r|] eqn:Er; [|done].
    rewrite (proj2 (Ha r ltac:(unfold key_parts; rewrite Er; right; by left))). done. }
  simpl. destruct idx as [ix|]; [|by injection Hc as ->].
  assert (indexKeyFor ix (lastKey t (Some ix) it) pk = indexKeyFor ix it pk) as ->.
  { unfold indexKeyFor.
    rewrite (proj1 (Ha (ix_hash ix) ltac:(unfold key_parts; right; apply elem_of_app; right; by left))).
    destruct (ix_range ix) as [r|] eqn:Er; [|done].
    rewrite (proj1 (Ha r ltac:(unfold key_parts; rewrite Er; right; apply elem_of_app; right; right; by left))). done. }
  simpl in Hc. by rewrite Hc.
Qed.

(** ** Partitions *)

Lemma Encode_prefix a b ea eb x :
  key_value a -> key_value b -> Encode a = Ok ea -> Encode b = Ok eb ->
  (has_prefix (eb +:+ x) ea = true <-> CompareValues a b = 0) /\ (CompareValues a b = 0 -> ea = eb).
Proof.
  intros Ka Kb Ha Hb. destruct (Encode_ordered a b ea eb Ka Kb Ha Hb) as [[E ->]|D].
  - apply Z.compare_eq in E. rewrite has_prefix_app. done.
  - destruct D as (q & c & d & s & t & -> & -> & Hcd & Ho). split; [|intros E; by rewrite E in Ho].
    split; [|intros E; by rewrite E in Ho].
    rewrite has_prefix_spec. intros (u & Hu). rewrite !sapp_assoc in Hu. apply sapp_inj_l in Hu.
    injection Hu as -> _. rewrite Z.compare_refl in Hcd. congruence.
Qed.

Lemma Encode_head v e : Encode v = Ok e -> exists c e', e = String c e' /\ byte_of c < 255.
Proof.
  destruct v; try done; simpl; intros [= <-]; unfold encodeNumber; repeat case_goal;
    do 2 eexists; (split; [reflexivity|]); vm_compute; done.
Qed.

Lemma below_above c s : byte_of c < 255 -> bytes_lt (String c s) above.
Proof.
  intros H. unfold bytes_lt, above. simpl. change (byte_of (chr 255)) with 255.
  by rewrite (proj2 (Z.compare_lt_iff _ _) H).
Qed.

(** What follows the partition in a cursor key is below nine bytes of 255. *)
Lemma tail_below h s kb idx pk p :
  Composite h s = Ok kb -> Encode h = Ok p -> slen pk < 2 ^ 31 ->
  exists tl, kb +:+ suffix idx pk = p +:+ tl /\ bytes_lt tl above /\
    match s with Some v => exists es, Encode v = Ok es /\ tl = es +:+ suffix idx pk | None => True end.
Proof.
  intros (ep & es & Hp & -> & Hs)%Composite_Ok Hp' Hl. assert (ep = p) as -> by congruence.
  exists (es +:+ suffix idx pk). rewrite sapp_assoc. split; [done|]. destruct s as [v|].
  - split; [|eauto]. destruct (Encode_head v es Hs) as (c & e' & -> & Hc). by apply below_above.
  - subst es. split; [|done]. destruct idx; simpl; [|done]. unfold be32. apply below_above.
    pose proof (slen_nonneg pk). rewrite byte_of_chr. zdiv.
Qed.

(** Schemas of key types give every item with the attributes a key. *)
Definition key_type (kp : KeyPart) : Prop := kp_type kp ∈ ["S"; "N"; "B"].

Definition schema_ok (t : Table) (idx : option Index) : Prop :=
  key_type (schema_hash t idx) /\ from_option key_type True (schema_range t idx).

Lemma index_attr_Encode kp it v :
  item_wf it -> key_type kp -> index_attr kp it = Some v -> key_value v /\ exists e, Encode v = Ok e.
Proof.
  intros W Hk Hv. pose proof (index_attr_wf _ _ _ W Hv) as Wv. unfold index_attr in Hv.
  destruct (it !! kp_name kp); [|done]. destruct (String.eqb_spec (v_type v0) (kp_type kp)) as [E|]; [|done].
  injection Hv as ->. unfold key_type in Hk. rewrite <- E in Hk.
  assert (key_value v) as K.
  { destruct v; simpl in Hk; set_unfold in Hk; try (exfalso; intuition discriminate); inversion Wv; done. }
  split; [done|]. by apply Encode_key_value.
Qed.

Lemma parts_keys t idx it h s :
  item_wf it -> schema_ok t idx -> parts t idx it = Some (h, s) ->
  key_value h /\ from_option key_value True s /\ exists kb, Composite h s = Ok kb.
Proof.
  intros W [Sh Sr]. unfold parts. destruct (index_attr (schema_hash t idx) it) as [h'|] eqn:Eh; [|done].
  destruct (index_attr_Encode _ _ _ W Sh Eh) as [Kh (eh & Hh)]. simpl.
  destruct (schema_range t idx) as [r|].
  - destruct (index_attr r it) as [s'|] eqn:Es; [|done]. intros [= <- <-].
    destruct (index_attr_Encode _ _ _ W Sr Es) as [Ks (es & Hs)]. split; [done|]. split; [done|].
    unfold Composite. rewrite Hh. simpl. rewrite Hs. by eexists.
  - intros [= <- <-]. split; [done|]. split; [done|]. unfold Composite. rewrite Hh. by eexists.
Qed.

Lemma cursor_key_inj idx it it' pk pk' xk :
  item_wf it -> item_wf it' ->
  cursor_key idx it pk = Ok (Some xk) -> cursor_key idx it' pk' = Ok (Some xk) -> pk = pk'.
Proof. destruct idx; simpl; [by apply indexKeyFor_inj|congruence]. Qed.

(** ** What a bucket lists *)

#[local] Set Default Proof Using "All".

Section query.
Context `{B : Bolt} {BL : BoltLaws B}.

(** The entries of a table or of an index: one for each item with the attributes,
    under its cursor key, in key order. *)
Record listing (t : Table) (idx : option Index) (db : DB) {V} (load : V -> outcome (option json))
  (l : list (string * V)) : Prop := {
  ls_sorted : StronglySorted key_lt l;
  ls_entry e : e ∈ l -> exists raw it pk, load e.2 = mret (Some raw) /\ ItemFromJSON raw = Ok it /\
    data_get t pk db = Some raw /\ primaryKey t it = Ok pk /\ cursor_key idx it pk = Ok (Some e.1);
  ls_item pk it xk : item_at t pk it db -> cursor_key idx it pk = Ok (Some xk) -> exists v, (xk, v) ∈ l
}.

Lemma listing_table t db b :
  consistent t db -> db_data db !! dataBucket (t_name t) = Some b -> listing t None db itself (bentries b).
Proof.
  intros C Hb.
  assert (forall k, data_get t k db = bget k b) as Hd by (intros k; unfold data_get; by rewrite Hb).
  split.
  - apply sorted_entries, bentries_sorted.
  - intros [k raw] Hin. apply bentries_bget in Hin. rewrite <- Hd in Hin.
    destruct (con_data _ _ C k raw Hin) as (it & Hit & Hp). exists raw, it, k. done.
  - intros pk it xk (raw & Hr & _) [= <-]. exists raw. apply bentries_bget. by rewrite <- Hd.
Qed.

Lemma listing_index t ix db b :
  consistent t db -> ix ∈ t_indexes t -> db_index db !! indexBucket (t_name t) (ix_name ix) = Some b ->
  listing t (Some ix) db (chase t db) (bentries b).
Proof.
  intros C Hix Hb.
  assert (forall k, index_get t ix k db = bget k b) as Hd by (intros k; unfold index_get; by rewrite Hb).
  split.
  - apply sorted_entries, bentries_sorted.
  - intros [xk pk] Hin. apply bentries_bget in Hin. rewrite <- Hd in Hin.
    apply (con_index _ _ C ix xk pk Hix) in Hin as (it & (raw & Hr & Hit) & Hk).
    exists raw, it, pk. split.
    { unfold chase. unfold data_get in Hr. simpl. destruct (db_data db !! dataBucket (t_name t)); [|done].
      simpl in Hr. by rewrite Hr. }
    destruct (con_data _ _ C pk raw Hr) as (it' & Hit' & Hp). repeat split; try done. congruence.
  - intros pk it xk Hit Hk. exists pk. apply bentries_bget. rewrite <- Hd.
    apply (con_index _ _ C ix xk pk Hix). eauto.
Qed.

Lemma find_index_elem name t ix : find_index name t = Ok (Some ix) -> ix ∈ t_indexes t.
Proof.
  unfold find_index, FindIndex. destruct (String.eqb name ""); [done|].
  destruct (List.find _ _) as [ix'|] eqn:E; [|done]. intros [= ->]. apply list_elem_of_In. by eapply find_some.
Qed.

(** ** The walk of a query *)

Context (now : Z).

Section walk.
Context (in_ : QueryInput) (t : Table) (idx : option Index) (db : DB) {V : Type}
  (load : V -> outcome (option json)) (l : list (string * V)) (p : string).
Abbreviation kc := (q_keycond in_).
Abbreviation fwd := (q_forward in_).
Context (L : listing t idx db load l) (Small : forall k raw, data_get t k db = Some raw -> slen k < 2 ^ 31).
Context (KP : key_value (PKValue kc)) (EP : Encode (PKValue kc) = Ok p) (Sch : schema_ok t idx).
Context (SK : SKName kc = "" \/ forall it, exists b, skMatches kc it = Ok b).

(** The condition on the sort key, when there is one. *)
Definition sk_ok (kc : KeyCondition) (it : Item) : bool :=
  if String.eqb (SKName kc) "" then true else match skMatches kc it with Ok b => b | Err _ => false end.

(** What an entry of the partition contributes. *)
Definition evals (e : string * V) : option (Item * json) :=
  match load e.2 with
  | Ret (Ok (Some raw)) =>
      match ItemFromJSON raw with
      | Ok it => if expired now t it then None else if sk_ok kc it then Some (it, raw) else None
      | Err _ => None
      end
  | _ => None
  end.

Definition in_partition (e : string * V) : bool := has_prefix e.1 p.

(** The entries of the partition in the direction of the walk. *)
Definition partition : list (string * V) :=
  List.filter in_partition (if fwd then l else reverse l).

Definition ahead (start : option string) (e : string * V) : bool :=
  match start with
  | None => true
  | Some k => if fwd then bytes_ltb k e.1 else bytes_ltb e.1 k
  end.

Lemma visit_evals e pg :
  e ∈ l -> in_partition e = true ->
  visit now t idx (q_filter in_) (q_limit in_) p kc load e pg =
    match evals e with
    | None => mret (pg, true)
    | Some (it, raw) => Ret (take_item t idx (q_filter in_) (q_limit in_) it raw pg)
    end.
Proof.
  intros He Hp. destruct (ls_entry _ _ _ _ _ L e He) as (raw & it & pk & Hl & Hit & _ & _ & _).
  unfold visit, evals. unfold in_partition in Hp. rewrite Hp, Hl. simpl. rewrite Hit. simpl.
  destruct (expired now t it); [done|]. unfold sk_ok. destruct (String.eqb_spec (SKName kc) ""); [done|].
  destruct SK as [|HS]; [done|]. destruct (HS it) as (b & ->). simpl. by destruct b.
Qed.

(** The parts of an entry of the partition, and its key. *)
Lemma entry_parts e :
  e ∈ l -> exists raw it pk h s kb, load e.2 = mret (Some raw) /\ ItemFromJSON raw = Ok it /\
    data_get t pk db = Some raw /\ primaryKey t it = Ok pk /\ cursor_key idx it pk = Ok (Some e.1) /\
    parts t idx it = Some (h, s) /\ key_value h /\ from_option key_value True s /\
    Composite h s = Ok kb /\ e.1 = kb +:+ suffix idx pk /\
    (in_partition e = true <-> CompareValues (PKValue kc) h = 0) /\
    (CompareValues (PKValue kc) h = 0 -> Encode h = Ok p).
Proof.
  intros He. destruct (ls_entry _ _ _ _ _ L e He) as (raw & it & pk & Hl & Hit & Hd & Hp & Hc).
  pose proof Hc as (h & s & kb & Hps & Hk & Ee)%(cursor_key_parts t); [|done].
  assert (item_wf it) as W by (by eapply ItemFromJSON_wf).
  destruct (parts_keys t idx it h s W Sch Hps) as (Kh & Ks & _).
  exists raw, it, pk, h, s, kb. repeat (split; [done|]).
  unfold in_partition. rewrite Ee. apply Composite_Ok in Hk as (eh & es & Hh & -> & _).
  rewrite sapp_assoc. destruct (Encode_prefix _ h p eh (es +:+ suffix idx pk) KP Kh EP Hh) as [Hpre Heq].
  split; [done|]. intros E. by rewrite (Heq E).
Qed.

Lemma partition_below e : e ∈ l -> in_partition e = true -> bytes_lt e.1 (p +:+ above).
Proof.
  intros He Hp. destruct (entry_parts e He)
    as (raw & it & pk & h & s & kb & _ & _ & Hd & _ & _ & _ & _ & _ & Hk & -> & Hin & Hh).
  destruct (tail_below h s kb idx pk p Hk (Hh (proj1 Hin Hp)) (Small _ _ Hd)) as (tl & -> & Hb & _).
  unfold bytes_lt. by rewrite bytes_cmp_app.
Qed.

Lemma query_walk_page start :
  from_option (fun k => has_prefix k p = true) True start ->
  query_walk now in_ t idx p start load l =
    Ret (fill t idx (q_filter in_) (q_limit in_)
           (omap evals (List.filter (ahead start) partition)) (mkPage no_output 0)).
Proof.
  intros Hst. pose proof (ls_sorted _ _ _ _ _ L) as Hs. unfold query_walk, partition, ahead.
  destruct (q_forward in_).
  - set (q := fun e : string * V => match start with Some k => bytes_ltb k e.1 | None => negb (bytes_ltb e.1 p) end).
    assert (match start with Some k => seek_after k l | None => seek p l end = List.filter q l) as ->.
    { destruct start; [by apply seek_after_filter|by apply seek_filter]. }
    rewrite (walk_forward _ p); [|by apply sorted_filter| |].
    + assert (List.filter (fun e => has_prefix e.1 p) (List.filter q l) =
              List.filter (fun e => match start with Some k => bytes_ltb k e.1 | None => true end)
                (List.filter in_partition l)) as ->.
      { destruct start; [apply filter_swap|]. rewrite filter_implied; [symmetry; by apply filter_all|].
        intros x _ Hx. by apply negb_true_iff, bytes_ltb_lt, prefix_not_below. }
      apply walk_fill. intros e pg [[He Hp]%elem_of_filter_bool _]%elem_of_filter_bool. by apply visit_evals.
    + intros e [_ Hq]%elem_of_filter_bool Hlt. unfold q in Hq. destruct start as [k|].
      * apply (prefix_not_below k p Hst). etrans; [by apply bytes_ltb_spec|done].
      * apply negb_true_iff, bytes_ltb_lt in Hq. done.
    + intros e pg E. unfold visit. by rewrite E.
  - set (q := fun e : string * V => bytes_ltb e.1 (default (p +:+ above) start)).
    assert (match start with Some k => before_rev k l [] | None => before_rev (p +:+ above) l [] end =
            List.filter q (reverse l)) as ->.
    { destruct start; rewrite before_rev_filter by done; apply app_nil_r. }
    rewrite (walk_backward _ p); [|by apply sorted_filter, sorted_reverse|].
    + assert (List.filter (fun e => has_prefix e.1 p) (List.filter q (reverse l)) =
              List.filter (fun e => match start with Some k => bytes_ltb e.1 k | None => true end)
                (List.filter in_partition (reverse l))) as ->.
      { destruct start; [apply filter_swap|]. rewrite filter_implied; [symmetry; by apply filter_all|].
        intros x Hx Hp. rewrite elem_of_reverse in Hx. by apply bytes_ltb_spec, partition_below. }
      apply walk_fill. intros e pg [[He Hp]%elem_of_filter_bool _]%elem_of_filter_bool.
      rewrite elem_of_reverse in He. unfold visit_back. unfold in_partition in Hp. rewrite Hp. simpl.
      by apply visit_evals.
    + intros e pg E. unfold visit_back. by rewrite E.
Qed.

(** ** The items of the partition *)

Definition matches (kc : KeyCondition) (it : Item) : Prop :=
  expired now t it = false /\ sk_ok kc it = true /\
  exists h s, parts t idx it = Some (h, s) /\ CompareValues (PKValue kc) h = 0.

(** An item no later than another in the direction of a query. *)
Definition in_order (forward : bool) (a b : Item) : Prop :=
  match parts t idx a, parts t idx b with
  | Some (_, Some x), Some (_, Some y) => if forward then CompareValues x y <= 0 else CompareValues y x <= 0
  | _, _ => True
  end.

(** What an entry contributes, under the item's primary key. *)
Definition keyed_evals (e : string * V) : option (string * Item) :=
  c ← evals e;
  match primaryKey t c.1 with Ok pk => Some (pk, c.1) | Err _ => None end.

Lemma evals_Some e c : evals e = Some c ->
  load e.2 = mret (Some c.2) /\ ItemFromJSON c.2 = Ok c.1 /\ expired now t c.1 = false /\ sk_ok kc c.1 = true.
Proof.
  unfold evals. destruct (load e.2) as [[[raw|]|]| |]; try done. destruct (ItemFromJSON raw) as [it|] eqn:E; [|done].
  destruct (expired now t it) eqn:Ex; [done|]. destruct (sk_ok kc it) eqn:Esk; [|done]. by intros [= <-].
Qed.

Definition result_items : list (string * Item) := omap keyed_evals partition.

Lemma elem_of_partition e : e ∈ partition <-> e ∈ l /\ in_partition e = true.
Proof. unfold partition. rewrite elem_of_filter_bool. destruct fwd; [done|]. by rewrite elem_of_reverse. Qed.

Lemma result_items_items : result_items.*2 = (omap evals partition).*1.
Proof.
  unfold result_items. assert (forall e, e ∈ partition -> e ∈ l) as Hin by (by intros e [? _]%elem_of_partition).
  revert Hin. generalize partition as es. induction es as [|e es IH]; intros Hin; [done|].
  assert (exists pk, keyed_evals e = (fun c => (pk, c.1)) <$> evals e) as (pk & Hk).
  { destruct (ls_entry _ _ _ _ _ L e (Hin e ltac:(by left))) as (raw & it & pk & Hl & Hit & _ & Hp & _).
    exists pk. unfold keyed_evals. destruct (evals e) as [c|] eqn:Ec; [|done].
    apply evals_Some in Ec as (Hl' & Hit' & _). rewrite Hl in Hl'. injection Hl' as ->. simpl.
    assert (c.1 = it) as -> by congruence. by rewrite Hp. }
  simpl. rewrite Hk. destruct (evals e) as [c|]; simpl; [f_equal|]; apply IH; intros e' He'; apply Hin; by right.
Qed.

Lemma result_items_spec k it :
  (k, it) ∈ result_items <-> item_at t k it db /\ primaryKey t it = Ok k /\ matches kc it.
Proof.
  unfold result_items. rewrite list_elem_of_omap. split.
  - intros (e & [He Hin]%elem_of_partition & H).
    destruct (entry_parts e He) as (raw & it' & pk & h & s & kb & Hl & Hit & Hd & Hp & _ & Hps & _ & _ & _ & _ & Hcmp & _).
    unfold keyed_evals in H. destruct (evals e) as [c|] eqn:Ec; [|done].
    apply evals_Some in Ec as (Hl' & Hit' & Hx & Hsk). rewrite Hl in Hl'. injection Hl' as ->. simpl in H.
    assert (c.1 = it') as E by congruence. rewrite E, Hp in H. injection H as <- <-. rewrite E in *.
    split; [by exists c.2|]. split; [done|]. split; [done|]. split; [done|]. exists h, s. split; [done|]. by apply Hcmp.
  - intros ((raw & Hr & Hit) & Hp & Hx & Hsk & h & s & Hps & Hcmp).
    assert (item_wf it) as W by (by eapply ItemFromJSON_wf).
    destruct (parts_keys t idx it h s W Sch Hps) as (_ & _ & kb & Hkb).
    destruct (ls_item _ _ _ _ _ L k it (kb +:+ suffix idx k)) as (v & Hv); [by exists raw|..].
    { apply (cursor_key_parts t); [done|]. eauto 6. }
    exists (kb +:+ suffix idx k, v).
    destruct (entry_parts _ Hv) as (raw' & it' & pk' & h' & s' & kb' & Hl & Hit' & Hd & Hp' & Hc' & Hps' & Kh' & Ks' & Hkb' & Ee & Hcmp' & _).
    assert (cursor_key idx it k = Ok (Some (kb +:+ suffix idx k))) as Hc.
    { apply (cursor_key_parts t); [done|]. eauto 6. }
    assert (item_wf it') as W' by (by eapply ItemFromJSON_wf).
    assert (pk' = k) as -> by (by eapply (cursor_key_inj idx it' it)).
    assert (raw' = raw) as -> by congruence. assert (it' = it) as -> by congruence.
    split; [apply elem_of_partition; split; [done|]; apply Hcmp'; congruence|].
    unfold keyed_evals, evals. simpl in *. rewrite Hl. simpl. rewrite Hit, Hx, Hsk. simpl. by rewrite Hp.
Qed.

(** An entry that contributes, with all that is known of it. *)
Lemma keyed_evals_Some e a :
  e ∈ partition -> keyed_evals e = Some a ->
  item_at t a.1 a.2 db /\ cursor_key idx a.2 a.1 = Ok (Some e.1) /\
  exists h s tl, parts t idx a.2 = Some (h, s) /\ e.1 = p +:+ tl /\
    match s with
    | Some v => key_value v /\ exists es, Encode v = Ok es /\ tl = es +:+ suffix idx a.1
    | None => True
    end.
Proof.
  intros [He Hin]%elem_of_partition H.
  destruct (entry_parts e He) as (raw & it & pk & h & s & kb & Hl & Hit & Hd & Hp & Hc & Hps & _ & Ks & Hkb & Ee & Hcmp & Hh).
  unfold keyed_evals in H. destruct (evals e) as [c|] eqn:Ec; [|done].
  apply evals_Some in Ec as (Hl' & Hit' & _). rewrite Hl in Hl'. injection Hl' as ->. simpl in H.
  assert (c.1 = it) as E by congruence. rewrite E, Hp in H. injection H as <-. simpl.
  split; [by exists c.2|]. split; [done|].
  destruct (tail_below h s kb idx pk p Hkb (Hh (proj1 Hcmp Hin)) (Small _ _ Hd)) as (tl & Etl & _ & Hs).
  exists h, s, tl. split; [done|]. split; [congruence|]. by destruct s.
Qed.

Lemma entries_in_order x y a b :
  x ∈ partition -> y ∈ partition -> keyed_evals x = Some a -> keyed_evals y = Some b -> key_lt x y ->
  a.1 <> b.1 /\ in_order true a.2 b.2 /\ in_order false b.2 a.2.
Proof.
  intros Hx Hy Ha Hb Hlt.
  destruct (keyed_evals_Some x a Hx Ha) as (Ia & Ca & ha & sa & ta & Pa & Ea & Sa).
  destruct (keyed_evals_Some y b Hy Hb) as (Ib & Cb & hb & sb & tb & Pb & Eb & Sb). split.
  - intros E. rewrite <- E in Ib. rewrite (item_at_fun _ _ _ _ _ Ib Ia), <- E, Ca in Cb. injection Cb as Cb.
    unfold key_lt in Hlt. rewrite Cb in Hlt. by destruct (bytes_lt_irrefl y.1).
  - unfold in_order. rewrite Pa, Pb. destruct sa as [va|], sb as [vb|]; try done.
    destruct Sa as (Ka & ea & Hea & ->), Sb as (Kb & eb & Heb & ->).
    assert (CompareValues va vb <= 0); [|done].
    pose proof (Encode_ordered va vb ea eb Ka Kb Hea Heb) as O.
    destruct (Z.compare_spec (CompareValues va vb) 0) as [E|E|E]; [lia..|].
    destruct O as [[? _]|D]; [done|].
    apply (differ_app _ _ _ (suffix idx a.1) (suffix idx b.1)), differ_cmp in D.
    unfold key_lt, bytes_lt in Hlt. rewrite Ea, Eb, bytes_cmp_app, D in Hlt. done.
Qed.

Lemma partition_sorted : StronglySorted (fun x y => if fwd then key_lt x y else key_lt y x) partition.
Proof.
  pose proof (ls_sorted _ _ _ _ _ L) as Hs. unfold partition. apply sorted_filter.
  destruct (q_forward in_); [done|]. by apply sorted_reverse.
Qed.

Lemma result_items_sorted : NoDup result_items.*1 /\ StronglySorted (in_order fwd) result_items.*2.
Proof.
  split; [apply sorted_NoDup|apply sorted_snd]; (eapply sorted_omap; [|apply partition_sorted]); simpl;
    intros x y a b Hx Hy Ha Hb Hlt; destruct (q_forward in_); simpl in Hlt.
  - by apply (entries_in_order x y a b).
  - apply not_eq_sym. by apply (entries_in_order y x b a).
  - by apply (entries_in_order x y a b).
  - by apply (entries_in_order y x b a).
Qed.

(** ** Following a query's pages over the bucket *)

Lemma collect_walk (ask : option json -> outcome QueryOutput) fuel :
  (forall it, In it result_items.*2 -> exists b, keeps (q_filter in_) it = Ok b) ->
  (ask None = (pg ← query_walk now in_ t idx p None load l; mret (p_out pg))) ->
  (forall raw k, startPosition t idx raw = Ok k ->
     ask (Some raw) = (pg ← query_walk now in_ t idx p (Some k) load l; mret (p_out pg))) ->
  (length result_items < fuel)%nat ->
  collect fuel ask None = Ret (Ok (projectIndex idx t <$> List.filter (kept (q_filter in_)) result_items.*2)).
Proof.
  intros Hans H0 Hk Hf. rewrite result_items_items.
  apply (collect_all t idx (q_filter in_) (q_limit in_) fuel ask None (omap evals partition)).
  - apply Forall_forall. intros c Hc. apply Hans, list_elem_of_In. rewrite result_items_items.
    by apply list_elem_of_fmap_2.
  - rewrite H0, query_walk_page by done. unfold page_on, ahead. by rewrite filter_all.
  - intros pre c post Hsplit. pose proof (omap_split evals partition pre c post Hsplit) as (la & e & lb & El & Ec & Eb).
    assert (e ∈ partition) as He by (rewrite El; apply elem_of_app; right; by left).
    assert (e ∈ l /\ in_partition e = true) as [Hel Hin] by by apply elem_of_partition.
    destruct (ls_entry _ _ _ _ _ L e Hel) as (raw & it & pk & Hl & Hit & _ & Hp & Hc).
    apply evals_Some in Ec as (Hl' & Hit' & _). rewrite Hl in Hl'. injection Hl' as ->.
    assert (c.1 = it) as -> by congruence.
    rewrite (Hk _ e.1) by (eapply resume; [by eapply ItemFromJSON_wf|done..]).
    rewrite query_walk_page by done. unfold page_on. do 4 f_equal. rewrite El.
    pose proof partition_sorted as Hs. rewrite El in Hs.
    assert (forall u v, bytes_lt u v -> bytes_ltb v u = false) as Hasym.
    { intros u v Huv. apply bytes_ltb_lt. intros Hvu. apply (bytes_lt_irrefl u). by etrans. }
    rewrite (sorted_after _ _ la e lb Hs); [by rewrite Eb|..]; unfold ahead; destruct (q_forward in_);
      try (intros y Hy; by apply bytes_ltb_spec); try (intros y Hy; by apply Hasym);
      apply bytes_ltb_lt, bytes_lt_irrefl.
  - rewrite <- (length_fmap fst), <- result_items_items, length_fmap. exact Hf.
Qed.
End walk.

(** ** Queries *)

Definition sk_ops : list string := ["="; "<"; "<="; ">"; ">="; "BETWEEN"; "begins_with"].

Lemma skMatches_answers kc it : SKOp kc ∈ sk_ops -> exists b, skMatches kc it = Ok b.
Proof.
  intros H. unfold skMatches. destruct (it !! SKName kc); [|by eexists]. cbv zeta.
  unfold sk_ops in H. repeat (apply elem_of_cons in H as [->|H]; [by eexists|]). by apply not_elem_of_nil in H.
Qed.

Definition with_start (start : option json) (in_ : QueryInput) : QueryInput :=
  mkQueryInput (q_table in_) (q_index in_) (q_keycond in_) (q_filter in_) (q_forward in_) (q_limit in_) start.

(** A query from its first page to its last. *)
Definition query_pages (fuel : nat) (in_ : QueryInput) (db : DB) : outcome (list Item) :=
  collect fuel (fun start => Query now (with_start start in_) db) None.

(** The key condition is on the schema's own attributes. *)
Record on_schema (kc : KeyCondition) (t : Table) (idx : option Index) : Prop := {
  os_pk : PKName kc = kp_name (schema_hash t idx);
  os_value : key_value (PKValue kc);
  os_sk : SKName kc = "" \/
    (exists r, schema_range t idx = Some r /\ SKName kc = kp_name r) /\ SKOp kc ∈ sk_ops
}.

(** The bucket a request walks, with what its entries stand for. *)
Definition answer (in_ : QueryInput) (t : Table) (idx : option Index) (db : DB) (p : string) : outcome QueryOutput :=
  match idx with
  | None =>
      match db_data db !! dataBucket (t_name t) with
      | None => mret no_output
      | Some b =>
          k ← Ret (start_after t idx (q_start in_));
          pg ← query_walk now in_ t idx p k itself (bentries b); mret (p_out pg)
      end
  | Some ix =>
      match db_index db !! indexBucket (t_name t) (ix_name ix) with
      | None => mret no_output
      | Some b =>
          k ← Ret (start_after t idx (q_start in_));
          pg ← query_walk now in_ t idx p k (chase t db) (bentries b); mret (p_out pg)
      end
  end.

Lemma Query_answer in_ t idx db p :
  defines (q_table in_) t db -> find_index (q_index in_) t = Ok idx -> on_schema (q_keycond in_) t idx ->
  Encode (PKValue (q_keycond in_)) = Ok p -> Query now in_ db = answer in_ t idx db p.
Proof.
  intros Hd Hi [Hpk _ Hsk] Hp. unfold Query, View, query, T_bind, mbind, outcome_mbind.
  rewrite (getTable_defines _ _ _ Hd). simpl. unfold lift. rewrite Hi. simpl.
  fold (schema_hash t idx) (schema_range t idx). rewrite Hpk, String.eqb_refl. simpl.
  assert (negb (String.eqb (SKName (q_keycond in_)) "") &&
    match schema_range t idx with
    | Some r => negb (String.eqb (SKName (q_keycond in_)) (kp_name r))
    | None => true
    end = false) as ->.
  { destruct Hsk as [->|[(r & -> & ->) _]]; [done|]. rewrite String.eqb_refl. apply andb_false_r. }
  rewrite Hp. simpl. unfold answer, page_of.
  destruct idx as [ix|]; [destruct (db_index db !! _) as [bk|]|destruct (db_data db !! _) as [bk|]]; try done;
    (destruct (start_after t _ (q_start in_)) as [k|]; [|done]); simpl; by destruct (query_walk _ _ _ _ _ _ _ _) as [[]| |].
Qed.

(** The bucket of a request, when it is there, lists the items with the attributes. *)
Lemma answer_listing in_ t idx db p :
  consistent t db -> find_index (q_index in_) t = Ok idx ->
  (answer in_ t idx db p = mret no_output /\ (forall start, answer (with_start start in_) t idx db p = mret no_output) /\
   forall k it xk, item_at t k it db -> cursor_key idx it k <> Ok (Some xk)) \/
  exists V (load : V -> outcome (option json)) l, listing t idx db load l /\
    forall start, answer (with_start start in_) t idx db p =
      (k ← Ret (start_after t idx start); pg ← query_walk now in_ t idx p k load l; mret (p_out pg)).
Proof.
  intros C Hi. unfold answer. destruct idx as [ix|].
  - apply find_index_elem in Hi. destruct (db_index db !! _) as [bk|] eqn:Eb.
    + right. exists string, (chase t db), (bentries bk). split; [by apply listing_index|done].
    + left. split; [done|]. split; [done|]. intros k it xk Hit Hk.
      assert (index_get t ix xk db = Some k) as Hx by (apply (con_index _ _ C ix xk k Hi); eauto).
      unfold index_get in Hx. by rewrite Eb in Hx.
  - destruct (db_data db !! _) as [bk|] eqn:Eb.
    + right. exists json, itself, (bentries bk). split; [by apply listing_table|done].
    + left. split; [done|]. split; [done|]. intros k it xk (raw & Hr & _). unfold data_get in Hr. by rewrite Eb in Hr.
Qed.

(** C4: A query's pages show exactly the matching items.  On a table whose items and
    indexes agree, following the pages of a query on the table or on an index, whatever
    their limit, answers the items that are unexpired, have the partition key and satisfy
    the sort-key condition, each exactly once, in the order of the sort key or its reverse,
    less those the filter rejects and projected onto the index. *)
Theorem Query_pages_exact in_ t idx db :
  defines (q_table in_) t db -> consistent t db ->
  (forall k raw, data_get t k db = Some raw -> slen k < 2 ^ 31) ->
  find_index (q_index in_) t = Ok idx -> schema_ok t idx -> on_schema (q_keycond in_) t idx ->
  (forall k it, item_at t k it db -> exists b, keeps (q_filter in_) it = Ok b) ->
  exists res : list (string * Item),
    (forall k it, (k, it) ∈ res <-> item_at t k it db /\ matches t idx (q_keycond in_) it) /\
    NoDup res.*1 /\ StronglySorted (in_order t idx (q_forward in_)) res.*2 /\
    forall fuel, (length res < fuel)%nat ->
      query_pages fuel in_ db =
        Ret (Ok (projectIndex idx t <$> List.filter (kept (q_filter in_)) res.*2)).
Proof.
  intros Hd C Hsmall Hi Hsch Hs Hans.
  destruct (Encode_key_value _ (os_value _ _ _ Hs)) as (p & Hp).
  assert (forall start, Query now (with_start start in_) db = answer (with_start start in_) t idx db p) as HQ.
  { intros start. by apply Query_answer. }
  assert (forall k it, item_at t k it db -> primaryKey t it = Ok k) as Hpk.
  { intros k it (raw & Hr & Hit). destruct (con_data _ _ C k raw Hr) as (it' & Hit' & Hk). congruence. }
  destruct (answer_listing in_ t idx db p C Hi) as [(_ & Hno & Hnone)|(V & load & l & L & HL)].
  - exists []. split.
    + intros k it. split; [by intros ?%not_elem_of_nil|]. intros [Hit (_ & _ & h & s & Hps & _)]. exfalso.
      assert (item_wf it) as W by by eapply item_at_wf.
      destruct (parts_keys t idx it h s W Hsch Hps) as (_ & _ & kb & Hkb).
      apply (Hnone k it (kb +:+ suffix idx k) Hit). apply (cursor_key_parts t); [by apply Hpk|eauto 6].
    + split; [constructor|]. split; [constructor|]. intros [|fuel] Hf; [simpl in Hf; lia|].
      unfold query_pages. simpl. by rewrite HQ, Hno.
  - assert (SKName (q_keycond in_) = "" \/ forall it, exists b, skMatches (q_keycond in_) it = Ok b) as SK.
    { destruct (os_sk _ _ _ Hs) as [?|[_ Ho]]; [by left|right]. intros it. by apply skMatches_answers. }
    exists (result_items in_ t load l p).
    split.
    { intros k it. rewrite (result_items_spec in_ t idx db load l p L Hsmall (os_value _ _ _ Hs) Hp Hsch SK).
      split; [tauto|]. intros [? ?]. auto. }
    destruct (result_items_sorted in_ t idx db load l p L Hsmall (os_value _ _ _ Hs) Hp Hsch SK) as [Hnd Hso].
    split; [done|]. split; [done|]. intros fuel Hf. unfold query_pages.
    apply (collect_walk in_ t idx db load l p L Hsmall (os_value _ _ _ Hs) Hp Hsch SK).
    + intros it Hit. apply list_elem_of_In, list_elem_of_fmap in Hit as ([k it'] & -> & Hit).
      apply (result_items_spec in_ t idx db load l p L Hsmall (os_value _ _ _ Hs) Hp Hsch SK) in Hit as [Hit _]. eauto.
    + rewrite HQ, HL. done.
    + intros raw k Hk. rewrite HQ, HL. simpl. by rewrite Hk.
    + done.
Qed.
End query.

(** ** A query by tag, one item a page *)

#[local] Set Default Proof Using "Type".

Definition sample_query : QueryInput :=
  mkQueryInput "T" "by-tag" (mkKeyCondition "tag" (VS "y") "" "" VZero VZero) None true 1 None.

Lemma fresh_small k raw : data_get sample_table k fresh_db = Some raw -> slen k < 2 ^ 31.
Proof.
  intros H. unfold data_get in H.
  destruct (db_data fresh_db !! dataBucket (t_name sample_table)) as [b|] eqn:Eb; [|done].
  apply (bentries_bget json b k raw) in H.
  assert (match db_data fresh_db !! dataBucket (t_name sample_table) with
          | Some b => forallb (fun e => slen e.1 <? 2 ^ 31) (bentries b) | None => true end = true) as Hall
    by (vm_compute; reflexivity).
  rewrite Eb in Hall. rewrite forallb_forall in Hall. apply list_elem_of_In, Hall in H. by apply Z.ltb_lt in H.
Qed.

Lemma Query_pages_exact_witness :
  query_pages (second 5) 3 sample_query fresh_db = Ret (Ok [sample_read]) /\
  exists res : list (string * Item),
    (forall k it, (k, it) ∈ res <->
       item_at sample_table k it fresh_db /\ matches (second 5) sample_table (Some sample_index) (q_keycond sample_query) it) /\
    NoDup res.*1.
Proof.
  split; [vm_compute; reflexivity|].
  destruct (Query_pages_exact (second 5) sample_query sample_table (Some sample_index) fresh_db)
    as (res & Hres & Hnd & _).
  - vm_compute. reflexivity.
  - exact fresh_consistent.
  - exact fresh_small.
  - reflexivity.
  - split; [left|exact I].
  - split; [reflexivity|exact I|by left].
  - intros k it _. by eexists.
  - by exists res.
Defined.
