(* ===== verification/ScanSpec.v ===== *)
(** * ScanSpec: what scans promise

    The pages of a scan show every item once, and parallel segments share the items out. *)

From stdpp Require Import sorting.
From S2P Require Import Prelude Bytes Wire Decimal Item KeyEnc Lexer Path Cond KeyCond Heap Update Bolt Cursor Table Items Query Txn StoreInv StoreSpec Paging QuerySpec.

#[local] Set Default Proof Using "All".

Section scan.
Context `{B : Bolt} {BL : BoltLaws B} (now : Z).

(** The segment of a request, when it has several. *)
Definition in_segment (in_ : ScanInput) (key : string) : bool :=
  if 1 <? s_total in_ then segmentOf key (s_total in_) =? s_segment in_ else true.

Section walk.
Context (in_ : ScanInput) (t : Table) (idx : option Index) (db : DB) {V : Type}
  (load : V -> outcome (option json)) (l : list (string * V)) (L : listing t idx db load l).

(** What an entry contributes. *)
Definition scan_evals (e : string * V) : option (Item * json) :=
  match load e.2 with
  | Ret (Ok (Some raw)) =>
      match ItemFromJSON raw with
      | Ok it => if expired now t it then None else if in_segment in_ e.1 then Some (it, raw) else None
      | Err _ => None
      end
  | _ => None
  end.

Definition beyond (start : option string) (e : string * V) : bool :=
  match start with None => true | Some k => bytes_ltb k e.1 end.

Lemma scan_walk_page start :
  scan_walk now in_ t idx start load l =
    Ret (fill t idx (s_filter in_) (s_limit in_) (omap scan_evals (List.filter (beyond start) l)) (mkPage no_output 0)).
Proof.
  unfold scan_walk. fold (in_segment in_).
  assert (match start with Some k => seek_after k l | None => l end = List.filter (beyond start) l) as ->.
  { destruct start; [apply seek_after_filter, (ls_sorted _ _ _ _ _ L)|symmetry; by apply filter_all]. }
  apply walk_fill. intros e pg [He _]%elem_of_filter_bool.
  destruct (ls_entry _ _ _ _ _ L e He) as (raw & it & pk & Hl & Hit & _).
  unfold visit_scan, scan_evals. rewrite Hl. simpl. rewrite Hit. simpl. destruct (expired now t it); [done|].
  change (if 1 <? s_total in_ then segmentOf e.1 (s_total in_) =? s_segment in_ else true) with (in_segment in_ e.1).
  by destruct (in_segment in_ e.1).
Qed.

Lemma scan_evals_Some e c : scan_evals e = Some c ->
  load e.2 = mret (Some c.2) /\ ItemFromJSON c.2 = Ok c.1 /\ expired now t c.1 = false /\ in_segment in_ e.1 = true.
Proof.
  unfold scan_evals. destruct (load e.2) as [[[raw|]|]| |]; try done. destruct (ItemFromJSON raw) as [it|] eqn:E; [|done].
  destruct (expired now t it) eqn:Ex; [done|]. destruct (in_segment in_ e.1) eqn:Es; [|done]. by intros [= <-].
Qed.

Definition scan_keyed (e : string * V) : option (string * Item) :=
  c ← scan_evals e;
  match primaryKey t c.1 with Ok pk => Some (pk, c.1) | Err _ => None end.

Lemma scan_keyed_Some e a :
  e ∈ l -> scan_keyed e = Some a ->
  item_at t a.1 a.2 db /\ expired now t a.2 = false /\ cursor_key idx a.2 a.1 = Ok (Some e.1) /\ in_segment in_ e.1 = true.
Proof.
  intros He H. destruct (ls_entry _ _ _ _ _ L e He) as (raw & it & pk & Hl & Hit & Hd & Hp & Hc).
  unfold scan_keyed in H. destruct (scan_evals e) as [c|] eqn:Ec; [|done].
  apply scan_evals_Some in Ec as (Hl' & Hit' & Hx & Hs). rewrite Hl in Hl'. injection Hl' as ->. simpl in H.
  assert (c.1 = it) as E by congruence. rewrite E, Hp in H. injection H as <-. simpl. rewrite <- E.
  split; [by exists c.2|]. split; [done|]. split; [congruence|done].
Qed.

Definition scanned_items : list (string * Item) := omap scan_keyed l.

Lemma scanned_items_items : scanned_items.*2 = (omap scan_evals l).*1.
Proof.
  unfold scanned_items. assert (forall e, e ∈ l -> e ∈ l) as Hin by done. revert Hin. generalize l at 1 3 4 as es.
  induction es as [|e es IH]; intros Hin; [done|].
  assert (exists pk, scan_keyed e = (fun c => (pk, c.1)) <$> scan_evals e) as (pk & Hk).
  { destruct (ls_entry _ _ _ _ _ L e (Hin e ltac:(by left))) as (raw & it & pk & Hl & Hit & _ & Hp & _).
    exists pk. unfold scan_keyed. destruct (scan_evals e) as [c|] eqn:Ec; [|done].
    apply scan_evals_Some in Ec as (Hl' & Hit' & _). rewrite Hl in Hl'. injection Hl' as ->. simpl.
    assert (c.1 = it) as -> by congruence. by rewrite Hp. }
  simpl. rewrite Hk. destruct (scan_evals e) as [c|]; simpl; [f_equal|]; apply IH; intros e' He'; apply Hin; by right.
Qed.

Lemma scanned_items_spec k it :
  (k, it) ∈ scanned_items <->
  item_at t k it db /\ expired now t it = false /\
  exists xk, cursor_key idx it k = Ok (Some xk) /\ in_segment in_ xk = true.
Proof.
  unfold scanned_items. rewrite list_elem_of_omap. split.
  - intros (e & He & H). destruct (scan_keyed_Some e _ He H) as (? & ? & ? & ?). eauto.
  - intros (Hit & Hx & xk & Hc & Hs). destruct (ls_item _ _ _ _ _ L k it xk Hit Hc) as (v & Hv).
    exists (xk, v). split; [done|].
    destruct (ls_entry _ _ _ _ _ L _ Hv) as (raw & it' & pk & Hl & Hit' & Hd & Hp & Hc').
    destruct Hit as (raw0 & Hr0 & Hit0).
    assert (pk = k) as -> by (eapply cursor_key_inj; [..|exact Hc'|exact Hc]; by eapply ItemFromJSON_wf).
    assert (raw = raw0) as -> by congruence. assert (it' = it) as -> by congruence.
    unfold scan_keyed, scan_evals. simpl in *. rewrite Hl. simpl. rewrite Hit', Hx, Hs. simpl. by rewrite Hp.
Qed.

Lemma scanned_items_NoDup : NoDup scanned_items.*1.
Proof.
  apply sorted_NoDup. eapply sorted_omap; [|apply (ls_sorted _ _ _ _ _ L)].
  intros x y a b Hx Hy Ha Hb Hlt E.
  destruct (scan_keyed_Some x a Hx Ha) as (Ia & _ & Ca & _), (scan_keyed_Some y b Hy Hb) as (Ib & _ & Cb & _).
  rewrite <- E in Ib. rewrite (item_at_fun _ _ _ _ _ Ib Ia), <- E, Ca in Cb. injection Cb as Cb.
  unfold key_lt in Hlt. rewrite Cb in Hlt. by destruct (bytes_lt_irrefl y.1).
Qed.

Lemma collect_scan (ask : option json -> outcome QueryOutput) fuel :
  (forall it, it ∈ scanned_items.*2 -> exists b, keeps (s_filter in_) it = Ok b) ->
  ask None = (pg ← scan_walk now in_ t idx None load l; mret (p_out pg)) ->
  (forall raw k, startPosition t idx raw = Ok k ->
     ask (Some raw) = (pg ← scan_walk now in_ t idx (Some k) load l; mret (p_out pg))) ->
  (length scanned_items < fuel)%nat ->
  collect fuel ask None = Ret (Ok (projectIndex idx t <$> List.filter (kept (s_filter in_)) scanned_items.*2)).
Proof.
  intros Hans H0 Hk Hf. rewrite scanned_items_items.
  apply (collect_all t idx (s_filter in_) (s_limit in_) fuel ask None (omap scan_evals l)).
  - apply Forall_forall. intros c Hc. apply Hans. rewrite scanned_items_items. by apply list_elem_of_fmap_2.
  - rewrite H0, scan_walk_page. unfold page_on, beyond. by rewrite filter_all.
  - intros pre c post Hsplit. pose proof (omap_split scan_evals l pre c post Hsplit) as (la & e & lb & El & Ec & Eb).
    assert (e ∈ l) as Hel by (rewrite El; apply elem_of_app; right; by left).
    destruct (ls_entry _ _ _ _ _ L e Hel) as (raw & it & pk & Hl & Hit & _ & Hp & Hc).
    apply scan_evals_Some in Ec as (Hl' & Hit' & _). rewrite Hl in Hl'. injection Hl' as ->.
    assert (c.1 = it) as -> by congruence.
    rewrite (Hk _ e.1) by (eapply resume; [by eapply ItemFromJSON_wf|done..]).
    rewrite scan_walk_page. unfold page_on. do 4 f_equal.
    pose proof (ls_sorted _ _ _ _ _ L) as Hs. rewrite El in Hs |- *.
    rewrite (sorted_after _ _ la e lb Hs); [by rewrite Eb|..]; unfold beyond.
    + intros y Hy. by apply bytes_ltb_spec.
    + intros y Hy. apply bytes_ltb_lt. intros Hy'. apply (bytes_lt_irrefl e.1). by etrans.
    + apply bytes_ltb_lt, bytes_lt_irrefl.
  - rewrite <- (length_fmap fst), <- scanned_items_items, length_fmap. exact Hf.
Qed.
End walk.

(** ** Scans *)

Definition scan_from (start : option json) (in_ : ScanInput) : ScanInput :=
  mkScanInput (s_table in_) (s_index in_) (s_filter in_) (s_limit in_) start (s_segment in_) (s_total in_).

(** A scan from its first page to its last. *)
Definition scan_pages (fuel : nat) (in_ : ScanInput) (db : DB) : outcome (list Item) :=
  collect fuel (fun start => Scan now (scan_from start in_) db) None.

(** A scan answers by walking the bucket its table or index has, if any. *)
Lemma Scan_listing in_ t idx db :
  defines (s_table in_) t db -> consistent t db -> find_index (s_index in_) t = Ok idx ->
  ((forall start, Scan now (scan_from start in_) db = mret no_output) /\
   forall k it xk, item_at t k it db -> cursor_key idx it k <> Ok (Some xk)) \/
  exists V (load : V -> outcome (option json)) l, listing t idx db load l /\
    forall start, Scan now (scan_from start in_) db =
      (k ← Ret (start_after t idx start); pg ← scan_walk now in_ t idx k load l; mret (p_out pg)).
Proof.
  intros Hd C Hi.
  assert (forall start, Scan now (scan_from start in_) db = View (match idx with
    | None => match db_data db !! dataBucket (t_name t) with
              | None => mret no_output
              | Some b => k ← lift (start_after t idx start); page_of (scan_walk now in_ t idx k itself (bentries b))
              end
    | Some ix => match db_index db !! indexBucket (t_name t) (ix_name ix) with
              | None => mret no_output
              | Some b => k ← lift (start_after t idx start); page_of (scan_walk now in_ t idx k (chase t db) (bentries b))
              end
    end) db) as E.
  { intros start. unfold Scan, View, scan, T_bind, mbind, outcome_mbind.
    simpl. rewrite (getTable_defines _ _ _ Hd). simpl. unfold lift. rewrite Hi. simpl. by destruct idx. }
  assert (forall {C} (r : result C) (f : C -> outcome page),
    View (k ← lift r; page_of (f k)) db = (k ← Ret r; pg ← f k; mret (p_out pg))) as Hpage.
  { intros A r f. unfold View, lift, page_of, mbind, T_bind, outcome_mbind. destruct r as [a|]; [|done]. simpl.
    by destruct (f a) as [[]| |]. }
  destruct idx as [ix|].
  - apply find_index_elem in Hi. destruct (db_index db !! indexBucket (t_name t) (ix_name ix)) as [bk|] eqn:Eb.
    + right. exists string, (chase t db), (bentries bk). split; [by apply listing_index|].
      intros start. by rewrite E, Hpage.
    + left. split; [intros start; by rewrite E|]. intros k it xk Hit Hk.
      assert (index_get t ix xk db = Some k) as Hx by (apply (con_index _ _ C ix xk k Hi); eauto).
      unfold index_get in Hx. by rewrite Eb in Hx.
  - destruct (db_data db !! dataBucket (t_name t)) as [bk|] eqn:Eb.
    + right. exists json, itself, (bentries bk). split; [by apply listing_table|]. intros start. by rewrite E, Hpage.
    + left. split; [intros start; by rewrite E|]. intros k it xk (raw & Hr & _). unfold data_get in Hr. by rewrite Eb in Hr.
Qed.

(** A scan's pages show every item of its segment once.  On a table whose items and
    indexes agree, following the pages of a scan, whatever their limit, answers the
    unexpired items that are in the table or the index and, when the request has several
    segments, whose key hashes to its segment: each exactly once, less those the filter
    rejects.  An item's key hashes to one segment, so parallel segments share the items
    out without overlap. *)
Lemma Scan_pages_exact in_ t idx db :
  defines (s_table in_) t db -> consistent t db -> find_index (s_index in_) t = Ok idx ->
  (forall k it, item_at t k it db -> exists b, keeps (s_filter in_) it = Ok b) ->
  exists res : list (string * Item),
    (forall k it, (k, it) ∈ res <->
       item_at t k it db /\ expired now t it = false /\
       exists xk, cursor_key idx it k = Ok (Some xk) /\
         (1 < s_total in_ -> segmentOf xk (s_total in_) = s_segment in_)) /\
    NoDup res.*1 /\
    (forall fuel, (length res < fuel)%nat ->
      scan_pages fuel in_ db = Ret (Ok (projectIndex idx t <$> List.filter (kept (s_filter in_)) res.*2))) /\
    (1 < s_total in_ -> forall xk, 0 <= segmentOf xk (s_total in_) < s_total in_).
Proof.
  intros Hd C Hi Hans.
  assert (forall xk, in_segment in_ xk = true <-> (1 < s_total in_ -> segmentOf xk (s_total in_) = s_segment in_)) as Hseg.
  { intros xk. unfold in_segment. destruct (Z.ltb_spec 1 (s_total in_)); [rewrite Z.eqb_eq; tauto|]. split; [lia|done]. }
  assert (1 < s_total in_ -> forall xk, 0 <= segmentOf xk (s_total in_) < s_total in_) as Hrange.
  { intros H1 xk. apply Z.mod_pos_bound. lia. }
  destruct (Scan_listing in_ t idx db Hd C Hi) as [[Hno Hnone]|(V & load & l & L & HL)].
  - exists []. split.
    { intros k it. split; [by intros ?%not_elem_of_nil|]. intros (Hit & _ & xk & Hc & _). by destruct (Hnone k it xk Hit). }
    split; [constructor|]. split; [|done]. intros [|fuel] Hf; [simpl in Hf; lia|]. unfold scan_pages. simpl. by rewrite Hno.
  - exists (scanned_items in_ t load l). split.
    { intros k it. rewrite (scanned_items_spec in_ t idx db load l L). by setoid_rewrite Hseg. }
    split; [by apply (scanned_items_NoDup in_ t idx db)|]. split; [|done]. intros fuel Hf. unfold scan_pages.
    apply (collect_scan in_ t idx db load l L).
    + intros it (k & -> & Hit)%list_elem_of_fmap. destruct k as [k it'].
      apply (scanned_items_spec in_ t idx db load l L) in Hit as [Hit _]. eauto.
    + by rewrite HL.
    + intros raw k Hk. rewrite HL. simpl. by rewrite Hk.
    + done.
Qed.
End scan.

(** ** One of two segments of the sample table *)

#[local] Set Default Proof Using "Type".

Definition sample_scan : ScanInput := mkScanInput "T" "" None 1 None 0 2.

Lemma Scan_pages_exact_witness :
  exists res : list (string * Item),
    (forall k it, (k, it) ∈ res <->
       item_at sample_table k it fresh_db /\ expired (second 5) sample_table it = false /\
       exists xk, cursor_key None it k = Ok (Some xk) /\ (1 < 2 -> segmentOf xk 2 = 0)) /\
    NoDup res.*1 /\
    (forall fuel, (length res < fuel)%nat ->
      scan_pages (second 5) fuel sample_scan fresh_db =
        Ret (Ok (projectIndex None sample_table <$> List.filter (kept None) res.*2))) /\
    (1 < 2 -> forall xk, 0 <= segmentOf xk 2 < 2).
Proof.
  apply (Scan_pages_exact (second 5) sample_scan sample_table None fresh_db).
  - vm_compute. reflexivity.
  - exact fresh_consistent.
  - reflexivity.
  - intros k it _. by eexists.
Defined.
