(* ===== verification/TableSpec.v ===== *)
(** * TableSpec: what changing a table promises

    Changing a table's indexes leaves every index exact: new and redefined indexes are
    filled from the items, kept ones are untouched, and removed ones are dropped. *)

From S2P Require Import Prelude Bytes Wire Decimal Item KeyEnc Lexer Path Cond Heap Update Bolt Cursor Table Items KeyCond Query Txn StoreInv StoreSpec.

#[local] Set Default Proof Using "All".

Section table.
Context `{B : Bolt} {BL : BoltLaws B}.

(** ** Filling an index *)

(** An entry of the data that has an index key. *)
Definition hits (ix : Index) (l : list (string * json)) (xk pk : string) : Prop :=
  exists raw it, (pk, raw) ∈ l /\ ItemFromJSON raw = Ok it /\ indexKeyFor ix it pk = Ok (Some xk).

Lemma hits_inj ix l xk pk pk' : hits ix l xk pk -> hits ix l xk pk' -> pk = pk'.
Proof.
  intros (raw & it & _ & Hi & Hk) (raw' & it' & _ & Hi' & Hk').
  eapply indexKeyFor_inj; [..|exact Hk|exact Hk']; by eapply ItemFromJSON_wf.
Qed.

Lemma put_index_Ok t ix xk pk db u db' :
  put_index (indexBucket (t_name t) (ix_name ix)) xk pk db = Ret (Ok (u, db')) ->
  db_data db' = db_data db /\ db_tables db' = db_tables db /\
  forall ix' k, index_get t ix' k db' =
    if decide (ix_name ix' = ix_name ix /\ k = xk) then Some pk else index_get t ix' k db.
Proof.
  unfold put_index. rewrite T_bind_Ok. intros (db0 & db1 & [-> ->]%read_Ok & H).
  rewrite T_bind_Ok in H. destruct H as (b & db1 & [Hb ->]%lift_Ok & ->%modify_Ok). split; [done|]. split; [done|].
  intros ix' k. unfold index_get. simpl. destruct (decide (ix_name ix' = ix_name ix)) as [->|Hne].
  - rewrite lookup_insert_eq. simpl. rewrite (bget_bput _ _ _ _ _ _ Hb), bget_or_empty.
    destruct (decide (k = xk)); [by rewrite decide_True|rewrite decide_False; [done|tauto]].
  - rewrite lookup_insert_ne by (intros E%indexBucket_inj; congruence). rewrite decide_False; [done|tauto].
Qed.

Definition fill_index (name : string) (ix : Index) (l : list (string * json)) : T unit :=
  forEach (fun '(k, raw) =>
    it ← lift (ItemFromJSON raw);
    xkey ← lift (indexKeyFor ix it k);
    match xkey with None => mret tt | Some xkey => put_index name xkey k end) l.

Lemma fill_index_Ok t ix l db u db' :
  fill_index (indexBucket (t_name t) (ix_name ix)) ix l db = Ret (Ok (u, db')) ->
  db_data db' = db_data db /\ db_tables db' = db_tables db /\
  (forall ix' k, ix_name ix' <> ix_name ix -> index_get t ix' k db' = index_get t ix' k db) /\
  (forall xk pk, index_get t ix xk db' = Some pk -> hits ix l xk pk \/ index_get t ix xk db = Some pk) /\
  (forall xk pk, index_get t ix xk db = Some pk \/ hits ix l xk pk ->
     (forall pk', hits ix l xk pk' -> pk' = pk) -> index_get t ix xk db' = Some pk).
Proof.
  revert db; induction l as [|[k raw] l IH]; intros db; cbn [fill_index forEach].
  { intros [_ ->]%mret_Ok. split; [done|]. split; [done|]. split; [done|]. split; [auto|].
    intros xk pk [?|(? & ? & Hin & _)]; [done|by apply not_elem_of_nil in Hin]. }
  rewrite T_bind_Ok. intros ([] & db1 & H1 & H2).
  rewrite T_bind_Ok in H1. destruct H1 as (it & db2 & [Hit ->]%lift_Ok & H1).
  rewrite T_bind_Ok in H1. destruct H1 as (xkey & db2 & [Hx ->]%lift_Ok & H1).
  destruct (IH db1 H2) as (D & Tb & O & F & G). clear IH H2.
  assert (forall xk pk, hits ix ((k, raw) :: l) xk pk <-> (pk = k /\ xkey = Some xk) \/ hits ix l xk pk) as Hhits.
  { intros xk pk. split.
    - intros (raw' & it' & [[= -> ->]|Hin]%elem_of_cons & Hi & Hk); [left; split; congruence|right; by exists raw', it'].
    - intros [[-> ->]|(raw' & it' & Hin & Hi & Hk)]; [exists raw, it|exists raw', it']; (split; [|done]); [by left|by right]. }
  assert (db_data db1 = db_data db /\ db_tables db1 = db_tables db /\
    forall ix' k', index_get t ix' k' db1 =
      if decide (ix_name ix' = ix_name ix /\ xkey = Some k') then Some k else index_get t ix' k' db) as (D1 & T1 & X1).
  { destruct xkey as [x|].
    - apply put_index_Ok in H1 as (? & ? & X). split; [done|]. split; [done|]. intros ix' k'. rewrite X.
      apply decide_ext. split; intros [? ?]; split; congruence.
    - apply mret_Ok in H1 as [_ ->]. split; [done|]. split; [done|]. intros ix' k'. by rewrite decide_False by (by intros [_ ?]). }
  split; [congruence|]. split; [congruence|]. split.
  { intros ix' k' Hne. rewrite O, X1 by done. by rewrite decide_False by tauto. }
  split.
  - intros xk pk Hf. apply F in Hf as [Hf|Hf]; [left; apply Hhits; by right|]. rewrite X1 in Hf.
    destruct (decide _) as [[_ E]|]; [|by right]. injection Hf as <-. left. apply Hhits. by left.
  - intros xk pk Hor Hu. apply G; [|intros pk' Hp; apply Hu, Hhits; by right].
    rewrite X1. destruct (decide _) as [[_ E]|Hn].
    + left. f_equal. apply Hu, Hhits. by left.
    + destruct Hor as [?|Hh]; [by left|]. apply Hhits in Hh as [[-> E]|Hh]; [|by right]. destruct Hn. done.
Qed.

(** Dropping an index. *)
Lemma drop_index_Ok t name ix db u db' :
  drop_index (t_name t) name db = Ret (Ok (u, db')) ->
  db_data db' = db_data db /\ db_tables db' = db_tables db /\
  forall k, index_get t ix k db' = if decide (ix_name ix = name) then None else index_get t ix k db.
Proof.
  unfold drop_index. intros ->%modify_Ok. split; [done|]. split; [done|]. intros k.
  unfold index_get. simpl. destruct (decide (ix_name ix = name)) as [->|Hne].
  - by rewrite lookup_delete_eq.
  - rewrite lookup_delete_ne; [done|]. intros E%indexBucket_inj. congruence.
Qed.

(** An index is exact: one entry for each item with its attributes. *)
Definition exact (t : Table) (ix : Index) (db : DB) : Prop :=
  forall xk pk, index_get t ix xk db = Some pk <->
    exists it, item_at t pk it db /\ indexKeyFor ix it pk = Ok (Some xk).

Lemma backfill_exact t ix db u db' :
  (forall k, index_get t ix k db = None) ->
  backfillIndex t ix db = Ret (Ok (u, db')) ->
  db_data db' = db_data db /\ db_tables db' = db_tables db /\
  (forall ix' k, ix_name ix' <> ix_name ix -> index_get t ix' k db' = index_get t ix' k db) /\
  exact t ix db'.
Proof.
  intros He. unfold backfillIndex. rewrite T_bind_Ok. intros (db0 & db1 & [-> ->]%read_Ok & H).
  destruct (db_data db !! dataBucket (t_name t)) as [data|] eqn:Ed.
  - rewrite T_bind_Ok in H. destruct H as ([] & db1 & ->%modify_Ok & H).
    apply (fill_index_Ok t ix (bentries data)) in H as (D & Tb & O & F & G). simpl in D, Tb.
    set (db1 := set_index _ db) in *.
    assert (forall ix' k, index_get t ix' k db1 = index_get t ix' k db) as X.
    { intros ix' k. unfold index_get, db1. simpl. destruct (decide (ix_name ix' = ix_name ix)) as [->|Hne].
      - rewrite lookup_insert_eq. simpl. apply bget_or_empty.
      - rewrite lookup_insert_ne; [done|]. intros E%indexBucket_inj. congruence. }
    split; [done|]. split; [done|]. split; [intros ix' k Hne; by rewrite O, X|].
    assert (forall xk pk, hits ix (bentries data) xk pk <->
      exists it, item_at t pk it db' /\ indexKeyFor ix it pk = Ok (Some xk)) as Hh.
    { intros xk pk. unfold hits, item_at, data_get. rewrite D, Ed. simpl. setoid_rewrite bentries_bget.
      split; [intros (raw & it & ? & ? & ?)|intros (it & (raw & ? & ?) & ?)]; eauto 6. }
    intros xk pk. rewrite <- Hh. split.
    + intros Hx. apply F in Hx as [?|Hx]; [done|]. by rewrite X, He in Hx.
    + intros Hx. apply G; [by right|]. intros pk' Hx'. by eapply hits_inj.
  - apply mret_Ok in H as [_ ->]. split; [done|]. split; [done|]. split; [done|]. intros xk pk. rewrite He.
    split; [done|]. intros (it & (raw & Hr & _) & _). unfold data_get in Hr. by rewrite Ed in Hr.
Qed.

(** ** Changing a table *)

Lemma exact_ext t t' ix ix' db db' :
  t_name t' = t_name t -> ix_name ix' = ix_name ix -> ix_hash ix' = ix_hash ix -> ix_range ix' = ix_range ix ->
  db_data db' = db_data db -> (forall k, index_get t ix k db' = index_get t ix k db) ->
  exact t ix db -> exact t' ix' db'.
Proof.
  intros Hn Hx Hh Hr Hd Hi He xk pk. unfold index_get, exact, item_at, data_get, indexKeyFor in *.
  rewrite Hn, Hx, Hh, Hr, Hd, Hi. apply He.
Qed.

(** The first loop: what is kept is untouched, the rest is rebuilt. *)
Lemma rebuild_Ok t keep l db u db' :
  NoDup (ix_name <$> l) ->
  forEach (fun ix => if keep ix : bool then mret tt
                     else _ ← drop_index (t_name t) (ix_name ix); backfillIndex t ix) l db = Ret (Ok (u, db')) ->
  db_data db' = db_data db /\ db_tables db' = db_tables db /\
  (forall ix k, ix_name ix ∉ ix_name <$> l -> index_get t ix k db' = index_get t ix k db) /\
  (forall ix, ix ∈ l -> if keep ix then forall k, index_get t ix k db' = index_get t ix k db else exact t ix db').
Proof.
  revert db; induction l as [|ix l IH]; intros db Hnd; cbn [forEach].
  { intros [_ ->]%mret_Ok. split; [done|]. split; [done|]. split; [done|]. by intros ix ?%not_elem_of_nil. }
  rewrite fmap_cons in Hnd. apply NoDup_cons in Hnd as [Hni Hnd].
  rewrite T_bind_Ok. intros ([] & db1 & H1 & H2). destruct (IH db1 Hnd H2) as (D2 & T2 & F2 & X2). clear IH.
  assert (forall ix', ix' ∈ l -> ix_name ix' <> ix_name ix) as Hne.
  { intros ix' Hin E. apply Hni. rewrite <- E. by apply list_elem_of_fmap_2. }
  assert (db_data db1 = db_data db /\ db_tables db1 = db_tables db /\
    (forall ix' k, ix_name ix' <> ix_name ix -> index_get t ix' k db1 = index_get t ix' k db) /\
    if keep ix then forall k, index_get t ix k db1 = index_get t ix k db else exact t ix db1) as (D1 & T1 & F1 & X1).
  { destruct (keep ix); [by apply mret_Ok in H1 as [_ ->]|].
    rewrite T_bind_Ok in H1. destruct H1 as ([] & db2 & Hdrop & H1).
    assert (forall ix' k, index_get t ix' k db2 = if decide (ix_name ix' = ix_name ix) then None else index_get t ix' k db)
      as Hd by (intros ix'; by apply (drop_index_Ok t (ix_name ix) ix' db () db2)).
    apply (drop_index_Ok t (ix_name ix) ix) in Hdrop as (? & ? & _).
    apply backfill_exact in H1 as (? & ? & O & E); [|intros k; by rewrite Hd, decide_True].
    split; [congruence|]. split; [congruence|]. split; [|done]. intros ix' k Hn. by rewrite O, Hd, decide_False. }
  split; [congruence|]. split; [congruence|]. split.
  - intros ix' k Hn. rewrite fmap_cons, not_elem_of_cons in Hn. destruct Hn. by rewrite F2, F1.
  - intros ix' [->|Hin]%elem_of_cons.
    + destruct (keep ix); [intros k; by rewrite F2, X1|]. eapply exact_ext; [done..|exact D2| |exact X1].
      intros k. by apply F2.
    + specialize (X2 ix' Hin). destruct (keep ix'); [|done]. intros k. by rewrite X2, F1 by auto.
Qed.

(** The second loop drops what is gone and nothing else. *)
Lemma reclaim_Ok t gone l db u db' :
  forEach (fun ix => if gone ix : bool then mret tt else drop_index (t_name t) (ix_name ix)) l db = Ret (Ok (u, db')) ->
  db_data db' = db_data db /\ db_tables db' = db_tables db /\
  forall ix k, (forall ix', ix' ∈ l -> ix_name ix' = ix_name ix -> gone ix' = true) ->
    index_get t ix k db' = index_get t ix k db.
Proof.
  revert db; induction l as [|ix l IH]; intros db; cbn [forEach]; [by intros [_ ->]%mret_Ok|].
  rewrite T_bind_Ok. intros ([] & db1 & H1 & H2). destruct (IH db1 H2) as (D2 & T2 & X2). clear IH.
  destruct (gone ix) eqn:Eg.
  - apply mret_Ok in H1 as [_ ->]. split; [done|]. split; [done|]. intros ix' k H. apply X2.
    intros ix'' Hin. apply H. by right.
  - assert (forall ix' k, index_get t ix' k db1 = if decide (ix_name ix' = ix_name ix) then None else index_get t ix' k db)
      as Hd by (intros ix'; by apply (drop_index_Ok t (ix_name ix) ix' db () db1)).
    apply (drop_index_Ok t (ix_name ix) ix) in H1 as (D1 & T1 & _). split; [congruence|]. split; [congruence|].
    intros ix' k H. rewrite X2 by (intros ix'' Hin; apply H; by right). rewrite Hd, decide_False; [done|].
    intros E. rewrite (H ix) in Eg; [done|by left|done].
Qed.

Lemma index_named_Some n l ix : index_named n l = Some ix -> ix ∈ l /\ ix_name ix = n.
Proof.
  unfold index_named. intros H. apply find_some in H as [Hin ->%String.eqb_eq].
  apply list_elem_of_In in Hin. by rewrite elem_of_reverse in Hin.
Qed.

(** C23: Changing a table keeps every index exact.  On a table whose items and indexes
    agree, an UpdateTable that leaves the name and the key attributes alone answers the
    changed definition, stored under its name, and afterwards the items are as they were
    and every index of the new definition, whether kept, added or redefined under its old
    name, holds exactly one entry for each item that has its attributes. *)
Theorem UpdateTable_reindexes name fn t t' db db' :
  defines name t db -> t_name t = name -> consistent t db ->
  UpdateTable name fn db = (db', Ret (Ok t')) ->
  t_name t' = t_name t -> t_hash t' = t_hash t -> t_range t' = t_range t -> table_ok t' ->
  fn t = Ok t' /\ defines name t' db' /\ db_data db' = db_data db /\ consistent t' db'.
Proof.
  intros Hd Hname C Hup Hn Hh Hr Hok. unfold UpdateTable in Hup.
  apply Update_inv in Hup as [(a & [= <-] & H)|[_ Hf]]; [|by destruct (Hf t')].
  unfold updateTable in H. rewrite T_bind_Ok in H. destruct H as (t0 & db1 & [-> E]%getTable_Ok & H).
  assert (t0 = t) as -> by (unfold defines in Hd; congruence).
  rewrite T_bind_Ok in H. destruct H as (t1 & db1 & [Hfn ->]%lift_Ok & H).
  rewrite T_bind_Ok in H. destruct H as (db0 & db1 & [-> ->]%read_Ok & H).
  rewrite T_bind_Ok in H. destruct H as (b & db1 & [Hb ->]%lift_Ok & H).
  rewrite T_bind_Ok in H. destruct H as ([] & db1 & ->%modify_Ok & H).
  rewrite T_bind_Ok in H. destruct H as ([] & db1 & H1 & H).
  rewrite T_bind_Ok in H. destruct H as ([] & db2 & H2 & [<- ->]%mret_Ok).
  split; [done|]. rewrite <- Hname, <- Hn in H1, H2.
  apply (rebuild_Ok t' _ (t_indexes t')) in H1 as (D1 & T1 & F1 & X1); [|exact Hok].
  apply (reclaim_Ok t') in H2 as (D2 & T2 & X2). simpl in D1, T1.
  split; [unfold defines; rewrite T2, T1; simpl; rewrite (bget_bput _ _ _ _ _ _ Hb); by rewrite decide_True|].
  split; [congruence|].
  assert (forall k, data_get t' k db2 = data_get t k db) as Hdata by (intros k; unfold data_get; by rewrite D2, D1, Hn).
  split.
  - intros k raw. rewrite Hdata. intros Hk. destruct (con_data _ _ C k raw Hk) as (it & Hit & Hp). exists it.
    split; [done|]. rewrite <- Hp. unfold primaryKey. by rewrite Hh, Hr.
  - intros ix xk pk Hix. revert xk pk. change (exact t' ix db2).
    assert (forall k, index_get t' ix k db2 = index_get t' ix k db1) as E2.
    { intros k. apply X2. intros ix' _ En. apply existsb_exists. exists ix. split; [by apply list_elem_of_In|].
      by apply String.eqb_eq. }
    apply (exact_ext t' t' ix ix db1 db2); [done..|].
    specialize (X1 ix Hix). cbv beta in X1.
    destruct (index_named (ix_name ix) (t_indexes t)) as [prev|] eqn:Ep; [|done].
    destruct (sameIndexSchema prev ix) eqn:Es; [|done].
    apply index_named_Some in Ep as [Hprev Epn]. unfold sameIndexSchema in Es.
    apply andb_true_iff in Es as [[Eh%bool_decide_eq_true _]%andb_true_iff Er%bool_decide_eq_true].
    apply (exact_ext t t' prev ix db db1); [done..| |].
    + intros k. specialize (X1 k). unfold index_get in *. rewrite Hn, <- Epn in X1. exact X1.
    + intros xk pk. by apply (con_index _ _ C).
Qed.
End table.

(** ** Adding an index to a table with an item *)

#[local] Set Default Proof Using "Type".

Definition added_index : Index := mkIndex "by-id" (mkKeyPart "id" "S") (Some (mkKeyPart "tag" "S")) "ALL" [] false 0 0.
Definition wider_table : Table :=
  mkTable "T" (mkKeyPart "id" "S") None [sample_index; added_index] 0 "ttl" true ∅ "PAY_PER_REQUEST" 0 0 false None
    false "" "" 0.

Lemma UpdateTable_reindexes_witness :
  let db' := (UpdateTable "T" (fun _ => Ok wider_table) fresh_db).1 in
  defines "T" wider_table db' /\ consistent wider_table db'.
Proof.
  destruct (UpdateTable_reindexes "T" (fun _ => Ok wider_table) sample_table wider_table fresh_db
    (UpdateTable "T" (fun _ => Ok wider_table) fresh_db).1) as (_ & Hd & _ & Hc).
  - vm_compute. reflexivity.
  - reflexivity.
  - exact fresh_consistent.
  - assert ((UpdateTable "T" (fun _ => Ok wider_table) fresh_db).2 = Ret (Ok wider_table)) as E
      by (vm_compute; reflexivity).
    rewrite <- E. by destruct (UpdateTable _ _ _).
  - reflexivity.
  - reflexivity.
  - reflexivity.
  - unfold table_ok. simpl. apply NoDup_cons. split; [|apply NoDup_singleton].
    rewrite list_elem_of_singleton. discriminate.
  - split; [exact Hd|exact Hc].
Defined.
