(* ===== verification/StreamSpec.v ===== *)
(** * StreamSpec: what the change stream promises

    A stream is a bounded log: each change is appended under the next sequence number,
    the oldest records go, and a reader that resumes after the last number it saw
    receives every later record once, in order. *)

From stdpp Require Import sorting.
From S2P Require Import Prelude Bytes Wire Decimal Item KeyEnc Lexer Path Cond KeyCond Heap Update Bolt Cursor Table Items Query Txn StoreInv StoreSpec Paging.

(** Keys order as their sequence numbers. *)
Lemma streamKey_cmp m n :
  0 <= m < 2 ^ 64 -> 0 <= n < 2 ^ 64 -> bytes_cmp (streamKey m) (streamKey n) = (m ?= n).
Proof. apply be64_cmp. Qed.

#[local] Set Default Proof Using "All".

Section stream.
Context `{B : Bolt} {BL : BoltLaws B}.

(** The entries that deleting keys leaves. *)
Definition spares {V} (ks : list string) (e : string * V) : bool := negb (bool_decide (e.1 ∈ ks)).

Lemma spares_spec {V} ks (e : string * V) : spares ks e = true <-> e.1 ∉ ks.
Proof using. unfold spares. by rewrite negb_true_iff, bool_decide_eq_false. Qed.

Lemma bentries_delete_all {V} ks (b : bucket V) :
  bentries (foldl (fun b k => bdelete k b) b ks) = List.filter (spares ks) (bentries b).
Proof.
  apply sorted_unique; [apply sorted_entries, bentries_sorted|apply sorted_filter, sorted_entries, bentries_sorted|].
  intros [k v]. rewrite elem_of_filter_bool, spares_spec. cbn [fst]. revert b. induction ks as [|k0 ks IH]; intros b; cbn [foldl].
  - split; [intros H; split; [done|apply not_elem_of_nil]|by intros [? _]].
  - rewrite IH, !bentries_bget, bget_bdelete, not_elem_of_cons. destruct (decide (k = k0)); intuition congruence.
Qed.

(** ** The log *)

Definition stream_log (t : Table) (db : DB) : list storedStreamRecord :=
  match db_stream db !! streamBucket (t_name t) with Some b => (bentries b).*2 | None => [] end.

Definition last_sequence (t : Table) (db : DB) : Z :=
  bsequence (bucket_or_empty (db_stream db !! streamBucket (t_name t))).

(** Records sit under their sequence numbers, none beyond the bucket's. *)
Definition stream_ok (t : Table) (db : DB) : Prop :=
  0 <= last_sequence t db < 2 ^ 64 - 1 /\
  forall b e, db_stream db !! streamBucket (t_name t) = Some b -> e ∈ bentries b ->
    e.1 = streamKey (Seq e.2) /\ 0 < Seq e.2 <= last_sequence t db.

Lemma stream_log_entries t db :
  stream_log t db = (bentries (bucket_or_empty (db_stream db !! streamBucket (t_name t)))).*2.
Proof.
  unfold stream_log. destruct (db_stream db !! _) as [b|]; [done|]. simpl.
  destruct (bentries bempty) as [|[k v] l] eqn:E; [done|].
  assert ((k, v) ∈ bentries (bempty (V := storedStreamRecord))) as H by (rewrite E; by left).
  apply bentries_bget in H. by rewrite bget_bempty in H.
Qed.

(** The records of a log are in increasing sequence. *)
Lemma stream_sorted t db : stream_ok t db -> StronglySorted (fun r s => Seq r < Seq s) (stream_log t db).
Proof.
  intros [Hr Hok]. unfold stream_log. destruct (db_stream db !! _) as [b|] eqn:Eb; [|constructor].
  pose proof (sorted_entries _ (bentries_sorted _ b)) as Hs. specialize (Hok b).
  assert (forall e, e ∈ bentries b -> e.1 = streamKey (Seq e.2) /\ 0 < Seq e.2 < 2 ^ 64) as Hk.
  { intros e He. destruct (Hok e eq_refl He). split; [done|lia]. }
  clear Hok Eb. induction Hs as [|e l Hl IH He]; [constructor|]. simpl. constructor.
  { apply IH. intros e' He'. apply Hk. by right. }
  apply Forall_forall. intros r (e' & -> & He')%list_elem_of_fmap. rewrite Forall_forall in He.
  specialize (He e' He'). unfold key_lt, bytes_lt in He.
  destruct (Hk e ltac:(by left)) as [E1 ?], (Hk e' ltac:(by right)) as [E2 ?].
  rewrite E1, E2, streamKey_cmp in He by lia. by apply Z.compare_lt_iff.
Qed.

(** The keys a pruning deletes: no more than there are records in excess, and the first
    when there is one. *)
Lemma pruneStream_drop keyn b : exists ks,
  bentries (pruneStream keyn b) = List.filter (spares ks) (bentries b) /\
  (length ks <= Z.to_nat (keyn - streamMaxRecords))%nat /\
  (keyn - streamMaxRecords <= 1 -> bentries (pruneStream keyn b) = drop (Z.to_nat (keyn - streamMaxRecords)) (bentries b)) /\
  bsequence (pruneStream keyn b) = bsequence b.
Proof.
  unfold pruneStream. cbv zeta. set (over := keyn - streamMaxRecords). destruct (Z.leb_spec over 0).
  - exists []. rewrite Z2Nat.nonpos by lia. split; [|by rewrite drop_0].
    symmetry. apply filter_all. intros e _. apply spares_spec, not_elem_of_nil.
  - exists (take (Z.to_nat over) (bwalk b)). rewrite bentries_delete_all. split; [done|]. split; [rewrite length_take; lia|]. split.
    + intros Hle. assert (over = 1) as -> by lia. change (Z.to_nat 1) with 1%nat.
      pose proof (bwalk_first _ b) as Hw. pose proof (sorted_entries _ (bentries_sorted _ b)) as Hs.
      destruct (bentries b) as [|e es]; [done|]. destruct (bwalk b) as [|k ks]; [done|]. injection Hw as ->.
      cbn [take drop]. rewrite filter_cons_bool. destruct (spares _ e) eqn:Ee; [apply spares_spec in Ee; destruct Ee; by left|]. rewrite take_0.
      apply filter_all. intros e' He'. apply spares_spec. rewrite list_elem_of_singleton. intros E.
      apply StronglySorted_inv in Hs as [_ Ha]. rewrite Forall_forall in Ha. specialize (Ha e' He').
      unfold key_lt in Ha. rewrite E in Ha. by destruct (bytes_lt_irrefl e.1).
    + generalize (take (Z.to_nat over) (bwalk b)). intros ks. clear H. revert b.
      induction ks as [|k ks IH]; intros b; [done|]. cbn [foldl]. by rewrite IH, bsequence_bdelete.
Qed.

(** The bucket counts the records of the log. *)
Lemma stream_keys_log begun t : stream_keys begun (streamBucket (t_name t)) = zlen (stream_log t begun).
Proof.
  unfold stream_keys, stream_log. destruct (db_stream begun !! _) as [b|]; [|done]. rewrite bkeyn_entries. unfold zlen. by rewrite length_fmap.
Qed.

(** What a change puts in the bucket before it is pruned. *)
Lemma captureStream_entries now begun t old new img vt db db' :
  stream_ok t db -> last_sequence t db < 2 ^ 64 - 2 ->
  streamState t = Some vt -> (match new with Some _ => new | None => old end) = Some img ->
  captureStream now begun t old new db = Ret (Ok (tt, db')) ->
  let name := streamBucket (t_name t) in
  let seq := last_sequence t db + 1 in
  exists b', bentries b' = bentries (bucket_or_empty (db_stream db !! name)) ++ [(streamKey seq, stream_record now seq t old new img)] /\
    db_stream db' !! name = Some (pruneStream (stream_keys begun name) b') /\
    (forall e, e ∈ bentries b' -> e.1 = streamKey (Seq e.2) /\ 0 < Seq e.2 <= seq) /\ bsequence b' = seq.
Proof.
  intros [Hr Hok] Hmax Hst Himg H. unfold captureStream in H. rewrite Hst, Himg in H.
  apply T_bind_Ok in H as (db0 & db1 & [-> ->]%read_Ok & H). cbv zeta in H.
  apply T_bind_Ok in H as (b' & db1 & [Hb ->]%lift_Ok & ->%modify_Ok).
  intros name seq. fold name in Hb |- *. set (b := bucket_or_empty (db_stream db !! name)) in *.
  assert (last_sequence t db = bsequence b) as Eseq by done. rewrite bsequence_next, <- Eseq in Hb. fold seq in Hb.
  assert (forall e, e ∈ bentries b -> e.1 = streamKey (Seq e.2) /\ 0 < Seq e.2 <= last_sequence t db) as Hall.
  { intros e He. unfold b in He. destruct (db_stream db !! name) as [b0|] eqn:Eb; [by eapply Hok|].
    destruct e as [k v]. apply bentries_bget in He. simpl in He. by rewrite bget_bempty in He. }
  assert (bentries b' = bentries b ++ [(streamKey seq, stream_record now seq t old new img)]) as Eb'.
  { rewrite <- (bentries_next b). apply (bentries_bput_last (bnext_sequence b)); [|done].
    intros e He. rewrite bentries_next in He. destruct (Hall e He) as [-> ?].
    unfold bytes_lt. rewrite streamKey_cmp by lia. apply Z.compare_lt_iff. lia. }
  exists b'. split; [done|]. split; [by simpl; rewrite lookup_insert_eq|]. split.
  - intros e He. rewrite Eb' in He. apply elem_of_app in He as [He|He].
    + destruct (Hall e He). split; [done|lia].
    + apply list_elem_of_singleton in He as ->. simpl. split; [done|lia].
  - rewrite (bsequence_bput _ _ _ _ _ Hb), bsequence_next. lia.
Qed.

(** What a read of the stream answers. *)
Lemma StreamRecords_spec t after limit db :
  StreamRecords (t_name t) after limit db =
    (take (Z.to_nat (if limit <=? 0 then 100 else limit)) (List.filter (fun r => after <? Seq r) (stream_log t db)),
     from_option Seq 0 (last (stream_log t db))).
Proof.
  unfold StreamRecords, stream_log. destruct (db_stream db !! _) as [b|]; [|cbn; by rewrite take_nil].
  cbv zeta. set (m := if limit <=? 0 then 100 else limit).
  assert (0 < m) as Hm by (unfold m; destruct (Z.leb_spec limit 0); lia). clearbody m.
  assert (forall (l : list (string * storedStreamRecord)) out x, zlen out <= m ->
    foldl (fun '(out, _) e => if (Seq e.2 <=? after) || (m <=? zlen out) then (out, Seq e.2) else (out ++ [e.2], Seq e.2))
      (out, x) l =
    (out ++ take (Z.to_nat (m - zlen out)) (List.filter (fun r => after <? Seq r) l.*2), from_option Seq x (last l.*2)))
    as Hfold.
  { induction l as [|e l IH]; intros out x Ho; [cbn; by rewrite take_nil, app_nil_r|]. cbn [foldl fmap list_fmap].
    assert (forall y : Z, from_option Seq y (last (e.2 :: l.*2)) = from_option Seq (Seq e.2) (last l.*2)) as El.
    { intros y. by destruct (l.*2) as [|r rs]; [|rewrite last_cons_cons; destruct (last_is_Some (r :: rs)) as [_ [z ->]]]. }
    rewrite filter_cons_bool, El, Z.ltb_antisym. destruct (Z.leb_spec (Seq e.2) after); cbn [orb negb]; [by apply IH|].
    destruct (Z.leb_spec m (zlen out)).
    - rewrite IH by done. replace (m - zlen out) with 0 by lia. done.
    - rewrite IH by (rewrite zlen_app; change (zlen [e.2]) with 1; lia). rewrite <- app_assoc. do 2 f_equal.
      rewrite zlen_app. change (zlen [e.2]) with 1.
      replace (Z.to_nat (m - zlen out)) with (S (Z.to_nat (m - (zlen out + 1)))) by lia. done. }
  rewrite Hfold by (unfold zlen; simpl; lia). unfold zlen. simpl. by rewrite Z.sub_0_r.
Qed.

(** C24: A stream is a bounded log.  In a table with a stream whose records sit under their
    sequence numbers, a change that answers appends one record, numbered one above every
    number given so far and carrying the images; records stay in increasing sequence under
    their numbers.  What it drops depends on how many records the stream had when its
    transaction began: none up to a thousand; the oldest one, and no other, of a thousand
    and one, so that a stream written one change to a transaction keeps the last thousand
    and one; and of more, which transactions of several changes leave, at most the excess
    over a thousand, which need not be the oldest, because the walk deletes under its own
    cursor and may pass over some.  A
    read after a number answers the first stored records above it, in order, up to its
    limit, and the highest number stored: so a reader that resumes after the last record
    it saw misses none that is still stored and sees none twice. *)
Theorem stream_is_a_log now begun t old new img vt db db' :
  stream_ok t db -> last_sequence t db < 2 ^ 64 - 2 ->
  streamState t = Some vt -> (match new with Some _ => new | None => old end) = Some img ->
  captureStream now begun t old new db = Ret (Ok (tt, db')) ->
  let seq := last_sequence t db + 1 in
  let log := stream_log t db ++ [stream_record now seq t old new img] in
  let had := zlen (stream_log t begun) in
  stream_ok t db' /\ last_sequence t db' = seq /\
  (had <= 1001 -> stream_log t db' = drop (Z.to_nat (had - 1000)) log) /\
  (exists gone, stream_log t db' = List.filter (fun r => negb (bool_decide (streamKey (Seq r) ∈ gone))) log /\ (length gone <= Z.to_nat (had - 1000))%nat) /\
  (begun = db -> had <= 1001 -> zlen (stream_log t db') <= 1001) /\
  StronglySorted (fun r s => Seq r < Seq s) (stream_log t db') /\
  (forall after limit, StreamRecords (t_name t) after limit db' =
    (take (Z.to_nat (if limit <=? 0 then 100 else limit)) (List.filter (fun r => after <? Seq r) (stream_log t db')),
     from_option Seq 0 (last (stream_log t db')))).
Proof.
  intros Hok0 Hmax Hst Himg H seq log had. destruct Hok0 as [Hr Hok].
  destruct (captureStream_entries now begun t old new img vt db db') as (b' & Eb' & Edb & Hk & Es'); [by split|done..|].
  set (name := streamBucket (t_name t)) in *. fold seq in Eb', Hk, Es'.
  destruct (pruneStream_drop (stream_keys begun name) b') as (ks & En & Hn & Hone & Esq).
  assert (stream_keys begun name = had) as Ehad by apply stream_keys_log. rewrite Ehad in *. unfold streamMaxRecords in *.
  assert (last_sequence t db' = seq) as Els by (unfold last_sequence; fold name; rewrite Edb; simpl; congruence).
  assert ((bentries b').*2 = log) as Elog.
  { rewrite Eb', fmap_app. unfold log. by rewrite stream_log_entries. }
  assert (stream_log t db' = (bentries (pruneStream had b')).*2) as El' by (unfold stream_log; fold name; by rewrite Edb).
  assert (stream_ok t db') as Hok'.
  { split; [lia|]. rewrite Els. intros b0 e Hb0 He. fold name in Hb0. rewrite Edb in Hb0. injection Hb0 as <-.
    rewrite En in He. apply elem_of_filter_bool in He as [He _]. by apply Hk. }
  assert (had <= 1001 -> stream_log t db' = drop (Z.to_nat (had - 1000)) log) as Hd.
  { intros Hle. rewrite El', Hone, fmap_drop, Elog by lia. done. }
  split; [done|]. split; [done|]. split; [done|]. split; [|split; [|split; [by apply stream_sorted|intros; apply StreamRecords_spec]]].
  - exists ks. split; [|done]. rewrite El', En, <- Elog. clear -Hk. induction (bentries b') as [|e l IH]; [done|].
    rewrite fmap_cons, !filter_cons_bool. rewrite <- IH by (intros e' He'; apply Hk; by right).
    destruct (Hk e ltac:(by left)) as [<- _]. change (negb (bool_decide (e.1 ∈ ks))) with (spares ks e). by destruct (spares ks e).
  - intros -> Hle. rewrite Hd by done. unfold log, had in *. unfold zlen in *. rewrite length_drop, length_app. cbn [length]. lia.
Qed.
End stream.

(** ** The first change of a table with a stream *)

#[local] Set Default Proof Using "Type".

Definition streaming_table : Table :=
  mkTable "T" (mkKeyPart "id" "S") None [] 0 "" false ∅ "PAY_PER_REQUEST" 0 0 false
    (Some (JObj {[ "StreamEnabled" := JBool true; "StreamViewType" := JStr "NEW_IMAGE" ]})) false "" "" 0.
Definition streamed_db : DB :=
  match captureStream (second 5) empty_DB streaming_table None (Some sample_read) empty_DB with
  | Ret (Ok (_, db)) => db
  | _ => empty_DB
  end.

Lemma stream_is_a_log_witness :
  stream_ok streaming_table streamed_db /\ last_sequence streaming_table streamed_db = 1 /\
  (StreamRecords "T" 0 10 streamed_db).2 = 1.
Proof.
  destruct (stream_is_a_log (second 5) empty_DB streaming_table None (Some sample_read) sample_read "NEW_IMAGE" empty_DB streamed_db)
    as (Hok & Hs & _).
  - split; [split; vm_compute; congruence|]. intros b e H. discriminate H.
  - reflexivity.
  - vm_compute. reflexivity.
  - reflexivity.
  - assert (match captureStream (second 5) empty_DB streaming_table None (Some sample_read) empty_DB with
            | Ret (Ok _) => true | _ => false end = true) as E by (vm_compute; reflexivity).
    unfold streamed_db. destruct (captureStream _ _ _ _ _ _) as [[[[] db]|]| |]; [reflexivity|discriminate E..].
  - split; [exact Hok|]. split; [exact Hs|]. vm_compute. reflexivity.
Defined.

(** A stream with two records too many when the transaction began: the pruning deletes the
    first record and passes over the second. *)
Example prune_skips :
  let keys := streamKey <$> [1; 2; 3; 4] in
  let r := stream_record 0 0 streaming_table None None ∅ in
  (bentries (pruneStream 1002 (list_to_map ((fun k => (k, r)) <$> keys), 4))).*1 = [streamKey 2; streamKey 4].
Proof. vm_compute. reflexivity. Qed.
