(* ===== verification/Glob.v ===== *)
(** * Glob: the policy engine's wildcard matching

    Model of the wildcard matcher of src/internal/iampolicy/policy.go: the loop of [Star], in
    which a question mark fits any character and another one itself, up to case when
    folding. *)

From S2P Require Import Prelude Bytes Star.

Definition any : ascii := "?".

Definition lower (c : ascii) : ascii :=
  if (65 <=? byte_of c) && (byte_of c <=? 90) then chr (byte_of c + 32) else c.

Definition eq (a b : ascii) (fold : bool) : bool :=
  if Ascii.eqb a b then true else if negb fold then false else Ascii.eqb (lower a) (lower b).

Definition glob_fits (fold : bool) (d c : ascii) : bool := Ascii.eqb d any || eq d c fold.

Definition glob_loop (fuel : nat) (fold : bool) : string -> string -> option (string * string) -> option bool :=
  star_loop (glob_fits fold) fuel.

Definition glob_fuel : string -> string -> nat := star_fuel.

Definition glob (pattern s : string) (fold : bool) : bool :=
  default false (glob_loop (glob_fuel pattern s) fold pattern s None).

Definition globMatch (pattern s : string) : bool := glob pattern s false.
Definition globMatchFold (pattern s : string) : bool := glob pattern s true.

(** ** What a pattern means

    A star stands for any run of characters, a question mark for one, and anything else
    for itself, up to case when folding. *)
Fixpoint wild (fold : bool) (p s : string) : Prop :=
  match p with
  | EmptyString => s = ""
  | String d p' =>
      if Ascii.eqb d star then exists a b, s = a +:+ b /\ wild fold p' b
      else exists c s', s = String c s' /\ (d = any \/ eq d c fold = true) /\ wild fold p' s'
  end.

Lemma wild_wild_by fold p s : wild fold p s <-> wild_by (glob_fits fold) p s.
Proof.
  revert s. induction p as [|d p IH]; intros s; [done|]. cbn [wild wild_by]. destruct (Ascii.eqb d star).
  - setoid_rewrite IH. done.
  - setoid_rewrite IH. assert (forall c, glob_fits fold d c = true <-> d = any \/ eq d c fold = true) as Hf.
    { intros c. unfold glob_fits. by rewrite orb_true_iff, Ascii.eqb_eq. }
    by setoid_rewrite Hf.
Qed.

Lemma wild_char fold d p c s :
  d <> star -> wild fold (String d p) (String c s) <-> (d = any \/ eq d c fold = true) /\ wild fold p s.
Proof.
  intros Hd. cbn [wild]. destruct (Ascii.eqb_spec d star); [done|]. split.
  - intros (? & ? & [= <- <-] & ? & ?). done.
  - intros [? ?]. by exists c, s.
Qed.

(** A star of the pattern is told from every character but a star. *)
Lemma glob_fits_star fold c : glob_fits fold star c = true -> c = star.
Proof.
  intros H. destruct (Ascii.eqb_spec c star) as [|Hc]; [done|exfalso]. unfold glob_fits in H. change (Ascii.eqb star any) with false in H. unfold eq in H.
  destruct (Ascii.eqb_spec star c); [congruence|]. destruct fold; cbn [orb negb] in H; [|done].
  apply Ascii.eqb_eq in H. change (lower star) with star in H. unfold lower in H.
  destruct ((65 <=? byte_of c) && (byte_of c <=? 90)) eqn:E; [|congruence]. zbool.
  assert (byte_of star = byte_of (chr (byte_of c + 32))) as Hb by congruence.
  rewrite byte_of_chr_small in Hb by lia. change (byte_of star) with 42 in Hb. lia.
Qed.

Lemma glob_fuel_enough p s fold : exists b, glob_loop (glob_fuel p s) fold p s None = Some b.
Proof. apply star_fuel_enough. Qed.

Lemma glob_sound p s fold : glob p s fold = true -> wild fold p s.
Proof. rewrite wild_wild_by. apply star_match_sound. Qed.

Lemma glob_complete p s fold : has_char star s = false -> wild fold p s -> glob p s fold = true.
Proof. rewrite wild_wild_by. apply star_match_complete, glob_fits_star. Qed.

(** The wildcard matcher terminates and matches exactly what patterns mean.  On every
    pattern and string the loop ends within its fuel; what it accepts the pattern covers;
    and, when the string has no star of its own, it accepts all that the pattern covers.
    Folding changes nothing but the comparison of letters. *)
Lemma glob_correct p s fold :
  (exists b, glob_loop (glob_fuel p s) fold p s None = Some b) /\
  (glob p s fold = true -> wild fold p s) /\
  (has_char star s = false -> glob p s fold = true <-> wild fold p s).
Proof.
  split; [apply glob_fuel_enough|]. split; [apply glob_sound|].
  intros Hs. split; [apply glob_sound|by apply glob_complete].
Qed.

Lemma glob_correct_witness :
  has_char star "s3:GetObject" = false /\ (glob "s3:Get*" "s3:GetObject" false = true <-> wild false "s3:Get*" "s3:GetObject").
Proof. split; [reflexivity|]. apply (proj2 (proj2 (glob_correct "s3:Get*" "s3:GetObject" false))). reflexivity. Defined.
