(* ===== verification/Policy.v ===== *)
(** * Policy: the IAM policy engine

    Model of src/internal/iampolicy: policy documents and their parsing (policy.go),
    condition operators (conditions.go), principals (principal.go), the evaluation order
    (policy.go) and whether a document is public (public.go). *)

From stdpp Require Import pretty.
From S2P Require Import Prelude Bytes Ident Clock Wire Star GoText Glob.

(** ** Documents *)

Record principalBlock := mkPrincipal {
  Any : bool;
  ByType : gmap string (list string);
  Present : bool
}.
Definition no_principal : principalBlock := mkPrincipal false ∅ false.

Record Statement := mkStatement {
  SID : string;
  Effect : string;
  Action : list string;
  NotAction : list string;
  Resource : list string;
  NotResource : list string;
  Principal : principalBlock;
  NotPrincipal : principalBlock;
  Condition : gmap string (gmap string (list string))
}.

Record Document := mkDocument { doc_Version : string; doc_ID : string; doc_Statement : list Statement }.

(** A string or an array of strings. *)
Definition stringList_of (j : json) : option (list string) :=
  match unmarshal_string j with
  | Some one => Some [one]
  | None => unmarshal_strings j
  end.

(** The values of a map, all decoded or none. *)
Definition decode_map {A B} (f : A -> option B) (m : gmap string A) : option (gmap string B) :=
  map_fold (fun k x acc => acc ← acc; y ← f x; Some (<[k := y]> acc)) (Some ∅) m.

Definition principalBlock_of (j : json) : option principalBlock :=
  match unmarshal_string j with
  | Some s =>
      if String.eqb s "*" then Some (mkPrincipal true ∅ true)
      else Some (mkPrincipal false {[ "AWS" := [s] ]} true)
  | None =>
      m ← unmarshal_object j;
      by_type ← decode_map stringList_of m;
      Some (mkPrincipal (existsb (fun e => existsb (String.eqb "*") e.2) (map_to_list by_type)) by_type true)
  end.

Definition option_field {A} (zero : A) (f : json -> option A) (name : string) (m : gmap string json) : option A :=
  match field name m with None => Some zero | Some j => f j end.

Section documents.
Context `{GoText}.

(** A condition value: a string, or the text of a number or a boolean. *)
Definition conditionValue_of (j : json) : option string :=
  match j with
  | JStr s => Some s
  | JNull => Some ""
  | JBool b => Some (if b then "true" else "false")
  | JNum t => match parse_float t with Some _ => Some t | None => None end
  | JArr _ | JObj _ => None
  end.

Definition conditionValues_of (j : json) : option (list string) :=
  match j with JArr l => mapM conditionValue_of l | _ => mapM conditionValue_of [j] end.

Definition Statement_of (j : json) : option Statement :=
  m ← unmarshal_object j;
  sid ← option_field "" unmarshal_string "Sid" m;
  effect ← option_field "" unmarshal_string "Effect" m;
  action ← option_field [] stringList_of "Action" m;
  not_action ← option_field [] stringList_of "NotAction" m;
  resource ← option_field [] stringList_of "Resource" m;
  not_resource ← option_field [] stringList_of "NotResource" m;
  principal ← option_field no_principal principalBlock_of "Principal" m;
  not_principal ← option_field no_principal principalBlock_of "NotPrincipal" m;
  condition ← option_field ∅ (fun j =>
    ops ← unmarshal_object j;
    decode_map (fun j => keys ← unmarshal_object j; decode_map conditionValues_of keys) ops) "Condition" m;
  Some (mkStatement sid effect action not_action resource not_resource principal not_principal condition).

(** [Document.UnmarshalJSON]: the statements are an array or a single object. *)
Definition Document_of (j : json) : option Document :=
  m ← unmarshal_object j;
  version ← option_field "" unmarshal_string "Version" m;
  id ← option_field "" unmarshal_string "Id" m;
  match field "Statement" m with
  | None => Some (mkDocument version id [])
  | Some raw =>
      match (l ← unmarshal_array raw; mapM Statement_of l) with
      | Some sts => Some (mkDocument version id sts)
      | None => st ← Statement_of raw; Some (mkDocument version id [st])
      end
  end.

(** The first statement that may not be written, if any. *)
Fixpoint statement_error (sts : list Statement) : option APIError :=
  match sts with
  | [] => None
  | st :: sts' =>
      if negb (String.eqb (Effect st) "Allow" || String.eqb (Effect st) "Deny") then
        Some (plain_error "statement %d: Effect must be Allow or Deny, got %q")
      else if Nat.eqb (length (Action st)) 0 && Nat.eqb (length (NotAction st)) 0 then
        Some (plain_error "statement %d: one of Action or NotAction is required")
      else statement_error sts'
  end.

(** [spells] is the document the text spells; [None] when it is no JSON. *)
Definition Parse (raw : string) (spells : option json) : result Document :=
  if String.eqb (trim_space raw) "" then Err (plain_error "policy document is empty")
  else match spells ≫= Document_of with
  | None => Err (plain_error "policy document is not valid JSON: %v")
  | Some d =>
      match doc_Statement d with
      | [] => Err (plain_error "policy document has no Statement")
      | sts => match statement_error sts with Some e => Err e | None => Ok d end
      end
  end.
End documents.

(** ** Requests and the parts of a statement *)

Record Request := mkRequest {
  req_Action : string;
  req_Resource : string;
  req_Context : gmap string (list string);
  req_Principal : string;
  req_Account : string
}.

Definition actionMatches (st : Statement) (action : string) : bool :=
  if Nat.ltb 0 (length (NotAction st)) then negb (existsb (fun pat => globMatchFold pat action) (NotAction st))
  else existsb (fun pat => globMatchFold pat action) (Action st).

Definition resourceMatches (st : Statement) (resource : string) : bool :=
  if Nat.ltb 0 (length (NotResource st)) then
    if String.eqb resource "" then false
    else negb (existsb (fun pat => globMatch pat resource) (NotResource st))
  else if Nat.eqb (length (Resource st)) 0 then true
  else existsb (fun pat => String.eqb pat "*" || (negb (String.eqb resource "") && globMatch pat resource))
         (Resource st).

Definition has_suffix (s suf : string) : bool :=
  match (String.length s - String.length suf)%nat with
  | n => (Nat.leb (String.length suf) (String.length s)) &&
         String.eqb (String.substring n (String.length suf) s) suf
  end.

Definition aws_principal (caller account : string) (deny : bool) (aws : string) : bool :=
  if String.eqb aws caller then true
  else if String.eqb aws "*" then true
  else if String.eqb aws (root_arn account) || String.eqb aws (account_of account) then
    String.eqb caller (root_arn account) ||
    (deny && has_prefix caller ("arn:aws:iam::" +:+ account_of account +:+ ":"))
  else if contains aws "*" then globMatch aws caller
  else false.

Definition principalNamed (p : principalBlock) (caller account : string) (deny : bool) : bool :=
  if Any p then true
  else if String.eqb caller "" then false
  else if has_suffix caller ".amazonaws.com" then
    existsb (fun svc => equal_fold svc caller) (default [] (ByType p !! "Service"))
  else existsb (aws_principal caller account deny) (default [] (ByType p !! "AWS")).

Definition principalMatches (st : Statement) (caller account : string) : bool :=
  if Present (NotPrincipal st) then
    if String.eqb (Effect st) "Allow" then false
    else negb (principalNamed (NotPrincipal st) caller account true)
  else if negb (Present (Principal st)) then true
  else principalNamed (Principal st) caller account (String.eqb (Effect st) "Deny").

(** ** Conditions *)

Definition cut_prefix (s p : string) : option string :=
  if has_prefix s p then Some (String.substring (String.length p) (String.length s - String.length p) s) else None.

Definition cut_suffix (s suf : string) : option string :=
  if has_suffix s suf then Some (String.substring 0 (String.length s - String.length suf) s) else None.

Definition isNegated (op : string) : bool :=
  let l := to_lower op in
  has_prefix l "stringnot" || has_prefix l "arnnot" || has_prefix l "notipaddress" ||
  has_prefix l "numericnot" || has_prefix l "datenot".

Inductive quantifier := Unquantified | ForAll | ForAny.

(** The operator without its quantifier and its suffix. *)
Record operator := mkOperator { quant : quantifier; ifExists : bool; base : string }.

Definition operator_of (op : string) : operator :=
  let '(q, op) := match cut_prefix op "ForAllValues:" with
    | Some rest => (ForAll, rest)
    | None => match cut_prefix op "ForAnyValue:" with Some rest => (ForAny, rest) | None => (Unquantified, op) end
    end in
  match cut_suffix op "IfExists" with
  | Some rest => mkOperator q true rest
  | None => mkOperator q false op
  end.

Section conditions.
Context `{GoText}.

Definition lookupKey (ctx : gmap string (list string)) (key : string) : string :=
  if decide (is_Some (ctx !! key)) then key
  else match List.find (fun e => equal_fold e.1 key) (range ctx) with Some e => e.1 | None => key end.

Definition compareNumeric (op : string) (h w : float) : bool :=
  match float_compare h w with
  | Some o =>
      if String.eqb op "NumericEquals" then match o with Eq => true | _ => false end
      else if String.eqb op "NumericNotEquals" then match o with Eq => false | _ => true end
      else if String.eqb op "NumericLessThan" then match o with Lt => true | _ => false end
      else if String.eqb op "NumericLessThanEquals" then match o with Gt => false | _ => true end
      else if String.eqb op "NumericGreaterThan" then match o with Gt => true | _ => false end
      else if String.eqb op "NumericGreaterThanEquals" then match o with Lt => false | _ => true end
      else false
  | None => String.eqb op "NumericNotEquals"
  end.

Definition date_layouts : list string := ["2006-01-02T15:04:05Z07:00"; "2006-01-02T15:04:05Z"; "2006-01-02"].

Fixpoint first_layout (layouts : list string) (v : string) : option Z :=
  match layouts with
  | [] => None
  | layout :: rest => match parse_time layout v with Some t => Some t | None => first_layout rest v end
  end.

Definition parseDate (v : string) : option Z :=
  match first_layout date_layouts v with Some t => Some t | None => parse_int v end.

Definition ipMatch (have want : string) : bool :=
  match parse_ip have with
  | None => false
  | Some addr =>
      match parse_cidr want with
      | Some c => cidr_contains c addr
      | None => String.eqb have want
      end
  end.

Definition numeric_ops : list string :=
  ["NumericEquals"; "NumericNotEquals"; "NumericLessThan"; "NumericLessThanEquals"; "NumericGreaterThan";
   "NumericGreaterThanEquals"].
Definition date_ops : list (string * string) :=
  [("DateEquals", "NumericEquals"); ("DateNotEquals", "NumericNotEquals"); ("DateLessThan", "NumericLessThan");
   ("DateLessThanEquals", "NumericLessThanEquals"); ("DateGreaterThan", "NumericGreaterThan");
   ("DateGreaterThanEquals", "NumericGreaterThanEquals")].

Definition applyOperator (op have want : string) : bool :=
  if String.eqb op "StringEquals" || String.eqb op "ArnEquals" then String.eqb have want
  else if String.eqb op "StringNotEquals" || String.eqb op "ArnNotEquals" then negb (String.eqb have want)
  else if String.eqb op "StringEqualsIgnoreCase" then equal_fold have want
  else if String.eqb op "StringNotEqualsIgnoreCase" then negb (equal_fold have want)
  else if String.eqb op "StringLike" || String.eqb op "ArnLike" then globMatch want have
  else if String.eqb op "StringNotLike" || String.eqb op "ArnNotLike" then negb (globMatch want have)
  else if String.eqb op "Bool" then equal_fold have want
  else if existsb (String.eqb op) numeric_ops then
    match parse_float have, parse_float want with
    | Some h, Some w => compareNumeric op h w
    | _, _ => false
    end
  else match List.find (fun e => String.eqb e.1 op) date_ops with
  | Some (_, numeric) =>
      match parseDate have, parseDate want with
      | Some h, Some w => compareNumeric numeric (float_of_int h) (float_of_int w)
      | _, _ => false
      end
  | None =>
      if String.eqb op "IpAddress" then ipMatch have want
      else if String.eqb op "NotIpAddress" then negb (ipMatch have want)
      else false
  end.

(** One value of the request against the values of the condition. *)
Definition test_value (op : string) (want : list string) (v : string) : bool :=
  if isNegated op then forallb (applyOperator op v) want else existsb (applyOperator op v) want.

Definition conditionMatches (op key : string) (want : list string) (ctx : gmap string (list string)) : bool :=
  let o := operator_of op in
  let found := ctx !! lookupKey ctx key in
  if String.eqb (base o) "Null" then
    let wantNull := match want with w :: _ => equal_fold w "true" | [] => false end in
    negb (Bool.eqb wantNull (match found with Some _ => true | None => false end))
  else match found with
  | None | Some [] => ifExists o || isNegated (base o)
  | Some have =>
      match quant o with
      | ForAll => forallb (test_value (base o) want) have
      | _ => existsb (test_value (base o) want) have
      end
  end.

Definition conditionsMatch (block : gmap string (gmap string (list string))) (ctx : gmap string (list string)) : bool :=
  forallb (fun e => forallb (fun kv => conditionMatches e.1 kv.1 kv.2 ctx) (range e.2)) (range block).

(** ** Evaluation *)

Definition statementMatches (st : Statement) (req : Request) : bool :=
  actionMatches st (req_Action req) && resourceMatches st (req_Resource req) &&
  principalMatches st (req_Principal req) (req_Account req) && conditionsMatch (Condition st) (req_Context req).

Inductive Decision := ImplicitDeny | Allowed | ExplicitDeny.

Definition statementLabel (d : Document) (st : Statement) (i : Z) : string :=
  if negb (String.eqb (SID st) "") then SID st
  else if negb (String.eqb (doc_ID d) "") then doc_ID d +:+ "[" +:+ pretty i +:+ "]"
  else "statement[" +:+ pretty i +:+ "]".

(** The statements of a document, in order: a matching Deny ends the evaluation, the
    first matching Allow is remembered. *)
Fixpoint eval_statements (d : Document) (i : Z) (sts : list Statement) (req : Request) (allowed : option string) :
  string + option string :=
  match sts with
  | [] => inr allowed
  | st :: sts' =>
      if negb (statementMatches st req) then eval_statements d (i + 1) sts' req allowed
      else if String.eqb (Effect st) "Deny" then inl (statementLabel d st i)
      else eval_statements d (i + 1) sts' req
             (match allowed with Some l => Some l | None => Some (statementLabel d st i) end)
  end.

Fixpoint eval_documents (docs : list (option Document)) (req : Request) (allowed : option string) :
  Decision * string :=
  match docs with
  | [] => match allowed with Some l => (Allowed, l) | None => (ImplicitDeny, "") end
  | None :: docs' => eval_documents docs' req allowed
  | Some d :: docs' =>
      match eval_statements d 0 (doc_Statement d) req allowed with
      | inl label => (ExplicitDeny, label)
      | inr allowed => eval_documents docs' req allowed
      end
  end.

Definition Evaluate (docs : list (option Document)) (req : Request) : Decision * string :=
  eval_documents docs req None.

(** ** Public documents *)

Definition narrowingKeys : list string :=
  ["aws:sourceip"; "aws:sourcevpc"; "aws:sourcevpce"; "aws:sourcearn"; "aws:sourceaccount"; "aws:sourceowner";
   "aws:principalarn"; "aws:principalaccount"; "aws:principalorgid"; "aws:principalorgpaths"; "aws:userid";
   "s3:dataaccesspointarn"; "s3:dataaccesspointaccount"; "s3:accesspointnetworkorigin"; "aws:vpcsourceip"].

Definition conditionNarrows (cond : gmap string (gmap string (list string))) : bool :=
  existsb (fun e => negb (isNegated e.1) &&
    existsb (fun kv => bool_decide (to_lower kv.1 ∈ narrowingKeys)) (range e.2)) (range cond).

Definition grantsEveryone (st : Statement) : bool := Any (Principal st) || Present (NotPrincipal st).

Definition grantActions (st : Statement) : list string :=
  if Nat.ltb 0 (length (Action st)) then Action st
  else if Nat.ltb 0 (length (NotAction st)) then ["*"] else [].

Definition grantResources (st : Statement) : list string :=
  if Nat.ltb 0 (length (Resource st)) then Resource st else ["*"].

Definition coversAny (patterns : list string) (value : string) : bool := existsb (fun p => globMatch p value) patterns.

(** A Deny that is weighed: unconditional, to everyone, and without negated lists. *)
Definition weighed (st : Statement) : bool :=
  equal_fold (Effect st) "Deny" && Nat.eqb (size (Condition st)) 0 && negb (Present (NotPrincipal st)) &&
  Nat.eqb (length (NotAction st)) 0 && Nat.eqb (length (NotResource st)) 0 && Any (Principal st) &&
  Nat.ltb 0 (length (Action st)) && Nat.ltb 0 (length (Resource st)).

Definition cancelledByDeny (d : Document) (action resource : string) : bool :=
  existsb (fun st => weighed st && (coversAny (Action st) action && coversAny (Resource st) resource))
    (doc_Statement d).

Definition IsPublic (d : option Document) : bool :=
  match d with
  | None => false
  | Some d =>
      existsb (fun st =>
        equal_fold (Effect st) "Allow" && grantsEveryone st && negb (conditionNarrows (Condition st)) &&
        existsb (fun action => existsb (fun resource => negb (cancelledByDeny d action resource)) (grantResources st))
          (grantActions st)) (doc_Statement d)
  end.
End conditions.
