(* ===== verification/PolicySpec.v ===== *)
(** * PolicySpec: what policy evaluation promises

    The order of evaluation, the soundness of the public test, and where both part from
    what they mean to do. *)

From S2P Require Import Prelude Bytes Ident Clock Wire Star GoText Glob Policy.

Section policy.
Context `{GoText}.

(** ** The order of evaluation *)

Definition statements (docs : list (option Document)) : list Statement :=
  d ← docs; match d with Some d => doc_Statement d | None => [] end.

Definition denies (req : Request) (st : Statement) : Prop :=
  statementMatches st req = true /\ Effect st = "Deny".
Definition allows (req : Request) (st : Statement) : Prop :=
  statementMatches st req = true /\ Effect st <> "Deny".

Lemma eval_statements_spec d i sts req allowed :
  match eval_statements d i sts req allowed with
  | inl _ => Exists (denies req) sts
  | inr l => ~ Exists (denies req) sts /\ (l = None <-> allowed = None /\ ~ Exists (allows req) sts)
  end.
Proof.
  revert i allowed; induction sts as [|st sts IH]; intros i allowed; cbn [eval_statements].
  { rewrite !Exists_nil. tauto. }
  destruct (statementMatches st req) eqn:Em; cbn [negb].
  - destruct (String.eqb_spec (Effect st) "Deny") as [Ed|Ed]; [left; by split|].
    specialize (IH (i + 1) (match allowed with Some l => Some l | None => Some (statementLabel d st i) end)).
    destruct (eval_statements _ _ _ _ _) as [l|l]; [by right|]. destruct IH as [Hn Hl]. rewrite !Exists_cons, Hl. split.
    + intros [[_ ?]|?]; done.
    + split; [by destruct allowed; intros [? _]|]. intros [_ Hx]. destruct Hx. by left.
  - specialize (IH (i + 1) allowed). destruct (eval_statements _ _ _ _ _) as [l|l]; [by right|].
    destruct IH as [Hn Hl]. assert (~ denies req st) by (intros [? _]; congruence).
    assert (~ allows req st) by (intros [? _]; congruence). rewrite !Exists_cons, Hl. tauto.
Qed.

Lemma eval_documents_spec docs req allowed :
  let r := (eval_documents docs req allowed).1 in
  (r = ExplicitDeny <-> Exists (denies req) (statements docs)) /\
  (r = ImplicitDeny <-> ~ Exists (denies req) (statements docs) /\ allowed = None /\
     ~ Exists (allows req) (statements docs)).
Proof.
  revert allowed; induction docs as [|[d|] docs IH]; intros allowed; cbn [eval_documents]; cbv zeta.
  - change (statements []) with (@nil Statement). rewrite !Exists_nil. destruct allowed; simpl; split; split; intuition congruence.
  - change (statements (Some d :: docs)) with (doc_Statement d ++ statements docs). rewrite !Exists_app.
    pose proof (eval_statements_spec d 0 (doc_Statement d) req allowed) as Hs.
    destruct (eval_statements d 0 _ _ _) as [l|l]; simpl; [split; split; intuition congruence|].
    destruct Hs as [Hn Hl]. destruct (IH l) as [H1 H2]. cbv zeta in *. rewrite H1, H2, Hl. tauto.
  - apply IH.
Qed.

Lemma Evaluate_spec docs req :
  ((Evaluate docs req).1 = ExplicitDeny <-> Exists (denies req) (statements docs)) /\
  ((Evaluate docs req).1 = Allowed <->
     ~ Exists (denies req) (statements docs) /\ Exists (allows req) (statements docs)).
Proof.
  destruct (eval_documents_spec docs req None) as [H1 H2]. cbv zeta in *. unfold Evaluate. split; [done|].
  assert (Exists (allows req) (statements docs) \/ ~ Exists (allows req) (statements docs)) as Hdec.
  { clear H1 H2. induction (statements docs) as [|st sts IH]; [right; by intros ?%Exists_nil|]. rewrite Exists_cons.
    assert (allows req st \/ ~ allows req st) by (unfold allows; destruct (statementMatches st req),
      (String.eqb_spec (Effect st) "Deny"); intuition congruence). tauto. }
  destruct (eval_documents docs req None).1.
  - split; [done|]. intros [_ ?]. by destruct (proj1 H2 eq_refl) as (_ & _ & []).
  - split; [|done]. intros _. assert (~ Exists (denies req) (statements docs)) as Hn by (by intros ?%H1).
    split; [done|]. destruct Hdec as [?|Hx]; [done|]. by assert (Allowed = ImplicitDeny) by by apply H2.
  - split; [done|]. intros [[] _]. by apply H1.
Qed.

(** C29: Evaluation follows the policy order, whatever order documents come in.  A request
    is explicitly denied exactly when some statement of some document that matches it
    denies; it is allowed exactly when none denies and some matching statement allows;
    otherwise it is implicitly denied.  So the decision is the same for any permutation
    of the documents. *)
Theorem Evaluate_order docs req :
  ((Evaluate docs req).1 = ExplicitDeny <-> Exists (denies req) (statements docs)) /\
  ((Evaluate docs req).1 = Allowed <->
     ~ Exists (denies req) (statements docs) /\ Exists (allows req) (statements docs)) /\
  (forall docs', docs' ≡ₚ docs -> (Evaluate docs' req).1 = (Evaluate docs req).1).
Proof.
  destruct (Evaluate_spec docs req) as [H1 H2]. split; [done|]. split; [done|]. intros docs' Hp.
  destruct (Evaluate_spec docs' req) as [H1' H2'].
  assert (statements docs' ≡ₚ statements docs) as Hs by (unfold statements; by rewrite Hp).
  assert (forall P : Statement -> Prop, Exists P (statements docs') <-> Exists P (statements docs)) as He
    by (intros P; by rewrite Hs).
  rewrite (He (denies req)) in H1'. rewrite (He (denies req)), (He (allows req)) in H2'.
  assert ((Evaluate docs' req).1 = ExplicitDeny <-> (Evaluate docs req).1 = ExplicitDeny) as E1 by tauto.
  assert ((Evaluate docs' req).1 = Allowed <-> (Evaluate docs req).1 = Allowed) as E2 by tauto.
  destruct (Evaluate docs' req).1, (Evaluate docs req).1; try done;
    first [by destruct (proj1 E1 eq_refl)|by destruct (proj2 E1 eq_refl)
          |by destruct (proj1 E2 eq_refl)|by destruct (proj2 E2 eq_refl)].
Qed.

(** ** Conditions *)

Lemma conditionsMatch_spec block ctx :
  conditionsMatch block ctx = true <->
  forall op keys key want, block !! op = Some keys -> keys !! key = Some want -> conditionMatches op key want ctx = true.
Proof.
  unfold conditionsMatch. rewrite forallb_forall. split.
  - intros Hall op keys key want Ho Hk.
    assert (In (op, keys) (range block)) as Hin.
    { apply list_elem_of_In. rewrite range_permutation. by apply elem_of_map_to_list. }
    apply Hall in Hin. simpl in Hin. rewrite forallb_forall in Hin. apply (Hin (key, want)).
    apply list_elem_of_In. rewrite range_permutation. by apply elem_of_map_to_list.
  - intros Hall [op keys] Hin. apply forallb_forall. intros [key want] Hin'. simpl.
    apply list_elem_of_In in Hin, Hin'. rewrite range_permutation in Hin. rewrite range_permutation in Hin'.
    apply elem_of_map_to_list in Hin, Hin'. by eapply Hall.
Qed.

Lemma conditionNarrows_spec block :
  conditionNarrows block = true <->
  exists op keys key want, block !! op = Some keys /\ keys !! key = Some want /\
    isNegated op = false /\ to_lower key ∈ narrowingKeys.
Proof.
  unfold conditionNarrows. rewrite existsb_exists. split.
  - intros ([op keys] & Hin & [Hn Hk]%andb_true_iff). simpl in *. apply existsb_exists in Hk as ([key want] & Hin' & Hl).
    apply bool_decide_eq_true in Hl. apply list_elem_of_In in Hin, Hin'. rewrite range_permutation in Hin. rewrite range_permutation in Hin'.
    apply elem_of_map_to_list in Hin, Hin'. exists op, keys, key, want. repeat split; try done. by apply negb_true_iff.
  - intros (op & keys & key & want & Ho & Hk & Hn & Hl). exists (op, keys). split.
    { apply list_elem_of_In. rewrite range_permutation. by apply elem_of_map_to_list. }
    simpl. rewrite Hn. simpl. apply existsb_exists. exists (key, want). split; [|by apply bool_decide_eq_true].
    apply list_elem_of_In. rewrite range_permutation. by apply elem_of_map_to_list.
Qed.

(** ** Patterns that cover patterns *)

Lemma wild_app fold a b s : wild fold (a +:+ b) s -> exists x y, s = x +:+ y /\ wild fold b y.
Proof.
  revert s; induction a as [|d a IH]; intros s Hw; [by exists "", s|]. cbn [String.append wild] in Hw.
  destruct (Ascii.eqb d star).
  - destruct Hw as (x & t & -> & Hw). apply IH in Hw as (y & z & -> & Hw). exists (x +:+ y), z. by rewrite sapp_assoc.
  - destruct Hw as (c & t & -> & _ & Hw). apply IH in Hw as (y & z & -> & Hw). by exists (String c y), z.
Qed.

(** A pattern without question marks that matches the text of another covers all that
    the other covers. *)
Lemma wild_covers fold p a s :
  has_char any p = false -> wild false p a -> wild fold a s -> wild fold p s.
Proof.
  revert a s; induction p as [|d p IH]; intros a s Hq Hp Ha; [by simpl in Hp; subst|].
  cbn [has_char] in Hq. apply orb_false_iff in Hq as [Hd%Ascii.eqb_neq Hq]. cbn [wild] in Hp |- *.
  destruct (Ascii.eqb_spec d star) as [->|Hs].
  - destruct Hp as (x & b & -> & Hp). apply wild_app in Ha as (y & z & -> & Ha). exists y, z. split; [done|].
    by apply (IH b).
  - destruct Hp as (c & a' & -> & [?|He] & Hp); [done|]. unfold eq in He. destruct (Ascii.eqb_spec d c) as [<-|]; [|done].
    cbn [wild] in Ha. destruct (Ascii.eqb_spec d star); [done|]. destruct Ha as (e & s' & -> & Hm & Ha).
    exists e, s'. split; [done|]. split; [done|]. by apply (IH a').
Qed.

Lemma wild_anything fold s : wild fold "*" s.
Proof. cbn [wild]. change (Ascii.eqb "*" star) with true. exists s, "". by rewrite sapp_nil_r. Qed.

(** ** Public documents *)

(** A statement of a resource policy as one may be written: an effect, a principal, and no
    list beside its negation. *)
Record written (st : Statement) : Prop := {
  wr_effect : Effect st = "Allow" \/ Effect st = "Deny";
  wr_principal : Present (Principal st) = true \/ Present (NotPrincipal st) = true;
  wr_action : Action st = [] \/ NotAction st = [];
  wr_resource : Resource st = [] \/ NotResource st = []
}.

(** A condition operator that fails when its key is absent. *)
Definition plain_operator (op : string) : Prop :=
  operator_of op = mkOperator Unquantified false op /\ op <> "Null".

(** The assumptions under which the public test is right: narrowing conditions use plain
    operators, and Deny patterns no question marks. *)
Record plain (st : Statement) : Prop := {
  pl_condition op keys key want : Condition st !! op = Some keys -> keys !! key = Some want ->
    isNegated op = false -> to_lower key ∈ narrowingKeys -> plain_operator op;
  pl_patterns p : Effect st = "Deny" -> p ∈ Action st \/ p ∈ Resource st -> has_char any p = false
}.

(** A caller without credentials, on a known resource, whose context says nothing of who
    it is. *)
Record anonymous (req : Request) : Prop := {
  an_principal : req_Principal req = "";
  an_resource : req_Resource req <> "";
  an_context k v : req_Context req !! k = Some v -> to_lower k ∉ narrowingKeys;
  an_action_star : has_char star (req_Action req) = false;
  an_resource_star : has_char star (req_Resource req) = false
}.

Lemma lookupKey_absent ctx key :
  (forall k v, ctx !! k = Some v -> to_lower k ∉ narrowingKeys) -> to_lower key ∈ narrowingKeys ->
  ctx !! lookupKey ctx key = None.
Proof.
  intros Hc Hk. unfold lookupKey. destruct (decide (is_Some (ctx !! key))) as [[v Hv]|Hn].
  { by destruct (Hc key v Hv). }
  destruct (List.find _ _) as [[k v]|] eqn:E.
  - apply find_some in E as [Hin Hf]. simpl in Hf. unfold equal_fold in Hf. apply String.eqb_eq in Hf.
    apply list_elem_of_In in Hin. rewrite range_permutation in Hin. apply elem_of_map_to_list in Hin.
    destruct (Hc k v Hin). by rewrite Hf.
  - destruct (ctx !! key) eqn:Ek; [|done]. destruct Hn. eauto.
Qed.

Lemma plain_absent op key want ctx :
  plain_operator op -> isNegated op = false -> ctx !! lookupKey ctx key = None -> conditionMatches op key want ctx = false.
Proof.
  intros [Ho Hnull] Hn Hc. unfold conditionMatches. rewrite Ho, Hc. cbn [base ifExists].
  destruct (String.eqb_spec op "Null"); [done|]. by rewrite Hn.
Qed.

Lemma action_granted st action :
  actionMatches st action = true -> Action st = [] \/ NotAction st = [] ->
  exists a, a ∈ grantActions st /\ wild true a action.
Proof.
  unfold actionMatches, grantActions. intros Hm Hor. destruct (NotAction st) as [|na nas] eqn:En; cbn [length Nat.ltb Nat.leb] in *.
  - apply existsb_exists in Hm as (a & Ha & Hg). exists a. destruct (Action st) eqn:Ea; [done|]. simpl.
    split; [by apply list_elem_of_In|by apply glob_sound].
  - destruct Hor as [->|]; [|done]. simpl. exists "*". split; [by left|apply wild_anything].
Qed.

Lemma resource_granted st resource :
  resourceMatches st resource = true -> Resource st = [] \/ NotResource st = [] ->
  exists r, r ∈ grantResources st /\ wild false r resource.
Proof.
  unfold resourceMatches, grantResources. intros Hm Hor.
  destruct (NotResource st) as [|nr nrs] eqn:En; cbn [length Nat.ltb Nat.leb] in *.
  - destruct (Resource st) as [|r rs] eqn:Er; cbn [length Nat.eqb Nat.leb] in *; [exists "*"; split; [by left|apply wild_anything]|].
    apply existsb_exists in Hm as (p & Hp & [->%String.eqb_eq|[_ Hg]%andb_true_iff]%orb_true_iff);
      eexists; (split; [by apply list_elem_of_In|]); [apply wild_anything|by apply glob_sound].
  - destruct Hor as [->|]; [|done]. simpl. exists "*". split; [by left|apply wild_anything].
Qed.

Lemma equal_fold_Deny st : written st -> equal_fold (Effect st) "Deny" = true -> Effect st = "Deny".
Proof. intros W. by destruct (wr_effect st W) as [-> | ->]. Qed.

(** A Deny that is weighed and covers the granted patterns matches the request. *)
Lemma cancelling_deny st a r req :
  written st -> plain st -> anonymous req -> weighed st = true ->
  coversAny (Action st) a = true -> coversAny (Resource st) r = true ->
  wild true a (req_Action req) -> wild false r (req_Resource req) -> denies req st.
Proof.
  intros W Pl An Hw Ca Cr Ha Hr. unfold weighed in Hw. repeat (apply andb_true_iff in Hw as [Hw ?]).
  pose proof (equal_fold_Deny st W Hw) as Ed. split; [|done]. unfold statementMatches.
  repeat match goal with Hx : negb _ = true |- _ => apply negb_true_iff in Hx
                       | Hx : Nat.eqb _ _ = true |- _ => apply Nat.eqb_eq in Hx end.
  apply existsb_exists in Ca as (pa & Hpa & Ga), Cr as (pr & Hpr & Gr).
  assert (actionMatches st (req_Action req) = true) as ->.
  { unfold actionMatches. rewrite H4. cbn. apply existsb_exists. exists pa. split; [done|].
    apply glob_complete; [apply (an_action_star req An)|]. apply (wild_covers true pa a); [|by apply glob_sound|done].
    apply (pl_patterns st Pl pa Ed). left. by apply list_elem_of_In. }
  assert (resourceMatches st (req_Resource req) = true) as ->.
  { unfold resourceMatches. rewrite H3. cbn [Nat.ltb Nat.leb]. destruct (Nat.eqb (length (Resource st)) 0); [done|].
    apply existsb_exists. exists pr. split; [done|]. apply orb_true_iff. right. apply andb_true_iff. split.
    { apply negb_true_iff, String.eqb_neq, (an_resource req An). }
    apply glob_complete; [apply (an_resource_star req An)|]. apply (wild_covers false pr r); [|by apply glob_sound|done].
    apply (pl_patterns st Pl pr Ed). right. by apply list_elem_of_In. }
  assert (principalMatches st (req_Principal req) (req_Account req) = true) as ->.
  { unfold principalMatches. rewrite H5. destruct (negb _); [done|]. unfold principalNamed. by rewrite H2. }
  simpl. apply conditionsMatch_spec. intros op keys key want Ho. apply map_size_empty_inv in H6. by rewrite H6, lookup_empty in Ho.
Qed.

(** C30: A document that is not public grants anonymous callers nothing.  For a document
    whose statements are written as a resource policy's may be, whose narrowing conditions
    use plain operators and whose Deny patterns have no question marks: when [IsPublic]
    answers false, no request without credentials, with no star in its action or in its
    resource, on a known resource and with a context that does not say who the caller is, is
    allowed.  A star in the text of a request is left out because there the matcher is
    wrong: it takes the star of a pattern for the same character of the text, so a Deny on
    [b/*] misses a request on [b/*x]. *)
Theorem IsPublic_sound d req :
  Forall written (doc_Statement d) -> Forall plain (doc_Statement d) -> anonymous req ->
  IsPublic (Some d) = false -> (Evaluate [Some d] req).1 <> Allowed.
Proof.
  intros W Pl An Hpub Hev. apply Evaluate_spec in Hev as [Hno Hal].
  change (statements [Some d]) with (doc_Statement d ++ []) in *. rewrite app_nil_r in *.
  rewrite Forall_forall in W, Pl. apply Exists_exists in Hal as (st & Hst & Hm & Hne).
  pose proof (W st Hst) as Wst. destruct (wr_effect st Wst) as [Ea|]; [|done].
  unfold statementMatches in Hm. repeat (apply andb_true_iff in Hm as [Hm ?]). rename H0 into Hcond, H1 into Hprin, H2 into Hres.
  assert (Any (Principal st) = true) as Hany.
  { unfold principalMatches in Hprin. rewrite Ea, (an_principal req An) in Hprin.
    destruct (Present (NotPrincipal st)) eqn:Enp; [done|]. destruct (wr_principal st Wst) as [Hp|]; [|congruence].
    rewrite Hp in Hprin. unfold principalNamed in Hprin. by destruct (Any (Principal st)). }
  assert (conditionNarrows (Condition st) = false) as Hnar.
  { apply not_true_iff_false. intros (op & keys & key & want & Ho & Hk & Hn & Hl)%conditionNarrows_spec.
    apply conditionsMatch_spec with (op := op) (keys := keys) (key := key) (want := want) in Hcond; [|done..].
    rewrite plain_absent in Hcond; [done|by eapply (pl_condition st (Pl st Hst))|done|].
    apply lookupKey_absent; [apply (an_context req An)|done]. }
  destruct (action_granted st _ Hm (wr_action st Wst)) as (a & Hin & Ha).
  destruct (resource_granted st _ Hres (wr_resource st Wst)) as (r & Hinr & Hr).
  assert (cancelledByDeny d a r = true) as Hcan.
  { destruct (cancelledByDeny d a r) eqn:E; [done|]. rewrite <- Hpub. apply existsb_exists. exists st.
    split; [by apply list_elem_of_In|]. unfold grantsEveryone. rewrite Ea, Hany, Hnar. apply existsb_exists.
    exists a. split; [by apply list_elem_of_In|]. apply existsb_exists. exists r. split; [by apply list_elem_of_In|].
    by rewrite E. }
  apply existsb_exists in Hcan as (st' & Hst' & [Hw [Ca Cr]%andb_true_iff]%andb_true_iff).
  apply list_elem_of_In in Hst'. apply Hno, Exists_exists. exists st'. split; [done|].
  by apply (cancelling_deny st' a r req (W st' Hst') (Pl st' Hst') An Hw Ca Cr).
Qed.
End policy.

(** ** Concrete documents *)

Definition everyone : principalBlock := mkPrincipal true ∅ true.
Definition statement (effect : string) (action resource : list string) : Statement :=
  mkStatement "" effect action [] resource [] everyone no_principal ∅.
Definition with_condition (op key : string) (st : Statement) : Statement :=
  mkStatement (SID st) (Effect st) (Action st) (NotAction st) (Resource st) (NotResource st) (Principal st)
    (NotPrincipal st) {[ op := {[ key := ["192.0.2.1"] ]} ]}.
Definition document (sts : list Statement) : Document := mkDocument "" "" sts.
Definition get_object (principal key : string) : Request :=
  mkRequest "s3:GetObject" ("arn:aws:s3:::b/" +:+ key) ∅ principal "".

Definition private_document : Document :=
  document [statement "Allow" ["s3:Get*"] ["arn:aws:s3:::b/*"]; statement "Deny" ["s3:*"] ["*"]].

Lemma IsPublic_sound_witness :
  IsPublic (Some private_document) = false /\ (Evaluate [Some private_document] (get_object "" "k")).1 <> Allowed.
Proof.
  split; [vm_compute; reflexivity|]. apply IsPublic_sound.
  - apply Forall_cons. split; [|apply Forall_cons; split; [|constructor]]; split; simpl; auto.
  - apply Forall_cons. split; [|apply Forall_cons; split; [|constructor]]; split; simpl.
    + intros op keys key want H. by rewrite lookup_empty in H.
    + done.
    + intros op keys key want H. by rewrite lookup_empty in H.
    + intros p _ [H|H]; apply list_elem_of_singleton in H as ->; reflexivity.
  - split; try reflexivity; [done|]. intros k v H. simpl in H. by rewrite lookup_empty in H.
  - vm_compute. reflexivity.
Defined.

(** The matcher compares characters before it looks for a star, so a pattern's star
    does not swallow a star of the string: the pattern of every object of a bucket does not
    match a key that starts with a star, and a Deny of the whole bucket to everyone leaves
    that key allowed. *)
Lemma glob_star_key :
  globMatch "arn:aws:s3:::b/*" "arn:aws:s3:::b/*x" = false /\
  wild false "arn:aws:s3:::b/*" "arn:aws:s3:::b/*x" /\
  let d := document [statement "Allow" ["*"] ["*"]; statement "Deny" ["*"] ["arn:aws:s3:::b/*"]] in
  (Evaluate [Some d] (get_object "" "x")).1 = ExplicitDeny /\ (Evaluate [Some d] (get_object "" "*x")).1 = Allowed.
Proof.
  split; [vm_compute; reflexivity|]. split; [|split; vm_compute; reflexivity].
  repeat (apply wild_char; [discriminate|split; [right; reflexivity|]]). apply wild_anything.
Qed.

(** The public test errs toward private in four cases.  Each of these documents allows an
    anonymous read and is said not to be public: a Deny whose question mark matches the
    star of the granted pattern, though it denies less; a narrowing condition that passes
    when its key is absent; a negated condition behind a quantifier, which is taken for a
    narrowing one; and a statement without a principal, which matches every caller. *)
Lemma IsPublic_misses :
  let read := statement "Allow" ["s3:GetObject"] ["arn:aws:s3:::b/*"] in
  Forall (fun d => IsPublic (Some d) = false /\ (Evaluate [Some d] (get_object "" "key")).1 = Allowed)
    [document [statement "Allow" ["s3:Get*"] ["*"]; statement "Deny" ["s3:Get?"] ["*"]];
     document [with_condition "StringEqualsIfExists" "aws:SourceIp" read];
     document [with_condition "ForAnyValue:StringNotEquals" "aws:SourceIp" read];
     document [mkStatement "" "Allow" ["s3:GetObject"] [] ["arn:aws:s3:::b/*"] [] no_principal no_principal ∅]].
Proof. repeat constructor; vm_compute; reflexivity. Qed.
