(* ===== verification/Guard.v ===== *)
(** * Guard: the resource-policy half of IAM

    Model of src/internal/iamguard/guard.go: the check a service runs on its own requests,
    which combines the identity verdict of the middleware with the policies of the resource.
    The stamped headers are a record; the answer is an error or the leave to proceed. *)

From S2P Require Import Prelude Bytes Ident Clock Wire Star GoText Glob Policy PolicySpec.

(** The headers the middleware stamps, and its offer to judge another pair. *)
Record Stamped := mkStamped {
  st_Mode : string;
  st_Principal : string;
  st_Identity : string;
  st_Action : string;
  st_Resource : string;
  st_SourceARN : string;
  st_reauthorize : option (string -> string -> string)
}.

Record Guard := mkGuard { g_Mode : string; KeyPolicyGates : bool; g_Account : string }.

Definition IdentityAllowed : string := "allowed".
Definition IdentityImplicitDeny : string := "implicitDeny".
Definition IdentityExplicitDeny : string := "explicitDeny".
Definition IdentityRoot : string := "root".
Definition IdentityService : string := "service".

Definition combine (resource : Decision) (identity : string) (keyGateClosed : bool) : Decision :=
  match resource with
  | ExplicitDeny => ExplicitDeny
  | _ =>
      if String.eqb identity IdentityExplicitDeny then ExplicitDeny
      else match resource with
      | Allowed => Allowed
      | _ =>
          if String.eqb identity IdentityRoot || String.eqb identity IdentityAllowed then
            if keyGateClosed then ImplicitDeny else Allowed
          else ImplicitDeny
      end
  end.

(** The principal, or the account root; the verdict, or what the principal implies. *)
Definition caller_of (g : Guard) (r : Stamped) : string :=
  if String.eqb (st_Principal r) "" then root_arn (g_Account g) else st_Principal r.

Definition identity_of (g : Guard) (r : Stamped) (action resource : string) : string :=
  let identity :=
    if String.eqb (st_Identity r) "" then
      if has_suffix (caller_of g r) ".amazonaws.com" then IdentityService else IdentityRoot
    else st_Identity r in
  if String.eqb identity IdentityService || String.eqb identity IdentityRoot then identity
  else if negb (String.eqb (st_Action r) action) || negb (String.eqb (st_Resource r) resource) then
    match st_reauthorize r with Some ask => ask action resource | None => identity end
  else identity.

Definition mode_of (g : Guard) (r : Stamped) : string :=
  if String.eqb (st_Mode r) "" then g_Mode g else st_Mode r.

Definition guard_context (g : Guard) (r : Stamped) : gmap string (list string) :=
  let ctx := <["aws:PrincipalArn" := [caller_of g r]]> (<["aws:PrincipalAccount" := [account_of (g_Account g)]]>
    {["aws:SourceAccount" := [account_of (g_Account g)]]}) in
  if String.eqb (st_SourceARN r) "" then ctx else <["aws:SourceArn" := [st_SourceARN r]]> ctx.

Section guard.
Context `{GoText}.

Definition accountAdmitted (g : Guard) (docs : list (option Document)) (action resource : string)
    (ctx : gmap string (list string)) : bool :=
  let root := root_arn (g_Account g) in
  match (Evaluate docs (mkRequest action resource (<["aws:PrincipalArn" := [root]]> ctx) root
           (account_of (g_Account g)))).1 with
  | Allowed => true
  | _ => false
  end.

(** The verdict on the resource's policies. *)
Definition resource_decision (g : Guard) (r : Stamped) (docs : list (option Document)) (action resource : string) :
  Decision * string :=
  Evaluate docs (mkRequest action resource (guard_context g r) (caller_of g r) (account_of (g_Account g))).

Definition guard_decision (g : Guard) (r : Stamped) (docs : list (option Document)) (action resource : string) :
  Decision :=
  combine (resource_decision g r docs action resource).1 (identity_of g r action resource)
    (KeyPolicyGates g && negb (accountAdmitted g docs action resource (guard_context g r))).

Definition Check_request (g : Guard) (r : Stamped) (docs : list (option Document)) (action resource : string) :
  option APIError :=
  let mode := mode_of g r in
  if String.eqb mode "" || String.eqb mode "off" then None
  else match guard_decision g r docs action resource with
  | Allowed => None
  | _ =>
      if String.eqb mode "soft" then None
      else Some (Errf 403 "AccessDeniedException"
        "User: %s is not authorized to perform: %s on resource: %s because %s")
  end.

Definition CheckIdentity (g : Guard) (r : Stamped) (action resource : string) : option APIError :=
  Check_request (mkGuard (g_Mode g) false (g_Account g)) r [] action resource.

(** ** What the guard promises *)

Lemma identity_service g r action resource :
  st_Identity r = IdentityService \/ (st_Identity r = "" /\ has_suffix (caller_of g r) ".amazonaws.com" = true) ->
  identity_of g r action resource = IdentityService.
Proof. unfold identity_of. intros [->|[-> ->]]; reflexivity. Qed.

Definition enforced (g : Guard) (r : Stamped) : Prop := mode_of g r ∉ [""; "off"; "soft"].

Lemma Check_passes g r docs action resource :
  enforced g r -> Check_request g r docs action resource = None <-> guard_decision g r docs action resource = Allowed.
Proof.
  unfold enforced, Check_request. rewrite !not_elem_of_cons. intros (H1 & H2 & H3 & _).
  rewrite (proj2 (String.eqb_neq _ _) H1), (proj2 (String.eqb_neq _ _) H2), (proj2 (String.eqb_neq _ _) H3). simpl.
  by destruct (guard_decision _ _ _ _ _).
Qed.

Lemma combine_Allowed d identity closed :
  combine d identity closed = Allowed <->
  d <> ExplicitDeny /\ identity <> IdentityExplicitDeny /\
  (d = Allowed \/ ((identity = IdentityRoot \/ identity = IdentityAllowed) /\ closed = false)).
Proof.
  unfold combine. destruct d; try done;
    destruct (String.eqb_spec identity IdentityExplicitDeny) as [->|Hd]; simpl; try intuition discriminate.
  destruct (String.eqb_spec identity IdentityRoot) as [->|Hr]; simpl; [destruct closed; intuition discriminate|].
  destruct (String.eqb_spec identity IdentityAllowed) as [->|Ha]; simpl; destruct closed; intuition discriminate.
Qed.

(** C28: Under enforcement a request passes the guard exactly by the same-account rule, stated
    on the statements of the resource's policies: no matching statement denies, the identity
    verdict is no explicit denial, and either a matching statement allows, or the identity
    verdict is root or allowed and, where the key policy gates, some policy of the resource
    allows the account root and none denies it.  In particular a service principal passes
    only by an allowing statement; and with the mode absent, off or soft every request
    passes. *)
Theorem Check_same_account_rule g r docs action resource :
  let req := mkRequest action resource (guard_context g r) (caller_of g r) (account_of (g_Account g)) in
  let root := root_arn (g_Account g) in
  let as_root := mkRequest action resource (<["aws:PrincipalArn" := [root]]> (guard_context g r)) root
    (account_of (g_Account g)) in
  let identity := identity_of g r action resource in
  (enforced g r -> Check_request g r docs action resource = None <->
     ~ Exists (denies req) (statements docs) /\ identity <> IdentityExplicitDeny /\
     (Exists (allows req) (statements docs) \/
      ((identity = IdentityRoot \/ identity = IdentityAllowed) /\
       (KeyPolicyGates g = true ->
          ~ Exists (denies as_root) (statements docs) /\ Exists (allows as_root) (statements docs))))) /\
  (enforced g r -> has_suffix (caller_of g r) ".amazonaws.com" = true ->
     st_Identity r = "" \/ st_Identity r = IdentityService ->
     Check_request g r docs action resource = None -> Exists (allows req) (statements docs)) /\
  (~ enforced g r -> Check_request g r docs action resource = None).
Proof.
  intros req root as_root identity.
  destruct (Evaluate_spec docs req) as [Hd Ha]. destruct (Evaluate_spec docs as_root) as [_ Hr].
  assert (enforced g r -> Check_request g r docs action resource = None <->
     ~ Exists (denies req) (statements docs) /\ identity <> IdentityExplicitDeny /\
     (Exists (allows req) (statements docs) \/
      ((identity = IdentityRoot \/ identity = IdentityAllowed) /\
       (KeyPolicyGates g = true ->
          ~ Exists (denies as_root) (statements docs) /\ Exists (allows as_root) (statements docs))))) as Hmain.
  { intros He. rewrite (Check_passes g r docs action resource He). unfold guard_decision, resource_decision.
    fold req identity. rewrite combine_Allowed, Ha, andb_false_iff, negb_false_iff. unfold accountAdmitted.
    fold root as_root. assert (Hr' : match (Evaluate docs as_root).1 with Allowed => true | _ => false end = true <->
      (Evaluate docs as_root).1 = Allowed) by (by destruct (Evaluate docs as_root).1).
    rewrite Hr', Hr. assert ((Evaluate docs req).1 <> ExplicitDeny <-> ~ Exists (denies req) (statements docs)) as ->
      by (by rewrite Hd). destruct (KeyPolicyGates g); intuition discriminate. }
  split; [done|]. split.
  - intros He Hs Hi Hp. apply Hmain in Hp as (_ & _ & [?|[Hx _]]); [done| |done].
    unfold identity in Hx. rewrite identity_service in Hx; [|tauto]. by destruct Hx.
  - unfold enforced, Check_request. intros He.
    destruct (String.eqb_spec (mode_of g r) ""); [done|]. destruct (String.eqb_spec (mode_of g r) "off"); [done|].
    destruct (String.eqb_spec (mode_of g r) "soft"); [by destruct (guard_decision _ _ _ _ _)|].
    destruct He. rewrite !not_elem_of_cons. repeat split; try done. apply not_elem_of_nil.
Qed.
End guard.

Definition queue_policy : Document := document [mkStatement "" "Allow" ["sqs:SendMessage"] [] ["*"] []
  (mkPrincipal false {[ "Service" := ["sns.amazonaws.com"] ]} true) no_principal ∅].
Definition enforcing : Guard := mkGuard "enforce" false "".
Definition from_service (svc : string) : Stamped := mkStamped "" svc "" "" "" "" None.

Lemma Check_same_account_rule_witness :
  (Exists (allows (mkRequest "sqs:SendMessage" "arn:aws:sqs:::q" (guard_context enforcing (from_service "sns.amazonaws.com"))
     "sns.amazonaws.com" "000000000000")) (statements [Some queue_policy])) /\
  Check_request enforcing (from_service "s3.amazonaws.com") [Some queue_policy] "sqs:SendMessage" "arn:aws:sqs:::q" <> None.
Proof.
  split; [|vm_compute; discriminate].
  apply (Check_same_account_rule enforcing (from_service "sns.amazonaws.com") [Some queue_policy] "sqs:SendMessage"
    "arn:aws:sqs:::q").
  - unfold enforced. vm_compute. set_solver.
  - vm_compute. reflexivity.
  - by left.
  - vm_compute. reflexivity.
Defined.
