(* ===== verification/Queues.v ===== *)
(** * Queues: the queues of the message service and their attributes

    Model of src/sqs/store.go (queue lifecycle), attrs.go (attributes), store_ext.go (tags)
    and errors.go.  A transaction is a function of the database that answers a value or an
    error and the database it leaves; [Commit] keeps what a transaction wrote unless it
    failed.  A batch goes on after an item's error, so an error keeps the database too.

    The clock is read as one instant per operation, in nanoseconds. *)

From stdpp Require Import pretty sorting.
From S2P Require Import Prelude Bytes Ident Clock Wire Star GoText Glob Policy Bolt.

(** ** Data *)

Record queue := mkQueue {
  q_Name : string;
  FIFO : bool;
  ContentBasedDedup : bool;
  VisibilityTimeout : Z;
  DelaySeconds : Z;
  RetentionPeriod : Z;
  MaxMessageSize : Z;
  WaitTimeSeconds : Z;
  DeadLetterTarget : string;
  MaxReceiveCount : Z;
  Created : Z;
  Modified : Z;
  Attrs : gmap string string;
  Tags : gmap string string
}.

Record attr := mkAttr { DataType : string; StringValue : string; BinaryValue : string }.

Record message := mkMessage {
  m_ID : string;
  m_Body : string;
  m_Attrs : gmap string attr;
  m_MD5Body : string;
  m_MD5Attrs : string;
  m_Sent : Z;
  m_VisibleAt : Z;
  m_ReceiveCount : Z;
  m_FirstReceived : Z;
  m_SysAttrs : gmap string string;
  m_GroupID : string;
  m_DedupID : string;
  m_Seq : Z
}.

Record dedupRec := mkDedupRec { dd_At : Z; dd_ID : string; dd_MD5Body : string }.

Record moveTask := mkMoveTask {
  mt_Handle : string;
  mt_Status : string;
  mt_Source : string;
  mt_Destination : string;
  mt_Moved : Z;
  mt_StartedAt : Z
}.

Definition defVisibilityTimeout : Z := 30.
Definition defRetentionPeriod : Z := 345600.
Definition defMaxMessageSize : Z := 262144.

Definition set_fifo (b : bool) (q : queue) : queue :=
  mkQueue (q_Name q) b (ContentBasedDedup q) (VisibilityTimeout q) (DelaySeconds q) (RetentionPeriod q)
    (MaxMessageSize q) (WaitTimeSeconds q) (DeadLetterTarget q) (MaxReceiveCount q) (Created q) (Modified q) (Attrs q) (Tags q).
Definition set_dedup_by_content (b : bool) (q : queue) : queue :=
  mkQueue (q_Name q) (FIFO q) b (VisibilityTimeout q) (DelaySeconds q) (RetentionPeriod q)
    (MaxMessageSize q) (WaitTimeSeconds q) (DeadLetterTarget q) (MaxReceiveCount q) (Created q) (Modified q) (Attrs q) (Tags q).
Definition set_limits (vis delay retention size wait : Z) (q : queue) : queue :=
  mkQueue (q_Name q) (FIFO q) (ContentBasedDedup q) vis delay retention size wait (DeadLetterTarget q)
    (MaxReceiveCount q) (Created q) (Modified q) (Attrs q) (Tags q).
Definition set_redrive (target : string) (count : Z) (q : queue) : queue :=
  mkQueue (q_Name q) (FIFO q) (ContentBasedDedup q) (VisibilityTimeout q) (DelaySeconds q) (RetentionPeriod q)
    (MaxMessageSize q) (WaitTimeSeconds q) target count (Created q) (Modified q) (Attrs q) (Tags q).
Definition set_attrs (m : gmap string string) (q : queue) : queue :=
  mkQueue (q_Name q) (FIFO q) (ContentBasedDedup q) (VisibilityTimeout q) (DelaySeconds q) (RetentionPeriod q)
    (MaxMessageSize q) (WaitTimeSeconds q) (DeadLetterTarget q) (MaxReceiveCount q) (Created q) (Modified q) m (Tags q).
Definition set_tags (m : gmap string string) (q : queue) : queue :=
  mkQueue (q_Name q) (FIFO q) (ContentBasedDedup q) (VisibilityTimeout q) (DelaySeconds q) (RetentionPeriod q)
    (MaxMessageSize q) (WaitTimeSeconds q) (DeadLetterTarget q) (MaxReceiveCount q) (Created q) (Modified q) (Attrs q) m.
Definition set_modified (n : Z) (q : queue) : queue :=
  mkQueue (q_Name q) (FIFO q) (ContentBasedDedup q) (VisibilityTimeout q) (DelaySeconds q) (RetentionPeriod q)
    (MaxMessageSize q) (WaitTimeSeconds q) (DeadLetterTarget q) (MaxReceiveCount q) (Created q) n (Attrs q) (Tags q).

(** ** Errors *)

Definition errQueueMissing : APIError :=
  mkAPIError "AWS.SimpleQueueService.NonExistentQueue" 400 "The specified queue does not exist: %s" true None.
Definition errQueueExists : APIError :=
  mkAPIError "QueueAlreadyExists" 400
    "A queue already exists with the same name and a different value for attribute %s" true None.
Definition errInvalid (msg : string) : APIError := mkAPIError "InvalidParameterValue" 400 msg true None.
Definition errInvalidAttrValue (attr msg : string) : APIError :=
  mkAPIError "InvalidAttributeValue" 400
    ("Value for parameter " +:+ attr +:+ " is invalid. Reason: " +:+ msg +:+ ".") true None.
Definition errBatch (code msg : string) : APIError :=
  mkAPIError ("AWS.SimpleQueueService." +:+ code) 400 msg true None.

(** ** Names *)

Definition arnQueueName (arn : string) : string := default arn (after_last ":" arn).
Definition queueNameFromURL (qurl : string) : string := default qurl (after_last "/" qurl).

Definition queueARN (id : Identity) (name : string) : string := ARN id "sqs" name.

(** A byte the entry-id pattern and the queue-name check admit. *)
Definition name_char (c : ascii) : bool :=
  ((97 <=? byte_of c) && (byte_of c <=? 122)) || ((65 <=? byte_of c) && (byte_of c <=? 90)) ||
  ((48 <=? byte_of c) && (byte_of c <=? 57)) || Ascii.eqb c "-" || Ascii.eqb c "_".

Definition queueNameMax : Z := 80.

Definition validQueueName (name : string) : option APIError :=
  let body := default name (cut_suffix name ".fifo") in
  if queueNameMax <? slen name then
    Some (errInvalid "queue name is longer than 80 characters (the .fifo suffix counts toward the limit)")
  else if String.eqb body "" then Some (errInvalid "queue name is required")
  else if forallb name_char (String.list_ascii_of_string body) then None
  else Some (errInvalid "queue name may contain only alphanumeric characters, hyphens and underscores, and got %s").

Definition batchEntryID (id : string) : bool :=
  (1 <=? slen id) && (slen id <=? 80) && forallb name_char (String.list_ascii_of_string id).

Fixpoint checkEntries (seen : gset string) (ids : list string) : option APIError :=
  match ids with
  | [] => None
  | id :: ids' =>
      if negb (batchEntryID id) then Some (errBatch "InvalidBatchEntryId"
        "A batch entry id can only contain alphanumeric characters, hyphens and underscores. It can be at most 80 letters long.")
      else if bool_decide (id ∈ seen) then Some (errBatch "BatchEntryIdsNotDistinct" "Id %s repeated.")
      else checkEntries ({[id]} ∪ seen) ids'
  end.

Definition checkBatch (ids : list string) : option APIError :=
  if Nat.eqb (length ids) 0 then
    Some (errBatch "EmptyBatchRequest" "There should be at least one %s in the request.")
  else if Nat.ltb 10 (length ids) then
    Some (errBatch "TooManyEntriesInBatchRequest" "Maximum number of entries per request are 10. You have sent %d.")
  else checkEntries ∅ ids.

(** ** Attributes *)

Definition attrRange (attr : string) : option (Z * Z) :=
  if String.eqb attr "VisibilityTimeout" then Some (0, 43200)
  else if String.eqb attr "DelaySeconds" then Some (0, 900)
  else if String.eqb attr "MessageRetentionPeriod" then Some (60, 1209600)
  else if String.eqb attr "MaximumMessageSize" then Some (1024, 262144)
  else if String.eqb attr "ReceiveMessageWaitTimeSeconds" then Some (0, 20)
  else None.

Definition atoiAttr (attr v : string) : result Z :=
  match parse_int (trim_space v) with
  | None => Err (errInvalidAttrValue attr "must be an integer")
  | Some n =>
      match attrRange attr with
      | Some (lo, hi) =>
          if (n <? lo) || (hi <? n) then Err (errInvalidAttrValue attr "must be between %d and %d") else Ok n
      | None => Ok n
      end
  end.

Definition storedAttrs : list string :=
  ["Policy"; "RedriveAllowPolicy"; "KmsMasterKeyId"; "KmsDataKeyReusePeriodSeconds"; "SqsManagedSseEnabled";
   "DeduplicationScope"; "FifoThroughputLimit"].
Definition computedAttrs : list string :=
  ["QueueArn"; "CreatedTimestamp"; "LastModifiedTimestamp"; "ApproximateNumberOfMessages";
   "ApproximateNumberOfMessagesNotVisible"; "ApproximateNumberOfMessagesDelayed"].

Section attributes.
Context `{GoText} `{JsonText}.

Definition quote : ascii := chr 34.

Definition applyRedrive (q : queue) (v : string) (lookup : string -> option queue) : result queue :=
  match redrive_fields v with
  | None => Err (errInvalid "invalid RedrivePolicy: %s")
  | Some (arn, raw) =>
      if String.eqb (trim_space arn) "" then Err (errInvalidAttrValue "RedrivePolicy" "deadLetterTargetArn is required")
      else match parse_int (trim (Ascii.eqb quote) (trim_space raw)) with
      | None => Err (errInvalidAttrValue "RedrivePolicy" "maxReceiveCount must be an integer")
      | Some count =>
          if (count <? 1) || (1000 <? count) then
            Err (errInvalidAttrValue "RedrivePolicy" "maxReceiveCount must be between 1 and 1000")
          else
            let target := arnQueueName arn in
            if String.eqb target (q_Name q) then
              Err (errInvalidAttrValue "RedrivePolicy" "a queue cannot be its own dead-letter queue")
            else match lookup target with
            | None => Err (errInvalidAttrValue "RedrivePolicy" "dead-letter target does not exist: %s")
            | Some dlq =>
                if negb (Bool.eqb (FIFO dlq) (FIFO q)) then Err (errInvalidAttrValue "RedrivePolicy"
                  "dead-letter queue must be the same type as the source queue (FIFO or standard)")
                else Ok (set_redrive target count q)
            end
      end
  end.

(** One attribute folded into the definition. *)
Definition applyAttr (lookup : string -> option queue) (q : queue) (k v : string) : result queue :=
  if String.eqb k "FifoQueue" then Ok (set_fifo (String.eqb v "true") q)
  else if String.eqb k "ContentBasedDeduplication" then Ok (set_dedup_by_content (String.eqb v "true") q)
  else if String.eqb k "VisibilityTimeout" then n ← atoiAttr k v;
    Ok (set_limits n (DelaySeconds q) (RetentionPeriod q) (MaxMessageSize q) (WaitTimeSeconds q) q)
  else if String.eqb k "DelaySeconds" then n ← atoiAttr k v;
    Ok (set_limits (VisibilityTimeout q) n (RetentionPeriod q) (MaxMessageSize q) (WaitTimeSeconds q) q)
  else if String.eqb k "MessageRetentionPeriod" then n ← atoiAttr k v;
    Ok (set_limits (VisibilityTimeout q) (DelaySeconds q) n (MaxMessageSize q) (WaitTimeSeconds q) q)
  else if String.eqb k "MaximumMessageSize" then n ← atoiAttr k v;
    Ok (set_limits (VisibilityTimeout q) (DelaySeconds q) (RetentionPeriod q) n (WaitTimeSeconds q) q)
  else if String.eqb k "ReceiveMessageWaitTimeSeconds" then n ← atoiAttr k v;
    Ok (set_limits (VisibilityTimeout q) (DelaySeconds q) (RetentionPeriod q) (MaxMessageSize q) n q)
  else if String.eqb k "RedrivePolicy" then
    if String.eqb v "" then Ok (set_redrive "" 0 q) else applyRedrive q v lookup
  else if existsb (String.eqb k) computedAttrs then Ok q
  else if negb (existsb (String.eqb k) storedAttrs) then
    Err (mkAPIError "InvalidAttributeName" 400 "Unknown Attribute %s." true None)
  else if String.eqb v "" then Ok (set_attrs (delete k (Attrs q)) q)
  else Ok (set_attrs (<[k := v]> (Attrs q)) q).

Fixpoint applyAttrs_in (lookup : string -> option queue) (q : queue) (attrs : list (string * string)) : result queue :=
  match attrs with
  | [] => Ok q
  | (k, v) :: rest => q ← applyAttr lookup q k v; applyAttrs_in lookup q rest
  end.

(** The attributes in the order the map is ranged over. *)
Definition applyAttrs (q : queue) (attrs : gmap string string) (lookup : string -> option queue) : result queue :=
  applyAttrs_in lookup q (range attrs).

Definition format_bool (b : bool) : string := if b then "true" else "false".
Definition get (m : gmap string string) (k : string) : string := default "" (m !! k).

Definition configuredAttrs (id : Identity) (q : queue) : gmap string string :=
  let out := <["ReceiveMessageWaitTimeSeconds" := pretty (WaitTimeSeconds q)]>
    (<["MaximumMessageSize" := pretty (MaxMessageSize q)]> (<["MessageRetentionPeriod" := pretty (RetentionPeriod q)]>
    (<["DelaySeconds" := pretty (DelaySeconds q)]> (<["VisibilityTimeout" := pretty (VisibilityTimeout q)]> (Attrs q))))) in
  let out := match out !! "SqsManagedSseEnabled" with
    | Some _ => out
    | None => <["SqsManagedSseEnabled" := format_bool (String.eqb (get out "KmsMasterKeyId") "")]> out
    end in
  let out := if FIFO q then <["ContentBasedDeduplication" := format_bool (ContentBasedDedup q)]>
    (<["FifoQueue" := "true"]> out) else out in
  if String.eqb (DeadLetterTarget q) "" then out
  else <["RedrivePolicy" := json_marshal (JObj (<["deadLetterTargetArn" := JStr (queueARN id (DeadLetterTarget q))]>
         {["maxReceiveCount" := JNum (pretty (MaxReceiveCount q))]}))]> out.

(** Numbers as the text of their value, throughout. *)
Fixpoint looseJSON (v : json) : json :=
  match v with
  | JObj m => JObj (looseJSON <$> m)
  | JArr l => JArr (looseJSON <$> l)
  | JNum t => JStr (float_text t)
  | _ => v
  end.

Definition sameAttrValue (a b : string) : bool :=
  if String.eqb a b then true
  else match json_parse a, json_parse b with
  | Some ja, Some jb => json_eqb (looseJSON ja) (looseJSON jb)
  | _, _ => false
  end.
End attributes.

(** ** The database *)

Definition msgBucket (queue : string) : string := "q:" +:+ queue.
Definition dedupBucket (queue : string) : string := "dedup:" +:+ queue.

(** The buckets by name, one map for each type of value stored. *)
Record SqsDB `{Bolt} := mkSqsDB {
  s_meta : option (bucket queue);
  s_msgs : gmap string (bucket message);
  s_dedup : gmap string (bucket dedupRec);
  s_tasks : option (bucket moveTask)
}.

Definition empty_SqsDB `{Bolt} : SqsDB := mkSqsDB _ None ∅ ∅ None.

Section database.
Context `{Bolt}.

Definition set_meta (b : bucket queue) (db : SqsDB) : SqsDB := mkSqsDB _ (Some b) (s_msgs db) (s_dedup db) (s_tasks db).
Definition set_msgs (m : gmap string (bucket message)) (db : SqsDB) : SqsDB :=
  mkSqsDB _ (s_meta db) m (s_dedup db) (s_tasks db).
Definition set_dedup (m : gmap string (bucket dedupRec)) (db : SqsDB) : SqsDB :=
  mkSqsDB _ (s_meta db) (s_msgs db) m (s_tasks db).
Definition set_tasks (b : bucket moveTask) (db : SqsDB) : SqsDB := mkSqsDB _ (s_meta db) (s_msgs db) (s_dedup db) (Some b).

Definition Sq (A : Type) : Type := SqsDB -> result A * SqsDB.

#[global] Instance Sq_ret : MRet Sq := fun _ a db => (Ok a, db).
#[global] Instance Sq_bind : MBind Sq := fun _ _ f m db =>
  match m db with (Ok a, db') => f a db' | (Err e, db') => (Err e, db') end.

Definition sThrow {A} (e : APIError) : Sq A := fun db => (Err e, db).
Definition sRead : Sq SqsDB := fun db => (Ok db, db).
Definition sModify (f : SqsDB -> SqsDB) : Sq unit := fun db => (Ok tt, f db).
Definition sLift {A} (r : result A) : Sq A := fun db => (r, db).

(** [db.Update]: commits, or rolls back on an error. *)
Definition Commit {A} (f : Sq A) (db : SqsDB) : result A * SqsDB :=
  match f db with
  | (Ok a, db') => (Ok a, db')
  | (Err e, _) => (Err e, db)
  end.

(** [db.View]. *)
Definition Inspect {A} (f : Sq A) (db : SqsDB) : result A := (f db).1.

Definition put_msg (bucket_name : string) (k : string) (m : message) : Sq unit :=
  db ← sRead;
  b ← sLift (bput k m (default bempty (s_msgs db !! bucket_name)));
  sModify (set_msgs (<[bucket_name := b]> (s_msgs db))).

Definition delete_msg (bucket_name : string) (k : string) : Sq unit :=
  sModify (fun db => set_msgs (alter (bdelete k) bucket_name (s_msgs db)) db).

Fixpoint sEach {A} (f : A -> Sq unit) (l : list A) : Sq unit :=
  match l with [] => mret tt | a :: l' => _ ← f a; sEach f l' end.

(** ** Queue definitions *)

Definition find_queue (db : SqsDB) (name : string) : option queue := s_meta db ≫= bget name.

Definition getQueue (name : string) : Sq queue :=
  db ← sRead;
  match find_queue db name with Some q => mret q | None => sThrow errQueueMissing end.

Definition putQueue (q : queue) : Sq unit :=
  db ← sRead;
  b ← sLift (bput (q_Name q) q (default bempty (s_meta db)));
  sModify (set_meta b).

(** The tail of [CreateQueue] once the name is valid. *)
Section lifecycle.
Context `{GoText} `{JsonText} (id : Identity).

(** The first attribute, by name, whose value is not the queue's. *)
Definition first_difference (q : queue) (attrs : gmap string string) : option string :=
  List.find (fun k => negb (sameAttrValue (get (configuredAttrs id q) k) (get attrs k)))
    (sort_strings (map_to_list attrs).*1).

Definition new_queue (now : Z) (name : string) (fifo : bool) : queue :=
  mkQueue name fifo false defVisibilityTimeout 0 defRetentionPeriod defMaxMessageSize 0 "" 0
    (now / 1000000000) 0 ∅ ∅.

Definition createQueue (now : Z) (name : string) (attrs tags : gmap string string) : Sq queue :=
  db ← sRead;
  match find_queue db name with
  | Some q =>
      match first_difference q attrs with
      | Some k => sThrow errQueueExists
      | None => mret q
      end
  | None =>
      q ← sLift (applyAttrs (new_queue now name (String.eqb (get attrs "FifoQueue") "true")) attrs (find_queue db));
      let q := set_tags (tags ∪ Tags q) q in
      _ ← putQueue q;
      mret q
  end.

Definition CreateQueue (now : Z) (name : string) (attrs tags : gmap string string) (db : SqsDB) :
  result queue * SqsDB :=
  if String.eqb name "" then (Err (errInvalid "queue name is required"), db)
  else match validQueueName name with
  | Some e => (Err e, db)
  | None =>
      let fifoAttr := String.eqb (get attrs "FifoQueue") "true" in
      if negb (Bool.eqb (has_suffix name ".fifo") fifoAttr) && (fifoAttr || has_suffix name ".fifo") then
        (Err (errInvalid "FIFO queue names must end in .fifo and only FIFO queues may"), db)
      else Commit (createQueue now name attrs tags) db
  end.

Definition SetAttributes (now : Z) (name : string) (attrs : gmap string string) : SqsDB -> result unit * SqsDB :=
  Commit (
    q ← getQueue name;
    db ← sRead;
    q ← sLift (applyAttrs q attrs (find_queue db));
    putQueue (set_modified (now / 1000000000) q)).

(** The counts of visible, in-flight and delayed messages. *)
Definition count_messages (now : Z) (l : list (string * message)) : Z * Z * Z :=
  foldl (fun '(visible, inflight, delayed) e =>
    if m_VisibleAt e.2 <=? now then (visible + 1, inflight, delayed)
    else if m_ReceiveCount e.2 =? 0 then (visible, inflight, delayed + 1)
    else (visible, inflight + 1, delayed)) (0, 0, 0) l.

Definition Attributes (now : Z) (name : string) : SqsDB -> result (gmap string string) :=
  Inspect (
    q ← getQueue name;
    db ← sRead;
    let '(visible, inflight, delayed) := match s_msgs db !! msgBucket name with
      | Some mb => count_messages now (bentries mb)
      | None => (0, 0, 0)
      end in
    let modified := if Modified q =? 0 then Created q else Modified q in
    mret (<["QueueArn" := queueARN id name]>
      (<["ApproximateNumberOfMessagesDelayed" := pretty delayed]>
      (<["ApproximateNumberOfMessagesNotVisible" := pretty inflight]>
      (<["ApproximateNumberOfMessages" := pretty visible]>
      (<["LastModifiedTimestamp" := pretty modified]>
      (<["CreatedTimestamp" := pretty (Created q)]> (configuredAttrs id q)))))))).
End lifecycle.

Definition DeleteQueue (name : string) : SqsDB -> result unit * SqsDB :=
  Commit (
    _ ← getQueue name;
    _ ← sModify (fun db => set_meta (bdelete name (default bempty (s_meta db))) db);
    _ ← sModify (fun db => set_msgs (delete (msgBucket name) (s_msgs db)) db);
    sModify (fun db => set_dedup (delete (dedupBucket name) (s_dedup db)) db)).

Definition ListQueues (prefix : string) (db : SqsDB) : list string :=
  match s_meta db with
  | None => []
  | Some b => sort_strings (filter (fun k => prefix = "" \/ has_prefix k prefix = true) (bentries b).*1)
  end.

Definition TagQueue (name : string) (tags : gmap string string) : SqsDB -> result unit * SqsDB :=
  Commit (q ← getQueue name; putQueue (set_tags (tags ∪ Tags q) q)).

Definition UntagQueue (name : string) (keys : list string) : SqsDB -> result unit * SqsDB :=
  Commit (q ← getQueue name; putQueue (set_tags (foldl (fun m k => delete k m) (Tags q) keys) q)).

Definition QueueTags (name : string) : SqsDB -> result (gmap string string) :=
  Inspect (q ← getQueue name; mret (Tags q)).

Definition DeadLetterSourceQueues (dlq : string) : SqsDB -> result (list string) :=
  Inspect (
    _ ← getQueue dlq;
    db ← sRead;
    mret (match s_meta db with
      | None => []
      | Some b => sort_strings (q_Name <$> filter (fun q => DeadLetterTarget q = dlq) (bentries b).*2)
      end)).
End database.
