(* ===== verification/Messages.v ===== *)
(** * Messages: sending, receiving and deleting

    Model of src/sqs/store.go (enqueue), receive.go (the receive pass, receipt handles, the
    deduplication records), store_ext.go (move tasks), sweeper.go and md5.go. *)

From stdpp Require Import pretty.
From S2P Require Import Prelude Bytes Ident Clock Wire Star GoText Glob Policy Bolt Cursor Queues.

(** Whether a message is past its retention. *)
Definition expired_message (q : queue) (now : Z) (m : message) : bool :=
  (0 <? RetentionPeriod q) && (duration (RetentionPeriod q) <? sat64 (now - m_Sent m)).

(** ** Digests and handles *)

Definition hex_digit (n : Z) : ascii := chr (if n <? 10 then 48 + n else 87 + n).
Fixpoint hex (s : string) : string :=
  match s with
  | EmptyString => EmptyString
  | String c s' => String (hex_digit (byte_of c / 16)) (String (hex_digit (byte_of c mod 16)) (hex s'))
  end.

Definition writeField (b : string) : string := be32 (slen b) +:+ b.

Definition md5_attribute (name : string) (a : attr) : string :=
  writeField name +:+ writeField (DataType a) +:+
  (if 0 <? slen (BinaryValue a) then String (chr 2) (writeField (BinaryValue a))
   else String (chr 1) (writeField (StringValue a))).

Section digests.
Context `{GoHash}.

Definition md5hex (s : string) : string := hex (md5 s).

Definition md5Attributes (attrs : gmap string attr) : string :=
  if Nat.eqb (size attrs) 0 then ""
  else hex (md5 (foldr (fun name s => md5_attribute name (default (mkAttr "" "" "") (attrs !! name)) +:+ s) ""
    (sort_strings (map_to_list attrs).*1))).
End digests.

Definition seqKey (seq : Z) : string := be64 seq.

Definition encodeHandle (seqKey id : string) : string := base64_encode (seqKey +:+ id).

Definition decodeHandle (h : string) : option (string * string) :=
  b ← base64_decode h;
  if slen b <? 8 then None
  else Some (String.substring 0 8 b, String.substring 8 (String.length b - 8) b).

Definition Handle (m : message) : string := encodeHandle (seqKey (m_Seq m)) (m_ID m).

(** A FIFO message's position; an unsigned 64-bit sum. *)
Definition pad20 : string -> string := pad0 20.
Definition sequenceNumber (m : message) : string :=
  if String.eqb (m_GroupID m) "" then ""
  else pad20 (pretty ((10000000000000000000 + m_Seq m) mod 2 ^ 64)).

(** ** Changes to a message *)

Definition set_visible (at_ : Z) (m : message) : message :=
  mkMessage (m_ID m) (m_Body m) (m_Attrs m) (m_MD5Body m) (m_MD5Attrs m) (m_Sent m) at_ (m_ReceiveCount m)
    (m_FirstReceived m) (m_SysAttrs m) (m_GroupID m) (m_DedupID m) (m_Seq m).

Definition received (nowN visible_at : Z) (m : message) : message :=
  mkMessage (m_ID m) (m_Body m) (m_Attrs m) (m_MD5Body m) (m_MD5Attrs m) (m_Sent m) visible_at (m_ReceiveCount m + 1)
    (if m_FirstReceived m =? 0 then nowN else m_FirstReceived m) (m_SysAttrs m) (m_GroupID m) (m_DedupID m) (m_Seq m).

Definition moved (nowN seq : Z) (m : message) : message :=
  mkMessage (m_ID m) (m_Body m) (m_Attrs m) (m_MD5Body m) (m_MD5Attrs m) (m_Sent m) nowN 0
    (m_FirstReceived m) (m_SysAttrs m) (m_GroupID m) (m_DedupID m) seq.

(** What a duplicate send answers. *)
Definition dup_message (id md5 : string) : message :=
  mkMessage id "" ∅ md5 "" 0 0 0 0 ∅ "" "" 0.

Section messages.
Context `{Bolt} `{GoHash}.

(** [NextSequence] of a message bucket, created when it is not there. *)
Definition next_seq (bucket_name : string) : Sq Z :=
  db ← sRead;
  let b := bnext_sequence (default bempty (s_msgs db !! bucket_name)) in
  _ ← sModify (set_msgs (<[bucket_name := b]> (s_msgs db)));
  mret (bsequence b).

(** [CreateBucketIfNotExists]. *)
Definition open_bucket (bucket_name : string) : Sq unit :=
  sModify (fun db => set_msgs (<[bucket_name := default bempty (s_msgs db !! bucket_name)]> (s_msgs db)) db).

Definition putMessage (bucket_name : string) (m : message) : Sq unit := put_msg bucket_name (seqKey (m_Seq m)) m.

(** ** Deduplication *)

Definition dedupWindow : Z := 300.

Definition lookupDedup (now : Z) (queue dedupID : string) (db : SqsDB) : option message :=
  match s_dedup db !! dedupBucket queue ≫= bget dedupID with
  | Some r => if dedupWindow <? unix_seconds now - dd_At r then None else Some (dup_message (dd_ID r) (dd_MD5Body r))
  | None => None
  end.

Definition gcDedup (now : Z) (b : bucket dedupRec) : bucket dedupRec :=
  let cutoff := unix_seconds now - dedupWindow in
  foldl (fun b k => bdelete k b) b (filter (fun e => dd_At e.2 < cutoff) (bentries b)).*1.

Definition recordDedup (now : Z) (queue dedupID : string) (m : message) : Sq unit :=
  db ← sRead;
  let name := dedupBucket queue in
  let b := gcDedup now (default bempty (s_dedup db !! name)) in
  _ ← sModify (set_dedup (<[name := b]> (s_dedup db)));
  b ← sLift (bput dedupID (mkDedupRec (unix_seconds now) (m_ID m) (m_MD5Body m)) b);
  sModify (fun db => set_dedup (<[name := b]> (s_dedup db)) db).

(** ** Sending *)

Record sendItem := mkSendItem {
  it_Body : string;
  it_Attrs : gmap string attr;
  it_Delay : Z;
  it_GroupID : string;
  it_DedupID : string;
  it_SysAttrs : gmap string string
}.

Definition new_message (now : Z) (id : string) (it : sendItem) (delay : Z) (dedupID : string) (seq : Z) : message :=
  mkMessage id (it_Body it) (it_Attrs it) (md5hex (it_Body it)) (md5Attributes (it_Attrs it)) (wrap64 now)
    (later now delay) 0 0 (it_SysAttrs it) (it_GroupID it) dedupID seq.

Definition enqueue (now : Z) (q : queue) (id : string) (it : sendItem) (dedupID : string) : Sq (message * bool) :=
  let delay := if it_Delay it <? 0 then DelaySeconds q else it_Delay it in
  seq ← next_seq (msgBucket (q_Name q));
  let m := new_message now id it delay dedupID seq in
  _ ← putMessage (msgBucket (q_Name q)) m;
  _ ← (if FIFO q then recordDedup now (q_Name q) dedupID m else mret tt);
  mret (m, true).

(** The deduplication identifier of an item, the digest of its body by default. *)
Definition dedup_id (q : queue) (it : sendItem) : string :=
  if String.eqb (it_DedupID it) "" && ContentBasedDedup q then md5hex (it_Body it) else it_DedupID it.

(** [id] is the identifier drawn for the message. *)
Definition sendIn (now : Z) (q : queue) (id : string) (it : sendItem) : Sq (message * bool) :=
  if (0 <? MaxMessageSize q) && (MaxMessageSize q <? slen (it_Body it)) then
    sThrow (errInvalid "message length %d exceeds MaximumMessageSize %d")
  else if FIFO q && String.eqb (it_GroupID it) "" then
    sThrow (errInvalid "MessageGroupId is required for FIFO queues")
  else if FIFO q then
    let dedupID := dedup_id q it in
    if String.eqb dedupID "" then
      sThrow (errInvalid "MessageDeduplicationId is required (or enable ContentBasedDeduplication)")
    else
      db ← sRead;
      match lookupDedup now (q_Name q) dedupID db with
      | Some dm => mret (dm, false)
      | None => enqueue now q id it dedupID
      end
  else enqueue now q id it (it_DedupID it).

Definition Send (now : Z) (queue id : string) (it : sendItem) : SqsDB -> result (message * bool) * SqsDB :=
  Commit (q ← getQueue queue; sendIn now q id it).

(** The items of a batch, each with the identifier drawn for it: an item's error is its
    outcome, and the batch goes on. *)
Fixpoint sendItems (now : Z) (q : queue) (items : list (string * sendItem)) : Sq (list (result (message * bool))) :=
  match items with
  | [] => mret []
  | (id, it) :: rest => fun db =>
      let '(r, db) := sendIn now q id it db in
      (rs ← sendItems now q rest; mret (r :: rs)) db
  end.

Definition SendBatch (now : Z) (queue : string) (items : list (string * sendItem)) :
  SqsDB -> result (list (result (message * bool))) * SqsDB :=
  Commit (q ← getQueue queue; sendItems now q items).

Definition Purge (queue : string) : SqsDB -> result unit * SqsDB :=
  Commit (_ ← getQueue queue; sModify (fun db => set_msgs (delete (msgBucket queue) (s_msgs db)) db)).

(** ** Receiving *)

Definition maxReceiveBatch : Z := 10.
Definition maxWaitTimeSeconds : Z := 20.

(** What the walk over a bucket decides. *)
Record pass := mkPass {
  p_expire : list string;
  p_dlq : list message;
  p_deliver : list message;
  p_locked : gset string;
  p_minVisible : Z
}.

Definition redrives (q : queue) (m : message) : bool :=
  negb (String.eqb (DeadLetterTarget q) "") && (0 <? MaxReceiveCount q) && (MaxReceiveCount q <=? m_ReceiveCount m).

Definition receive_visit (now vis : Z) (q : queue) (k : string) (m : message) (p : pass) : pass :=
  let nowN := wrap64 now in
  if expired_message q now m then mkPass (p_expire p ++ [k]) (p_dlq p) (p_deliver p) (p_locked p) (p_minVisible p)
  else if nowN <? m_VisibleAt m then
    mkPass (p_expire p) (p_dlq p) (p_deliver p) (p_locked p)
      (if (p_minVisible p =? 0) || (m_VisibleAt m <? p_minVisible p) then m_VisibleAt m else p_minVisible p)
  else if FIFO q && bool_decide (m_GroupID m ∈ p_locked p) then p
  else if redrives q m then mkPass (p_expire p) (p_dlq p ++ [m]) (p_deliver p) (p_locked p) (p_minVisible p)
  else mkPass (p_expire p) (p_dlq p) (p_deliver p ++ [received nowN (later now vis) m])
         (if FIFO q then {[m_GroupID m]} ∪ p_locked p else p_locked p) (p_minVisible p).

Fixpoint receive_walk (now vis max : Z) (q : queue) (entries : list (string * message)) (p : pass) : pass :=
  match entries with
  | [] => p
  | (k, m) :: rest =>
      if Z.of_nat (length (p_deliver p)) <? max then receive_walk now vis max q rest (receive_visit now vis q k m p)
      else p
  end.

(** The groups with a message in flight when a pass begins. *)
Definition in_flight_groups (now : Z) (entries : list (string * message)) : gset string :=
  list_to_set (m_GroupID <$> filter (fun m => wrap64 now < m_VisibleAt m /\ m_GroupID m <> "") entries.*2).

(** Whether the move happened: a queue that is gone leaves the message where it is. *)
Definition moveToDLQ (now : Z) (dlq : string) (m : message) : Sq bool :=
  db ← sRead;
  match find_queue db dlq with
  | None => mret false
  | Some _ =>
      seq ← next_seq (msgBucket dlq);
      _ ← putMessage (msgBucket dlq) (moved (wrap64 now) seq m);
      mret true
  end.

Definition redrive_one (now : Z) (queue dlq : string) (m : message) : Sq unit :=
  ok ← moveToDLQ now dlq m;
  if ok : bool then delete_msg (msgBucket queue) (seqKey (m_Seq m)) else mret tt.

Definition receive_pass (now : Z) (q : queue) (max visibilityOverride : Z) (mb : bucket message) : pass :=
  let vis := if 0 <=? visibilityOverride then visibilityOverride else VisibilityTimeout q in
  receive_walk now vis max q (bentries mb)
    (mkPass [] [] [] (if FIFO q then in_flight_groups now (bentries mb) else ∅) 0).

Definition receiveIn (now : Z) (queue : string) (max visibilityOverride : Z) : Sq (list message * Z) :=
  q ← getQueue queue;
  db ← sRead;
  match s_msgs db !! msgBucket queue with
  | None => mret ([], 0)
  | Some mb =>
      let p := receive_pass now q max visibilityOverride mb in
      _ ← sEach (delete_msg (msgBucket queue)) (p_expire p);
      _ ← sEach (redrive_one now queue (DeadLetterTarget q)) (p_dlq p);
      _ ← sEach (putMessage (msgBucket queue)) (p_deliver p);
      mret (p_deliver p, p_minVisible p)
  end.

(** The messages, and the earliest time another becomes visible, zero if none. *)
Definition receiveOnce (now : Z) (queue : string) (max visibilityOverride : Z) :
  SqsDB -> result (list message * Z) * SqsDB :=
  Commit (receiveIn now queue max visibilityOverride).

Definition batch_size (max : Z) : Z := if (max <=? 0) || (maxReceiveBatch <? max) then 1 else max.

Definition wait_seconds (queue : string) (waitSec : Z) (db : SqsDB) : Z :=
  let waitSec := if waitSec <? 0 then match find_queue db queue with Some q => WaitTimeSeconds q | None => 0 end
                 else waitSec in
  Z.min waitSec maxWaitTimeSeconds.

Fixpoint take_Z {A} (max : Z) (l : list A) : list A :=
  match l with
  | [] => []
  | x :: l' => if 0 <? max then x :: take_Z (max - 1) l' else []
  end.

Definition Peek (now : Z) (queue : string) (max : Z) : SqsDB -> result (list message) :=
  let max := if max <=? 0 then 10 else max in
  Inspect (
    q ← getQueue queue;
    db ← sRead;
    match s_msgs db !! msgBucket queue with
    | None => mret []
    | Some mb => mret (take_Z max
        (filter (fun m => m_VisibleAt m <= wrap64 now /\ expired_message q now m = false) (bentries mb).*2))
    end).

(** ** Receipt handles *)

(** The message a handle names, while it is the one the handle was given for. *)
Definition handled (queue k id : string) (db : SqsDB) : option message :=
  match s_msgs db !! msgBucket queue ≫= bget k with
  | Some m => if String.eqb (m_ID m) id then Some m else None
  | None => None
  end.

Definition deleteIn (queue handle : string) : Sq unit :=
  match decodeHandle handle with
  | None => sThrow (errInvalid "invalid receipt handle")
  | Some (k, id) =>
      db ← sRead;
      match handled queue k id db with
      | Some _ => delete_msg (msgBucket queue) k
      | None => mret tt
      end
  end.

Definition Delete (queue handle : string) : SqsDB -> result unit * SqsDB :=
  Commit (_ ← getQueue queue; deleteIn queue handle).

Definition changeVisibilityIn (now : Z) (queue handle : string) (timeout : Z) : Sq unit :=
  match decodeHandle handle with
  | None => sThrow (errInvalid "invalid receipt handle")
  | Some (k, id) =>
      if (timeout <? 0) || (43200 <? timeout) then sThrow (errInvalid
        "Value %d for parameter VisibilityTimeout is invalid. Reason: Must be between 0 and 43200.")
      else
        db ← sRead;
        match handled queue k id db with
        | Some m => putMessage (msgBucket queue) (set_visible (later now timeout) m)
        | None => mret tt
        end
  end.

Definition ChangeVisibility (now : Z) (queue handle : string) (timeout : Z) : SqsDB -> result unit * SqsDB :=
  Commit (_ ← getQueue queue; changeVisibilityIn now queue handle timeout).

(** A batch in one transaction: an entry's error is its outcome, and the batch goes on. *)
Fixpoint entries_in {A} (f : A -> Sq unit) (l : list A) : Sq (list (result unit)) :=
  match l with
  | [] => mret []
  | a :: rest => fun db => let '(r, db) := f a db in (rs ← entries_in f rest; mret (r :: rs)) db
  end.

Definition DeleteBatch (queue : string) (handles : list string) : SqsDB -> result (list (result unit)) * SqsDB :=
  Commit (_ ← getQueue queue; entries_in (deleteIn queue) handles).

Definition ChangeVisibilityBatch (now : Z) (queue : string) (items : list (string * Z)) :
  SqsDB -> result (list (result unit)) * SqsDB :=
  Commit (_ ← getQueue queue; entries_in (fun e => changeVisibilityIn now queue e.1 e.2) items).

(** ** Move tasks *)

(** The entries of the source copied to the destination, up to the first write the store
    refuses; the keys of those copied. *)
Fixpoint copy_entries (now : Z) (dest : string) (entries : list (string * message)) : Sq (list string) :=
  match entries with
  | [] => mret []
  | (k, m) :: rest =>
      fun db =>
        match (seq ← next_seq (msgBucket dest); putMessage (msgBucket dest) (moved (wrap64 now) seq m)) db with
        | (Ok _, db) => (ks ← copy_entries now dest rest; mret (k :: ks)) db
        | (Err _, db) => (Ok [], db)
        end
  end.

Definition recordMoveTask (task : moveTask) : Sq unit :=
  db ← sRead;
  b ← sLift (bput (pad20 (pretty (mt_StartedAt task)) +:+ ":" +:+ mt_Handle task) task (default bempty (s_tasks db)));
  sModify (set_tasks b).

Definition startMove (now : Z) (id source dest : string) : Sq moveTask :=
  let task := mkMoveTask id "COMPLETED" source dest 0 (unix_seconds now) in
  _ ← getQueue source;
  _ ← getQueue dest;
  db ← sRead;
  match s_msgs db !! msgBucket source with
  | None => _ ← recordMoveTask task; mret task
  | Some src =>
      _ ← open_bucket (msgBucket dest);
      ks ← copy_entries now dest (bentries src);
      _ ← sEach (delete_msg (msgBucket source)) ks;
      let task := mkMoveTask id "COMPLETED" source dest (Z.of_nat (length ks)) (unix_seconds now) in
      _ ← recordMoveTask task;
      mret task
  end.

(** [id] is the task handle drawn. *)
Definition StartMessageMoveTask (now : Z) (id source dest : string) : SqsDB -> result moveTask * SqsDB :=
  Commit (startMove now id source dest).

Definition ListMessageMoveTasks (source : string) (max : Z) : SqsDB -> result (list moveTask) :=
  let max := if max <=? 0 then 1 else max in
  Inspect (
    _ ← getQueue source;
    db ← sRead;
    match s_tasks db with
    | None => mret []
    | Some b => mret (take_Z max (filter (fun t => mt_Source t = source) (reverse (bentries b).*2)))
    end).

Definition CancelMessageMoveTask : APIError :=
  mkAPIError "ResourceNotFoundException" 400
    "task is not active: local message move tasks complete synchronously" true None.

(** ** The sweeper *)

Definition sweep_queue (now : Z) (name : string) : Sq unit := fun db =>
  match find_queue db name with
  | None => (Ok tt, db)
  | Some q =>
      (_ ← match s_msgs db !! msgBucket name with
           | Some mb =>
               if 0 <? RetentionPeriod q then
                 sEach (delete_msg (msgBucket name)) (filter (fun e => expired_message q now e.2 = true) (bentries mb)).*1
               else mret tt
           | None => mret tt
           end;
       sModify (fun db => set_dedup (alter (gcDedup now) (dedupBucket name) (s_dedup db)) db)) db
  end.

Definition Sweep (now : Z) (db : SqsDB) : SqsDB :=
  foldl (fun db name => (Commit (sweep_queue now name) db).2) db
    (match s_meta db with Some b => (bentries b).*1 | None => [] end).
End messages.
