(* ===== verification/MessagesInv.v ===== *)
(** * MessagesInv: how each write changes what is stored

    A view of the message buckets by position, the bag of all stored messages, and the
    effect of every primitive write on both.  The other message files build on these. *)

From stdpp Require Import sorting.
From S2P Require Import Prelude Bytes Ident Clock Wire Star GoText Glob Policy Bolt Cursor Queues Messages.

(** Runs the transaction's primitives. *)
Ltac run_sq := cbv beta iota zeta delta [mbind mret Sq_bind Sq_ret sRead sLift sModify sThrow].

Section inv.
Context `{BL : BoltLaws}.
#[local] Set Default Proof Using "BL".

(** ** Buckets as lists *)

Lemma bentries_bdelete {V} k (b : bucket V) v :
  bget k b = Some v -> bentries b ≡ₚ (k, v) :: bentries (bdelete k b).
Proof.
  intros Hk. apply NoDup_Permutation; [apply bentries_NoDup|constructor; [|apply bentries_NoDup]|].
  - rewrite bentries_bget, bget_bdelete. by rewrite decide_True.
  - intros [k' v']. rewrite elem_of_cons, !bentries_bget, bget_bdelete.
    destruct (decide (k' = k)) as [->|]; [rewrite Hk|]; split; try (intros [[=]|]); intuition congruence.
Qed.

Lemma bentries_bdelete_absent {V} k (b : bucket V) : bget k b = None -> bentries (bdelete k b) ≡ₚ bentries b.
Proof.
  intros Hk. apply NoDup_Permutation; [apply bentries_NoDup..|]. intros [k' v'].
  rewrite !bentries_bget, bget_bdelete. by destruct (decide (k' = k)) as [->|]; [rewrite Hk|].
Qed.

Lemma bentries_bput {V} k v (b b' : bucket V) :
  bput k v b = Ok b' -> bentries b' ≡ₚ (k, v) :: bentries (bdelete k b).
Proof.
  intros Hp. assert (bget k b' = Some v) as Hk by (rewrite (bget_bput _ _ _ _ _ _ Hp); by rewrite decide_True).
  rewrite (bentries_bdelete _ _ _ Hk). constructor.
  apply NoDup_Permutation; [apply bentries_NoDup..|]. intros [k' v'].
  rewrite !bentries_bget, !bget_bdelete, (bget_bput _ _ _ _ _ _ Hp). by destruct (decide (k' = k)).
Qed.

Lemma bentries_next_perm {V} (b : bucket V) : bentries (bnext_sequence b) ≡ₚ bentries b.
Proof.
  apply NoDup_Permutation; [apply bentries_NoDup..|]. intros [k v]. by rewrite !bentries_bget, bget_next.
Qed.

(** ** The messages by position *)

Definition msg_at (db : SqsDB) (b k : string) : option message := s_msgs db !! b ≫= bget k.
Definition seq_at (db : SqsDB) (b : string) : Z := bsequence (default bempty (s_msgs db !! b)).

(** Everything but the messages. *)
Definition same_rest (db db' : SqsDB) : Prop :=
  s_meta db' = s_meta db /\ s_dedup db' = s_dedup db /\ s_tasks db' = s_tasks db.

#[global] Instance same_rest_preorder : PreOrder same_rest.
Proof. split; [by intros ?|]. intros a b c (H1 & H2 & H3) (H4 & H5 & H6). repeat split; congruence. Qed.

Lemma msg_at_insert db b mb b' k :
  msg_at (set_msgs (<[b := mb]> (s_msgs db)) db) b' k = if decide (b' = b) then bget k mb else msg_at db b' k.
Proof.
  unfold msg_at. simpl. destruct (decide (b' = b)) as [->|]; [by rewrite lookup_insert_eq|by rewrite lookup_insert_ne].
Qed.

Lemma seq_at_insert db b mb b' :
  seq_at (set_msgs (<[b := mb]> (s_msgs db)) db) b' = if decide (b' = b) then bsequence mb else seq_at db b'.
Proof.
  unfold seq_at. simpl. destruct (decide (b' = b)) as [->|]; [by rewrite lookup_insert_eq|by rewrite lookup_insert_ne].
Qed.

Lemma msg_at_default db b k : bget k (default bempty (s_msgs db !! b)) = msg_at db b k.
Proof. unfold msg_at. destruct (s_msgs db !! b); simpl; [done|apply bget_bempty]. Qed.

Lemma put_msg_spec b k m db r db' :
  put_msg b k m db = (r, db') ->
  (exists e, r = Err e /\ db' = db) \/
  (r = Ok tt /\ same_rest db db' /\ (forall b', seq_at db' b' = seq_at db b') /\
   forall b' k', msg_at db' b' k' = if decide (b' = b /\ k' = k) then Some m else msg_at db b' k').
Proof.
  unfold put_msg. run_sq. destruct (bput k m (default bempty (s_msgs db !! b))) as [mb|e] eqn:Hp; intros [= <- <-]; [right|left; by eexists].
  split; [done|]. split; [done|]. split.
  - intros b'. rewrite seq_at_insert. destruct (decide (b' = b)) as [->|]; [|done].
    by rewrite (bsequence_bput _ _ _ _ _ Hp).
  - intros b' k'. rewrite msg_at_insert. destruct (decide (b' = b)) as [->|Hn].
    + rewrite (bget_bput _ _ _ _ _ _ Hp), msg_at_default. repeat case_decide; tauto.
    + rewrite decide_False by tauto. done.
Qed.

Lemma delete_msg_spec b k db :
  exists db', delete_msg b k db = (Ok tt, db') /\ same_rest db db' /\ (forall b', seq_at db' b' = seq_at db b') /\
  forall b' k', msg_at db' b' k' = if decide (b' = b /\ k' = k) then None else msg_at db b' k'.
Proof.
  eexists. split; [reflexivity|]. split; [done|]. unfold seq_at, msg_at. simpl. split.
  - intros b'. destruct (decide (b' = b)) as [->|]; [rewrite lookup_alter_eq|by rewrite lookup_alter_ne].
    destruct (s_msgs db !! b); simpl; [apply bsequence_bdelete|done].
  - intros b' k'. destruct (decide (b' = b)) as [->|Hn].
    + rewrite lookup_alter_eq. destruct (s_msgs db !! b); simpl; [rewrite bget_bdelete|]; repeat case_decide; tauto.
    + rewrite lookup_alter_ne by done. rewrite decide_False by tauto. done.
Qed.

Lemma next_seq_spec b db :
  exists db', next_seq b db = (Ok (seq_at db b + 1), db') /\ same_rest db db' /\
  (forall b', seq_at db' b' = seq_at db b' + if decide (b' = b) then 1 else 0) /\
  forall b' k', msg_at db' b' k' = msg_at db b' k'.
Proof.
  eexists. split; [unfold next_seq; run_sq; by rewrite bsequence_next|]. split; [done|]. split.
  - intros b'. rewrite seq_at_insert. destruct (decide (b' = b)) as [->|]; [by rewrite bsequence_next|lia].
  - intros b' k'. rewrite msg_at_insert. destruct (decide (b' = b)) as [->|]; [|done].
    by rewrite bget_next, msg_at_default.
Qed.

(** ** The bag of messages *)

(** A message without its position and its delivery state. *)
Definition content (m : message) : message :=
  mkMessage (m_ID m) (m_Body m) (m_Attrs m) (m_MD5Body m) (m_MD5Attrs m) (m_Sent m) 0 0 0 (m_SysAttrs m)
    (m_GroupID m) (m_DedupID m) 0.

Definition contents (mb : bucket message) : list message := content <$> (bentries mb).*2.
Definition bag_of (ms : gmap string (bucket message)) : list message := map_to_list ms ≫= fun e => contents e.2.
Definition bag (db : SqsDB) : list message := bag_of (s_msgs db).

Lemma bag_of_insert ms b mb : bag_of (<[b := mb]> ms) ≡ₚ contents mb ++ bag_of (delete b ms).
Proof.
  unfold bag_of. rewrite <- insert_delete_eq. rewrite map_to_list_insert by apply lookup_delete_eq. done.
Qed.

Lemma contents_bempty : contents bempty = [].
Proof. unfold contents. by rewrite bentries_bempty. Qed.

Lemma bag_of_split ms b : bag_of ms ≡ₚ contents (default bempty (ms !! b)) ++ bag_of (delete b ms).
Proof.
  destruct (ms !! b) as [mb|] eqn:E; simpl.
  - rewrite <- bag_of_insert. by rewrite insert_id.
  - by rewrite contents_bempty, delete_id.
Qed.

Lemma contents_bdelete k mb m : bget k mb = Some m -> contents mb ≡ₚ content m :: contents (bdelete k mb).
Proof. intros Hk. unfold contents. by rewrite (bentries_bdelete _ _ _ Hk). Qed.

Lemma contents_bdelete_absent k mb : bget k mb = None -> contents (bdelete k mb) ≡ₚ contents mb.
Proof. intros Hk. unfold contents. by rewrite (bentries_bdelete_absent _ _ Hk). Qed.

Lemma contents_bput k m mb mb' : bput k m mb = Ok mb' -> contents mb' ≡ₚ content m :: contents (bdelete k mb).
Proof. intros Hp. unfold contents. by rewrite (bentries_bput _ _ _ _ Hp). Qed.

(** A write adds its message to the bag, in place of the one it overwrites. *)
Lemma bag_put b k m db db' :
  put_msg b k m db = (Ok tt, db') ->
  match msg_at db b k with
  | None => bag db' ≡ₚ content m :: bag db
  | Some old => content old :: bag db' ≡ₚ content m :: bag db
  end.
Proof.
  unfold put_msg. run_sq. destruct (bput k m (default bempty (s_msgs db !! b))) as [mb|] eqn:Hp; [|done]. intros [= <-].
  rewrite <- (msg_at_default db b k). unfold bag. cbn [s_msgs set_msgs].
  pose proof (bag_of_insert (s_msgs db) b mb) as Hi. pose proof (bag_of_split (s_msgs db) b) as Hs.
  rewrite (contents_bput _ _ _ _ Hp) in Hi.
  destruct (bget k (default bempty (s_msgs db !! b))) as [old|] eqn:Hk; rewrite Hi, Hs.
  - rewrite (contents_bdelete _ _ _ Hk). simpl. apply Permutation_swap.
  - by rewrite (contents_bdelete_absent _ _ Hk).
Qed.

Lemma bag_delete b k db db' r :
  delete_msg b k db = (r, db') ->
  match msg_at db b k with
  | None => bag db' ≡ₚ bag db
  | Some old => content old :: bag db' ≡ₚ bag db
  end.
Proof.
  intros [= <- <-]. unfold bag, msg_at. cbn [s_msgs set_msgs].
  pose proof (bag_of_split (s_msgs db) b) as Hs. destruct (s_msgs db !! b) as [mb|] eqn:E; simpl.
  - assert (alter (bdelete k) b (s_msgs db) = <[b := bdelete k mb]> (s_msgs db)) as ->.
    { apply map_eq. intros b'. destruct (decide (b' = b)) as [->|].
      - by rewrite lookup_alter_eq, lookup_insert_eq, E.
      - by rewrite lookup_alter_ne, lookup_insert_ne. }
    pose proof (bag_of_insert (s_msgs db) b (bdelete k mb)) as Hi. simpl in Hs.
    destruct (bget k mb) as [old|] eqn:Hk; rewrite Hi, Hs.
    + by rewrite (contents_bdelete _ _ _ Hk).
    + by rewrite (contents_bdelete_absent _ _ Hk).
  - by rewrite alter_id; [|intros ? Hx; congruence].
Qed.

Lemma bag_next b db db' r : next_seq b db = (r, db') -> bag db' ≡ₚ bag db.
Proof.
  unfold next_seq. run_sq. intros [= <- <-]. unfold bag. simpl. rewrite bag_of_insert, (bag_of_split (s_msgs db) b).
  unfold contents. by rewrite bentries_next_perm.
Qed.

Lemma open_bucket_same b db :
  let db' := (open_bucket b db).2 in
  (forall b', seq_at db' b' = seq_at db b') /\ (forall b' k, msg_at db' b' k = msg_at db b' k) /\ bag db' ≡ₚ bag db.
Proof.
  unfold open_bucket, sModify, seq_at, msg_at, bag. cbn. split; [|split].
  - intros b'. destruct (decide (b' = b)) as [->|]; [by rewrite lookup_insert_eq|by rewrite lookup_insert_ne].
  - intros b' k. destruct (decide (b' = b)) as [->|]; [|by rewrite lookup_insert_ne].
    rewrite lookup_insert_eq. destruct (s_msgs db !! b); simpl; [done|apply bget_bempty].
  - by rewrite bag_of_insert, (bag_of_split (s_msgs db) b).
Qed.

Lemma bag_remove_bucket b db :
  bag db ≡ₚ contents (default bempty (s_msgs db !! b)) ++ bag (set_msgs (delete b (s_msgs db)) db).
Proof. unfold bag. simpl. apply bag_of_split. Qed.

(** ** Well-formed message buckets *)

(** Every message is stored under its sequence number, and no number is past the bucket's. *)
Record wf (db : SqsDB) : Prop := {
  wf_seq b : 0 <= seq_at db b;
  wf_key b k m : msg_at db b k = Some m -> k = seqKey (m_Seq m) /\ 0 < m_Seq m <= seq_at db b
}.

(** No sequence has come round to the start. *)
Definition room (db : SqsDB) : Prop := forall b, seq_at db b < 2 ^ 64.
Definition grows (db db' : SqsDB) : Prop := forall b, seq_at db b <= seq_at db' b.

#[global] Instance grows_preorder : PreOrder grows.
Proof. split; [intros a b; lia|]. intros a b c H1 H2 x. specialize (H1 x). specialize (H2 x). lia. Qed.

Lemma room_grows db db' : grows db db' -> room db' -> room db.
Proof. intros Hg Hr b. specialize (Hg b). specialize (Hr b). lia. Qed.

Lemma wf_empty : wf empty_SqsDB.
Proof.
  split; unfold seq_at, msg_at; simpl; intros b.
  - rewrite lookup_empty. simpl. by rewrite bsequence_bempty.
  - intros k m. by rewrite lookup_empty.
Qed.

(** A number past the bucket's is the key of nothing. *)
Lemma wf_fresh db b seq : wf db -> seq_at db b < seq < 2 ^ 64 -> msg_at db b (seqKey seq) = None.
Proof.
  intros W Hs. destruct (msg_at db b (seqKey seq)) as [m|] eqn:E; [|done].
  apply (wf_key db W) in E as [Hk Hm]. apply be64_inj in Hk; pose proof (wf_seq db W b); lia.
Qed.

Lemma wf_same db db' :
  (forall b, seq_at db' b = seq_at db b) -> (forall b k m, msg_at db' b k = Some m -> msg_at db b k = Some m) ->
  wf db -> wf db'.
Proof.
  intros Hs Hm W. split; intros b; [rewrite Hs; apply (wf_seq db W)|]. intros k m Hk. rewrite Hs.
  by apply (wf_key db W), Hm.
Qed.

Lemma wf_put db b m db' :
  wf db -> 0 < m_Seq m <= seq_at db b -> putMessage b m db = (Ok tt, db') -> wf db'.
Proof.
  intros W Hm Hp. apply put_msg_spec in Hp as [(e & [=] & _)|(_ & _ & Hs & Ha)]. split; intros b'.
  - rewrite Hs. apply (wf_seq db W).
  - intros k' m'. rewrite Ha, Hs. destruct (decide _) as [[-> ->]|]; [by intros [= <-]|]. apply (wf_key db W).
Qed.

(** ** Transactions that grow the sequences and keep a property *)

Definition keeps {A} (I : SqsDB -> Prop) (f : Sq A) : Prop :=
  forall db r db', f db = (r, db') -> grows db db' /\ (I db -> room db' -> I db').

Lemma keeps_ret {A} I (a : A) : keeps I (mret a).
Proof. intros db r db' [= <- <-]. done. Qed.
Lemma keeps_throw {A} I e : keeps I (sThrow (A := A) e).
Proof. intros db r db' [= <- <-]. done. Qed.
Lemma keeps_lift {A} I (x : result A) : keeps I (sLift x).
Proof. intros db r db' [= <- <-]. done. Qed.

Lemma keeps_bind {A C} I (f : Sq A) (g : A -> Sq C) : keeps I f -> (forall a, keeps I (g a)) -> keeps I (f ≫= g).
Proof.
  intros Hf Hg db r db'. run_sq. destruct (f db) as [[a|e] db1] eqn:E; intros E'.
  - apply Hf in E as [G1 K1]. apply Hg in E' as [G2 K2]. split; [by etrans|]. intros Hi Hr.
    apply K2; [|done]. apply K1; [done|]. by eapply room_grows.
  - injection E' as <- <-. by eapply Hf.
Qed.

(** A read hands on the database of that moment. *)
Lemma keeps_read {A} I (g : SqsDB -> Sq A) : (forall x, keeps (fun db => I db) (g x)) -> keeps I (sRead ≫= g).
Proof. intros Hg. intros db r db'. run_sq. apply Hg. Qed.

Lemma keeps_each {A} I (f : A -> Sq unit) l : (forall a, a ∈ l -> keeps I (f a)) -> keeps I (sEach f l).
Proof.
  induction l as [|a l IH]; intros Hf; [apply keeps_ret|]. simpl. apply keeps_bind; [apply Hf; by left|].
  intros _. apply IH. intros x Hx. apply Hf. by right.
Qed.

Lemma keeps_Commit {A} I (f : Sq A) : keeps I f -> keeps I (Commit f).
Proof.
  intros Hf db r db'. unfold Commit. destruct (f db) as [[a|e] db1] eqn:E; intros [= <- <-]; [by eapply Hf|done].
Qed.

(** ** The three kinds of change a receive makes *)

(** Entries as they are stored, under distinct keys. *)
Definition stored (b : string) (es : list (string * message)) (db : SqsDB) : Prop :=
  NoDup es.*1 /\ Forall (fun e => msg_at db b e.1 = Some e.2) es.

Lemma stored_cons b e es db : stored b (e :: es) db <-> msg_at db b e.1 = Some e.2 /\ (e.1 ∉ es.*1) /\ stored b es db.
Proof. unfold stored. rewrite fmap_cons, NoDup_cons, Forall_cons. tauto. Qed.

Lemma stored_mono b es db db' :
  (forall k, k ∈ es.*1 -> msg_at db' b k = msg_at db b k) -> stored b es db -> stored b es db'.
Proof.
  intros Hm [Hn Hs]. split; [done|]. rewrite Forall_forall in Hs |- *. intros e He. rewrite Hm; [by apply Hs|].
  apply list_elem_of_fmap. eauto.
Qed.

Lemma stored_app b es es' db : stored b (es ++ es') db -> stored b es db /\ stored b es' db /\ (forall k, k ∈ es.*1 -> k ∉ es'.*1).
Proof.
  intros [Hn Hs]. rewrite fmap_app, NoDup_app in Hn. rewrite Forall_app in Hs. destruct Hn as (N1 & Nd & N2), Hs as [S1 S2].
  by repeat split.
Qed.

Lemma delete_all b es db :
  stored b es db ->
  exists db', sEach (delete_msg b) es.*1 db = (Ok tt, db') /\ same_rest db db' /\
    (forall b', seq_at db' b' = seq_at db b') /\
    (content <$> es.*2) ++ bag db' ≡ₚ bag db /\
    forall b' k', msg_at db' b' k' = if decide (b' = b /\ k' ∈ es.*1) then None else msg_at db b' k'.
Proof.
  revert db; induction es as [|e es IH]; intros db Hs.
  { exists db. split; [done|]. split; [done|]. split; [done|]. split; [done|]. intros b' k'. simpl.
    rewrite decide_False; [done|]. intros [_ Hx]. by apply elem_of_nil in Hx. }
  apply stored_cons in Hs as (He & Hn & Hs). simpl sEach. run_sq.
  destruct (delete_msg_spec b e.1 db) as (db1 & E & R1 & S1 & A1). rewrite E.
  pose proof (bag_delete _ _ _ _ _ E) as Hb. rewrite He in Hb.
  destruct (IH db1) as (db' & E' & R2 & S2 & B2 & A2).
  { eapply stored_mono; [|done]. intros k Hk. rewrite A1, decide_False; [done|]. intros [_ ->]. done. }
  exists db'. split; [done|]. split; [by etrans|]. split; [intros b'; by rewrite S2, S1|]. split.
  - simpl. rewrite <- Hb. constructor. done.
  - intros b' k'. rewrite A2, A1, fmap_cons. pose proof (elem_of_cons (es.*1) k' e.1). repeat case_decide; tauto.
Qed.

Lemma put_all b (f : message -> message) es db db' r :
  (forall m, content (f m) = content m) ->
  Forall (fun e => e.1 = seqKey (m_Seq (f e.2))) es ->
  stored b es db -> sEach (putMessage b) (f <$> es.*2) db = (r, db') -> r = Ok tt ->
  same_rest db db' /\ (forall b', seq_at db' b' = seq_at db b') /\ bag db' ≡ₚ bag db /\
  forall b' k', msg_at db' b' k' =
    match decide (b' = b) with
    | left _ => match List.find (fun e => String.eqb e.1 k') es with Some e => Some (f e.2) | None => msg_at db b' k' end
    | right _ => msg_at db b' k'
    end.
Proof.
  intros Hf. revert db; induction es as [|e es IH]; intros db Hk Hs.
  { simpl. intros [= <- <-] _. split; [done|]. split; [done|]. split; [done|]. intros b' k'. by destruct (decide _). }
  apply stored_cons in Hs as (He & Hn & Hs). apply Forall_cons in Hk as [Ek Hk]. simpl fmap. simpl sEach. run_sq.
  destruct (putMessage b (f e.2) db) as [[[]|x] db1] eqn:E; [|by intros [= <- _]]. intros E' Hr.
  unfold putMessage in E. rewrite <- Ek in E. pose proof (bag_put _ _ _ _ _ E) as Hb. rewrite He, Hf in Hb.
  apply put_msg_spec in E as [(x & [=] & _)|(_ & R1 & S1 & A1)].
  destruct (IH db1 Hk) as (R2 & S2 & B2 & A2); [|done|done|].
  { eapply stored_mono; [|done]. intros k Hk'. rewrite A1, decide_False; [done|]. intros [_ ->]. done. }
  split; [by etrans|]. split; [intros b'; by rewrite S2, S1|]. split.
  - rewrite B2. by apply Permutation_cons_inv in Hb.
  - intros b' k'. rewrite A2, A1. destruct (decide (b' = b)) as [->|Hb'].
    + simpl. destruct (String.eqb_spec e.1 k') as [<-|Hne].
      * destruct (List.find _ es) as [e'|] eqn:Ef.
        { apply find_some in Ef as [Hin Heq]. apply String.eqb_eq in Heq. destruct Hn.
          apply list_elem_of_fmap. exists e'. split; [done|]. by apply list_elem_of_In. }
        rewrite decide_True by done. done.
      * destruct (List.find _ es); [done|]. rewrite decide_False; [done|]. intros [_ ->]. done.
    + rewrite decide_False by tauto. done.
Qed.

(** A message appended to a bucket under its next number. *)
Lemma append_spec b (mk : Z -> message) db r db' :
  (forall seq, m_Seq (mk seq) = seq) ->
  (seq ← next_seq b; putMessage b (mk seq)) db = (r, db') ->
  grows db db' /\ same_rest db db' /\
  ((exists e, r = Err e /\ bag db' ≡ₚ bag db /\ forall b' k', msg_at db' b' k' = msg_at db b' k') \/
   (r = Ok tt /\ (forall b', seq_at db' b' = seq_at db b' + if decide (b' = b) then 1 else 0) /\
    (forall b' k', msg_at db' b' k' =
      if decide (b' = b /\ k' = seqKey (seq_at db b + 1)) then Some (mk (seq_at db b + 1)) else msg_at db b' k') /\
    (wf db -> seq_at db b + 1 < 2 ^ 64 -> bag db' ≡ₚ content (mk (seq_at db b + 1)) :: bag db))).
Proof.
  intros Hq. run_sq. destruct (next_seq_spec b db) as (db1 & E & R1 & S1 & A1). rewrite E. intros Hp.
  assert (grows db db1) as G by (intros b'; rewrite S1; case_decide; lia).
  pose proof (bag_next _ _ _ _ E) as B1. unfold putMessage in Hp. rewrite Hq in Hp.
  apply put_msg_spec in Hp as Hp'. destruct Hp' as [(e & -> & ->)|(-> & R2 & S2 & A2)].
  { split; [done|]. split; [done|]. left. exists e. split; [done|]. done. }
  split; [intros b'; rewrite S2; apply G|]. split; [by etrans|]. right. split; [done|]. split; [intros b'; by rewrite S2, S1|].
  split; [intros b' k'; by rewrite A2, A1|]. intros W Hr. pose proof (bag_put _ _ _ _ _ Hp) as B2.
  rewrite A1, (wf_fresh db b) in B2; [|done|lia]. by rewrite B2, B1.
Qed.

Lemma wf_append b (mk : Z -> message) db db' r :
  (forall seq, m_Seq (mk seq) = seq) -> wf db ->
  (seq ← next_seq b; putMessage b (mk seq)) db = (r, db') -> wf db'.
Proof.
  intros Hq W He. apply append_spec in He as (G & _ & [(e & _ & _ & A)|(_ & S & A & _)]); [| |done].
  - split; intros b'; [pose proof (wf_seq db W b'); specialize (G b'); lia|]. intros k m. rewrite A. intros Hk.
    apply (wf_key db W) in Hk as [? ?]. specialize (G b'). split; [done|lia].
  - split; intros b'; [rewrite S; pose proof (wf_seq db W b'); case_decide; lia|]. intros k m. rewrite A, S.
    destruct (decide _) as [[-> ->]|Hn].
    + intros [= <-]. rewrite Hq, decide_True by done. pose proof (wf_seq db W b). split; [done|lia].
    + intros Hk. apply (wf_key db W) in Hk as [? ?]. split; [done|]. case_decide; lia.
Qed.

Lemma wf_delete b k db r db' : wf db -> delete_msg b k db = (r, db') -> wf db'.
Proof.
  intros W E. destruct (delete_msg_spec b k db) as (db1 & E1 & _ & S & A). rewrite E in E1. injection E1 as -> ->.
  apply (wf_same db db1); [done| |done]. intros b' k' m. rewrite A. by case_decide.
Qed.

(** What a queue's message became once moved. *)
Definition moved_from (now : Z) (dlq : string) (m m' : message) : Prop := exists seq, m' = moved (wrap64 now) seq m.

Lemma moved_from_content now dlq m m' : moved_from now dlq m m' -> content m' = content m.
Proof using. by intros [seq ->]. Qed.

(** One move to the dead-letter queue, of a message that is stored. *)
Lemma redrive_one_spec now queue dlq m db r db' :
  wf db -> room db' -> msg_at db (msgBucket queue) (seqKey (m_Seq m)) = Some m ->
  redrive_one now queue dlq m db = (r, db') -> r = Ok tt ->
  grows db db' /\ same_rest db db' /\ wf db' /\ bag db' ≡ₚ bag db /\
  (forall b k m', msg_at db b k = Some m' -> (b <> msgBucket queue \/ k <> seqKey (m_Seq m)) -> msg_at db' b k = Some m') /\
  (forall b k m', msg_at db' b k = Some m' ->
     msg_at db b k = Some m' \/ (b = msgBucket dlq /\ moved_from now dlq m m' /\ is_Some (find_queue db dlq))) /\
  (is_Some (find_queue db dlq) -> msgBucket dlq <> msgBucket queue -> msg_at db' (msgBucket queue) (seqKey (m_Seq m)) = None).
Proof.
  intros W Hr Hm. unfold redrive_one, moveToDLQ. run_sq.
  destruct (find_queue db dlq) as [q|] eqn:Eq; cbv beta iota.
  2:{ intros [= <- <-] _. split; [done|]. split; [done|]. split; [done|]. split; [done|].
      split; [done|]. split; [by left|]. by intros []. }
  destruct (next_seq (msgBucket dlq) db) as [[seq|e] db1] eqn:E1; [|by intros [= <- _]].
  destruct (putMessage (msgBucket dlq) (moved (wrap64 now) seq m) db1) as [[[]|e] db2] eqn:E2; [|by intros [= <- _]].
  intros E3 Hok.
  assert ((seq ← next_seq (msgBucket dlq); putMessage (msgBucket dlq) (moved (wrap64 now) seq m)) db = (Ok tt, db2)) as E.
  { run_sq. by rewrite E1. }
  pose proof (wf_append _ (fun seq => moved (wrap64 now) seq m) _ _ _ (fun _ => eq_refl) W E) as W2.
  apply (append_spec _ (fun seq => moved (wrap64 now) seq m)) in E as (G & R & [(e & [=] & _)|(_ & S & A & Bg)]); [|done].
  destruct (delete_msg_spec (msgBucket queue) (seqKey (m_Seq m)) db2) as (db3 & E3' & R3 & S3 & A3).
  rewrite E3 in E3'. injection E3' as -> ->.
  assert (seq_at db (msgBucket dlq) + 1 < 2 ^ 64) as Hroom.
  { specialize (Hr (msgBucket dlq)). rewrite S3, S, decide_True in Hr by done. done. }
  specialize (Bg W Hroom). pose proof (wf_seq db W (msgBucket dlq)).
  pose proof (wf_fresh db (msgBucket dlq) (seq_at db (msgBucket dlq) + 1) W ltac:(lia)) as Hf.
  pose proof (bag_delete _ _ _ _ _ E3) as B3.
  assert (msg_at db2 (msgBucket queue) (seqKey (m_Seq m)) = Some m) as Hm2.
  { rewrite A. case_decide as Hd; [|done]. destruct Hd as [Hb Hk]. rewrite Hb, Hk in Hm. congruence. }
  rewrite Hm2 in B3.
  split; [etrans; [done|]; intros b'; rewrite S3; lia|]. split; [by etrans|]. split; [by eapply wf_delete|].
  split; [|split; [|split]].
  - rewrite Bg in B3. change (content (moved (wrap64 now) _ m)) with (content m) in B3.
    by apply Permutation_cons_inv in B3.
  - intros b k m' Hk Hn. rewrite A3, decide_False by tauto. rewrite A. case_decide as Hd; [|done].
    destruct Hd as [-> ->]. congruence.
  - intros b k m'. rewrite A3. case_decide; [done|]. rewrite A. case_decide as Hd; [|by left].
    intros [= <-]. right. destruct Hd as [-> ->]. split; [done|]. split; [by eexists|by eexists].
  - intros _ _. rewrite A3. by rewrite decide_True.
Qed.

Lemma grows_put b m : keeps (fun _ => True) (putMessage b m).
Proof.
  intros db r db' [(e & -> & ->)|(_ & _ & S & _)]%put_msg_spec; [done|]. split; [|done]. intros b'. rewrite S. lia.
Qed.

Lemma grows_next b : keeps (fun _ => True) (next_seq b).
Proof.
  intros db r db' E. destruct (next_seq_spec b db) as (db1 & E1 & _ & S & _). rewrite E in E1. injection E1 as -> ->.
  split; [|done]. intros b'. rewrite S. case_decide; lia.
Qed.

Lemma grows_delete b k : keeps (fun _ => True) (delete_msg b k).
Proof.
  intros db r db' E. destruct (delete_msg_spec b k db) as (db1 & E1 & _ & S & _). rewrite E in E1. injection E1 as -> ->.
  split; [|done]. intros b'. rewrite S. lia.
Qed.

Lemma redrives_grow now queue dlq ms db r db' :
  sEach (redrive_one now queue dlq) ms db = (r, db') -> grows db db'.
Proof.
  intros E. eapply (keeps_each (fun _ => True)); [|exact E]. intros m _. unfold redrive_one. apply keeps_bind.
  - unfold moveToDLQ. apply keeps_read. intros x. destruct (find_queue x dlq); [|apply keeps_ret].
    apply keeps_bind; [apply grows_next|]. intros seq. apply keeps_bind; [apply grows_put|]. intros _. apply keeps_ret.
  - intros []; [apply grows_delete|apply keeps_ret].
Qed.

Lemma redrive_all now queue dlq es db r db' :
  wf db -> room db' -> stored (msgBucket queue) es db ->
  sEach (redrive_one now queue dlq) es.*2 db = (r, db') -> r = Ok tt ->
  grows db db' /\ same_rest db db' /\ wf db' /\ bag db' ≡ₚ bag db /\
  (forall b k m', msg_at db b k = Some m' -> (b <> msgBucket queue \/ k ∉ es.*1) -> msg_at db' b k = Some m') /\
  (forall b k m', msg_at db' b k = Some m' ->
     msg_at db b k = Some m' \/ (b = msgBucket dlq /\ exists e, e ∈ es /\ moved_from now dlq e.2 m')) /\
  (is_Some (find_queue db dlq) -> msgBucket dlq <> msgBucket queue ->
     forall k, k ∈ es.*1 -> msg_at db' (msgBucket queue) k = None).
Proof.
  revert db; induction es as [|e es IH]; intros db W Hr Hs.
  { simpl. intros [= <- <-] _. split; [done|]. split; [done|]. split; [done|]. split; [done|].
    split; [done|]. split; [by left|]. intros _ _ k Hk. by apply elem_of_nil in Hk. }
  apply stored_cons in Hs as (He & Hn & Hs). rewrite fmap_cons. cbn [sEach]. run_sq.
  destruct (redrive_one now queue dlq e.2 db) as [[[]|x] db1] eqn:E; [|by intros [= <- _]]. intros E' Hok.
  destruct (wf_key db W _ _ _ He) as [Hk _]. rewrite Hk in He, Hn.
  assert (grows db1 db') as G2 by (by eapply (redrives_grow now queue dlq es.*2)).
  destruct (redrive_one_spec now queue dlq e.2 db _ db1 W (room_grows _ _ G2 Hr) He E eq_refl)
    as (G1 & R1 & W1 & B1 & K1 & N1 & D1).
  destruct (IH db1 W1 Hr) as (_ & R2 & W2 & B2 & K2 & N2 & D2); [|done|done|].
  { destruct Hs as [Hnd Hs]. split; [done|]. rewrite Forall_forall in Hs |- *. intros e' He'. apply K1; [by apply Hs|].
    right. intros Heq. destruct Hn. rewrite <- Heq. apply list_elem_of_fmap. eauto. }
  split; [by etrans|]. split; [by etrans|]. split; [done|]. split; [by rewrite B2|].
  assert (find_queue db1 dlq = find_queue db dlq) as Hq by (unfold find_queue; by destruct R1 as (-> & _)).
  split; [|split].
  - intros b k m' Hm Hor. rewrite fmap_cons, elem_of_cons in Hor. apply K2; [apply K1; [done|]|]; rewrite <- ?Hk; tauto.
  - intros b k m' Hm. apply N2 in Hm as [Hm|(-> & e' & He' & Hm)].
    + apply N1 in Hm as [Hm|(-> & Hm & _)]; [by left|]. right. split; [done|]. exists e. split; [by left|done].
    + right. split; [done|]. exists e'. split; [by right|done].
  - intros Hd Hne k. rewrite fmap_cons, elem_of_cons. rewrite Hq in D2. intros [->|Hin]; [|by apply D2].
    destruct (msg_at db' (msgBucket queue) e.1) as [m'|] eqn:Em; [|done].
    apply N2 in Em as [Em|(? & _)]; [|congruence]. rewrite Hk in Em. rewrite D1 in Em; done.
Qed.
End inv.
