(* ===== verification/MessagesSpec.v ===== *)
(** * MessagesSpec: the effect of each operation

    What a receive decides and what it changes, and the effect of sends, moves and handles
    on the stored messages and on the queues. *)

From stdpp Require Import sorting.
From S2P Require Import Prelude Bytes Ident Clock Wire Star GoText Glob Policy Bolt Cursor Queues Messages MessagesInv.

Section spec.
Context `{BL : BoltLaws}.
#[local] Set Default Proof Using "BL".

(** ** What a walk decides *)

Definition visible (now : Z) (m : message) : Prop := m_VisibleAt m <= wrap64 now.

(** The entries a walk expires, redrives and delivers. *)
Record decided (now vis : Z) (q : queue) (p p' : pass) (entries E1 E2 E3 : list (string * message)) : Prop := {
  dc_expire : p_expire p' = p_expire p ++ E1.*1;
  dc_dlq : p_dlq p' = p_dlq p ++ E2.*2;
  dc_deliver : p_deliver p' = p_deliver p ++ (received (wrap64 now) (later now vis) <$> E3.*2);
  dc_entries : E1 ++ E2 ++ E3 ⊆+ entries;
  dc_expired : Forall (fun e => expired_message q now e.2 = true) E1;
  dc_redriven : Forall (fun e => visible now e.2 /\ expired_message q now e.2 = false /\ redrives q e.2 = true) E2;
  dc_delivered : Forall (fun e => visible now e.2 /\ expired_message q now e.2 = false /\ redrives q e.2 = false) E3
}.

Lemma walk_decides now vis max q entries p :
  exists E1 E2 E3, decided now vis q p (receive_walk now vis max q entries p) entries E1 E2 E3.
Proof using.
  revert p; induction entries as [|[k m] entries IH]; intros p; cbn [receive_walk].
  { exists [], [], []. split; simpl; rewrite ?app_nil_r; try done. }
  destruct (_ <? max).
  2:{ exists [], [], []. split; simpl; rewrite ?app_nil_r; try done. apply submseteq_nil_l. }
  destruct (IH (receive_visit now vis q k m p)) as (E1 & E2 & E3 & [D1 D2 D3 D4 D5 D6 D7]). clear IH. revert D1 D2 D3.
  unfold receive_visit. destruct (expired_message q now m) eqn:Ex; cbn [p_expire p_dlq p_deliver].
  { intros D1 D2 D3. exists ((k, m) :: E1), E2, E3.
    split; try done; [by rewrite D1, <- app_assoc|by apply submseteq_skip|by constructor]. }
  destruct (wrap64 now <? m_VisibleAt m) eqn:Ev; cbn [p_expire p_dlq p_deliver].
  { intros D1 D2 D3. exists E1, E2, E3. split; try done. by apply submseteq_cons. }
  apply Z.ltb_ge in Ev. destruct (FIFO q && _).
  { intros D1 D2 D3. exists E1, E2, E3. split; try done. by apply submseteq_cons. }
  destruct (redrives q m) eqn:Er; cbn [p_expire p_dlq p_deliver]; intros D1 D2 D3.
  - exists E1, ((k, m) :: E2), E3. split; try done; [by rewrite D2, <- app_assoc| |by constructor].
    rewrite <- app_comm_cons, <- Permutation_middle. by apply submseteq_skip.
  - exists E1, E2, ((k, m) :: E3). split; try done; [by rewrite D3, <- app_assoc| |by constructor].
    rewrite !app_assoc, <- Permutation_middle, <- app_assoc. by apply submseteq_skip.
Qed.

(** ** What a receive stores *)

Record receive_effect (now vis : Z) (qn : string) (q : queue) (db db' : SqsDB) (E1 E2 E3 : list (string * message))
    : Prop := {
  re_stored : stored (msgBucket qn) (E1 ++ E2 ++ E3) db;
  re_grows : grows db db';
  re_rest : same_rest db db';
  re_wf : wf db';
  re_bag : (content <$> E1.*2) ++ bag db' ≡ₚ bag db;
  re_keep b k m : msg_at db b k = Some m -> (b <> msgBucket qn \/ k ∉ (E1 ++ E2 ++ E3).*1) -> msg_at db' b k = Some m;
  re_delivered e : e ∈ E3 -> msg_at db' (msgBucket qn) e.1 = Some (received (wrap64 now) (later now vis) e.2);
  re_from b k m' : msg_at db' b k = Some m' ->
    (msg_at db b k = Some m' /\ (b <> msgBucket qn \/ k ∉ E1.*1 ++ E3.*1)) \/
    (b = msgBucket qn /\ exists m, (k, m) ∈ E3 /\ m' = received (wrap64 now) (later now vis) m) \/
    (b = msgBucket (DeadLetterTarget q) /\ exists e, e ∈ E2 /\ moved_from now (DeadLetterTarget q) e.2 m')
}.

Lemma find_key (es : list (string * message)) k :
  match List.find (fun e => String.eqb e.1 k) es with
  | Some e => e ∈ es /\ e.1 = k
  | None => k ∉ es.*1
  end.
Proof using.
  destruct (List.find _ es) as [e|] eqn:E.
  - apply find_some in E as [Hin He]. apply String.eqb_eq in He. split; [by apply list_elem_of_In|done].
  - intros Hin. apply list_elem_of_fmap in Hin as (e & -> & He). apply list_elem_of_In in He.
    pose proof (find_none _ _ E e He) as Hx. simpl in Hx. by rewrite String.eqb_refl in Hx.
Qed.

Lemma grows_puts b ms db r db' : sEach (putMessage b) ms db = (r, db') -> grows db db'.
Proof. intros E. eapply (keeps_each (fun _ => True)); [|exact E]. intros m _. apply grows_put. Qed.

Lemma stored_entries qn db mb es :
  s_msgs db !! msgBucket qn = Some mb -> es ⊆+ bentries mb -> stored (msgBucket qn) es db.
Proof.
  intros Hmb Hsub. split.
  - pose proof (bentries_sorted _ mb) as Hs. apply (StronglySorted_NoDup bytes_lt) in Hs.
    apply submseteq_Permutation in Hsub as [k Hp]. rewrite Hp, fmap_app, NoDup_app in Hs. by destruct Hs.
  - apply Forall_forall. intros [k m] Hin. assert ((k, m) ∈ bentries mb) as Hx by (by eapply elem_of_submseteq).
    apply bentries_bget in Hx. unfold msg_at. simpl. by rewrite Hmb.
Qed.

Lemma receive_phases now vis qn q db db' E1 E2 E3 r :
  wf db -> room db' -> stored (msgBucket qn) (E1 ++ E2 ++ E3) db ->
  (_ ← sEach (delete_msg (msgBucket qn)) E1.*1;
   _ ← sEach (redrive_one now qn (DeadLetterTarget q)) E2.*2;
   sEach (putMessage (msgBucket qn)) (received (wrap64 now) (later now vis) <$> E3.*2)) db = (r, db') ->
  r = Ok tt -> receive_effect now vis qn q db db' E1 E2 E3.
Proof.
  intros W Hr Hst. pose proof Hst as Hst0. apply stored_app in Hst as (S1 & S23 & N1).
  apply stored_app in S23 as (S2 & S3 & N2). run_sq.
  destruct (delete_all _ _ _ S1) as (db1 & E & R1 & Q1 & B1 & A1). rewrite E.
  destruct (sEach (redrive_one _ _ _) _ db1) as [[[]|x] db2] eqn:Er; [|by intros [= <- _]]. intros Ep Hok.
  assert (wf db1) as W1.
  { eapply wf_same; [done| |done]. intros b k m. rewrite A1. by case_decide. }
  assert (grows db db1) as G1 by (intros b; rewrite Q1; lia).
  pose proof (grows_puts _ _ _ _ _ Ep) as G3.
  assert (stored (msgBucket qn) E2 db1) as S2'.
  { eapply stored_mono; [|done]. intros k Hk. rewrite A1, decide_False; [done|]. intros [_ Hin].
    apply (N1 k Hin). rewrite fmap_app. by apply elem_of_app; left. }
  destruct (redrive_all now qn (DeadLetterTarget q) E2 db1 _ db2 W1 (room_grows _ _ G3 Hr) S2' Er eq_refl)
    as (G2 & R2 & W2 & B2 & K2 & F2 & D2).
  assert (stored (msgBucket qn) E3 db2) as S3'.
  { destruct S3 as [Hnd Hs]. split; [done|]. rewrite Forall_forall in Hs |- *. intros e He.
    assert (e.1 ∈ E3.*1) as Hk by (apply list_elem_of_fmap; eauto). apply K2.
    - rewrite A1, decide_False; [by apply Hs|]. intros [_ Hin]. apply (N1 _ Hin). rewrite fmap_app. by apply elem_of_app; right.
    - right. intros Hin. by apply (N2 _ Hin). }
  destruct (put_all (msgBucket qn) (received (wrap64 now) (later now vis)) E3 db2 db' r) as (R3 & Q3 & B3 & A3); [done| |done..|].
  { destruct S3' as [_ Hs]. rewrite Forall_forall in Hs |- *. intros e He. by destruct (wf_key db2 W2 _ _ _ (Hs e He)). }
  split; [done|by etrans; [|etrans]|by etrans; [|etrans]|..].
  - split; intros b; rewrite Q3; [apply (wf_seq db2 W2)|]. intros k m'. rewrite A3.
    destruct (decide _) as [->|]; [|apply (wf_key db2 W2)]. pose proof (find_key E3 k) as Hf.
    destruct (List.find _ E3) as [e|]; [|apply (wf_key db2 W2)]. destruct Hf as [He <-]. intros [= <-].
    destruct S3' as [_ Hs]. rewrite Forall_forall in Hs. by destruct (wf_key db2 W2 _ _ _ (Hs e He)).
  - by rewrite B3, B2.
  - intros b k m Hm Hor. rewrite !fmap_app, !elem_of_app in Hor. rewrite A3.
    assert (msg_at db2 b k = Some m) as Hm2.
    { apply K2; [rewrite A1, decide_False by tauto; done|tauto]. }
    destruct (decide _) as [->|]; [|done]. pose proof (find_key E3 k) as Hf.
    destruct (List.find _ E3) as [e|]; [|done]. destruct Hf as [He <-]. destruct Hor as [|Hor]; [done|].
    destruct Hor. right. right. apply list_elem_of_fmap. eauto.
  - intros e He. rewrite A3, decide_True by done. pose proof (find_key E3 e.1) as Hf.
    destruct (List.find _ E3) as [e'|]; [|destruct Hf; apply list_elem_of_fmap; eauto].
    destruct Hf as [He' Hk]. destruct S3 as [_ Hs]. rewrite Forall_forall in Hs.
    pose proof (Hs e He) as H1. pose proof (Hs e' He') as H2. rewrite Hk in H2. congruence.
  - intros b k m'. rewrite A3.
    assert (msg_at db2 b k = Some m' -> msg_at db b k = Some m' /\ ~ (b = msgBucket qn /\ k ∈ E1.*1) \/
      (b = msgBucket (DeadLetterTarget q) /\ exists e, e ∈ E2 /\ moved_from now (DeadLetterTarget q) e.2 m')) as Hd.
    { intros Hm. apply F2 in Hm as [Hm|?]; [|by right]. rewrite A1 in Hm. case_decide; [done|]. by left. }
    rewrite elem_of_app. destruct (decide _) as [->|]; [pose proof (find_key E3 k) as Hf; destruct (List.find _ E3) as [e|]|].
    + destruct Hf as [He <-]. intros [= <-]. right. left. split; [done|]. exists e.2. split; [by destruct e|done].
    + intros [[? ?]|?]%Hd; [left|by right; right]. split; [done|]. right. tauto.
    + intros [[? ?]|?]%Hd; [left|by right; right]. split; [done|]. by left.
Qed.

Lemma receive_spec now qn q max ov db r db' ms next :
  wf db -> room db' -> find_queue db qn = Some q -> receiveIn now qn max ov db = (r, db') -> r = Ok (ms, next) ->
  exists vis E1 E2 E3, receive_effect now vis qn q db db' E1 E2 E3 /\
    ms = (received (wrap64 now) (later now vis) <$> E3.*2) /\
    vis = (if 0 <=? ov then ov else VisibilityTimeout q) /\
    (forall mb, s_msgs db !! msgBucket qn = Some mb ->
      decided now vis q (mkPass [] [] [] (if FIFO q then in_flight_groups now (bentries mb) else ∅) 0)
        (receive_pass now q max ov mb) (bentries mb) E1 E2 E3) /\
    (s_msgs db !! msgBucket qn = None -> E1 = [] /\ E2 = [] /\ E3 = []).
Proof.
  intros W Hr Hq. unfold receiveIn, getQueue. run_sq. rewrite Hq. cbv beta iota.
  set (vis := if 0 <=? ov then ov else VisibilityTimeout q).
  destruct (s_msgs db !! msgBucket qn) as [mb|] eqn:Emb; cbv beta iota.
  2:{ intros [= <- <-] [= <- <-]. exists vis, [], [], []. split; [|done]. split; try done.
      - split; constructor.
      - intros e He. by apply elem_of_nil in He.
      - intros b k m' Hm. left. split; [done|]. right. apply not_elem_of_nil. }
  destruct (walk_decides now vis max q (bentries mb)
    (mkPass [] [] [] (if FIFO q then in_flight_groups now (bentries mb) else ∅) 0)) as (E1 & E2 & E3 & D).
  change (receive_walk now vis max q (bentries mb) _) with (receive_pass now q max ov mb) in D.
  destruct D as [D1 D2 D3 D4 D5 D6 D7] eqn:ED. simpl in D1, D2, D3. intros E Hok.
  exists vis, E1, E2, E3. rewrite D1, D2, D3 in E. split.
  - destruct (sEach (delete_msg _) E1.*1 db) as [[[]|x] db1] eqn:F1; [|by subst].
    destruct (sEach (redrive_one _ _ _) E2.*2 db1) as [[[]|x] db2] eqn:F2; [|by subst].
    destruct (sEach (putMessage _) _ db2) as [[[]|x] db3] eqn:F3; [|by subst]. injection E as <- <-.
    eapply receive_phases; [done|done|by eapply stored_entries| |reflexivity]. run_sq. by rewrite F1, F2, F3.
  - split; [|split; [done|split; [|done]]].
    + destruct (sEach (delete_msg _) E1.*1 db) as [[[]|x] db1] eqn:F1; [|by subst].
      destruct (sEach (redrive_one _ _ _) E2.*2 db1) as [[[]|x] db2] eqn:F2; [|by subst].
      destruct (sEach (putMessage _) _ db2) as [[[]|x] db3] eqn:F3; [|by subst]. injection E as <- <-. by injection Hok as <- <-.
    + intros mb' [= <-]. by split.
Qed.

(** ** Effects that compose *)

(** What may leave the bag, what enters it and whose messages are written. *)
Record effect (L : message -> Prop) (E : list message -> Prop) (T : string -> Prop) (db db' : SqsDB) : Prop := {
  ef_grows : grows db db';
  ef_bag : wf db -> room db' -> wf db' /\ exists gone come,
    gone ++ bag db' ≡ₚ come ++ bag db /\ Forall L gone /\ E come;
  ef_from b k m' : msg_at db' b k = Some m' -> msg_at db b k = Some m' \/ T (m_ID m')
}.

Lemma effect_refl L (E : list message -> Prop) T db : E [] -> effect L E T db db.
Proof. intros HE. split; [done| |by left]. intros W _. split; [done|]. by exists [], []. Qed.

Lemma effect_trans L (E1 E2 E3 : list message -> Prop) T a b c :
  (forall c1 c2, E1 c1 -> E2 c2 -> E3 (c2 ++ c1)) -> effect L E1 T a b -> effect L E2 T b c -> effect L E3 T a c.
Proof.
  intros HE [G1 B1 F1] [G2 B2 F2]. split; [by etrans| |].
  - intros W R. destruct (B1 W (room_grows _ _ G2 R)) as (W1 & g1 & c1 & P1 & L1 & C1).
    destruct (B2 W1 R) as (W2 & g2 & c2 & P2 & L2 & C2). split; [done|]. exists (g1 ++ g2), (c2 ++ c1).
    split; [|split; [by rewrite Forall_app|by apply HE]]. rewrite <- !app_assoc, P2, <- P1, !app_assoc.
    by rewrite (Permutation_app_comm g1 c2).
  - intros x k m' [Hm|]%F2; [|by right]. by apply F1.
Qed.

(** Nothing enters. *)
Definition nothing (come : list message) : Prop := come = [].

#[global] Instance effect_preorder L T : PreOrder (effect L nothing T).
Proof.
  split; [intros db; by apply effect_refl|]. intros a b c. apply effect_trans. by intros c1 c2 -> ->.
Qed.

Definition acts {A} (R : SqsDB -> SqsDB -> Prop) (f : Sq A) : Prop := forall db r db', f db = (r, db') -> R db db'.

Section acts.
Context (R : SqsDB -> SqsDB -> Prop) `{!PreOrder R}.
#[local] Set Default Proof Using "PreOrder0".

Lemma acts_ret {A} (a : A) : acts R (mret a).
Proof. intros db r db' [= <- <-]. done. Qed.
Lemma acts_throw {A} e : acts R (sThrow (A := A) e).
Proof. intros db r db' [= <- <-]. done. Qed.
Lemma acts_lift {A} (x : result A) : acts R (sLift x).
Proof. intros db r db' [= <- <-]. done. Qed.
Lemma acts_read {A} (g : SqsDB -> Sq A) : (forall x, acts R (g x)) -> acts R (sRead ≫= g).
Proof. intros Hg. intros db r db'. run_sq. apply Hg. Qed.
Lemma acts_bind {A C} (f : Sq A) (g : A -> Sq C) : acts R f -> (forall a, acts R (g a)) -> acts R (f ≫= g).
Proof.
  intros Hf Hg db r db'. run_sq. destruct (f db) as [[a|e] db1] eqn:E; intros E'.
  - apply Hf in E. apply Hg in E'. by etrans.
  - injection E' as <- <-. by eapply Hf.
Qed.
Lemma acts_each {A} (f : A -> Sq unit) l : (forall a, a ∈ l -> acts R (f a)) -> acts R (sEach f l).
Proof.
  induction l as [|a l IH]; intros Hf; [apply acts_ret|]. simpl. apply acts_bind; [apply Hf; by left|].
  intros _. apply IH. intros x Hx. apply Hf. by right.
Qed.
Lemma acts_entries {A} (f : A -> Sq unit) l : (forall a, a ∈ l -> acts R (f a)) -> acts R (entries_in f l).
Proof.
  induction l as [|a l IH]; intros Hf; [apply acts_ret|]. cbn [entries_in]. intros db r db'.
  destruct (f a db) as [x db1] eqn:E. apply Hf in E; [|by left]. intros E'.
  assert (acts R (rs ← entries_in f l; mret (x :: rs))) as Ha.
  { apply acts_bind; [|intros; apply acts_ret]. apply IH. intros y Hy. apply Hf. by right. }
  apply Ha in E'. by etrans.
Qed.
End acts.

Lemma acts_Commit {A} (R : SqsDB -> SqsDB -> Prop) (f : Sq A) :
  (forall db, R db db) -> acts R f -> acts R (Commit f).
Proof.
  intros Hr Hf db r db'. unfold Commit. destruct (f db) as [[a|e] db1] eqn:E; intros [= <- <-]; [by eapply Hf|done].
Qed.

(** A change that leaves the messages alone. *)
Lemma effect_same L (E : list message -> Prop) T db db' : E [] -> s_msgs db' = s_msgs db -> effect L E T db db'.
Proof.
  intros HE Hm. assert (forall b, seq_at db' b = seq_at db b) as Hs by (intros b; unfold seq_at; by rewrite Hm).
  assert (forall b k, msg_at db' b k = msg_at db b k) as Ha by (intros b k; unfold msg_at; by rewrite Hm).
  split.
  - intros b. rewrite Hs. lia.
  - intros W _. split; [apply (wf_same db db'); [done| |done]; intros b k m; by rewrite Ha|]. exists [], [].
    unfold bag. rewrite Hm. by repeat constructor.
  - intros b k m'. rewrite Ha. by left.
Qed.

Lemma getQueue_acts R `{!PreOrder R} name : acts R (getQueue name).
Proof. unfold getQueue. apply acts_read; [done|]. intros x. destruct (find_queue x name); [by apply acts_ret|by apply acts_throw]. Qed.

Lemma putQueue_acts L T q : acts (effect L nothing T) (putQueue q).
Proof.
  intros db r db'. unfold putQueue. run_sq. destruct (bput _ _ _); intros [= <- <-]; by apply effect_same.
Qed.

Lemma effect_entering L (E E' : list message -> Prop) T db db' :
  (forall c, E c -> E' c) -> effect L E T db db' -> effect L E' T db db'.
Proof. intros HE [G Bg F]. split; [done| |done]. intros W R. destruct (Bg W R) as (W' & g & c & ? & ? & ?). split; [done|]. exists g, c. auto. Qed.

(** A message appended to a bucket enters the bag. *)
Lemma append_effect L (T : string -> Prop) b (mk : Z -> message) c db r db' :
  (forall seq, m_Seq (mk seq) = seq) -> (forall seq, content (mk seq) = c) -> (forall seq, T (m_ID (mk seq))) ->
  (seq ← next_seq b; putMessage b (mk seq)) db = (r, db') ->
  effect L (match r with Ok _ => fun come => come = [c] | Err _ => nothing end) T db db'.
Proof.
  intros Hq Hc HT Hp. pose proof Hp as Hp0. apply append_spec in Hp as (G & R & [(e & -> & B1 & A)|(-> & S & A & B1)]); [| |done].
  - split; [done| |].
    + intros W _. split; [by eapply wf_append|]. exists [], []. by repeat constructor.
    + intros b' k m'. rewrite A. by left.
  - split; [done| |].
    + intros W Hr. split; [by eapply wf_append|]. exists [], [content (mk (seq_at db b + 1))]. split.
      * rewrite B1; [done|done|]. specialize (Hr b). by rewrite S, decide_True in Hr.
      * split; [constructor|by rewrite Hc].
    + intros b' k m'. rewrite A. case_decide; [intros [= <-]; by right|by left].
Qed.

(** ** Operations that leave queue definitions and deduplication records alone *)

Lemma acts_impl {A} (R R' : SqsDB -> SqsDB -> Prop) (f : Sq A) :
  (forall a b, R a b -> R' a b) -> acts R f -> acts R' f.
Proof. intros Hi Hf db r db' E. by eapply Hi, Hf. Qed.

Definition same_defs (db db' : SqsDB) : Prop := s_meta db' = s_meta db /\ s_dedup db' = s_dedup db.

#[global] Instance same_defs_preorder : PreOrder same_defs.
Proof. split; [by intros ?|]. intros a b c [? ?] [? ?]. split; congruence. Qed.

Lemma defs_delete b k : acts same_defs (delete_msg b k).
Proof. by intros db r db' [= <- <-]. Qed.
Lemma defs_put b m : acts same_defs (putMessage b m).
Proof. intros db r db'. unfold putMessage, put_msg. run_sq. destruct (bput _ _ _); by intros [= <- <-]. Qed.
Lemma defs_next b : acts same_defs (next_seq b).
Proof. intros db r db'. unfold next_seq. run_sq. by intros [= <- <-]. Qed.
Lemma defs_task t : acts same_defs (recordMoveTask t).
Proof. intros db r db'. unfold recordMoveTask. run_sq. destruct (bput _ _ _); by intros [= <- <-]. Qed.
Lemma defs_getQueue name : acts same_defs (getQueue name).
Proof. apply getQueue_acts, _. Qed.

Lemma defs_redrive now qn dlq m : acts same_defs (redrive_one now qn dlq m).
Proof.
  unfold redrive_one. apply acts_bind; [apply _| |].
  - unfold moveToDLQ. apply acts_read; [apply _|]. intros x. destruct (find_queue x dlq); [|apply acts_ret, _].
    apply acts_bind; [apply _|apply defs_next|]. intros seq.
    apply acts_bind; [apply _|apply defs_put|]. intros _. apply acts_ret, _.
  - intros []; [apply defs_delete|apply acts_ret, _].
Qed.

Lemma defs_receive now qn max vis : acts same_defs (receiveIn now qn max vis).
Proof.
  unfold receiveIn. apply acts_bind; [apply _|apply defs_getQueue|].
  intros q. apply acts_read; [apply _|]. intros x. destruct (s_msgs x !! msgBucket qn) as [mb|]; [|apply acts_ret, _].
  apply acts_bind; [apply _|apply acts_each; [apply _|]; intros; apply defs_delete|intros _].
  apply acts_bind; [apply _|apply acts_each; [apply _|]; intros; apply defs_redrive|intros _].
  apply acts_bind; [apply _|apply acts_each; [apply _|]; intros; apply defs_put|intros _]. apply acts_ret, _.
Qed.

Lemma defs_copy now dest entries : acts same_defs (copy_entries now dest entries).
Proof.
  induction entries as [|[k m] entries IH]; [apply acts_ret, _|]. intros db x db'. cbn [copy_entries].
  assert (acts same_defs (seq ← next_seq (msgBucket dest); putMessage (msgBucket dest) (moved (wrap64 now) seq m))) as Ha.
  { apply acts_bind; [apply _|apply defs_next|]. intros seq. apply defs_put. }
  destruct ((seq ← next_seq (msgBucket dest); putMessage (msgBucket dest) (moved (wrap64 now) seq m)) db) as [[[]|e] db1] eqn:E;
    apply Ha in E; [|by intros [= <- <-]].
  run_sq. destruct (copy_entries now dest entries db1) as [[ks|e] db2] eqn:E2; apply IH in E2; intros [= <- <-]; by etrans.
Qed.

Lemma defs_move now id source dest : acts same_defs (startMove now id source dest).
Proof.
  unfold startMove. apply acts_bind; [apply _|apply defs_getQueue|intros _].
  apply acts_bind; [apply _|apply defs_getQueue|intros _].
  apply acts_read; [apply _|]. intros x. destruct (s_msgs x !! msgBucket source) as [mb|].
  - apply acts_bind; [apply _|by intros ??? [= <- <-]|intros _].
    apply acts_bind; [apply _|apply defs_copy|intros ks].
    apply acts_bind; [apply _|apply acts_each; [apply _|]; intros; apply defs_delete|intros _].
    apply acts_bind; [apply _|apply defs_task|intros _]. apply acts_ret, _.
  - apply acts_bind; [apply _|apply defs_task|intros _]. apply acts_ret, _.
Qed.

Lemma defs_handles now qn h n : acts same_defs (deleteIn qn h) /\ acts same_defs (changeVisibilityIn now qn h n).
Proof.
  unfold deleteIn, changeVisibilityIn.
  destruct (decodeHandle h) as [[k id]|]; [|split; apply acts_throw, _]. split; [|destruct (_ || _); [apply acts_throw, _|]];
    (apply acts_read; [apply _|]; intros x; destruct (handled _ _ _ _); [|apply acts_ret, _]); [apply defs_delete|apply defs_put].
Qed.
End spec.
