(* ===== verification/SqsRun.v ===== *)
(** * SqsRun: runs of queue operations

    The operations of the message service as steps of one machine, and what every step
    does to the stored messages: they are conserved, and one in flight stays so. *)

From S2P Require Import Prelude Bytes Ident Clock Wire Star GoText Glob Policy PolicySpec Bolt Cursor Queues Messages MessagesInv MessagesSpec.

(** The operations that change the store. *)
Inductive op : Type :=
| OpCreateQueue (name : string) (attrs tags : gmap string string)
| OpSetAttributes (name : string) (attrs : gmap string string)
| OpTagQueue (name : string) (tags : gmap string string)
| OpUntagQueue (name : string) (keys : list string)
| OpDeleteQueue (name : string)
| OpPurge (name : string)
| OpSend (name id : string) (it : sendItem)
| OpSendBatch (name : string) (items : list (string * sendItem))
| OpReceive (name : string) (max visibility : Z)
| OpDelete (name handle : string)
| OpDeleteBatch (name : string) (handles : list string)
| OpChangeVisibility (name handle : string) (timeout : Z)
| OpChangeVisibilityBatch (name : string) (items : list (string * Z))
| OpStartMove (id source dest : string)
| OpSweep.

Section run.
Context `{BL : BoltLaws} `{GoText} `{JsonText} `{GoHash} (ident : Identity).

(** The messages an operation delivers, and the store it leaves. *)
Definition step (now : Z) (o : op) (db : SqsDB) : list message * SqsDB :=
  match o with
  | OpCreateQueue name attrs tags => ([], (CreateQueue ident now name attrs tags db).2)
  | OpSetAttributes name attrs => ([], (SetAttributes now name attrs db).2)
  | OpTagQueue name tags => ([], (TagQueue name tags db).2)
  | OpUntagQueue name keys => ([], (UntagQueue name keys db).2)
  | OpDeleteQueue name => ([], (DeleteQueue name db).2)
  | OpPurge name => ([], (Purge name db).2)
  | OpSend name id it => ([], (Send now name id it db).2)
  | OpSendBatch name items => ([], (SendBatch now name items db).2)
  | OpReceive name max vis =>
      match receiveOnce now name max vis db with
      | (Ok (ms, _), db') => (ms, db')
      | (Err _, db') => ([], db')
      end
  | OpDelete name handle => ([], (Delete name handle db).2)
  | OpDeleteBatch name handles => ([], (DeleteBatch name handles db).2)
  | OpChangeVisibility name handle timeout => ([], (ChangeVisibility now name handle timeout db).2)
  | OpChangeVisibilityBatch name items => ([], (ChangeVisibilityBatch now name items db).2)
  | OpStartMove id source dest => ([], (StartMessageMoveTask now id source dest db).2)
  | OpSweep => ([], Sweep now db)
  end.

Fixpoint run (ops : list (Z * op)) (db : SqsDB) : list (list message) * SqsDB :=
  match ops with
  | [] => ([], db)
  | (now, o) :: rest =>
      let '(ms, db) := step now o db in
      let '(mss, db) := run rest db in
      (ms :: mss, db)
  end.

(** ** What may leave, enter and be written *)

Definition handle_id (h : string) : option string := snd <$> decodeHandle h.

(** A stored message of a queue. *)
Definition in_queue (db : SqsDB) (name : string) (m : message) : Prop :=
  exists k m0, msg_at db (msgBucket name) k = Some m0 /\ content m0 = m.

Definition expires (now : Z) (db : SqsDB) (name : string) (m : message) : Prop :=
  in_queue db name m /\ exists q, find_queue db name = Some q /\ expired_message q now m = true.

Definition may_leave (now : Z) (o : op) (db : SqsDB) (m : message) : Prop :=
  match o with
  | OpReceive name _ _ => expires now db name m
  | OpSweep => exists name, expires now db name m
  | OpDelete _ h => handle_id h = Some (m_ID m)
  | OpDeleteBatch _ hs => exists h, h ∈ hs /\ handle_id h = Some (m_ID m)
  | OpPurge name | OpDeleteQueue name => in_queue db name m
  | _ => False
  end.

(** The message a sent item becomes, as the bag has it. *)
Definition became (now : Z) (q : queue) (e : string * sendItem) : message :=
  content (new_message now e.1 e.2 0 (if FIFO q then dedup_id q e.2 else it_DedupID e.2) 0).

(** The deduplication identifiers a queue has a record of. *)
Definition known_ids (q : queue) (db : SqsDB) (k : string) : Prop :=
  is_Some (s_dedup db !! dedupBucket (q_Name q) ≫= bget k).

(** What an item adds, by its answer.  One that answers a new message adds that message;
    one that answers a duplicate adds none, and its identifier was known; one that is
    refused adds none, unless its message was put before bbolt refused the record of its
    deduplication identifier. *)
Definition item_enters (now : Z) (q : queue) (known : string -> Prop) (e : string * sendItem)
  (r : result (message * bool)) (come : list message) : Prop :=
  match r with
  | Ok (m, true) => come = [content m] /\ content m = became now q e
  | Ok (_, false) => come = [] /\ FIFO q = true /\ known (dedup_id q e.2)
  | Err _ => come = [] \/ FIFO q = true /\ come = [became now q e] /\
      exists (b : bucket dedupRec) d err, bput (dedup_id q e.2) d b = Err err
  end.

(** The items of a batch in turn: the identifiers of those before are known. *)
Fixpoint items_enter (now : Z) (q : queue) (known : string -> Prop) (items : list (string * sendItem))
  (rs : list (result (message * bool))) (come : list message) : Prop :=
  match items, rs with
  | [], [] => come = []
  | e :: items, r :: rs => exists c1 c2, come = c2 ++ c1 /\ item_enters now q known e r c1 /\
      items_enter now q (fun k => known k \/ k = dedup_id q e.2) items rs c2
  | _, _ => False
  end.

(** What a send adds, by its answer; nothing else adds. *)
Definition may_enter (now : Z) (o : op) (db : SqsDB) : list message -> Prop :=
  match o with
  | OpSend name id it =>
      match find_queue db name, (Send now name id it db).1 with
      | Some q, Ok r => item_enters now q (known_ids q db) (id, it) (Ok r)
      | _, _ => nothing
      end
  | OpSendBatch name items =>
      match find_queue db name, (SendBatch now name items db).1 with
      | Some q, Ok rs => items_enter now q (known_ids q db) items rs
      | _, _ => nothing
      end
  | _ => nothing
  end.

(** Whose messages an operation may write. *)
Definition may_touch (now : Z) (o : op) (db : SqsDB) (id : string) : Prop :=
  match o with
  | OpSend _ id' _ => id = id'
  | OpSendBatch _ items => id ∈ items.*1
  | OpReceive name _ _ => exists k m, msg_at db (msgBucket name) k = Some m /\ visible now m /\ m_ID m = id
  | OpChangeVisibility _ h _ => handle_id h = Some id
  | OpChangeVisibilityBatch _ items => exists e, e ∈ items /\ handle_id e.1 = Some id
  | OpStartMove _ source _ => exists k m, msg_at db (msgBucket source) k = Some m /\ m_ID m = id
  | _ => False
  end.

#[local] Set Default Proof Using "BL".

(** ** The step of each operation *)

Ltac effects := match goal with |- acts (effect ?L _ ?T) _ => pose proof (effect_preorder L T) end.

Lemma recordDedup_acts L T now qn d m : acts (effect L nothing T) (recordDedup now qn d m).
Proof.
  intros db r db'. unfold recordDedup. run_sq. destruct (bput _ _ _); intros [= <- <-]; by apply effect_same.
Qed.

(** A record adds its identifier, or bbolt refuses it. *)
Lemma recordDedup_ids now q d m db r db' : recordDedup now (q_Name q) d m db = (r, db') ->
  (forall k, known_ids q db' k -> known_ids q db k \/ k = d) /\
  forall e, r = Err e -> exists (b : bucket dedupRec) dr err, bput d dr b = Err err.
Proof.
  unfold recordDedup, known_ids. run_sq. set (name := dedupBucket (q_Name q)). set (b := gcDedup now _).
  assert (forall k, is_Some (bget k b) -> is_Some (s_dedup db !! name ≫= bget k)) as Hgc.
  { intros k [v Hv]. unfold b, gcDedup in Hv. apply bget_deleted_some in Hv. destruct (s_dedup db !! name); [by exists v|].
    cbn in Hv. by rewrite bget_bempty in Hv. }
  destruct (bput d _ b) as [b'|err] eqn:Eb; intros [= <- <-]; cbn [set_dedup s_dedup]; (split; [|]).
  - intros k. rewrite lookup_insert_eq. cbn [mbind option_bind]. rewrite (bget_bput _ _ _ _ _ _ Eb).
    destruct (decide (k = d)); [by right|]. intros Hk. left. by apply Hgc.
  - done.
  - intros k. rewrite lookup_insert_eq. cbn [mbind option_bind]. intros Hk. left. by apply Hgc.
  - intros e _. by exists b, (mkDedupRec (unix_seconds now) (m_ID m) (m_MD5Body m)), err.
Qed.

Lemma known_same q db db' : same_defs db db' -> forall k, known_ids q db' k -> known_ids q db k.
Proof using. intros [_ E] k. unfold known_ids. by rewrite E. Qed.

Lemma enqueue_effect L (T : string -> Prop) now q id it known db r db' : T id ->
  enqueue now q id it (if FIFO q then dedup_id q it else it_DedupID it) db = (r, db') ->
  effect L (item_enters now q known (id, it) r) T db db' /\ forall k, known_ids q db' k -> known_ids q db k \/ k = dedup_id q it.
Proof.
  intros HT. set (d := if FIFO q then _ else _). set (delay := if it_Delay it <? 0 then DelaySeconds q else it_Delay it).
  set (mk := new_message now id it delay d). set (b := msgBucket (q_Name q)).
  unfold enqueue. fold delay b. run_sq.
  assert (forall x db2, (seq ← next_seq b; putMessage b (mk seq)) db = (x, db2) ->
    effect L (match x with Ok _ => fun come => come = [became now q (id, it)] | Err _ => nothing end) T db db2 /\ same_defs db db2) as Ha.
  { intros x db2 E. split; [by eapply (append_effect L T b mk (became now q (id, it)))|].
    revert E. apply (acts_bind same_defs); [apply defs_next|intros; apply defs_put]. }
  revert Ha. run_sq. destruct (next_seq b db) as [[seq|e] db1].
  2: { intros Ha [= <- <-]. destruct (Ha _ _ eq_refl) as [He Hs]. split; [|intros k Hk; left; by eapply known_same].
       eapply effect_entering; [|exact He]. intros c ->. by left. }
  fold mk. destruct (putMessage b (mk seq) db1) as [[[]|e] db2]; intros Ha; destruct (Ha _ _ eq_refl) as [He Hs].
  2: { intros [= <- <-]. split; [|intros k Hk; left; by eapply known_same]. eapply effect_entering; [|exact He]. intros c ->. by left. }
  assert (forall k, known_ids q db2 k -> known_ids q db k) as Hk2 by (by apply known_same).
  destruct (FIFO q) eqn:Ef.
  - destruct (recordDedup now (q_Name q) d (mk seq) db2) as [[[]|e] db3] eqn:E3; pose proof (recordDedup_acts L T _ _ _ _ _ _ _ E3) as H3;
      apply recordDedup_ids in E3 as [Hids Hbad]; intros [= <- <-]; (split; [|intros k [Hk| ->]%Hids; [left; by apply Hk2|by right]]).
    + eapply effect_trans; [|exact He|exact H3]. intros c1 c2 -> ->. unfold item_enters, became. by rewrite Ef.
    + eapply effect_trans; [|exact He|exact H3]. intros c1 c2 -> ->. right. unfold became. rewrite Ef. split; [done|]. split; [done|].
      by apply (Hbad e).
  - intros [= <- <-]. split; [|intros k Hk; left; by apply Hk2]. eapply effect_entering; [|exact He]. intros c ->.
    unfold item_enters, became. by rewrite Ef.
Qed.

Lemma sendIn_effect L (T : string -> Prop) now q id it known db r db' : T id ->
  (forall k, known_ids q db k -> known k) -> sendIn now q id it db = (r, db') ->
  effect L (item_enters now q known (id, it) r) T db db' /\ forall k, known_ids q db' k -> known_ids q db k \/ k = dedup_id q it.
Proof.
  intros HT Hknown. assert (forall e, (Err e, db) = (r, db') ->
    effect L (item_enters now q known (id, it) r) T db db' /\ forall k, known_ids q db' k -> known_ids q db k \/ k = dedup_id q it) as Hl.
  { intros e [= <- <-]. split; [|by left]. apply effect_refl. by left. }
  unfold sendIn. destruct (_ && _); [apply Hl|]. destruct (FIFO q && String.eqb _ ""); [apply Hl|].
  pose proof (enqueue_effect L T now q id it known db r db' HT) as He. destruct (FIFO q) eqn:Ef; [|exact He].
  destruct (String.eqb _ ""); [apply Hl|]. run_sq. destruct (lookupDedup _ _ _ _) as [m|] eqn:Em; [|exact He].
  intros [= <- <-]. split; [|by left]. apply effect_refl. split; [done|]. split; [done|]. apply Hknown.
  unfold lookupDedup in Em. unfold known_ids. cbn [snd]. by destruct (_ ≫= _).
Qed.

Lemma sendItems_effect L (T : string -> Prop) now q items known db r db' : (forall e, e ∈ items -> T e.1) ->
  (forall k, known_ids q db k -> known k) -> sendItems now q items db = (r, db') ->
  exists rs, r = Ok rs /\ effect L (items_enter now q known items rs) T db db'.
Proof.
  revert known db r db'. induction items as [|[id it] items IH]; intros known db r db' Hall Hknown.
  { intros [= <- <-]. exists []. split; [done|]. by apply effect_refl. }
  cbn [sendItems]. destruct (sendIn now q id it db) as [x db1] eqn:E1.
  apply (sendIn_effect L T now q id it known) in E1 as [He1 Hids]; [|apply (Hall (id, it)); by left|done].
  run_sq. destruct (sendItems now q items db1) as [rs0 db2] eqn:E2.
  apply (IH (fun k => known k \/ k = dedup_id q it)) in E2 as (rs & -> & He2);
    [|intros e He; apply Hall; by right|intros k [Hk| ->]%Hids; [left; by apply Hknown|by right]].
  intros [= <- <-]. exists (x :: rs). split; [done|]. eapply effect_trans; [|exact He1|exact He2].
  intros c1 c2 Hc1 Hc2. by exists c1, c2.
Qed.

Lemma handled_spec qn k id db m : handled qn k id db = Some m -> msg_at db (msgBucket qn) k = Some m /\ m_ID m = id.
Proof using.
  unfold handled, msg_at. destruct (s_msgs db !! msgBucket qn ≫= bget k) as [m'|]; [|done].
  destruct (String.eqb_spec (m_ID m') id); [|done]. by intros [= <-].
Qed.

Lemma deleteIn_acts (L : message -> Prop) T qn h :
  (forall m, handle_id h = Some (m_ID m) -> L m) -> acts (effect L nothing T) (deleteIn qn h).
Proof.
  intros HL. effects. unfold deleteIn. unfold handle_id in HL. destruct (decodeHandle h) as [[k id]|]; [|by apply acts_throw].
  intros db r db'. run_sq. destruct (handled qn k id db) as [m|] eqn:Eh; [|intros [= <- <-]; done].
  apply handled_spec in Eh as [Hm Hid]. intros Hd. pose proof (bag_delete _ _ _ _ _ Hd) as Hb. rewrite Hm in Hb.
  destruct (delete_msg_spec (msgBucket qn) k db) as (db1 & E1 & _ & S & A). rewrite Hd in E1. injection E1 as -> ->.
  split.
  - intros b. rewrite S. lia.
  - intros W _. split; [by eapply wf_delete|]. exists [content m], []. split; [done|]. split; [|done].
    constructor; [apply HL; simpl; by rewrite Hid|constructor].
  - intros b k' m'. rewrite A. case_decide; [done|]. by left.
Qed.

Lemma changeVisibilityIn_acts L (T : string -> Prop) now qn h n :
  (forall id, handle_id h = Some id -> T id) -> acts (effect L nothing T) (changeVisibilityIn now qn h n).
Proof.
  intros HT. effects. unfold changeVisibilityIn. unfold handle_id in HT.
  destruct (decodeHandle h) as [[k id]|]; [|by apply acts_throw]. destruct (_ || _); [by apply acts_throw|].
  intros db r db'. run_sq. destruct (handled qn k id db) as [m|] eqn:Eh; [|intros [= <- <-]; done].
  apply handled_spec in Eh as [Hm Hid]. intros Hp. pose proof Hp as Hp0.
  apply put_msg_spec in Hp0 as [(e & _ & ->)|(-> & _ & S & A)]; [done|]. split.
  - intros b. rewrite S. lia.
  - intros W _. destruct (wf_key db W _ _ _ Hm) as [Hk Hs]. split.
    { eapply (wf_put db _ (set_visible (later now n) m)); [done|exact Hs|exact Hp]. }
    apply bag_put in Hp. change (m_Seq (set_visible _ m)) with (m_Seq m) in Hp. rewrite <- Hk, Hm in Hp.
    change (content (set_visible _ m)) with (content m) in Hp. apply Permutation_cons_inv in Hp.
    exists [], []. by repeat constructor.
  - intros b k' m'. rewrite A. case_decide; [|by left]. intros [= <-]. right. apply HT. simpl. by rewrite Hid.
Qed.

(** Removing a queue's bucket. *)
Lemma drop_bucket (L : message -> Prop) T name db db' :
  s_msgs db' = delete (msgBucket name) (s_msgs db) -> (forall m, in_queue db name m -> L m) ->
  wf db -> (wf db' /\ exists gone come, gone ++ bag db' ≡ₚ come ++ bag db /\ Forall L gone /\ nothing come) /\
  (forall b k m', msg_at db' b k = Some m' -> msg_at db b k = Some m' \/ T (m_ID m')).
Proof.
  intros Hs HL W. pose proof (bag_remove_bucket (msgBucket name) db) as Hb.
  assert (forall b k m', msg_at db' b k = Some m' -> msg_at db b k = Some m') as Hf.
  { intros b k m'. unfold msg_at. rewrite Hs. destruct (decide (b = msgBucket name)) as [->|];
      [by rewrite lookup_delete_eq|by rewrite lookup_delete_ne]. }
  split; [|intros b k m' Hm; left; by apply Hf]. split.
  - split; intros b.
    + unfold seq_at. rewrite Hs. destruct (decide (b = msgBucket name)) as [->|];
        [by rewrite lookup_delete_eq; simpl; rewrite bsequence_bempty|rewrite lookup_delete_ne by done; apply (wf_seq db W)].
    + intros k m Hm. pose proof (wf_key db W _ _ _ (Hf _ _ _ Hm)) as Hk. revert Hm. unfold msg_at, seq_at in *. rewrite Hs.
      destruct (decide (b = msgBucket name)) as [->|]; [by rewrite lookup_delete_eq|by rewrite lookup_delete_ne].
  - exists (contents (default bempty (s_msgs db !! msgBucket name))), [].
    assert (bag db' = bag (set_msgs (delete (msgBucket name) (s_msgs db)) db)) as Hbag by (unfold bag; by rewrite Hs).
    split; [by rewrite Hbag, <- Hb|]. split; [|done]. apply Forall_forall.
    intros m (m0 & -> & Hm)%list_elem_of_fmap. apply list_elem_of_fmap in Hm as ([k m1] & -> & Hin). apply HL.
    apply bentries_bget in Hin. rewrite msg_at_default in Hin. by exists k, m1.
Qed.

(** ** Moves between queues *)

Lemma copy_spec now source dest entries db r db' :
  msgBucket dest <> msgBucket source -> copy_entries now dest entries db = (r, db') ->
  exists es1 es2, entries = es1 ++ es2 /\ r = Ok es1.*1 /\ grows db db' /\
    (forall k, msg_at db' (msgBucket source) k = msg_at db (msgBucket source) k) /\
    (wf db -> room db' -> wf db' /\ bag db' ≡ₚ (content <$> es1.*2) ++ bag db) /\
    (forall b k m', msg_at db' b k = Some m' ->
       msg_at db b k = Some m' \/ exists e, e ∈ es1 /\ m_ID m' = m_ID e.2).
Proof.
  intros Hne. revert db r db'; induction entries as [|[k m] entries IH]; intros db r db'.
  { intros [= <- <-]. exists [], []. split; [done|]. split; [done|]. split; [done|]. split; [done|]. split; [done|]. by left. }
  cbn [copy_entries].
  destruct ((seq ← next_seq (msgBucket dest); putMessage (msgBucket dest) (moved (wrap64 now) seq m)) db)
    as [[[]|e] db1] eqn:E1.
  - assert (wf db -> wf db1) as W1.
    { intros W. by apply (wf_append _ (fun seq => moved (wrap64 now) seq m) db db1 _ (fun _ => eq_refl) W E1). }
    apply (append_spec _ (fun seq => moved (wrap64 now) seq m)) in E1 as
      (G1 & _ & [(? & [=] & _)|(_ & S1 & A1 & B1)]); [|done].
    run_sq. destruct (copy_entries now dest entries db1) as [r2 db2] eqn:E2.
    apply IH in E2 as (es1 & es2 & -> & -> & G2 & K2 & B2 & F2). cbv beta iota. intros [= <- <-].
    exists ((k, m) :: es1), es2. split; [done|]. split; [done|]. split; [by etrans|].
    assert (forall k', msg_at db1 (msgBucket source) k' = msg_at db (msgBucket source) k') as Hk.
    { intros k'. rewrite A1, decide_False; [done|]. intros [? _]. congruence. }
    split; [intros k'; by rewrite K2, Hk|]. split.
    + intros W R. specialize (W1 W). destruct (B2 W1 R) as [W2 P2]. split; [done|]. rewrite P2.
      rewrite B1; [|done|]; [rewrite !fmap_cons; by rewrite <- Permutation_middle|].
      pose proof (room_grows _ _ G2 R (msgBucket dest)) as Hr. by rewrite S1, decide_True in Hr.
    + intros b k' m' Hm. apply F2 in Hm as [Hm|(e & He & Hid)]; [|right; exists e; split; [by right|done]].
      rewrite A1 in Hm. case_decide; [|by left]. injection Hm as <-. right. exists (k, m). split; [by left|done].
  - intros [= <- <-]. exists [], ((k, m) :: entries). split; [done|]. split; [done|].
    assert (wf db -> wf db1) as W1.
    { intros W. by apply (wf_append _ (fun seq => moved (wrap64 now) seq m) db db1 _ (fun _ => eq_refl) W E1). }
    apply (append_spec _ (fun seq => moved (wrap64 now) seq m)) in E1 as
      (G1 & _ & [(? & _ & B1 & A1)|([=] & _)]); [|done].
    split; [done|]. split; [intros k'; apply A1|]. split.
    + intros W R. split; [by apply W1|]. done.
    + intros b k' m'. rewrite A1. by left.
Qed.

Lemma startMove_effect now id source dest db r db' :
  msgBucket dest <> msgBucket source -> startMove now id source dest db = (r, db') ->
  effect (fun _ => False) nothing
    (fun x => exists k m, msg_at db (msgBucket source) k = Some m /\ m_ID m = x) db db'.
Proof.
  intros Hne. set (T := fun x => exists k m, msg_at db (msgBucket source) k = Some m /\ m_ID m = x).
  unfold startMove, getQueue, recordMoveTask. run_sq.
  destruct (find_queue db source); [|by intros [= <- <-]]. destruct (find_queue db dest); [|by intros [= <- <-]].
  cbv beta iota. destruct (s_msgs db !! msgBucket source) as [mb|] eqn:Emb.
  2:{ destruct (bput _ _ _); intros [= <- <-]; by apply effect_same. }
  destruct (open_bucket_same (msgBucket dest) db) as (S0 & A0 & B0). unfold open_bucket, sModify in *. cbn [snd] in *.
  set (db0 := set_msgs _ db) in *.
  destruct (copy_entries now dest (bentries mb) db0) as [r1 db1] eqn:E1.
  apply (copy_spec now source) in E1 as (es1 & es2 & Hes & -> & G1 & K1 & B1 & F1); [|done]. cbv beta iota.
  assert (forall k, msg_at db1 (msgBucket source) k = msg_at db (msgBucket source) k) as K0 by (intros k; by rewrite K1).
  assert (stored (msgBucket source) es1 db1) as Hst.
  { eapply (stored_mono _ _ db); [intros k _; apply K0|]. eapply stored_entries; [done|]. rewrite Hes.
    apply submseteq_inserts_r. done. }
  destruct (delete_all _ _ _ Hst) as (db2 & E2 & _ & S2 & B2 & A2). rewrite E2. cbv beta iota. intros Hrec.
  assert (effect (fun _ => False) nothing T db db2) as He.
  { split.
    - intros b. rewrite S2, <- S0. apply G1.
    - intros W R. destruct B1 as [W1 P1]; [|intros b; rewrite <- S2; apply R|].
      { eapply wf_same; [exact S0| |exact W]. intros b k m. by rewrite A0. }
      rewrite B0 in P1. split.
      + eapply wf_same; [exact S2| |exact W1]. intros b k m. rewrite A2. by case_decide.
      + exists [], []. split; [|by repeat constructor]. simpl. rewrite P1 in B2. by apply Permutation_app_inv_l in B2.
    - intros b k m'. rewrite A2. case_decide; [done|]. intros [Hm|(e & He & Hid)]%F1; [left; by rewrite <- A0|]. right.
      exists e.1, e.2. split; [|done]. rewrite <- K0. destruct Hst as [_ Hst]. rewrite Forall_forall in Hst. by apply Hst. }
  pose proof (effect_preorder (fun _ => False) T).
  destruct (bput _ _ _); injection Hrec as <- <-; [|done]. etrans; [done|]. by apply effect_same.
Qed.

(** ** The sweeper *)

Lemma sweep_queue_effect now name db r db' :
  sweep_queue now name db = (r, db') ->
  effect (expires now db name) nothing (fun _ => False) db db' /\ s_meta db' = s_meta db.
Proof.
  unfold sweep_queue. destruct (find_queue db name) as [q|] eqn:Eq; [|by intros [= <- <-]]. run_sq.
  assert (forall db1, s_meta db1 = s_meta db ->
    effect (expires now db name) nothing (fun _ => False) db db1 ->
    (Ok tt, set_dedup (alter (gcDedup now) (dedupBucket name) (s_dedup db1)) db1) = (r, db') ->
    effect (expires now db name) nothing (fun _ => False) db db' /\ s_meta db' = s_meta db) as Hend.
  { intros db1 Hm He [= <- <-]. split; [|done].
    pose proof (effect_preorder (expires now db name) (fun _ => False)).
    etrans; [done|]. by apply effect_same. }
  destruct (s_msgs db !! msgBucket name) as [mb|] eqn:Emb; [|by apply Hend].
  destruct (0 <? RetentionPeriod q); [|by apply Hend].
  set (es := filter (fun e => expired_message q now e.2 = true) (bentries mb)).
  assert (stored (msgBucket name) es db) as Hst.
  { eapply stored_entries; [done|]. apply sublist_submseteq, sublist_filter. }
  destruct (delete_all _ _ _ Hst) as (db1 & E1 & R1 & S1 & B1 & A1). rewrite E1. apply Hend; [by destruct R1|]. split.
  - intros b. rewrite S1. lia.
  - intros W _. split; [eapply wf_same; [done| |done]; intros b k m; rewrite A1; by case_decide|].
    exists (content <$> es.*2), []. split; [done|]. split; [|done]. apply Forall_forall.
    intros m (m0 & -> & Hm)%list_elem_of_fmap. apply list_elem_of_fmap in Hm as (e & -> & He). split.
    + destruct Hst as [_ Hst]. rewrite Forall_forall in Hst. exists e.1, e.2. split; [by apply Hst|done].
    + exists q. split; [done|]. by apply list_elem_of_filter in He as [? _].
  - intros b k m'. rewrite A1. case_decide; [done|]. by left.
Qed.

Lemma effect_weaken (L L' : message -> Prop) E T db db' :
  (forall m, L m -> L' m) -> effect L E T db db' -> effect L' E T db db'.
Proof using.
  intros HL [G Bg F]. split; [done| |].
  - intros W R. destruct (Bg W R) as (W' & g & c & P & Fl & Fe). split; [done|]. exists g, c. split; [done|].
    split; [|done]. eapply Forall_impl; eauto.
  - intros b k m' Hm. by apply F.
Qed.

Lemma expires_mono now db db1 name m :
  s_meta db1 = s_meta db -> (forall b k m', msg_at db1 b k = Some m' -> msg_at db b k = Some m') ->
  expires now db1 name m -> expires now db name m.
Proof using.
  intros Hm Hk [(k & m0 & Hx & Hc) (q & Hq & He)]. split; [exists k, m0; split; [by apply Hk|done]|].
  exists q. split; [|done]. unfold find_queue in *. by rewrite <- Hm.
Qed.

Lemma sweep_effect now names db db' :
  foldl (fun db name => (Commit (sweep_queue now name) db).2) db names = db' ->
  effect (fun m => exists name, expires now db name m) nothing (fun _ => False) db db'.
Proof.
  revert db; induction names as [|name names IH]; intros db; cbn [foldl].
  { intros <-. apply (effect_preorder _ _). }
  unfold Commit at 2. destruct (sweep_queue now name db) as [[[]|e] db1] eqn:E1; cbn [snd].
  2:{ apply IH. }
  apply sweep_queue_effect in E1 as [E1 Hm]. intros E2. apply IH in E2.
  assert (forall b k m', msg_at db1 b k = Some m' -> msg_at db b k = Some m') as Hk.
  { intros b k m' Hx. by apply (ef_from _ _ _ _ _ E1) in Hx as [?|[]]. }
  pose proof (effect_preorder (fun m => exists name, expires now db name m) (fun _ => False)).
  etrans; (eapply effect_weaken; [|eassumption]); try done.
  - intros m ?. by exists name.
  - intros m [n Hn]. exists n. by eapply expires_mono.
Qed.

(** ** Every step *)

(** A move task between two queues; bbolt leaves open what a walk over a bucket sees that
    is written meanwhile. *)
Definition distinct_move (o : op) : Prop :=
  match o with OpStartMove _ source dest => source <> dest | _ => True end.

Lemma msgBucket_inj a b : msgBucket a = msgBucket b -> a = b.
Proof using. unfold msgBucket. apply sapp_inj_l. Qed.

Lemma receive_step now name max vis db ms next db' r :
  wf db -> room db' -> receiveIn now name max vis db = (r, db') -> r = Ok (ms, next) ->
  (wf db' /\ exists gone come, gone ++ bag db' ≡ₚ come ++ bag db /\
     Forall (expires now db name) gone /\ nothing come) /\
  (forall b k m', msg_at db' b k = Some m' ->
     msg_at db b k = Some m' \/ exists k m, msg_at db (msgBucket name) k = Some m /\ visible now m /\ m_ID m = m_ID m').
Proof.
  intros W R Hrun Hok. destruct (find_queue db name) as [q|] eqn:Eq.
  2:{ revert Hrun. unfold receiveIn, getQueue. run_sq. rewrite Eq. by intros [= <- <-]. }
  destruct (receive_spec _ _ _ _ _ _ _ _ _ _ W R Eq Hrun Hok) as (v & E1 & E2 & E3 & Eff & _ & _ & D & Dn).
  pose proof (re_stored _ _ _ _ _ _ _ _ _ Eff) as [_ Hst]. rewrite !Forall_app, !Forall_forall in Hst.
  destruct Hst as (St1 & St2 & St3).
  assert (forall e, (e ∈ E1 -> expired_message q now e.2 = true) /\ (e ∈ E2 \/ e ∈ E3 -> visible now e.2)) as Hd.
  { destruct (s_msgs db !! msgBucket name) as [mb|].
    - destruct (D mb eq_refl) as [_ _ _ _ D5 D6 D7]. rewrite Forall_forall in D5, D6, D7. intros e.
      split; [apply D5|]. intros [He|He]; [by apply D6|by apply D7].
    - destruct (Dn eq_refl) as (-> & -> & ->). intros e. rewrite !elem_of_nil. tauto. }
  split; [split; [apply Eff|]|].
  - exists (content <$> E1.*2), []. split; [apply (re_bag _ _ _ _ _ _ _ _ _ Eff)|]. split; [|done].
    apply Forall_forall. intros m (m0 & -> & Hm)%list_elem_of_fmap. apply list_elem_of_fmap in Hm as (e & -> & He).
    split; [exists e.1, e.2; split; [by apply St1|done]|]. exists q. split; [done|]. by apply Hd.
  - intros b k m' Hm. apply (re_from _ _ _ _ _ _ _ _ _ Eff) in Hm as [[Hm _]|[(-> & m & Hin & ->)|(-> & e & He & seq & ->)]].
    + by left.
    + right. exists k, m. split; [by apply (St3 (k, m))|]. split; [by apply (Hd (k, m)); right|done].
    + right. exists e.1, e.2. split; [by apply St2|]. split; [by apply Hd; left|done].
Qed.

(** What holds of the database a step leaves. *)
Definition step_ok (now : Z) (o : op) (db db' : SqsDB) : Prop :=
  (wf db' /\ exists gone come, gone ++ bag db' ≡ₚ come ++ bag db /\
     Forall (may_leave now o db) gone /\ may_enter now o db come) /\
  (forall b k m', msg_at db' b k = Some m' -> msg_at db b k = Some m' \/ may_touch now o db (m_ID m')).

Lemma effect_step_ok now o db db' :
  wf db -> room db' -> effect (may_leave now o db) (may_enter now o db) (may_touch now o db) db db' -> step_ok now o db db'.
Proof using. intros W R [_ Bg F]. split; [by apply Bg|done]. Qed.

Lemma acts_step_ok {A} now o (f : Sq A) db db' :
  wf db -> room db' -> may_enter now o db [] -> acts (effect (may_leave now o db) (may_enter now o db) (may_touch now o db)) f ->
  (Commit f db).2 = db' -> step_ok now o db db'.
Proof.
  intros W R Hn Ha <-. apply effect_step_ok; [done..|]. destruct (Commit f db) as [r db'] eqn:E. simpl.
  eapply acts_Commit; [|exact Ha|exact E]. intros x. by apply effect_refl.
Qed.

Lemma same_step_ok now o db db' : wf db -> room db' -> may_enter now o db [] -> s_msgs db' = s_msgs db -> step_ok now o db db'.
Proof. intros W R Hn Hs. apply effect_step_ok; [done..|]. by apply effect_same. Qed.

(** The step of a send. *)
Lemma send_step now name id it db : wf db -> room (Send now name id it db).2 -> step_ok now (OpSend name id it) db (Send now name id it db).2.
Proof.
  intros W R. apply effect_step_ok; [done..|]. cbn [may_enter]. revert R. unfold Send, Commit, getQueue. run_sq.
  destruct (find_queue db name) as [q|] eqn:Eq; cbn [fst snd]; [|intros _; by apply effect_refl].
  destruct (sendIn now q id it db) as [[r|e] db'] eqn:E; cbn [fst snd]; [|intros _; by apply effect_refl]. intros R.
  exact (proj1 (sendIn_effect _ (fun x => x = id) now q id it (known_ids q db) _ _ _ eq_refl (fun _ Hk => Hk) E)).
Qed.

Lemma batch_step now name items db : wf db -> room (SendBatch now name items db).2 ->
  step_ok now (OpSendBatch name items) db (SendBatch now name items db).2.
Proof.
  intros W R. apply effect_step_ok; [done..|]. cbn [may_enter]. revert R. unfold SendBatch, Commit, getQueue. run_sq.
  destruct (find_queue db name) as [q|] eqn:Eq; cbn [fst snd]; [|intros _; by apply effect_refl].
  destruct (sendItems now q items db) as [r db'] eqn:E.
  destruct (sendItems_effect (may_leave now (OpSendBatch name items) db) (fun x => x ∈ items.*1) now q items (known_ids q db) db r db') as (rs & -> & He);
    [intros e He; apply list_elem_of_fmap; by exists e|done|exact E|]. intros _. exact He.
Qed.

Lemma reads_queue {A} L (E : list message -> Prop) T name (g : queue -> Sq A) :
  E [] -> (forall q, acts (effect L E T) (g q)) -> acts (effect L E T) (q ← getQueue name; g q).
Proof.
  intros HE Hg db r db'. unfold getQueue. run_sq. destruct (find_queue db name) as [q|]; [by apply Hg|].
  intros [= <- <-]. by apply effect_refl.
Qed.

Ltac acting := effects; apply acts_bind; [done|by apply getQueue_acts|intros ?].

Lemma step_spec now o db ms db' :
  wf db -> room db' -> distinct_move o -> step now o db = (ms, db') -> step_ok now o db db'.
Proof.
  intros W R Hmv. destruct o; cbn [step];
    try (match goal with |- context [DeleteQueue] => fail 1 | |- context [Purge] => fail 1
      | |- context [StartMessageMoveTask] => fail 1 | |- context [Send] => fail 1 | |- context [SendBatch] => fail 1 | _ => idtac end; intros [= <- Hs]; eapply acts_step_ok; [done|done|done| |exact Hs]; acting).
  - intros [= <- Hs]. unfold CreateQueue in Hs. destruct (String.eqb name ""); [subst; by apply same_step_ok|].
    destruct (validQueueName name); [subst; by apply same_step_ok|]. destruct (_ && _); [subst; by apply same_step_ok|].
    eapply acts_step_ok; [done|done|done| |exact Hs]. unfold createQueue. effects. apply acts_read; [done|]. intros x.
    destruct (find_queue x name) as [q|]; [destruct (first_difference _ _ _); [by apply acts_throw|by apply acts_ret]|].
    apply acts_bind; [done|by apply acts_lift|]. intros q. apply acts_bind; [done|apply putQueue_acts|intros; by apply acts_ret].
  - apply acts_read; [done|]. intros x. apply acts_bind; [done|by apply acts_lift|]. intros q. apply putQueue_acts.
  - apply putQueue_acts.
  - apply putQueue_acts.
  - intros [= <- Hs]. revert Hs. unfold DeleteQueue, Commit, getQueue. run_sq.
    destruct (find_queue db name); cbn [snd]; [|intros <-; by apply same_step_ok]. intros <-.
    by apply (drop_bucket _ (may_touch now (OpDeleteQueue name) db) name db).
  - intros [= <- Hs]. revert Hs. unfold Purge, Commit, getQueue. run_sq.
    destruct (find_queue db name); cbn [snd]; [|intros <-; by apply same_step_ok]. intros <-.
    by apply (drop_bucket _ (may_touch now (OpPurge name) db) name db).
  - intros [= <- <-]. by apply send_step.
  - intros [= <- <-]. by apply batch_step.
  - unfold receiveOnce, Commit. destruct (receiveIn now name max visibility db) as [[[ms' next]|e] db1] eqn:E.
    + intros [= <- <-]. destruct (receive_step _ _ _ _ _ _ _ _ _ W R E eq_refl) as [[W' (g & c & P & L & C)] F].
      split; [|done]. split; [done|]. by exists g, c.
    + intros [= <- <-]. by apply same_step_ok.
  - by apply deleteIn_acts.
  - apply acts_entries; [done|]. intros h Hh. apply deleteIn_acts. intros m Hm. by exists h.
  - by apply changeVisibilityIn_acts.
  - apply acts_entries; [done|]. intros e He. apply changeVisibilityIn_acts. intros id Hid. by exists e.
  - intros [= <- Hs]. revert Hs. unfold StartMessageMoveTask, Commit.
    destruct (startMove now id source dest db) as [[t|e] db1] eqn:E; cbn [snd]; [|intros <-; by apply same_step_ok].
    intros <-. apply effect_step_ok; [done..|]. apply startMove_effect in E; [done|]. by intros ->%msgBucket_inj.
  - intros [= <- Hs]. apply effect_step_ok; [done..|]. by eapply sweep_effect.
Qed.

(** C8: No message is lost or duplicated.  Whatever operation runs, the bag of stored messages
    (their identifiers, bodies, attributes, digests, groups and send times) changes only by
    what the operation is for.  A send adds one message for each item that answers it has a
    new one: that message, of that item, sent now; none for an item that answers it is a
    duplicate, whose identifier a record or an earlier item of its batch has; and none for an
    item it refuses, except in a batch to a FIFO queue, where the message stays if bbolt
    refuses the record of its deduplication identifier.  Nothing else adds any; a message
    leaves only past its queue's retention (on a receive or a sweep), by a delete with a
    handle of its identifier, or when its queue is purged or deleted.  In particular a
    receive, with its redrives to the dead-letter queue, a visibility change and a move
    between two queues keep the bag.  The storage invariant is kept: every message under
    its own sequence number, none past the bucket's counter.  A move of a queue onto itself
    is left out, and so are states whose next sequence numbers exceed 64 bits. *)
Theorem messages_conserved now o db ms db' :
  wf db -> room db' -> distinct_move o -> step now o db = (ms, db') ->
  wf db' /\ exists gone come, gone ++ bag db' ≡ₚ come ++ bag db /\
    Forall (may_leave now o db) gone /\ may_enter now o db come.
Proof. intros W R Hm Hs. by apply (step_spec now o db ms db' W R Hm Hs). Qed.

(** ** A message in flight *)

Lemma msg_in_bag db b k m : msg_at db b k = Some m -> content m ∈ bag db.
Proof.
  intros Hm. destruct (delete_msg b k db) as [r db'] eqn:E. apply bag_delete in E. rewrite Hm in E.
  rewrite <- E. by left.
Qed.

Definition ids_unique (db : SqsDB) : Prop := NoDup (m_ID <$> bag db).

Lemma unique_position db b k m b' k' m' :
  ids_unique db -> msg_at db b k = Some m -> msg_at db b' k' = Some m' -> m_ID m = m_ID m' -> b = b' /\ k = k'.
Proof.
  intros Hu Hm Hm' Hid. destruct (decide (b' = b /\ k' = k)) as [[-> ->]|Hn]; [done|]. exfalso.
  destruct (delete_msg_spec b k db) as (db1 & E & _ & _ & A). pose proof (bag_delete _ _ _ _ _ E) as Hb. rewrite Hm in Hb.
  assert (msg_at db1 b' k' = Some m') as Hm1 by (rewrite A; by rewrite decide_False). apply msg_in_bag in Hm1.
  unfold ids_unique in Hu. rewrite <- Hb in Hu. simpl in Hu. apply NoDup_cons in Hu as [Hu _]. apply Hu.
  change (m_ID (content m)) with (m_ID m). rewrite Hid. apply list_elem_of_fmap. by exists (content m').
Qed.

(** What a receive delivers was stored and visible. *)
Lemma receive_delivers now name max vis db ms next db' m :
  wf db -> room db' -> receiveOnce now name max vis db = (Ok (ms, next), db') -> m ∈ ms ->
  (exists k m0, msg_at db (msgBucket name) k = Some m0 /\ visible now m0 /\ m_ID m0 = m_ID m /\
    msg_at db' (msgBucket name) k = Some m) /\
  (ids_unique db -> forall b k m', msg_at db' b k = Some m' -> m_ID m' = m_ID m -> b = msgBucket name /\ m_VisibleAt m' = m_VisibleAt m).
Proof.
  intros W R. unfold receiveOnce, Commit. destruct (receiveIn now name max vis db) as [[[ms' n']|e] db1] eqn:E; [|done].
  intros [= -> -> ->] Hin. destruct (find_queue db name) as [q|] eqn:Eq.
  2:{ revert E. unfold receiveIn, getQueue. run_sq. by rewrite Eq. }
  destruct (receive_spec _ _ _ _ _ _ _ _ _ _ W R Eq E eq_refl) as (v & E1 & E2 & E3 & Eff & -> & _ & D & Dn).
  pose proof (re_stored _ _ _ _ _ _ _ _ _ Eff) as [Hnd Hst]. rewrite !Forall_app, !Forall_forall in Hst.
  destruct Hst as (St1 & St2 & St3).
  apply list_elem_of_fmap in Hin as (m0 & -> & Hin). apply list_elem_of_fmap in Hin as (e & -> & He).
  destruct (s_msgs db !! msgBucket name) as [mb|]; [|destruct (Dn eq_refl) as (_ & _ & ->); by apply elem_of_nil in He].
  destruct (D mb eq_refl) as [_ _ _ _ _ D6 D7]. rewrite Forall_forall in D7. split.
  { exists e.1, e.2. split; [by apply St3|]. split; [by apply D7|]. split; [done|]. by apply (re_delivered _ _ _ _ _ _ _ _ _ Eff). }
  intros Hu b k m' Hm' Hid. simpl in Hid.
  apply (re_from _ _ _ _ _ _ _ _ _ Eff) in Hm' as [[Hm' Hor]|[(-> & m1 & Hin & ->)|(-> & e' & He' & seq & ->)]].
  - destruct (unique_position db (msgBucket name) e.1 e.2 b k m' Hu) as [<- <-]; [by apply St3|done|done|].
    exfalso. destruct Hor as [|Hk]; [done|]. apply Hk, elem_of_app. right. apply list_elem_of_fmap. eauto.
  - done.
  - exfalso. simpl in Hid. destruct (unique_position db (msgBucket name) e.1 e.2 (msgBucket name) e'.1 e'.2 Hu) as [_ Hk];
      [by apply St3|by apply St2|done|]. rewrite !fmap_app, !NoDup_app in Hnd. destruct Hnd as (_ & _ & _ & Hnd & _).
    apply (Hnd e'.1); [by apply list_elem_of_fmap; eauto|]. rewrite <- Hk. by apply list_elem_of_fmap; eauto.
Qed.

(** An operation that neither draws the identifier again, changes its visibility nor moves
    its queue's messages. *)
Definition spares (name id : string) (o : op) : Prop :=
  match o with
  | OpSend _ id' _ => id' <> id
  | OpSendBatch _ items => id ∉ items.*1
  | OpChangeVisibility _ h _ => handle_id h <> Some id
  | OpChangeVisibilityBatch _ items => Forall (fun e => handle_id e.1 <> Some id) items
  | OpStartMove _ source dest => source <> name /\ source <> dest
  | _ => True
  end.

Fixpoint run_room (ops : list (Z * op)) (db : SqsDB) : Prop :=
  match ops with
  | [] => True
  | (now, o) :: rest => room (step now o db).2 /\ run_room rest (step now o db).2
  end.

(** Every copy of a message is in one queue and invisible until one instant. *)
Definition held (name id : string) (until : Z) (db : SqsDB) : Prop :=
  forall b k m, msg_at db b k = Some m -> m_ID m = id -> b = msgBucket name /\ m_VisibleAt m = until.

Lemma step_held now o db ms db' name id until :
  wf db -> room db' -> spares name id o -> wrap64 now < until -> held name id until db ->
  step now o db = (ms, db') -> wf db' /\ held name id until db' /\ id ∉ m_ID <$> ms.
Proof.
  intros W R Hsp Hlt Hh Hs.
  assert (distinct_move o) as Hmv by (destruct o; simpl in *; tauto).
  destruct (step_spec now o db ms db' W R Hmv Hs) as [[W' _] F]. split; [done|]. split.
  - intros b k m Hm Hid. apply F in Hm as [Hm|Ht]; [by eapply Hh|]. exfalso. rewrite Hid in Ht.
    destruct o; simpl in Ht, Hsp; try done.
    + destruct Ht as (k' & m' & Hm' & Hv & Hid'). destruct (Hh _ _ _ Hm' Hid') as [_ Hx]. unfold visible in Hv. lia.
    + destruct Ht as (e & He & Hid'). rewrite Forall_forall in Hsp. by apply (Hsp e He).
    + destruct Ht as (k' & m' & Hm' & Hid'). destruct (Hh _ _ _ Hm' Hid') as [Hx _]. apply msgBucket_inj in Hx.
      by destruct Hsp.
  - assert (ms = [] \/ exists n max v next, o = OpReceive n max v /\ receiveOnce now n max v db = (Ok (ms, next), db')) as [->|Hor].
    { destruct o; cbn [step] in Hs; try (injection Hs as <- _; by left).
      destruct (receiveOnce now name0 max visibility db) as [[[ms' next]|e] db1] eqn:E; injection Hs as <- <-; [|by left].
      right. by exists name0, max, visibility, next. }
    { apply not_elem_of_nil. }
    destruct Hor as (n & max & v & next & -> & E). intros (m & Hid & Hin)%list_elem_of_fmap.
    destruct (receive_delivers _ _ _ _ _ _ _ _ _ W R E Hin) as [(k & m0 & Hm0 & Hv & Hid0 & _) _].
    destruct (Hh _ _ _ Hm0) as [_ Hx]; [congruence|]. unfold visible in Hv. lia.
Qed.

Lemma run_held ops db name id until :
  wf db -> run_room ops db -> held name id until db ->
  Forall (fun e => wrap64 e.1 < until /\ spares name id e.2) ops ->
  Forall (fun ms => id ∉ m_ID <$> ms) (run ops db).1.
Proof.
  revert db; induction ops as [|[now o] ops IH]; intros db W Hr Hh Ho; [constructor|]. cbn [run]. destruct Hr as [R Hr].
  apply Forall_cons in Ho as [[Hlt Hsp] Ho]. destruct (step now o db) as [ms db1] eqn:E. simpl in Hlt, Hsp, R, Hr.
  destruct (step_held now o db ms db1 name id until W R Hsp Hlt Hh E) as (W1 & Hh1 & Hn).
  specialize (IH db1 W1 Hr Hh1 Ho). destruct (run ops db1) as [mss db2]. simpl in *. by constructor.
Qed.

(** C10: A message in flight is not delivered again.  Once a receive has delivered a message,
    no receive from any queue delivers a message of its identifier before the instant it
    becomes visible, in any run of operations on any queues, deletions, redrives, purges
    and sweeps included, as long as none of them changes the visibility of the message
    itself, moves its queue's messages by a task or sends under the identifier again. *)
Theorem exclusive_delivery now name max vis db ms next db1 m ops :
  wf db -> ids_unique db -> room db1 -> run_room ops db1 ->
  receiveOnce now name max vis db = (Ok (ms, next), db1) -> m ∈ ms ->
  Forall (fun e => wrap64 e.1 < m_VisibleAt m /\ spares name (m_ID m) e.2) ops ->
  Forall (fun ms' => m_ID m ∉ m_ID <$> ms') (run ops db1).1.
Proof.
  intros W Hu R Hr E Hin Ho. destruct (receive_delivers _ _ _ _ _ _ _ _ _ W R E Hin) as [_ Hh].
  assert (wf db1) as W1.
  { destruct (step_spec now (OpReceive name max vis) db ms db1 W R I) as [[? _] _]; [|done]. simpl. by rewrite E. }
  by apply (run_held ops db1 name (m_ID m) (m_VisibleAt m)); [| |exact (Hh Hu)|].
Qed.
End run.

(** ** Concrete queues *)

#[global] Instance plain_hash : GoHash := {| md5 s := s |}.
#[global] Instance plain_json : JsonText :=
  {| json_parse _ := None; json_marshal _ := "{}"; float_text t := t; redrive_fields s := Some (s, "3") |}.

Definition here : Identity := mkIdentity "" "".
Definition plain_queue (name : string) (fifo : bool) : queue :=
  mkQueue name fifo false 30 0 345600 262144 0 "" 0 0 0 ∅ ∅.
Definition plain_message (id body group : string) (seq : Z) : message :=
  mkMessage id body ∅ "" "" 1 1 0 0 ∅ group "" seq.
Definition plain_item (body group dedup : string) : sendItem := mkSendItem body ∅ (-1) group dedup ∅.

(** One queue with some messages, numbered from one. *)
Definition store_of (q : queue) (ms : list message) : SqsDB :=
  mkSqsDB _ (Some ({[q_Name q := q]}, 0)) {[msgBucket (q_Name q) :=
    (list_to_map ((fun m => (seqKey (m_Seq m), m)) <$> ms), Z.of_nat (length ms))]} ∅ None.

Definition two_messages : SqsDB := store_of (plain_queue "jobs" false) [plain_message "a" "x" "" 1; plain_message "b" "y" "" 2].

Lemma store_of_wf q ms :
  Forall (fun m => 0 < m_Seq m <= Z.of_nat (length ms)) ms -> Z.of_nat (length ms) < 2 ^ 64 ->
  wf (store_of q ms) /\ room (store_of q ms).
Proof.
  intros Hm Hl. assert (forall b, seq_at (store_of q ms) b = 0 \/ (b = msgBucket (q_Name q) /\
    seq_at (store_of q ms) b = Z.of_nat (length ms))) as Hs.
  { intros b. unfold seq_at, store_of. simpl. destruct (decide (b = msgBucket (q_Name q))) as [->|].
    - right. by rewrite lookup_singleton_eq.
    - left. by rewrite lookup_singleton_ne. }
  split; [split|]; intros b.
  - destruct (Hs b) as [->|[_ ->]]; lia.
  - intros k m. unfold msg_at, seq_at, store_of. simpl. destruct (decide (b = msgBucket (q_Name q))) as [->|];
      [rewrite lookup_singleton_eq|by rewrite lookup_singleton_ne]. simpl. intros Hk.
    apply elem_of_list_to_map_2 in Hk. apply list_elem_of_fmap in Hk as (m0 & [= -> ->] & Hin).
    rewrite Forall_forall in Hm. split; [done|by apply Hm].
  - destruct (Hs b) as [->|[_ ->]]; lia.
Qed.

Lemma room_check (db : SqsDB) :
  forallb (fun e => bsequence e.2 <? 2 ^ 64) (map_to_list (s_msgs db)) = true -> room db.
Proof.
  rewrite forallb_forall. intros Hall b. unfold seq_at. destruct (s_msgs db !! b) as [mb|] eqn:E; [|done].
  apply Z.ltb_lt, (Hall (b, mb)). by apply list_elem_of_In, elem_of_map_to_list.
Qed.

Lemma two_messages_wf : wf two_messages.
Proof. apply store_of_wf; [by repeat constructor|done]. Qed.

Lemma messages_conserved_witness :
  let o := OpReceive "jobs" 10 (-1) in
  length (step here 5 o two_messages).1 = 2%nat /\ wf (step here 5 o two_messages).2.
Proof.
  split; [vm_compute; reflexivity|].
  apply (messages_conserved here 5 (OpReceive "jobs" 10 (-1)) two_messages
    (step here 5 (OpReceive "jobs" 10 (-1)) two_messages).1 _ two_messages_wf); [|exact I|apply surjective_pairing].
  apply room_check. vm_compute. reflexivity.
Defined.

Lemma exclusive_delivery_witness :
  let taken := step here 5 (OpReceive "jobs" 1 (-1)) two_messages in
  let later_ops := [(1000, OpDelete "jobs" (Handle (plain_message "b" "y" "" 2))); (second, OpReceive "jobs" 10 (-1))] in
  m_ID <$> taken.1 = ["a"] /\ Forall (fun ms => "a" ∉ m_ID <$> ms) (run here later_ops taken.2).1.
Proof.
  intros taken later_ops. split; [vm_compute; reflexivity|].
  assert (match receiveOnce 5 "jobs" 1 (-1) two_messages with
    | (Ok (m :: _, _), _) => String.eqb (m_ID m) "a" && (m_VisibleAt m =? 30000000005) | _ => false end = true) as Hc
    by (vm_compute; reflexivity).
  destruct (receiveOnce 5 "jobs" 1 (-1) two_messages) as [[[[|m ms] next]|e] db1] eqn:E; try discriminate Hc.
  apply andb_true_iff in Hc as [Hid%String.eqb_eq Hv%Z.eqb_eq].
  assert (taken.2 = db1) as Ht by (unfold taken; cbn [step]; by rewrite E).
  rewrite Ht, <- Hid. rewrite <- Ht. apply (exclusive_delivery here 5 "jobs" 1 (-1) two_messages (m :: ms) next taken.2 m).
  - apply two_messages_wf.
  - unfold ids_unique. apply (bool_decide_unpack _). vm_compute. exact I.
  - apply room_check. vm_compute. reflexivity.
  - split; [apply room_check; vm_compute; reflexivity|]. split; [apply room_check; vm_compute; reflexivity|exact I].
  - by rewrite Ht.
  - by left.
  - rewrite Hv. constructor; [split; [vm_compute; reflexivity|exact I]|].
    constructor; [split; [vm_compute; reflexivity|exact I]|constructor].
Defined.
