(* ===== verification/SqsFifo.v ===== *)
(** * SqsFifo: order and deduplication

    What a FIFO queue promises: one message of a group at a time, in the order they were
    sent, and one message for the sends of a deduplication window. *)

From stdpp Require Import sorting.
From S2P Require Import Prelude Bytes Ident Clock Wire Star GoText Glob Policy PolicySpec Bolt Cursor Queues Messages MessagesInv MessagesSpec SqsRun.

Section fifo.
Context `{BL : BoltLaws}.
#[local] Set Default Proof Using "BL".

(** ** Order within a group *)

(** Why a message that comes first does not hold back its group. *)
Definition passed_over (now : Z) (q : queue) (m : message) : Prop :=
  expired_message q now m = true \/ redrives q m = true \/ wrap64 now < m_VisibleAt m.

Lemma walk_fifo now vis max q entries p :
  FIFO q = true ->
  exists ms0, p_deliver (receive_walk now vis max q entries p) = p_deliver p ++ (received (wrap64 now) (later now vis) <$> ms0) /\
    NoDup (m_GroupID <$> ms0) /\
    forall m, m ∈ ms0 -> (m_GroupID m ∉ p_locked p) /\
      exists pre k post, entries = pre ++ (k, m) :: post /\
        forall e, e ∈ pre -> m_GroupID e.2 = m_GroupID m -> passed_over now q e.2.
Proof.
  intros Hf. revert p; induction entries as [|[k m] entries IH]; intros p; cbn [receive_walk].
  { exists []. rewrite app_nil_r. split; [done|]. split; [constructor|]. intros m Hm. by apply elem_of_nil in Hm. }
  destruct (_ <? max).
  2:{ exists []. rewrite app_nil_r. split; [done|]. split; [constructor|]. intros m' Hm. by apply elem_of_nil in Hm. }
  destruct (IH (receive_visit now vis q k m p)) as (ms0 & Hd & Hn & Hall). clear IH.
  assert ((p_deliver (receive_visit now vis q k m p) = p_deliver p /\ p_locked (receive_visit now vis q k m p) = p_locked p /\
      (passed_over now q m \/ m_GroupID m ∈ p_locked p)) \/
    (p_deliver (receive_visit now vis q k m p) = p_deliver p ++ [received (wrap64 now) (later now vis) m] /\
      p_locked (receive_visit now vis q k m p) = {[m_GroupID m]} ∪ p_locked p /\ m_GroupID m ∉ p_locked p)) as [(E1 & E2 & Hpass)|(E1 & E2 & Hnl)].
  { unfold receive_visit, passed_over. rewrite Hf. cbn [andb].
    destruct (expired_message q now m) eqn:Ex; [left; simpl; tauto|]. destruct (wrap64 now <? m_VisibleAt m) eqn:Ev;
      [left; apply Z.ltb_lt in Ev; simpl; tauto|]. destruct (bool_decide (m_GroupID m ∈ p_locked p)) eqn:Hl;
      [apply bool_decide_eq_true_1 in Hl; left; simpl; tauto|apply bool_decide_eq_false_1 in Hl]. destruct (redrives q m) eqn:Er; [left; simpl; tauto|].
    by right. }
  - exists ms0. rewrite Hd, E1. split; [done|]. split; [done|]. intros m' Hm'. destruct (Hall m' Hm') as (Hg & pre & k' & post & -> & Hpre).
    rewrite E2 in Hg. split; [done|]. exists ((k, m) :: pre), k', post. split; [done|]. intros e He Heq.
    apply elem_of_cons in He as [->|He]; [|by apply Hpre]. simpl in Heq. destruct Hpass as [?|Hl]; [done|]. by rewrite Heq in Hl.
  - exists (m :: ms0). rewrite Hd, E1, <- app_assoc. split; [done|]. rewrite E2 in Hall. split.
    { constructor; [|done]. intros (m' & Heq & Hm')%list_elem_of_fmap. destruct (Hall m' Hm') as [Hg _]. set_solver. }
    intros m' [->|Hm']%elem_of_cons.
    { split; [done|]. exists [], k, entries. split; [done|]. intros e He. by apply elem_of_nil in He. }
    destruct (Hall m' Hm') as (Hg & pre & k' & post & -> & Hpre). split; [set_solver|]. exists ((k, m) :: pre), k', post.
    split; [done|]. intros e [->|He]%elem_of_cons Heq; [|by apply Hpre]. simpl in Heq. set_solver.
Qed.

(** C9: A FIFO queue delivers each group in order, one message at a time.  The messages of one
    receive are of distinct groups.  When a message is delivered, no message of its group
    was in flight or delayed; every earlier one of the group, by sequence number, is past
    its retention or due for the dead-letter queue; and afterwards no other message of the
    group is in flight, so the next receive cannot run ahead. *)
Theorem fifo_order now name max ov db ms next db' q :
  wf db -> room db' -> find_queue db name = Some q -> FIFO q = true ->
  receiveOnce now name max ov db = (Ok (ms, next), db') ->
  NoDup (m_GroupID <$> ms) /\
  forall m, m ∈ ms -> m_GroupID m <> "" ->
    (forall k m', msg_at db (msgBucket name) k = Some m' -> m_GroupID m' = m_GroupID m -> visible now m') /\
    (forall k m', msg_at db (msgBucket name) k = Some m' -> m_GroupID m' = m_GroupID m -> m_Seq m' < m_Seq m ->
       expired_message q now m' = true \/ redrives q m' = true) /\
    (forall k m', msg_at db' (msgBucket name) k = Some m' -> m_GroupID m' = m_GroupID m -> ~ visible now m' -> m' = m).
Proof.
  intros W R Hq Hf. unfold receiveOnce, Commit.
  destruct (receiveIn now name max ov db) as [[[ms' n']|e] db1] eqn:E; [|done]. intros [= -> -> ->].
  destruct (receive_spec _ _ _ _ _ _ _ _ _ _ W R Hq E eq_refl) as (vis & E1 & E2 & E3 & Eff & Hms & Hvis & D & Dn).
  destruct (s_msgs db !! msgBucket name) as [mb|] eqn:Emb.
  2:{ destruct (Dn eq_refl) as (_ & _ & ->). subst ms. split; [constructor|]. intros m Hm. by apply elem_of_nil in Hm. }
  destruct (D mb eq_refl) as [_ _ D3 _ _ _ _]. simpl in D3. rewrite <- Hms in D3.
  unfold receive_pass in D3. rewrite Hf, <- Hvis in D3.
  destruct (walk_fifo now vis max q (bentries mb) (mkPass [] [] [] (in_flight_groups now (bentries mb)) 0) Hf)
    as (ms0 & Hd & Hn & Hall). rewrite D3 in Hd. simpl in Hd, Hall.
  assert (m_GroupID <$> ms = m_GroupID <$> ms0) as Hg by (rewrite Hd, <- list_fmap_compose; done).
  rewrite <- Hg in Hn. split; [done|]. intros m Hm Hne. pose proof Hm as Hin. rewrite Hd in Hm. apply list_elem_of_fmap in Hm as (m0 & Em & Hm0).
  destruct (Hall m0 Hm0) as (Hl & pre & k0 & post & Hent & Hpre).
  assert (m_GroupID m = m_GroupID m0 /\ m_Seq m = m_Seq m0) as [Hgm Hsm] by (by rewrite Em).
  assert (forall k m', msg_at db (msgBucket name) k = Some m' <-> (k, m') ∈ bentries mb) as Hat.
  { intros k m'. rewrite bentries_bget. unfold msg_at. by rewrite Emb. }
  assert (forall k m', msg_at db (msgBucket name) k = Some m' -> m_GroupID m' = m_GroupID m -> visible now m') as Hvisible.
  { intros k m' Hk Heq. unfold visible. apply Z.nlt_ge. intros Hlt. apply Hl. unfold in_flight_groups.
    apply elem_of_list_to_set, list_elem_of_fmap. exists m'. split; [congruence|]. apply list_elem_of_filter.
    split; [split; [done|congruence]|]. apply list_elem_of_fmap. exists (k, m'). split; [done|]. by apply Hat. }
  split; [done|]. split.
  - intros k m' Hk Heq Hlt. pose proof (Hvisible k m' Hk Heq) as Hv.
    assert (msg_at db (msgBucket name) k0 = Some m0) as H0 by (apply Hat; rewrite Hent; apply elem_of_app; right; by left).
    destruct (wf_key db W _ _ _ H0) as [Hk0 Hs0]. destruct (wf_key db W _ _ _ Hk) as [Hkk Hsk].
    assert (room db) as Rd by (eapply room_grows; [apply (re_grows _ _ _ _ _ _ _ _ _ Eff)|done]). specialize (Rd (msgBucket name)).
    assert ((k, m') ∈ pre) as Hp.
    { apply Hat in Hk. rewrite Hent in Hk. apply elem_of_app in Hk as [?|Hk]; [done|].
      pose proof (bentries_sorted _ mb) as Hs. rewrite Hent, fmap_app, fmap_cons in Hs.
      apply StronglySorted_app_1_r in Hs. apply StronglySorted_inv in Hs as [_ Hs]. rewrite Forall_forall in Hs.
      apply elem_of_cons in Hk as [Hx|Hk]; [injection Hx as _ Hx; rewrite Hx in Hlt; lia|]. assert (k ∈ post.*1) as Hkp by (apply list_elem_of_fmap; by exists (k, m')).
      specialize (Hs k Hkp). simpl in Hs. rewrite Hk0, Hkk in Hs. unfold bytes_lt, seqKey in Hs.
      rewrite be64_cmp in Hs by lia. rewrite Z.compare_lt_iff in Hs. lia. }
    destruct (Hpre (k, m') Hp) as [?|[?|Hx]]; [simpl; congruence|by left|by right|]. unfold visible in Hv. simpl in Hx. lia.
  - intros k m' Hk Heq Hnv. apply (re_from _ _ _ _ _ _ _ _ _ Eff) in Hk as [[Hk _]|[(_ & m1 & Hin1 & Hm1)|(_ & e & _ & seq & ->)]].
    + by apply Hvisible in Hk.
    + assert (m' ∈ ms) as Hin'.
      { rewrite Hms, Hm1. apply list_elem_of_fmap. exists m1. split; [done|]. apply list_elem_of_fmap. by exists (k, m1). }
      apply list_elem_of_lookup in Hin as [i Hi], Hin' as [j Hj].
      assert (i = j) as ->; [|congruence]. eapply (NoDup_lookup (m_GroupID <$> ms)); [done| |]; rewrite list_lookup_fmap.
      * by rewrite Hi.
      * rewrite Hj. simpl. congruence.
    + exfalso. apply Hnv. unfold visible. simpl. lia.
Qed.

(** ** Deduplication *)

Section dedup.
Context `{GoText} `{JsonText} `{GoHash} (ident : Identity).

(** The record of a deduplication identifier is in a queue's bucket. *)
Definition remembered (name d : string) (r : dedupRec) (db : SqsDB) : Prop :=
  s_dedup db !! dedupBucket name ≫= bget d = Some r.

Lemma foldl_bdelete {V} k ks (b : bucket V) :
  bget k (foldl (fun b k => bdelete k b) b ks) = if decide (k ∈ ks) then None else bget k b.
Proof.
  revert b; induction ks as [|k' ks IH]; intros b; simpl; [done|].
  rewrite IH, bget_bdelete. pose proof (elem_of_cons ks k k'). repeat case_decide; tauto.
Qed.

(** Pruning leaves what is inside the window. *)
Lemma gcDedup_keeps now b d r :
  bget d b = Some r -> unix_seconds now - dd_At r <= dedupWindow -> bget d (gcDedup now b) = Some r.
Proof.
  intros Hd Hw. unfold gcDedup. rewrite foldl_bdelete, decide_False; [done|].
  intros ([k r'] & -> & Hin)%list_elem_of_fmap. apply list_elem_of_filter in Hin as [Hlt Hin]. simpl in *.
  apply bentries_bget in Hin. rewrite Hd in Hin. injection Hin as <-. lia.
Qed.

Lemma dedupBucket_inj a b : dedupBucket a = dedupBucket b -> a = b.
Proof using. unfold dedupBucket. apply sapp_inj_l. Qed.

Lemma remembered_same name d r db db' : s_dedup db' = s_dedup db -> remembered name d r db -> remembered name d r db'.
Proof using. unfold remembered. by intros ->. Qed.

Definition keeps_record (name d : string) (r : dedupRec) (db db' : SqsDB) : Prop :=
  remembered name d r db -> remembered name d r db'.

#[local] Instance keeps_record_preorder name d r : PreOrder (keeps_record name d r).
Proof using. split; [intros a Ha; done|]. intros a b c Ha Hb Hr. apply Hb, Ha, Hr. Qed.

Lemma keeps_defs name d r {A} (f : Sq A) : acts same_defs f -> acts (keeps_record name d r) f.
Proof. apply acts_impl. intros a b [_ Hd] Hr. by eapply remembered_same. Qed.

Section record.
Context (name d : string) (r : dedupRec).
#[local] Set Default Proof Using "BL".

Lemma recordDedup_keeps now qn d' m :
  unix_seconds now - dd_At r <= dedupWindow -> (qn <> name \/ d' <> d) -> acts (keeps_record name d r) (recordDedup now qn d' m).
Proof.
  intros Hw Hor db x db'. unfold recordDedup. run_sq.
  assert (keeps_record name d r db
    (set_dedup (<[dedupBucket qn := gcDedup now (default bempty (s_dedup db !! dedupBucket qn))]> (s_dedup db)) db)) as Hgc.
  { intros Hr. unfold remembered in *. simpl. destruct (decide (dedupBucket name = dedupBucket qn)) as [<-|];
      [|by rewrite lookup_insert_ne]. rewrite lookup_insert_eq. simpl.
    destruct (s_dedup db !! dedupBucket name) as [b|]; simpl in *; [by apply gcDedup_keeps|done]. }
  destruct (bput d' _ _) as [b|] eqn:Hp; intros [= <- <-]; [|done]. intros Hr. specialize (Hgc Hr). unfold remembered in *.
  simpl in *. destruct (decide (qn = name)) as [->|Hne].
  - rewrite lookup_insert_eq in *. simpl in *. rewrite (bget_bput _ _ _ _ _ _ Hp).
    rewrite decide_False; [done|]. intros ->. tauto.
  - assert (dedupBucket qn <> dedupBucket name) by (by intros ?%dedupBucket_inj). by rewrite lookup_insert_ne.
Qed.

Lemma sendIn_keeps now q id it :
  unix_seconds now - dd_At r <= dedupWindow -> acts (keeps_record name d r) (sendIn now q id it).
Proof.
  intros Hw. pose proof (keeps_record_preorder name d r). assert (forall d' seq', acts (keeps_record name d r)
    (if FIFO q then recordDedup now (q_Name q) d' seq' else mret tt) \/ (FIFO q = true /\ q_Name q = name /\ d' = d)) as Hrec.
  { intros d' m. destruct (FIFO q); [|left; by apply acts_ret]. destruct (decide (q_Name q = name /\ d' = d)) as [?|Hn]; [by right|].
    left. apply recordDedup_keeps; [done|]. destruct (decide (q_Name q = name)); tauto. }
  assert (forall d', ~ (FIFO q = true /\ q_Name q = name /\ d' = d) -> acts (keeps_record name d r) (enqueue now q id it d')) as Henq.
  { intros d' Hn. unfold enqueue. apply acts_bind; [done|apply keeps_defs, defs_next|]. intros seq.
    apply acts_bind; [done|apply keeps_defs, defs_put|]. intros _.
    apply acts_bind; [done| |intros _; by apply acts_ret]. by destruct (Hrec d' (new_message now id it
      (if it_Delay it <? 0 then DelaySeconds q else it_Delay it) d' seq)). }
  unfold sendIn. destruct (_ && _); [by apply acts_throw|]. destruct (FIFO q) eqn:Hf; cbn [andb].
  2:{ apply Henq. by intros [? _]. }
  destruct (String.eqb _ ""); [by apply acts_throw|]. destruct (String.eqb (dedup_id q it) ""); [by apply acts_throw|].
  intros db x db'. run_sq. destruct (lookupDedup now (q_Name q) (dedup_id q it) db) as [dm|] eqn:El; [by intros [= <- <-]|].
  destruct (decide (q_Name q = name /\ dedup_id q it = d)) as [[Hq Hd]|Hn].
  - intros _ Hr. exfalso. unfold lookupDedup in El. unfold remembered in Hr. rewrite Hq, Hd, Hr in El.
    by rewrite (proj2 (Z.ltb_ge _ _) Hw) in El.
  - apply Henq. tauto.
Qed.

Lemma sendItems_keeps now q items :
  unix_seconds now - dd_At r <= dedupWindow -> acts (keeps_record name d r) (sendItems now q items).
Proof.
  intros Hw. pose proof (keeps_record_preorder name d r). induction items as [|[id it] items IH]; [by apply acts_ret|]. cbn [sendItems]. intros db x db'.
  destruct (sendIn now q id it db) as [y db1] eqn:E1. apply (sendIn_keeps now q id it Hw) in E1. run_sq.
  destruct (sendItems now q items db1) as [rs db2] eqn:E2. apply IH in E2. destruct rs; intros [= <- <-]; by etrans.
Qed.

Lemma sweep_keeps now n : unix_seconds now - dd_At r <= dedupWindow -> acts (keeps_record name d r) (sweep_queue now n).
Proof.
  intros Hw. pose proof (keeps_record_preorder name d r). intros db x db'. unfold sweep_queue.
  destruct (find_queue db n) as [q|]; [|by intros [= <- <-]]. revert x db'.
  match goal with |- forall x db', ?f db = _ -> _ => enough (acts (keeps_record name d r) f) as Ha by (intros x db'; apply Ha) end.
  apply acts_bind; [done| |intros _].
  - destruct (s_msgs db !! msgBucket n); [|by apply acts_ret]. destruct (0 <? _); [|by apply acts_ret].
    apply acts_each; [done|]. intros k _. apply keeps_defs, defs_delete.
  - intros db1 x db' [= <- <-] Hr. unfold remembered in *. simpl. destruct (decide (dedupBucket name = dedupBucket n)) as [<-|].
    + rewrite lookup_alter_eq. destruct (s_dedup db1 !! dedupBucket name) as [b|]; simpl in *; [by apply gcDedup_keeps|done].
    + by rewrite lookup_alter_ne.
Qed.

Lemma Commit_keeps {A} (f : Sq A) db : acts (keeps_record name d r) f -> keeps_record name d r db (Commit f db).2.
Proof.
  intros Ha. destruct (Commit f db) as [x db'] eqn:E. pose proof (keeps_record_preorder name d r).
  by apply (acts_Commit _ _ (fun db => reflexivity db) Ha) in E.
Qed.

Lemma step_keeps now o db :
  unix_seconds now - dd_At r <= dedupWindow -> o <> OpDeleteQueue name -> keeps_record name d r db (step ident now o db).2.
Proof.
  intros Hw Ho. pose proof (keeps_record_preorder name d r) as Hp.
  assert (forall q, acts (keeps_record name d r) (putQueue q)) as Hq by
    (intros q db1 x db2; unfold putQueue; run_sq; destruct (bput _ _ _); intros [= <- <-]; by intros ?).
  destruct o; cbn [step snd];
    try (match goal with |- context [StartMessageMoveTask] => fail 1 | _ => idtac end; apply Commit_keeps; apply acts_bind; [done|by apply getQueue_acts|intros q]).
  - unfold CreateQueue. destruct (String.eqb _ ""); [done|]. destruct (validQueueName _); [done|]. destruct (_ && _); [done|].
    apply Commit_keeps. unfold createQueue. apply acts_read; [done|]. intros x.
    destruct (find_queue x name0) as [q|]; [destruct (first_difference _ _ _); [by apply acts_throw|by apply acts_ret]|].
    apply acts_bind; [done|by apply acts_lift|]. intros q. apply acts_bind; [done|apply Hq|intros; by apply acts_ret].
  - apply acts_read; [done|]. intros x. apply acts_bind; [done|by apply acts_lift|]. intros q'. apply Hq.
  - apply Hq.
  - apply Hq.
  - intros db1 x db' [= <- <-] Hr. unfold remembered in *. simpl.
    rewrite lookup_delete_ne; [done|]. intros Heq%dedupBucket_inj. congruence.
  - intros db1 x db' [= <- <-]. by intros ?.
  - by apply sendIn_keeps.
  - by apply sendItems_keeps.
  - destruct (receiveOnce now name0 max visibility db) as [[[ms next]|e] db'] eqn:E; cbn [snd];
      (apply (acts_Commit (keeps_record name d r)) in E; [done|by intros ? ?|apply keeps_defs, defs_receive]).
  - apply keeps_defs, (defs_handles now name0 handle 0).
  - apply acts_entries; [done|]. intros h _. apply keeps_defs, (defs_handles now name0 h 0).
  - apply keeps_defs, defs_handles.
  - apply acts_entries; [done|]. intros e _. apply keeps_defs, defs_handles.
  - apply (Commit_keeps (startMove now id source dest)), keeps_defs, defs_move.
  - unfold Sweep. generalize (match s_meta db with Some b => (bentries b).*1 | None => [] end). intros names. revert db.
    induction names as [|n names IH]; intros db; simpl; [done|]. etrans; [|apply IH]. by apply Commit_keeps, sweep_keeps.
Qed.

Lemma run_keeps ops db :
  Forall (fun e => unix_seconds e.1 - dd_At r <= dedupWindow /\ e.2 <> OpDeleteQueue name) ops ->
  keeps_record name d r db (run ident ops db).2.
Proof.
  revert db; induction ops as [|[now o] ops IH]; intros db Ho; [by intros ?|]. apply Forall_cons in Ho as [[Hw Hn] Ho].
  cbn [run]. intros Hr. apply (step_keeps now o db Hw Hn) in Hr. destruct (step ident now o db) as [ms db1].
  apply (IH db1 Ho) in Hr. by destruct (run ident ops db1).
Qed.
End record.

(** C11: A duplicate is not enqueued.  Once a FIFO send has enqueued a message, a send to that
    queue with the same deduplication identifier (given, or the digest of the same body)
    answers the first message's identifier and digest and leaves the store as it is,
    whatever operations ran in between, as long as five minutes have not passed and the
    queue was not deleted: other sends, receives, deletes, purges and sweeps, whose
    pruning of old records included. *)
Theorem dedup_window now name id it db m db1 ops t2 id2 it2 q q2 :
  find_queue db name = Some q -> q_Name q = name -> FIFO q = true ->
  Send now name id it db = (Ok (m, true), db1) ->
  Forall (fun e => unix_seconds e.1 - unix_seconds now <= dedupWindow /\ e.2 <> OpDeleteQueue name) ops ->
  let db2 := (run ident ops db1).2 in
  find_queue db2 name = Some q2 -> q_Name q2 = name -> FIFO q2 = true ->
  unix_seconds t2 - unix_seconds now <= dedupWindow ->
  dedup_id q2 it2 = dedup_id q it -> it_GroupID it2 <> "" -> slen (it_Body it2) <= MaxMessageSize q2 ->
  Send t2 name id2 it2 db2 = (Ok (dup_message id (md5hex (it_Body it)), false), db2).
Proof.
  intros Hq Hname Hf Hs Ho db2 Hq2 Hname2 Hf2 Hw Hd Hg Hsize.
  assert (dedup_id q it <> "" /\ remembered name (dedup_id q it)
    (mkDedupRec (unix_seconds now) id (md5hex (it_Body it))) db1) as [Hne Hr].
  { revert Hs. unfold Send, Commit, getQueue, sendIn. run_sq. rewrite Hq. cbv beta iota. destruct (_ && _); [done|].
    rewrite Hf. cbn [andb]. destruct (String.eqb (it_GroupID it) ""); [done|].
    destruct (String.eqb_spec (dedup_id q it) "") as [|Hne]; [done|].
    destruct (lookupDedup now (q_Name q) (dedup_id q it) db); [done|]. unfold enqueue. run_sq. rewrite Hf.
    destruct (next_seq _ db) as [[seq|e] dba]; [|done]. destruct (putMessage _ _ dba) as [[[]|e] dbb]; [|done].
    unfold recordDedup. run_sq. destruct (bput _ _ _) as [b|] eqn:Hp; [|done]. intros [= _ <-]. split; [done|].
    unfold remembered. simpl. rewrite Hname, lookup_insert_eq. simpl. rewrite (bget_bput _ _ _ _ _ _ Hp). by rewrite decide_True. }
  apply (run_keeps name (dedup_id q it) _ ops) in Hr; [|done]. fold db2 in Hr.
  unfold Send, Commit, getQueue, sendIn. run_sq. rewrite Hq2. cbv beta iota.
  rewrite (proj2 (Z.ltb_ge _ _) Hsize), andb_false_r. rewrite Hf2, (proj2 (String.eqb_neq _ _) Hg). cbn [andb].
  rewrite Hd, (proj2 (String.eqb_neq _ _) Hne). unfold lookupDedup. rewrite Hname2. unfold remembered in Hr. rewrite Hr. simpl.
  by rewrite (proj2 (Z.ltb_ge _ _) Hw).
Qed.
End dedup.
End fifo.

(** ** Concrete FIFO queues *)

Definition fifo_store : SqsDB :=
  store_of (plain_queue "jobs.fifo" true) [plain_message "a" "x" "g" 1; plain_message "b" "y" "g" 2; plain_message "c" "z" "h" 3].

Lemma fifo_order_witness :
  let taken := step here 5 (OpReceive "jobs.fifo" 10 (-1)) fifo_store in
  m_ID <$> taken.1 = ["a"; "c"] /\ NoDup (m_GroupID <$> taken.1).
Proof.
  intros taken. split; [vm_compute; reflexivity|].
  assert (is_ok (receiveOnce 5 "jobs.fifo" 10 (-1) fifo_store).1 = true) as Hc by (vm_compute; reflexivity).
  destruct (receiveOnce 5 "jobs.fifo" 10 (-1) fifo_store) as [[[ms next]|e] db1] eqn:E; [|discriminate Hc].
  assert (taken = (ms, db1)) as Ht by (unfold taken; cbn [step]; by rewrite E).
  assert (room taken.2) as R by (apply room_check; vm_compute; reflexivity). rewrite Ht in R |- *.
  apply (fifo_order 5 "jobs.fifo" 10 (-1) fifo_store ms next db1 (plain_queue "jobs.fifo" true)).
  - apply store_of_wf; [by repeat constructor|done].
  - exact R.
  - vm_compute. reflexivity.
  - reflexivity.
  - exact E.
Defined.

Definition second_send : SqsDB :=
  (run here [(10, OpReceive "jobs.fifo" 10 (-1)); (200 * second, OpPurge "jobs.fifo"); (300 * second, OpSweep)]
    (Send 7 "jobs.fifo" "n1" (plain_item "body" "g" "once") fifo_store).2).2.

Lemma dedup_window_witness :
  Send (300 * second) "jobs.fifo" "n2" (plain_item "other" "g" "once") second_send =
    (Ok (dup_message "n1" (md5hex "body"), false), second_send).
Proof.
  assert (match Send 7 "jobs.fifo" "n1" (plain_item "body" "g" "once") fifo_store with
    | (Ok (_, true), _) => true | _ => false end = true) as Hc by (vm_compute; reflexivity).
  destruct (Send 7 "jobs.fifo" "n1" (plain_item "body" "g" "once") fifo_store) as [[[m []]|e] db1] eqn:E; try discriminate Hc.
  assert (second_send = (run here [(10, OpReceive "jobs.fifo" 10 (-1)); (200 * second, OpPurge "jobs.fifo"); (300 * second, OpSweep)]
    db1).2) as Hs by (unfold second_send; by rewrite E).
  assert (find_queue second_send "jobs.fifo" = Some (plain_queue "jobs.fifo" true)) as Hq by (vm_compute; reflexivity).
  rewrite Hs in Hq |- *.
  apply (dedup_window here 7 "jobs.fifo" "n1" (plain_item "body" "g" "once") fifo_store m db1
    [(10, OpReceive "jobs.fifo" 10 (-1)); (200 * second, OpPurge "jobs.fifo"); (300 * second, OpSweep)] (300 * second) "n2"
    (plain_item "other" "g" "once") (plain_queue "jobs.fifo" true) (plain_queue "jobs.fifo" true)).
  - vm_compute. reflexivity.
  - reflexivity.
  - reflexivity.
  - exact E.
  - repeat (constructor; [split; [vm_compute; discriminate|discriminate]|]). constructor.
  - exact Hq.
  - reflexivity.
  - reflexivity.
  - vm_compute. discriminate.
  - reflexivity.
  - discriminate.
  - vm_compute. discriminate.
Defined.
