(* ===== verification/SqsSpec.v ===== *)
(** * SqsSpec: handles, limits and queue definitions

    A receipt handle acts on the message it was given for and on no other; the settings
    of every queue stay within the limits of the service, so that no timeout overflows;
    and two ways around the limits. *)

From S2P Require Import Prelude Bytes Ident Clock Wire Star GoText Glob Policy PolicySpec Bolt Cursor Queues Messages MessagesInv MessagesSpec SqsRun SqsFifo.

(** ** Receipt handles *)

Lemma substring_app (s t : string) : String.substring 0 (String.length s) (s +:+ t) = s.
Proof. induction s as [|c s IH]; simpl; [by destruct t|by rewrite IH]. Qed.

Lemma substring_app_r (s t : string) : String.substring (String.length s) (String.length t) (s +:+ t) = t.
Proof.
  induction s as [|c s IH]; simpl; [|done]. rewrite <- (sapp_nil_r t) at 2. apply substring_app.
Qed.

Lemma decode_encode k id : String.length k = 8%nat -> decodeHandle (encodeHandle k id) = Some (k, id).
Proof.
  intros Hk. unfold decodeHandle, encodeHandle. rewrite base64_roundtrip. simpl.
  rewrite slen_app. unfold slen at 1. rewrite Hk. pose proof (slen_nonneg id).
  destruct (Z.ltb_spec (Z.of_nat 8 + slen id) 8); [lia|].
  assert (String.length (k +:+ id) - 8 = String.length id)%nat as ->.
  { pose proof (slen_app k id). unfold slen in *. lia. }
  rewrite <- Hk at 1 2. by rewrite substring_app, substring_app_r.
Qed.

Section handles.
Context `{BL : BoltLaws}.
#[local] Set Default Proof Using "BL".

(** A receipt handle names one message for ever.  On a handle of a message, a delete removes
    what is stored at the message's position if it still has the message's identifier, and
    nothing else anywhere; a visibility change sets that message's instant and nothing else;
    neither does anything to another message that took the position after a purge or a new
    queue of the name.  A text that is no handle, and a timeout outside 0 to 43200 seconds,
    are refused and change nothing. *)
Lemma handle_exact now name m db r db' timeout :
  wf db -> is_Some (find_queue db name) ->
  (Delete name (Handle m) db = (r, db') ->
     r = Ok tt /\
     forall b k, msg_at db' b k =
       match msg_at db b k with
       | Some m0 => if decide (b = msgBucket name /\ k = seqKey (m_Seq m) /\ m_ID m0 = m_ID m) then None else Some m0
       | None => None
       end) /\
  (ChangeVisibility now name (Handle m) timeout db = (r, db') ->
     (0 <= timeout <= 43200 /\ r = Ok tt /\
      forall b k, msg_at db' b k =
        match msg_at db b k with
        | Some m0 => if decide (b = msgBucket name /\ k = seqKey (m_Seq m) /\ m_ID m0 = m_ID m)
                     then Some (set_visible (later now timeout) m0) else Some m0
        | None => None
        end) \/ (is_ok r = false /\ db' = db)) /\
  (forall h, decodeHandle h = None -> Delete name h db = (r, db') -> is_ok r = false /\ db' = db).
Proof.
  intros W [q Hq].
  assert (decodeHandle (Handle m) = Some (seqKey (m_Seq m), m_ID m)) as Hd by (by apply decode_encode).
  assert (forall m0, handled name (seqKey (m_Seq m)) (m_ID m) db = Some m0 <->
    msg_at db (msgBucket name) (seqKey (m_Seq m)) = Some m0 /\ m_ID m0 = m_ID m) as Hh.
  { intros m0. unfold handled. fold (msg_at db (msgBucket name) (seqKey (m_Seq m))). destruct (msg_at _ _ _) as [m1|]; [|naive_solver].
    destruct (String.eqb_spec (m_ID m1) (m_ID m)); naive_solver. }
  split; [|split].
  - unfold Delete, Commit, getQueue, deleteIn. run_sq. rewrite Hq, Hd. cbv beta iota.
    destruct (handled name (seqKey (m_Seq m)) (m_ID m) db) as [m0|] eqn:E.
    + destruct (proj1 (Hh m0) eq_refl) as [Hm Hid]. destruct (delete_msg_spec (msgBucket name) (seqKey (m_Seq m)) db) as (db1 & E1 & _ & _ & A).
      rewrite E1. intros [= <- <-]. split; [done|]. intros b k. rewrite A.
      destruct (decide (b = msgBucket name /\ k = seqKey (m_Seq m))) as [[-> ->]|Hn];
        [by rewrite Hm, decide_True|]. destruct (msg_at db b k); [by rewrite decide_False by tauto|done].
    + intros [= <- <-]. split; [done|]. intros b k. destruct (msg_at db b k) as [m0|] eqn:Em; [|done].
      rewrite decide_False; [done|]. intros (-> & -> & Hid). specialize (Hh m0). naive_solver.
  - unfold ChangeVisibility, Commit, getQueue, changeVisibilityIn. run_sq. rewrite Hq, Hd. cbv beta iota.
    destruct ((timeout <? 0) || (43200 <? timeout)) eqn:Et; [intros [= <- <-]; by right|].
    apply orb_false_iff in Et as [Et1%Z.ltb_ge Et2%Z.ltb_ge].
    destruct (handled name (seqKey (m_Seq m)) (m_ID m) db) as [m0|] eqn:E.
    + destruct (proj1 (Hh m0) eq_refl) as [Hm Hid]. destruct (putMessage _ _ db) as [x db1] eqn:Ep.
      pose proof Ep as Ep'. apply put_msg_spec in Ep' as [(e & -> & ->)|(-> & _ & _ & A)]; intros [= <- <-]; [by right|].
      left. split; [done|]. split; [done|]. intros b k. rewrite A.
      destruct (wf_key db W _ _ _ Hm) as [Hk _]. change (m_Seq (set_visible _ m0)) with (m_Seq m0). rewrite <- Hk.
      destruct (decide (b = msgBucket name /\ k = seqKey (m_Seq m))) as [[-> ->]|Hn];
        [by rewrite Hm, decide_True|]. destruct (msg_at db b k); [by rewrite decide_False by tauto|done].
    + intros [= <- <-]. left. split; [done|]. split; [done|]. intros b k. destruct (msg_at db b k) as [m0|] eqn:Em; [|done].
      rewrite decide_False; [done|]. intros (-> & -> & Hid). specialize (Hh m0). naive_solver.
  - intros h Hh'. unfold Delete, Commit, getQueue, deleteIn. run_sq. rewrite Hq, Hh'. by intros [= <- <-].
Qed.
End handles.

Lemma handle_exact_witness :
  let db' := (Delete "jobs" (Handle (plain_message "stale" "" "" 1)) two_messages).2 in
  msg_at db' (msgBucket "jobs") (seqKey 1) = Some (plain_message "a" "x" "" 1).
Proof.
  intros db'. destruct (handle_exact 5 "jobs" (plain_message "stale" "" "" 1) two_messages
    (Delete "jobs" (Handle (plain_message "stale" "" "" 1)) two_messages).1 db' 0 two_messages_wf) as [H _].
  - exists (plain_queue "jobs" false). vm_compute. reflexivity.
  - destruct (H (surjective_pairing _)) as [_ Hm]. rewrite Hm.
    assert (msg_at two_messages (msgBucket "jobs") (seqKey 1) = Some (plain_message "a" "x" "" 1)) as -> by (vm_compute; reflexivity).
    rewrite decide_False; [reflexivity|]. intros (_ & _ & Hid). discriminate Hid.
Defined.

(** ** The settings of a queue *)

Record queue_ok (name : string) (q : queue) : Prop := {
  qo_name : q_Name q = name;
  qo_visibility : 0 <= VisibilityTimeout q <= 43200;
  qo_delay : 0 <= DelaySeconds q <= 900;
  qo_retention : 60 <= RetentionPeriod q <= 1209600;
  qo_size : 1024 <= MaxMessageSize q <= 262144;
  qo_wait : 0 <= WaitTimeSeconds q <= 20;
  qo_redrive : DeadLetterTarget q = "" \/ (1 <= MaxReceiveCount q <= 1000 /\ DeadLetterTarget q <> name)
}.

Definition configs_ok `{Bolt} (db : SqsDB) : Prop := forall name q, find_queue db name = Some q -> queue_ok name q.

Lemma atoiAttr_range attr v n lo hi : atoiAttr attr v = Ok n -> attrRange attr = Some (lo, hi) -> lo <= n <= hi.
Proof.
  unfold atoiAttr. destruct (parse_int _); [|done]. intros He Hr. rewrite Hr in He. destruct (_ || _) eqn:E; [done|].
  injection He as <-. zbool. lia.
Qed.

Section settings.
Context `{BL : BoltLaws} `{GoText} `{JsonText} `{GoHash} (ident : Identity).

Ltac limit := intros He; apply result_bind_Ok in He as (n & Ha & He); injection He as <-;
  pose proof (atoiAttr_range _ _ _ _ _ Ha eq_refl); split; simpl; auto.

Lemma applyAttr_ok lookup name q k v q' : queue_ok name q -> applyAttr lookup q k v = Ok q' -> queue_ok name q'.
Proof.
  intros [O1 O2 O3 O4 O5 O6 O7]. unfold applyAttr.
  destruct (String.eqb k "FifoQueue"); [by intros [= <-]|].
  destruct (String.eqb k "ContentBasedDeduplication"); [by intros [= <-]|].
  destruct (String.eqb_spec k "VisibilityTimeout") as [->|_]; [limit|].
  destruct (String.eqb_spec k "DelaySeconds") as [->|_]; [limit|].
  destruct (String.eqb_spec k "MessageRetentionPeriod") as [->|_]; [limit|].
  destruct (String.eqb_spec k "MaximumMessageSize") as [->|_]; [limit|].
  destruct (String.eqb_spec k "ReceiveMessageWaitTimeSeconds") as [->|_]; [limit|].
  destruct (String.eqb k "RedrivePolicy").
  { destruct (String.eqb v ""); [intros [= <-]; split; simpl; auto|]. unfold applyRedrive.
    destruct (redrive_fields v) as [[arn raw]|]; [|done]. destruct (String.eqb _ ""); [done|].
    destruct (parse_int _) as [count|]; [|done]. destruct ((count <? 1) || (1000 <? count)) eqn:Ec; [done|].
    destruct (String.eqb_spec (arnQueueName arn) (q_Name q)) as [|Hne]; [done|].
    destruct (lookup _) as [dlq|]; [|done]. destruct (negb _); [done|]. intros [= <-]. zbool.
    split; simpl; auto. right. split; [lia|congruence]. }
  destruct (existsb _ computedAttrs); [by intros [= <-]|]. destruct (negb _); [done|].
  destruct (String.eqb v ""); by intros [= <-].
Qed.

Lemma applyAttrs_ok lookup name q attrs q' : queue_ok name q -> applyAttrs q attrs lookup = Ok q' -> queue_ok name q'.
Proof.
  unfold applyAttrs. generalize (range attrs). intros l. revert q; induction l as [|[k v] l IH]; intros q Hq; cbn [applyAttrs_in].
  - by intros [= <-].
  - intros He. apply result_bind_Ok in He as (q1 & Ha & He). eapply IH; [|exact He]. by eapply applyAttr_ok.
Qed.

#[local] Set Default Proof Using "BL".

Lemma putQueue_ok q db r db' : queue_ok (q_Name q) q -> configs_ok db -> putQueue q db = (r, db') -> configs_ok db'.
Proof.
  intros Hq Hc. unfold putQueue. run_sq. destruct (bput _ _ _) as [b|] eqn:Hp; intros [= <- <-]; [|done].
  intros name q'. unfold find_queue. simpl. rewrite (bget_bput _ _ _ _ _ _ Hp).
  destruct (decide _) as [->|]; [by intros [= <-]|]. intros Hg. apply Hc. unfold find_queue.
  destruct (s_meta db); simpl in *; [done|]. by rewrite bget_bempty in Hg.
Qed.

Lemma find_same db db' : s_meta db' = s_meta db -> configs_ok db -> configs_ok db'.
Proof using. unfold configs_ok, find_queue. by intros ->. Qed.

Definition keeps_meta (db db' : SqsDB) : Prop := s_meta db' = s_meta db.
#[local] Instance keeps_meta_preorder : PreOrder keeps_meta.
Proof using. split; [by intros ?|]. intros a b c. unfold keeps_meta. congruence. Qed.

Lemma keeps_meta_defs {A} (f : Sq A) : acts same_defs f -> acts keeps_meta f.
Proof. apply acts_impl. by intros a b [? _]. Qed.

Lemma meta_record now qn d m : acts keeps_meta (recordDedup now qn d m).
Proof. intros db r db'. unfold recordDedup. run_sq. destruct (bput _ _ _); by intros [= <- <-]. Qed.

Lemma meta_send now q id it : acts keeps_meta (sendIn now q id it).
Proof.
  assert (forall d, acts keeps_meta (enqueue now q id it d)) as He.
  { intros d. unfold enqueue. apply acts_bind; [apply _|apply keeps_meta_defs, defs_next|]. intros seq.
    apply acts_bind; [apply _|apply keeps_meta_defs, defs_put|intros _].
    apply acts_bind; [apply _| |intros _; apply acts_ret, _]. destruct (FIFO q); [apply meta_record|apply acts_ret, _]. }
  unfold sendIn. destruct (_ && _); [apply acts_throw, _|]. destruct (FIFO q && String.eqb _ ""); [apply acts_throw, _|].
  destruct (FIFO q); [|apply He]. destruct (String.eqb _ ""); [apply acts_throw, _|]. apply acts_read; [apply _|].
  intros x. destruct (lookupDedup _ _ _ _); [apply acts_ret, _|apply He].
Qed.

Lemma meta_sends now q items : acts keeps_meta (sendItems now q items).
Proof.
  induction items as [|[id it] items IH]; [apply acts_ret, _|]. cbn [sendItems]. intros db x db'.
  destruct (sendIn now q id it db) as [y db1] eqn:E1. apply meta_send in E1. run_sq.
  destruct (sendItems now q items db1) as [rs db2] eqn:E2. apply IH in E2. destruct rs; intros [= <- <-]; by etrans.
Qed.

Lemma meta_Commit {A} (f : Sq A) db : acts keeps_meta f -> s_meta (Commit f db).2 = s_meta db.
Proof.
  intros Ha. destruct (Commit f db) as [x db'] eqn:E. apply (acts_Commit keeps_meta) in E; [done|by intros ?|done].
Qed.

Lemma meta_sweep now names db : s_meta (foldl (fun db name => (Commit (sweep_queue now name) db).2) db names) = s_meta db.
Proof.
  revert db; induction names as [|n names IH]; intros db; simpl; [done|]. rewrite IH. apply meta_Commit.
  intros db1 x db2 E. by apply sweep_queue_effect in E as [_ ?].
Qed.

(** A queue definition written back under its name. *)
Lemma rewrite_ok (f : queue -> Sq unit) name db :
  configs_ok db ->
  (forall q r db', queue_ok name q -> f q db = (r, db') -> configs_ok db') ->
  configs_ok (Commit (q ← getQueue name; f q) db).2.
Proof.
  intros Hc Hf. unfold Commit, getQueue. run_sq. destruct (find_queue db name) as [q|] eqn:Eq; [|done].
  destruct (f q db) as [[[]|e] db'] eqn:E; [|done]. eapply Hf; [by apply Hc|exact E].
Qed.

Lemma set_modified_ok n name q : queue_ok name q -> queue_ok name (set_modified n q).
Proof using. by intros []. Qed.
Lemma set_tags_ok m name q : queue_ok name q -> queue_ok name (set_tags m q).
Proof using. by intros []. Qed.

Lemma step_configs now o db : configs_ok db -> configs_ok (step ident now o db).2.
Proof.
  intros Hc. destruct o; cbn [step snd];
    try (match goal with |- context [SetAttributes] => fail 1 | |- context [TagQueue] => fail 1
      | |- context [UntagQueue] => fail 1 | |- context [DeleteQueue] => fail 1
      | |- context [StartMessageMoveTask] => fail 1 | _ => idtac end;
      eapply find_same; [|exact Hc]; apply meta_Commit; apply acts_bind; [apply _|apply keeps_meta_defs, defs_getQueue|intros q]).
  - unfold CreateQueue. destruct (String.eqb _ ""); [done|]. destruct (validQueueName _); [done|]. destruct (_ && _); [done|].
    unfold createQueue, Commit. run_sq. destruct (find_queue db name) as [q|]; [by destruct (first_difference _ _ _)|].
    destruct (applyAttrs _ _ _) as [q|] eqn:Ea; [|done].
    apply (applyAttrs_ok _ name) in Ea; [|split; simpl; try done; by left].
    destruct (putQueue _ db) as [[[]|e] db'] eqn:Ep; [|done]. eapply putQueue_ok; [|exact Hc|exact Ep].
    apply (set_tags_ok (tags ∪ Tags q)) in Ea. by rewrite (qo_name _ _ Ea).
  - apply rewrite_ok; [done|]. intros q r db' Hq. run_sq. destruct (applyAttrs q attrs (find_queue db)) as [q'|] eqn:Ea;
      [|by intros [= <- <-]]. apply (applyAttrs_ok _ name _ _ _ Hq) in Ea. apply (set_modified_ok (now / 1000000000)) in Ea.
    apply putQueue_ok; [|done]. by rewrite (qo_name _ _ Ea).
  - apply rewrite_ok; [done|]. intros q r db' Hq. apply (set_tags_ok (tags ∪ Tags q)) in Hq.
    apply putQueue_ok; [|done]. by rewrite (qo_name _ _ Hq).
  - apply rewrite_ok; [done|]. intros q r db' Hq. apply (set_tags_ok (foldl (fun m k => delete k m) (Tags q) keys)) in Hq.
    apply putQueue_ok; [|done]. by rewrite (qo_name _ _ Hq).
  - apply rewrite_ok; [done|]. intros q r db' _ [= <- <-] n q'. unfold find_queue. simpl. rewrite bget_bdelete.
    destruct (decide _); [done|]. intros Hg. apply Hc. unfold find_queue.
    destruct (s_meta db); simpl in *; [done|]. by rewrite bget_bempty in Hg.
  - by intros db1 r db2 [= <- <-].
  - apply meta_send.
  - apply meta_sends.
  - eapply find_same; [|exact Hc]. destruct (receiveOnce now name max visibility db) as [[[ms next]|e] db'] eqn:E; cbn [snd];
      (apply (acts_Commit keeps_meta) in E; [done|by intros ?|apply keeps_meta_defs, defs_receive]).
  - apply keeps_meta_defs, (defs_handles now name handle 0).
  - apply acts_entries; [apply _|]. intros h _. apply keeps_meta_defs, (defs_handles now name h 0).
  - apply keeps_meta_defs, defs_handles.
  - apply acts_entries; [apply _|]. intros e _. apply keeps_meta_defs, defs_handles.
  - eapply find_same; [|exact Hc]. apply (meta_Commit (startMove now id source dest)), keeps_meta_defs, defs_move.
  - eapply find_same; [|exact Hc]. apply meta_sweep.
Qed.

(** C40: The settings of every queue stay within the limits of the service.  Whatever operation
    runs, with whatever attributes, each stored definition has its own name, a visibility
    timeout of 0 to 43200 seconds, a delay of 0 to 900, a retention of 60 to 1209600, a
    message size of 1024 to 262144, a wait of 0 to 20, and no redrive policy or one of 1 to
    1000 receives to another queue.  So none of the 64-bit sums of a queue's own settings
    overflows: a message delivered by default becomes visible exactly its timeout later,
    and one is dropped exactly when it is older than its retention. *)
Theorem queue_settings_bounded now o db name q :
  configs_ok db ->
  let db' := (step ident now o db).2 in
  find_queue db' name = Some q ->
  queue_ok name q /\
  forall t m, 0 <= t < 2 ^ 62 -> 0 <= m_Sent m < 2 ^ 62 ->
    later t (VisibilityTimeout q) = t + VisibilityTimeout q * second /\
    later t (DelaySeconds q) = t + DelaySeconds q * second /\
    (expired_message q t m = true <-> RetentionPeriod q * second < t - m_Sent m).
Proof.
  intros Hc db' Hq. apply step_configs with (now := now) (o := o) in Hc. specialize (Hc _ _ Hq). split; [done|].
  destruct Hc as [_ [O1 O1'] [O2 O2'] [O3 O3'] _ _ _]. intros t m Ht Hm.
  assert (forall n, 0 <= n <= 1209600 -> duration n = n * second /\ later t n = t + n * second) as Hl.
  { intros n Hn. assert (duration n = n * second) as Hd.
    { unfold duration, wrap64, second. rewrite Z.mod_small by lia. lia. }
    split; [done|]. unfold later. rewrite Hd. unfold wrap64, second. rewrite Z.mod_small by lia. lia. }
  split; [by apply Hl; lia|]. split; [by apply Hl; lia|].
  unfold expired_message. destruct (Hl (RetentionPeriod q)) as [-> _]; [lia|]. unfold sat64.
  rewrite andb_true_iff, !Z.ltb_lt. unfold second. lia.
Qed.
End settings.

Lemma queue_settings_bounded_witness :
  let attrs := <["VisibilityTimeout" := "43200"]> {["DelaySeconds" := "900"]} in
  VisibilityTimeout <$> find_queue (step here 5 (OpSetAttributes "jobs" attrs) two_messages).2 "jobs" = Some 43200 /\
  forall q, find_queue (step here 5 (OpSetAttributes "jobs" attrs) two_messages).2 "jobs" = Some q -> queue_ok "jobs" q.
Proof.
  intros attrs. split; [vm_compute; reflexivity|]. intros q Hq.
  apply (queue_settings_bounded here 5 (OpSetAttributes "jobs" attrs) two_messages "jobs" q); [|exact Hq].
  intros name q' Hf. unfold find_queue, two_messages, store_of in Hf. simpl in Hf.
  apply lookup_singleton_Some in Hf as [<- <-]. split; simpl; try lia; [reflexivity|by left].
Defined.

(** Two limits are not held on every path.  A visibility change of more than 43200 seconds
    is refused, yet a receive takes any timeout of its own: one long enough overflows, and
    the message is delivered again at once.  And a FIFO queue must be created under a name
    that ends in .fifo, which a standard queue's may not, yet setting the attribute on a
    standard queue makes it a FIFO queue under its old name. *)
Lemma limits_bypassed :
  let long := OpReceive "jobs" 1 9223372037 in
  let h := Handle (plain_message "a" "x" "" 1) in
  is_ok (ChangeVisibility 5 "jobs" h 43201 two_messages).1 = false /\
  map (map m_ID) (run here [(5, long); (5, long)] two_messages).1 = [["a"]; ["a"]] /\
  is_ok (CreateQueue here 5 "jobs2" {["FifoQueue" := "true"]} ∅ two_messages).1 = false /\
  option_map (fun q => (q_Name q, FIFO q)) (find_queue (SetAttributes 5 "jobs" {["FifoQueue" := "true"]} two_messages).2 "jobs") =
    Some ("jobs", true).
Proof. split; [vm_compute; reflexivity|]. split; [vm_compute; reflexivity|]. split; vm_compute; reflexivity. Qed.
