(* ===== verification/Notify.v ===== *)
(** * Notify: long polling

    Model of src/sqs/notify.go and of the loop of [Receive] in receive.go, as one machine
    of senders and receivers that interleave.  A receiver takes the queue's channel, looks
    at the store, and sleeps until the channel is closed or an instant comes; a send
    commits and then signals.  Each store transaction is one event, as bbolt runs them one
    at a time, and so is each call of the notifier, which holds its mutex. *)

From S2P Require Import Prelude Bytes Ident Clock Wire Star GoText Glob Policy PolicySpec Bolt Cursor Queues Messages MessagesInv MessagesSpec SqsRun.

(** ** The notifier *)

(** Channels are numbers; [n_fresh] is the next one made. *)
Record notifier := mkNotifier { n_chans : gmap string nat; n_closed : gset nat; n_fresh : nat }.

Definition newNotifier : notifier := mkNotifier ∅ ∅ 0.

Definition wait (queue : string) (n : notifier) : nat * notifier :=
  match n_chans n !! queue with
  | Some ch => (ch, n)
  | None => (n_fresh n, mkNotifier (<[queue := n_fresh n]> (n_chans n)) (n_closed n) (Datatypes.S (n_fresh n)))
  end.

Definition signal (queue : string) (n : notifier) : notifier :=
  match n_chans n !! queue with
  | Some ch => mkNotifier (delete queue (n_chans n)) ({[ch]} ∪ n_closed n) (n_fresh n)
  | None => n
  end.

Definition forget (queue : string) (n : notifier) : notifier :=
  mkNotifier (delete queue (n_chans n)) (n_closed n) (n_fresh n).

(** ** Receivers *)

(** Where a receive is in its loop.  [Asleep] keeps, as a ghost, how many times messages
    had landed in the queue when it looked. *)
Inductive phase :=
| Looping
| Registered (ch : nat)
| Asleep (ch : nat) (wakeAt : Z) (seen : nat)
| Answered (ms : list message).

Record receiver := mkReceiver {
  rc_queue : string;
  rc_max : Z;
  rc_visibility : Z;
  rc_deadline : Z;
  rc_phase : phase
}.

Definition at_phase (p : phase) (r : receiver) : receiver :=
  mkReceiver (rc_queue r) (rc_max r) (rc_visibility r) (rc_deadline r) p.

(** The clock, the store, the notifier, the receives, and the signals and forgets that
    their goroutines still owe; [w_landed] counts the landings by queue. *)
Record world `{Bolt} := mkWorld {
  w_clock : Z;
  w_db : SqsDB;
  w_notify : notifier;
  w_receivers : gmap nat receiver;
  w_signals : list string;
  w_forgets : list string;
  w_landed : gmap string nat
}.

Inductive event :=
| Tick (now : Z)
| Begin (tid : nat) (queue : string) (max waitSec visibility : Z)
| Register (tid : nat)
| Look (tid : nat)
| Wake (tid : nat)
| Act (o : op)
| Signal (queue : string)
| Forget (queue : string).

Section machine.
Context `{B : Bolt} `{GoText} `{JsonText} `{GoHash} (ident : Identity).

(** The queues where an operation lands messages, each of which it signals once it has
    committed. *)
Definition lands (now : Z) (o : op) (db : SqsDB) : list string :=
  match o with
  | OpSend name id it => match (Send now name id it db).1 with Ok (_, true) => [name] | _ => [] end
  | OpSendBatch name items =>
      match (SendBatch now name items db).1 with
      | Ok rs => if existsb (fun r => match r with Ok (_, true) => true | _ => false end) rs then [name] else []
      | Err _ => []
      end
  | OpStartMove id source dest => match (StartMessageMoveTask now id source dest db).1 with Ok _ => [dest] | Err _ => [] end
  | _ => []
  end.

(** The dead-letter queue, once for each message a receive moves there. *)
Definition redriven_to (now : Z) (name : string) (max vis : Z) (db : SqsDB) : list string :=
  match find_queue db name, s_msgs db !! msgBucket name with
  | Some q, Some mb =>
      match find_queue db (DeadLetterTarget q) with
      | Some _ => repeat (DeadLetterTarget q) (length (p_dlq (receive_pass now q max vis mb)))
      | None => []
      end
  | _, _ => []
  end.

Fixpoint remove_one (name : string) (l : list string) : list string :=
  match l with [] => [] | x :: l' => if String.eqb x name then l' else x :: remove_one name l' end.

Definition landed (name : string) (w : world) : nat := default 0%nat (w_landed w !! name).
Definition land (names : list string) (m : gmap string nat) : gmap string nat :=
  foldr (fun name m => <[name := Datatypes.S (default 0%nat (m !! name))]> m) m names.

Definition set_receiver (tid : nat) (r : receiver) (w : world) : world :=
  mkWorld _ (w_clock w) (w_db w) (w_notify w) (<[tid := r]> (w_receivers w)) (w_signals w) (w_forgets w) (w_landed w).

(** What a receive does with the outcome of a pass. *)
Definition look (tid : nat) (r : receiver) (ch : nat) (w : world) : world :=
  let now := w_clock w in
  let hits := redriven_to now (rc_queue r) (rc_max r) (rc_visibility r) (w_db w) in
  match receiveOnce now (rc_queue r) (rc_max r) (rc_visibility r) (w_db w) with
  | (Err _, db) =>
      mkWorld _ now db (w_notify w) (<[tid := at_phase (Answered []) r]> (w_receivers w)) (w_signals w)
        (rc_queue r :: w_forgets w) (w_landed w)
  | (Ok (ms, nextVisible), db) =>
      let p := match ms with
        | _ :: _ => Answered ms
        | [] =>
            if rc_deadline r <=? now then Answered []
            else Asleep ch (if negb (nextVisible =? 0) && (nextVisible <? rc_deadline r) then nextVisible else rc_deadline r)
                   (default 0%nat (land hits (w_landed w) !! rc_queue r))
        end in
      mkWorld _ now db (w_notify w) (<[tid := at_phase p r]> (w_receivers w)) (hits ++ w_signals w) (w_forgets w)
        (land hits (w_landed w))
  end.

(** An event that can happen, and the world after it. *)
Definition happen (e : event) (w : world) : option world :=
  match e with
  | Tick now =>
      if w_clock w <=? now then
        Some (mkWorld _ now (w_db w) (w_notify w) (w_receivers w) (w_signals w) (w_forgets w) (w_landed w))
      else None
  | Begin tid name max waitSec vis =>
      match w_receivers w !! tid with
      | Some _ => None
      | None => Some (set_receiver tid (mkReceiver name (batch_size max) vis
                  (w_clock w + wait_seconds name waitSec (w_db w) * second) Looping) w)
      end
  | Register tid =>
      match w_receivers w !! tid with
      | Some r =>
          match rc_phase r with
          | Looping =>
              let '(ch, n) := wait (rc_queue r) (w_notify w) in
              Some (mkWorld _ (w_clock w) (w_db w) n (<[tid := at_phase (Registered ch) r]> (w_receivers w))
                (w_signals w) (w_forgets w) (w_landed w))
          | _ => None
          end
      | None => None
      end
  | Look tid =>
      match w_receivers w !! tid with
      | Some r => match rc_phase r with Registered ch => Some (look tid r ch w) | _ => None end
      | None => None
      end
  | Wake tid =>
      match w_receivers w !! tid with
      | Some r =>
          match rc_phase r with
          | Asleep ch wakeAt _ =>
              if bool_decide (ch ∈ n_closed (w_notify w)) || (wakeAt <=? w_clock w) then
                Some (set_receiver tid (at_phase Looping r) w)
              else None
          | _ => None
          end
      | None => None
      end
  | Act (OpReceive _ _ _) => None
  | Act o =>
      let names := lands (w_clock w) o (w_db w) in
      Some (mkWorld _ (w_clock w) (step ident (w_clock w) o (w_db w)).2 (w_notify w) (w_receivers w) (names ++ w_signals w)
        (match o with
         | OpDeleteQueue name => if is_ok (DeleteQueue name (w_db w)).1 then name :: w_forgets w else w_forgets w
         | _ => w_forgets w
         end) (land names (w_landed w)))
  | Signal name =>
      if bool_decide (name ∈ w_signals w) then
        Some (mkWorld _ (w_clock w) (w_db w) (signal name (w_notify w)) (w_receivers w)
          (remove_one name (w_signals w)) (w_forgets w) (w_landed w))
      else None
  | Forget name =>
      if bool_decide (name ∈ w_forgets w) then
        Some (mkWorld _ (w_clock w) (w_db w) (forget name (w_notify w)) (w_receivers w) (w_signals w)
          (remove_one name (w_forgets w)) (w_landed w))
      else None
  end.

Fixpoint history (es : list event) (w : world) : option world :=
  match es with
  | [] => Some w
  | e :: es' => w' ← happen e w; history es' w'
  end.
End machine.

(** ** No wakeup is lost *)

Section wakeups.
Context `{B : Bolt} `{GoText} `{JsonText} `{GoHash} (ident : Identity).

(** What is true of a receive: its channel is closed or is the queue's, and if anything has
    landed since it looked, the signal is still owed. *)
Definition receiver_ok (n : notifier) (sig : list string) (ld : gmap string nat) (r : receiver) : Prop :=
  match rc_phase r with
  | Registered ch => ch ∈ n_closed n \/ n_chans n !! rc_queue r = Some ch
  | Asleep ch wakeAt seen =>
      wakeAt <= rc_deadline r /\
      (ch ∈ n_closed n \/
       (n_chans n !! rc_queue r = Some ch /\ (rc_queue r ∈ sig \/ default 0%nat (ld !! rc_queue r) = seen)))
  | _ => True
  end.

Definition receivers_ok (w : world) : Prop :=
  map_Forall (fun _ r => receiver_ok (w_notify w) (w_signals w) (w_landed w) r) (w_receivers w).

(** A notifier that has made and closed channels, and dropped none open. *)
Definition extends (n n' : notifier) : Prop :=
  n_closed n ⊆ n_closed n' /\
  forall q ch, n_chans n !! q = Some ch -> n_chans n' !! q = Some ch \/ ch ∈ n_closed n'.

Lemma receiver_ok_mono n n' sig sig' ld ld' r :
  extends n n' -> (rc_queue r ∈ sig -> rc_queue r ∈ sig' \/ forall ch, n_chans n !! rc_queue r = Some ch -> ch ∈ n_closed n') ->
  (default 0%nat (ld' !! rc_queue r) = default 0%nat (ld !! rc_queue r) \/ rc_queue r ∈ sig') ->
  receiver_ok n sig ld r -> receiver_ok n' sig' ld' r.
Proof.
  intros [Hcl Hch] Hsig Hld. unfold receiver_ok. destruct (rc_phase r) as [|ch|ch wakeAt seen|]; try done.
  - intros [?|Hc]; [left; set_solver|]. apply Hch in Hc. tauto.
  - intros [Hw [?|[Hc Hor]]]; (split; [done|]); [left; set_solver|]. destruct (Hch _ _ Hc) as [Hc'|]; [|by left].
    destruct Hor as [Hin|<-].
    + destruct (Hsig Hin) as [?|Hall]; [right; tauto|left; by apply Hall].
    + destruct Hld as [<-|]; right; tauto.
Qed.

Lemma extends_refl n : extends n n.
Proof. split; [done|]. by left. Qed.

Lemma wait_extends q n ch n' : wait q n = (ch, n') -> extends n n' /\ n_chans n' !! q = Some ch.
Proof.
  unfold wait. destruct (n_chans n !! q) as [c|] eqn:E; intros [= <- <-]; [by split; [apply extends_refl|]|].
  split; [|simpl; by rewrite lookup_insert_eq]. split; [done|]. simpl. intros q' c Hc. left.
  destruct (decide (q' = q)) as [->|]; [congruence|by rewrite lookup_insert_ne].
Qed.

Lemma signal_extends q n : extends n (signal q n) /\ forall ch, n_chans n !! q = Some ch -> ch ∈ n_closed (signal q n).
Proof.
  unfold signal. destruct (n_chans n !! q) as [c|] eqn:E; [|by split; [apply extends_refl|]]. simpl. split; [split; simpl|].
  - set_solver.
  - intros q' ch Hc. destruct (decide (q' = q)) as [->|]; [right; set_solver|left; by rewrite lookup_delete_ne].
  - set_solver.
Qed.

Lemma land_other names ld q : q ∉ names -> land names ld !! q = ld !! q.
Proof.
  induction names as [|n names IH]; [done|]. rewrite not_elem_of_cons. intros [Hn Hq]. simpl.
  rewrite lookup_insert_ne by done. by apply IH.
Qed.

Lemma remove_one_other q q' l : q <> q' -> q ∈ l -> q ∈ remove_one q' l.
Proof.
  intros Hne. induction l as [|x l IH]; [done|]. simpl. rewrite elem_of_cons. intros [->|Hin].
  - destruct (String.eqb_spec x q'); [done|by left].
  - destruct (String.eqb_spec x q'); [done|right; auto].
Qed.

(** Landing messages and owing their signals. *)
Lemma landing_ok w hits n m :
  receivers_ok w -> extends (w_notify w) n -> m = w_receivers w ->
  map_Forall (fun _ r => receiver_ok n (hits ++ w_signals w) (land hits (w_landed w)) r) m.
Proof.
  intros Hi He ->. intros tid r Hr. specialize (Hi tid r Hr). simpl in Hi. eapply receiver_ok_mono; [done| | |exact Hi].
  - intros Hin. left. apply elem_of_app. by right.
  - destruct (decide (rc_queue r ∈ hits)); [right; apply elem_of_app; by left|left]. by rewrite land_other.
Qed.

Lemma happen_ok e w w' :
  receivers_ok w -> (forall q, e <> Forget q) -> happen ident e w = Some w' -> receivers_ok w'.
Proof.
  intros Hi Hf. destruct e as [now|tid q max ws vis|tid|tid|tid|o|q|q]; cbn [happen].
  - destruct (_ <=? _); [|done]. by intros [= <-].
  - destruct (w_receivers w !! tid); [done|]. intros [= <-]. apply map_Forall_insert_2; [done|exact Hi].
  - destruct (w_receivers w !! tid) as [r|] eqn:Er; [|done]. destruct (rc_phase r); try done.
    destruct (wait (rc_queue r) (w_notify w)) as [ch n] eqn:Ew. intros [= <-]. apply wait_extends in Ew as [He Hc].
    apply map_Forall_insert_2; [right; exact Hc|]. by apply (landing_ok w [] n).
  - destruct (w_receivers w !! tid) as [r|] eqn:Er; [|done]. destruct (rc_phase r) as [|ch| |] eqn:Ep; try done.
    intros [= <-]. specialize (Hi tid r Er) as Hr. unfold receiver_ok in Hr. rewrite Ep in Hr.
    unfold look. destruct (receiveOnce _ _ _ _ _) as [[[ms next]|x] db]; apply map_Forall_insert_2;
      [|by apply landing_ok, eq_refl; [|apply extends_refl]|done|by apply (landing_ok w []), eq_refl; [|apply extends_refl]].
    destruct ms; [|done]. destruct (Z.leb_spec (rc_deadline r) (w_clock w)); [done|]. unfold receiver_ok. simpl.
    split; [|destruct Hr as [?|?]; [by left|right; split; [done|by right]]].
    destruct (negb _ && _) eqn:E; [|lia]. zbool. lia.
  - destruct (w_receivers w !! tid) as [r|] eqn:Er; [|done]. destruct (rc_phase r); try done. destruct (_ || _); [|done].
    intros [= <-]. apply map_Forall_insert_2; [done|exact Hi].
  - destruct o; intros [= <-]; try done; apply landing_ok; try done; apply extends_refl.
  - case_bool_decide; [|done]. intros [= <-]. intros tid r Hr. specialize (Hi tid r Hr). simpl in Hi.
    destruct (signal_extends q (w_notify w)) as [He Hc]. eapply receiver_ok_mono; [exact He| |by left|exact Hi].
    intros Hin. destruct (decide (rc_queue r = q)) as [Hq|Hne]; [right; rewrite Hq; apply Hc|left; by apply remove_one_other].
  - by destruct (Hf q).
Qed.

Lemma history_ok es w w' :
  receivers_ok w -> Forall (fun e => forall q, e <> Forget q) es -> history ident es w = Some w' -> receivers_ok w'.
Proof.
  revert w; induction es as [|e es IH]; intros w Hi Hf; [by intros [= <-]|]. apply Forall_cons in Hf as [Hf Hfs].
  cbn [history]. destruct (happen ident e w) as [w1|] eqn:E; [|done]. simpl. apply IH; [|done]. by eapply happen_ok.
Qed.

(** C12: Long polling loses no wakeup.  In every interleaving of senders, receivers and other
    operations from a start without receivers, as long as no queue is forgotten, a receive
    that is asleep never sleeps past its deadline, and if messages have landed in its queue
    since it looked, its channel is closed or the signal is still owed; once that signal, or
    any signal of its queue, is given, the receive can go on, as it can when the instant
    it waits for has come. *)
Theorem no_lost_wakeup es w0 w tid r ch wakeAt seen :
  w_receivers w0 = ∅ -> Forall (fun e => forall q, e <> Forget q) es -> history ident es w0 = Some w ->
  w_receivers w !! tid = Some r -> rc_phase r = Asleep ch wakeAt seen ->
  wakeAt <= rc_deadline r /\
  (landed (rc_queue r) w <> seen -> ch ∈ n_closed (w_notify w) \/ rc_queue r ∈ w_signals w) /\
  (forall w', happen ident (Signal (rc_queue r)) w = Some w' -> is_Some (happen ident (Wake tid) w')) /\
  (ch ∈ n_closed (w_notify w) \/ wakeAt <= w_clock w -> is_Some (happen ident (Wake tid) w)).
Proof.
  intros Hw0 Hf Hh Hr Hp.
  assert (receivers_ok w) as Hi.
  { eapply history_ok; [|done|exact Hh]. unfold receivers_ok. rewrite Hw0. apply map_Forall_empty. }
  specialize (Hi tid r Hr). unfold receiver_ok in Hi. simpl in Hi. rewrite Hp in Hi. destruct Hi as [Hle Hor].
  split; [done|]. split; [unfold landed; tauto|]. split.
  - intros w'. cbn [happen]. case_bool_decide; [|done]. intros [= <-]. cbn [w_receivers w_notify w_clock]. rewrite Hr, Hp.
    destruct (signal_extends (rc_queue r) (w_notify w)) as [[Hcl _] Hc].
    rewrite bool_decide_eq_true_2; [by eexists|]. destruct Hor as [?|[? _]]; [set_solver|by apply Hc].
  - intros Hgo. cbn [happen]. rewrite Hr, Hp. destruct Hgo as [Hc|Hc].
    + rewrite bool_decide_eq_true_2 by done. by eexists.
    + rewrite (proj2 (Z.leb_le _ _) Hc), orb_true_r. by eexists.
Qed.
End wakeups.

(** ** Concrete interleavings *)

Definition empty_queue : SqsDB := store_of (plain_queue "jobs" false) [].
Definition quiet (db : SqsDB) : world := mkWorld _ 0 db newNotifier ∅ [] [] ∅.

(** A receive that is asleep on an open channel, before its instant. *)
Definition sleeps_on (tid : nat) (w : world) : bool :=
  match rc_phase <$> w_receivers w !! tid with
  | Some (Asleep ch wakeAt _) => negb (bool_decide (ch ∈ n_closed (w_notify w))) && (w_clock w <? wakeAt)
  | _ => false
  end.

Definition poll_then_send : list event :=
  [Begin 0 "jobs" 10 20 (-1); Register 0; Look 0; Tick 5; Act (OpSend "jobs" "m1" (plain_item "body" "" ""))].

Lemma no_lost_wakeup_witness :
  match history here poll_then_send (quiet empty_queue) with
  | Some w => is_Some (happen here (Signal "jobs") w) /\
      forall w', happen here (Signal "jobs") w = Some w' -> is_Some (happen here (Wake 0) w')
  | None => False
  end.
Proof.
  assert (match history here poll_then_send (quiet empty_queue) with
    | Some w => sleeps_on 0 w && bool_decide (w_signals w = ["jobs"]) | None => false end = true) as Hc by (vm_compute; reflexivity).
  destruct (history here poll_then_send (quiet empty_queue)) as [w|] eqn:E; [|discriminate Hc].
  apply andb_true_iff in Hc as [Hs Hg]. apply bool_decide_eq_true in Hg. unfold sleeps_on in Hs.
  destruct (w_receivers w !! 0%nat) as [r|] eqn:Er; [|discriminate Hs]. simpl in Hs.
  destruct (rc_phase r) as [|?|ch wakeAt seen|?] eqn:Ep; try discriminate Hs. split.
  - cbn [happen]. rewrite bool_decide_eq_true_2 by (rewrite Hg; by left). eexists. reflexivity.
  - assert (rc_queue r = "jobs") as Hq.
    { assert (option_map (fun w => rc_queue <$> w_receivers w !! 0%nat) (history here poll_then_send (quiet empty_queue)) =
        Some (Some "jobs")) as Hx by (vm_compute; reflexivity). rewrite E in Hx. simpl in Hx. rewrite Er in Hx. by injection Hx. }
    rewrite <- Hq. apply (no_lost_wakeup here poll_then_send (quiet empty_queue) w 0 r ch wakeAt seen); try done.
    repeat (constructor; [discriminate|]). constructor.
Defined.

(** Two things do not wake a receive, and each leaves a message that can be delivered to one
    that sleeps on until its deadline, 20 seconds later.  The receive looks while a
    message is in flight; then a visibility change of zero makes the message visible, and
    nothing signals.  And a queue is deleted and created again under a receive: its channel
    is forgotten unclosed, so the sends to the new queue signal another. *)
Lemma sleepers_missed :
  let asleep es db := match history here es (quiet db) with
    | Some w => sleeps_on 0 w && bool_decide (w_signals w = []) && bool_decide (w_forgets w = []) &&
        match (step here (w_clock w) (OpReceive "jobs" 10 (-1)) (w_db w)).1 with [] => false | _ => true end
    | None => false
    end in
  asleep [Act (OpSend "jobs" "m1" (plain_item "body" "" "")); Signal "jobs"; Begin 1 "jobs" 10 0 30; Register 1; Look 1;
          Begin 0 "jobs" 10 20 (-1); Register 0; Look 0; Tick 5;
          Act (OpChangeVisibility "jobs" (Handle (plain_message "m1" "" "" 1)) 0)] empty_queue = true /\
  asleep [Begin 0 "jobs" 10 20 (-1); Register 0; Look 0; Tick 5; Act (OpDeleteQueue "jobs"); Forget "jobs";
          Act (OpCreateQueue "jobs" ∅ ∅); Act (OpSend "jobs" "m1" (plain_item "body" "" ""))
          ; Signal "jobs"] empty_queue = true.
Proof. split; vm_compute; reflexivity. Qed.
