(* ===== verification/Kinesis.v ===== *)
(** * Kinesis: streams, shards and records

    Model of src/kinesis: store.go (streams, routing, appends, reads, retention,
    consumers), reshard.go, and of records.go and iterator.go in Reads.v.  A stream holds
    its shards; each shard has a bucket of records by sequence number, which the stream
    counts.  Resharding closes shards and opens children.

    The clock is read as one instant per operation, in nanoseconds. *)

From stdpp Require Import pretty sorting.
From S2P Require Import Prelude Bytes Ident Clock Digits Wire Bolt Cursor Tx.

(** ** Data *)

Record shard := mkShard {
  sh_ID : string;
  StartHash : string;
  EndHash : string;
  ParentID : string;
  AdjacentID : string;
  StartSeq : Z;
  EndSeq : Z;                     (* 0 while open *)
  Closed : bool
}.

Record streamRecord := mkStreamRecord {
  st_Name : string;
  st_Created : Z;
  RetentionHours : Z;
  st_Mode : string;
  Shards : list shard;
  NextShardNum : Z;
  NextSeq : Z;
  st_Tags : gmap string string;
  EncryptionType : string;
  st_KeyID : string;
  EnhancedMetrics : list string;
  ResourcePolicy : string
}.

Record record := mkRecord {
  r_Seq : Z;
  PartitionKey : string;
  ExplicitHashKey : string;
  r_Data : string;
  ArrivedNs : Z
}.

Record consumer := mkConsumer {
  c_Name : string;
  c_StreamARN : string;
  c_ARN : string;
  c_Created : Z;
  c_Status : string
}.

Definition defRetentionHours : Z := 24.
Definition minRetentionHours : Z := 24.
Definition maxRetentionHours : Z := 8760.
Definition maxRecordSize : Z := 1048576.
Definition maxPutRecords : Z := 500.
Definition modeProvisioned : string := "PROVISIONED".
Definition modeOnDemand : string := "ON_DEMAND".

(** The top of the hash space. *)
Definition maxHash : Z := 2 ^ 128 - 1.

Definition set_shards (l : list shard) (st : streamRecord) : streamRecord :=
  mkStreamRecord (st_Name st) (st_Created st) (RetentionHours st) (st_Mode st) l (NextShardNum st) (NextSeq st)
    (st_Tags st) (EncryptionType st) (st_KeyID st) (EnhancedMetrics st) (ResourcePolicy st).
Definition set_counters (shard_num seq : Z) (st : streamRecord) : streamRecord :=
  mkStreamRecord (st_Name st) (st_Created st) (RetentionHours st) (st_Mode st) (Shards st) shard_num seq
    (st_Tags st) (EncryptionType st) (st_KeyID st) (EnhancedMetrics st) (ResourcePolicy st).
Definition set_config (hours : Z) (mode : string) (tags : gmap string string) (enc key : string)
    (metrics : list string) (policy : string) (st : streamRecord) : streamRecord :=
  mkStreamRecord (st_Name st) (st_Created st) hours mode (Shards st) (NextShardNum st) (NextSeq st)
    tags enc key metrics policy.

(** ** Errors *)

Definition errNoStream : APIError :=
  mkAPIError "ResourceNotFoundException" 400 "Stream %s under account %s not found." true None.
Definition errNoShard : APIError :=
  mkAPIError "ResourceNotFoundException" 400 "Shard %s in stream %s under account %s does not exist" true None.
Definition errNoConsumer : APIError := mkAPIError "ResourceNotFoundException" 400 "Consumer %s not found." true None.
Definition errArgument (format : string) : APIError := Errf 400 "InvalidArgumentException" format.
Definition errParameter (format : string) : APIError := Errf 400 "ValidationException" format.
Definition errInUse (format : string) : APIError := Errf 400 "ResourceInUseException" format.

(** ** Names *)

Definition shardID (n : Z) : string := "shardId-" +:+ pad0 12 (pretty n).

Definition recBucket (stream shard : string) : string := "r:" +:+ stream +:+ ":" +:+ shard.

Definition streamARN (id : Identity) (name : string) : string := ARN id "kinesis" ("stream/" +:+ name).

Definition stream_char (c : ascii) : bool :=
  let b := byte_of c in
  Ascii.eqb c "_" || Ascii.eqb c "." || Ascii.eqb c "-" || ((48 <=? b) && (b <=? 57)) ||
  ((97 <=? b) && (b <=? 122)) || ((65 <=? b) && (b <=? 90)).

Fixpoint stream_chars (s : string) : bool :=
  match s with EmptyString => true | String c s' => stream_char c && stream_chars s' end.

Definition validStreamName (name : string) : option APIError :=
  if String.eqb name "" then Some (errArgument "StreamName is required")
  else if 128 <? slen name then Some (errArgument "StreamName may be at most 128 characters")
  else if stream_chars name then None
  else Some (errArgument "StreamName may contain only letters, digits, '_', '.' and '-'").

Definition streamFromARN (arn : string) : result string :=
  match after_first ":stream/" arn with
  | None => Err (errArgument "%q is not a Kinesis stream ARN")
  | Some rest =>
      let name := match cut_on "/" rest with Some (name, _) => name | None => rest end in
      if String.eqb name "" then Err (errArgument "%q is not a Kinesis stream ARN") else Ok name
  end.

(** A request names its stream or gives its ARN. *)
Definition resolveStream (name arn : string) : result string :=
  if negb (String.eqb name "") then Ok name
  else if negb (String.eqb arn "") then streamFromARN arn
  else Err (errParameter "either StreamName or StreamARN must be supplied").

Definition consumerKey (arn name : string) : string := arn +:+ "|" +:+ name.

(** ** Shards *)

(** A stored bound, which always parses. *)
Definition bound (s : string) : Z := default 0 (parse_big s).

Definition OpenShards (st : streamRecord) : list shard := List.filter (fun sh => negb (Closed sh)) (Shards st).

Fixpoint find_shard (l : list shard) (id : string) : option shard :=
  match l with [] => None | sh :: l' => if String.eqb (sh_ID sh) id then Some sh else find_shard l' id end.

Definition closeShard (next_seq : Z) (sh : shard) : shard :=
  mkShard (sh_ID sh) (StartHash sh) (EndHash sh) (ParentID sh) (AdjacentID sh) (StartSeq sh)
    (if 1 <? next_seq then next_seq - 1 else EndSeq sh) true.

(** Closes the shard an identifier names, which is the first that has it. *)
Fixpoint close_id (next_seq : Z) (id : string) (l : list shard) : list shard :=
  match l with
  | [] => []
  | sh :: l' => if String.eqb (sh_ID sh) id then closeShard next_seq sh :: l' else sh :: close_id next_seq id l'
  end.

Definition openChild (lo hi : Z) (parent adjacent : string) (st : streamRecord) : streamRecord :=
  let sh := mkShard (shardID (NextShardNum st)) (pretty lo) (pretty hi) parent adjacent (NextSeq st) 0 false in
  set_counters (NextShardNum st + 1) (NextSeq st) (set_shards (Shards st ++ [sh]) st).

(** [count] children of even ranges, of which [k] are left to open from [lo]; the last one
    absorbs the remainder. *)
Fixpoint tile (k : nat) (count lo : Z) (parentAt : Z -> string) (st : streamRecord) : streamRecord :=
  match k with
  | O => st
  | Datatypes.S k' =>
      let hi := if Nat.eqb k' 0 then maxHash else lo + (maxHash + 1) / count - 1 in
      tile k' count (hi + 1) parentAt (openChild lo hi (parentAt lo) "" st)
  end.

Definition tileShards (count : Z) (st : streamRecord) : streamRecord :=
  tile (Z.to_nat count) count 0 (fun _ => "") (set_shards [] st).

Definition covers (h : Z) (sh : shard) : bool := (bound (StartHash sh) <=? h) && (h <=? bound (EndHash sh)).

(** ** The database *)

Record KinesisDB `{Bolt} := mkKinesisDB {
  k_streams : option (bucket streamRecord);
  k_records : gmap string (bucket record);
  k_consumers : option (bucket consumer)
}.
#[global] Arguments k_streams {_} _.
#[global] Arguments k_records {_} _.
#[global] Arguments k_consumers {_} _.

Section kinesis.
Context `{B : Bolt} `{GoHash} (ident : Identity).

Definition empty_KinesisDB : KinesisDB := mkKinesisDB _ None ∅ None.

#[local] Abbreviation K := (Tx KinesisDB).

Definition set_streams (b : bucket streamRecord) (db : KinesisDB) : KinesisDB :=
  mkKinesisDB _ (Some b) (k_records db) (k_consumers db).
Definition set_records (m : gmap string (bucket record)) (db : KinesisDB) : KinesisDB :=
  mkKinesisDB _ (k_streams db) m (k_consumers db).
Definition set_consumers (b : bucket consumer) (db : KinesisDB) : KinesisDB :=
  mkKinesisDB _ (k_streams db) (k_records db) (Some b).

Definition find_stream (db : KinesisDB) (name : string) : option streamRecord := k_streams db ≫= bget name.

Definition getStream (name : string) : K streamRecord :=
  db ← tx_read;
  match find_stream db name with Some st => mret st | None => tx_throw errNoStream end.

Definition putStream (st : streamRecord) : K unit :=
  db ← tx_read;
  b ← tx_lift (bput (st_Name st) st (default bempty (k_streams db)));
  tx_modify (set_streams b).

Definition put_record (bucket_name : string) (r : record) : K unit :=
  db ← tx_read;
  b ← tx_lift (bput (be64 (r_Seq r)) r (default bempty (k_records db !! bucket_name)));
  tx_modify (fun db => set_records (<[bucket_name := b]> (k_records db)) db).

(** ** Streams *)

Definition CreateStream (now : Z) (name : string) (shardCount : Z) (mode : string) (db : KinesisDB) :
  result streamRecord * KinesisDB :=
  match validStreamName name with
  | Some e => (Err e, db)
  | None =>
      let mode := if String.eqb mode "" then modeProvisioned else mode in
      if negb (String.eqb mode modeProvisioned) && negb (String.eqb mode modeOnDemand) then
        (Err (errArgument "StreamModeDetails.StreamMode must be %s or %s"), db)
      else if negb (String.eqb mode modeOnDemand) && (shardCount <? 1) then
        (Err (errArgument "ShardCount must be at least 1"), db)
      else
        let shardCount := if String.eqb mode modeOnDemand then 4 else shardCount in
        run_update (
          db ← tx_read;
          match find_stream db name with
          | Some _ => tx_throw (errInUse "stream %s already exists")
          | None =>
              let st := tileShards shardCount
                (mkStreamRecord name (unix_seconds now) defRetentionHours mode [] 0 1 ∅ "" "" [] "") in
              _ ← putStream st; mret st
          end) db
  end.

(** Everything the stream owns goes with it, its consumers included. *)
Definition DeleteStream (name : string) : KinesisDB -> result unit * KinesisDB :=
  run_update (
    st ← getStream name;
    _ ← tx_each (fun sh => tx_modify (fun db => set_records (delete (recBucket name (sh_ID sh)) (k_records db)) db)) (Shards st);
    _ ← tx_modify (fun db =>
          match k_consumers db with
          | Some cb => set_consumers (foldl (fun b k => bdelete k b) cb
              (filter (fun e => c_StreamARN e.2 = streamARN ident name) (bentries cb)).*1) db
          | None => db
          end);
    tx_modify (fun db => match k_streams db with Some b => set_streams (bdelete name b) db | None => db end)).

Definition ListStreams (exclusiveStart : string) (limit : Z) (db : KinesisDB) : list string * bool :=
  let names := sort_strings (List.filter (fun k => String.eqb exclusiveStart "" || bytes_ltb exclusiveStart k)
    match k_streams db with Some b => (bentries b).*1 | None => [] end) in
  if (0 <? limit) && (limit <? Z.of_nat (length names)) then (take (Z.to_nat limit) names, true) else (names, false).

(** Applies a change to a stream in a transaction. *)
Definition UpdateStream (name : string) (fn : streamRecord -> result streamRecord) :
  KinesisDB -> result streamRecord * KinesisDB :=
  run_update (st ← getStream name; st ← tx_lift (fn st); _ ← putStream st; mret st).

Definition GetStream (name : string) : KinesisDB -> result streamRecord := run_view (getStream name).

(** ** Settings *)

Definition hUpdateStreamMode (name mode : string) (db : KinesisDB) : result streamRecord * KinesisDB :=
  if negb (String.eqb mode modeProvisioned) && negb (String.eqb mode modeOnDemand) then
    (Err (errParameter "StreamModeDetails.StreamMode must be %s or %s"), db)
  else UpdateStream name (fun st => Ok (set_config (RetentionHours st) mode (st_Tags st) (EncryptionType st) (st_KeyID st)
         (EnhancedMetrics st) (ResourcePolicy st) st)) db.

Definition setRetention (name : string) (hours : Z) (increase : bool) (db : KinesisDB) :
  result streamRecord * KinesisDB :=
  if (hours <? minRetentionHours) || (maxRetentionHours <? hours) then
    (Err (errArgument "RetentionPeriodHours must be between %d and %d"), db)
  else UpdateStream name (fun st =>
    if increase && (hours <? RetentionHours st) then
      Err (errArgument "requested retention %dh is shorter than the current %dh")
    else if negb increase && (RetentionHours st <? hours) then
      Err (errArgument "requested retention %dh is longer than the current %dh")
    else Ok (set_config hours (st_Mode st) (st_Tags st) (EncryptionType st) (st_KeyID st)
         (EnhancedMetrics st) (ResourcePolicy st) st)) db.

Definition set_tag_map (tags : gmap string string) (st : streamRecord) : streamRecord :=
  set_config (RetentionHours st) (st_Mode st) tags (EncryptionType st) (st_KeyID st) (EnhancedMetrics st) (ResourcePolicy st) st.

Definition addTags (name : string) (tags : gmap string string) : KinesisDB -> result streamRecord * KinesisDB :=
  UpdateStream name (fun st => Ok (set_tag_map (tags ∪ st_Tags st) st)).
Definition removeTags (name : string) (keys : list string) : KinesisDB -> result streamRecord * KinesisDB :=
  UpdateStream name (fun st => Ok (set_tag_map (foldl (fun m k => delete k m) (st_Tags st) keys) st)).

(** The metrics chosen after a request, sorted; ALL stands alone. *)
Definition metrics_after (enable : bool) (req before : list string) : list string :=
  let set := foldl (fun (m : gmap string bool) r => if String.eqb r "ALL" then {["ALL" := enable]} else <[r := enable]> m)
    (list_to_map (map (fun r => (r, true)) before)) req in
  sort_strings (map_to_list (filter (fun e => e.2 = true) set)).*1.

Definition setMonitoring (name : string) (req : list string) (enable : bool) :
  KinesisDB -> result streamRecord * KinesisDB :=
  UpdateStream name (fun st => Ok (set_config (RetentionHours st) (st_Mode st) (st_Tags st) (EncryptionType st) (st_KeyID st)
    (metrics_after enable req (EnhancedMetrics st)) (ResourcePolicy st) st)).

Definition hStopEncryption (name : string) : KinesisDB -> result streamRecord * KinesisDB :=
  UpdateStream name (fun st => Ok (set_config (RetentionHours st) (st_Mode st) (st_Tags st) "NONE" ""
    (EnhancedMetrics st) (ResourcePolicy st) st)).

Definition set_policy (policy : string) (st : streamRecord) : streamRecord :=
  set_config (RetentionHours st) (st_Mode st) (st_Tags st) (EncryptionType st) (st_KeyID st) (EnhancedMetrics st) policy st.

Definition hPutResourcePolicy (name policy : string) (db : KinesisDB) : result streamRecord * KinesisDB :=
  if String.eqb policy "" then (Err (errParameter "Policy is required"), db)
  else UpdateStream name (fun st => Ok (set_policy policy st)) db.
Definition hDeleteResourcePolicy (name : string) : KinesisDB -> result streamRecord * KinesisDB :=
  UpdateStream name (fun st => Ok (set_policy "" st)).

(** ** Routing and appends *)

Definition hashOf (partitionKey : string) : Z := be_value 0 (md5 partitionKey).

Definition shardFor (st : streamRecord) (partitionKey explicitHashKey : string) : result shard :=
  h ← (if String.eqb explicitHashKey "" then Ok (hashOf partitionKey)
       else match parse_big explicitHashKey with
            | Some v =>
                if (v <? 0) || (maxHash <? v) then Err (errArgument "ExplicitHashKey %q is not in [0, 2^128-1]") else Ok v
            | None => Err (errArgument "ExplicitHashKey %q is not in [0, 2^128-1]")
            end);
  match List.find (fun sh => negb (Closed sh) && covers h sh) (Shards st) with
  | Some sh => Ok sh
  | None => Err (errArgument "no open shard covers hash %s")
  end.

Record putEntry := mkPutEntry { e_PartitionKey : string; e_ExplicitHashKey : string; e_Data : string }.
Record putResult := mkPutResult { pr_ShardID : string; pr_Seq : Z }.

(** One entry: the stream's counter advances with each record. *)
Definition put_one (now : Z) (name : string) (e : putEntry) (st : streamRecord) : K (streamRecord * putResult) :=
  if String.eqb (e_PartitionKey e) "" then tx_throw (errArgument "record %d: PartitionKey is required")
  else if 256 <? slen (e_PartitionKey e) then tx_throw (errArgument "record %d: PartitionKey may be at most 256 characters")
  else if maxRecordSize <? slen (e_Data e) then tx_throw (errArgument "record %d: data of %d bytes exceeds the %d byte limit")
  else
    sh ← tx_lift (shardFor st (e_PartitionKey e) (e_ExplicitHashKey e));
    _ ← put_record (recBucket name (sh_ID sh))
          (mkRecord (NextSeq st) (e_PartitionKey e) (e_ExplicitHashKey e) (e_Data e) (wrap64 now));
    mret (set_counters (NextShardNum st) ((NextSeq st + 1) mod 2 ^ 64) st, mkPutResult (sh_ID sh) (NextSeq st)).

Fixpoint put_all (now : Z) (name : string) (entries : list putEntry) (st : streamRecord) :
  K (streamRecord * list putResult) :=
  match entries with
  | [] => mret (st, [])
  | e :: rest =>
      sr ← put_one now name e st;
      srs ← put_all now name rest sr.1;
      mret (srs.1, sr.2 :: srs.2)
  end.

Definition Put (now : Z) (name : string) (entries : list putEntry) (db : KinesisDB) :
  result (list putResult) * KinesisDB :=
  if Nat.eqb (length entries) 0 then (Err (errArgument "at least one record is required"), db)
  else if maxPutRecords <? Z.of_nat (length entries) then
    (Err (errArgument "a PutRecords request supports at most %d records"), db)
  else run_update (
    st ← getStream name;
    srs ← put_all now name entries st;
    _ ← putStream srs.1;
    mret srs.2) db.

(** ** Resharding *)

Definition splitIn (target : string) (newStart : Z) (st : streamRecord) : result streamRecord :=
  match find_shard (Shards st) target with
  | None => Err errNoShard
  | Some sh =>
      if Closed sh then Err (errArgument "shard %s is already closed")
      else
        let lo := bound (StartHash sh) in
        let hi := bound (EndHash sh) in
        if (newStart <=? lo) || (hi <? newStart) then
          Err (errArgument "NewStartingHashKey %s must be within (%s, %s] for shard %s")
        else Ok (openChild newStart hi target "" (openChild lo (newStart - 1) target ""
               (set_shards (close_id (NextSeq st) target (Shards st)) st)))
  end.

Definition SplitShard (name target newStartingHashKey : string) (db : KinesisDB) : result streamRecord * KinesisDB :=
  if String.eqb target "" then (Err (errParameter "ShardToSplit is required"), db)
  else match parse_big newStartingHashKey with
  | None => (Err (errArgument "NewStartingHashKey must be a decimal integer"), db)
  | Some newStart => UpdateStream name (splitIn target newStart) db
  end.

Definition mergeIn (a b : string) (st : streamRecord) : result streamRecord :=
  match find_shard (Shards st) a, find_shard (Shards st) b with
  | None, _ => Err errNoShard
  | _, None => Err errNoShard
  | Some sa, Some sb =>
      if Closed sa || Closed sb then Err (errArgument "both shards must be open to merge")
      else
        let '(lower, upper) := if bound (StartHash sb) <? bound (StartHash sa) then (sb, sa) else (sa, sb) in
        if negb (bound (EndHash lower) + 1 =? bound (StartHash upper)) then Err (errArgument "shards %s and %s are not adjacent")
        else Ok (openChild (bound (StartHash lower)) (bound (EndHash upper)) (sh_ID lower) (sh_ID upper)
               (set_shards (close_id (NextSeq st) (sh_ID upper) (close_id (NextSeq st) (sh_ID lower) (Shards st))) st))
  end.

Definition MergeShards (name a b : string) (db : KinesisDB) : result streamRecord * KinesisDB :=
  if String.eqb a "" || String.eqb b "" then
    (Err (errParameter "both ShardToMerge and AdjacentShardToMerge are required"), db)
  else if String.eqb a b then (Err (errArgument "a shard cannot be merged with itself"), db)
  else UpdateStream name (mergeIn a b) db.

(** The open shard that owns a hash before the change. *)
Definition parentAt (open : list shard) (h : Z) : string :=
  match List.find (covers h) open with Some sh => sh_ID sh | None => "" end.

Definition retile (target : Z) (st : streamRecord) : streamRecord :=
  tile (Z.to_nat target) target 0 (parentAt (OpenShards st))
    (set_shards (map (fun sh => if Closed sh then sh else closeShard (NextSeq st) sh) (Shards st)) st).

Definition rescaleIn (target : Z) (st : streamRecord) : result streamRecord :=
  if String.eqb (st_Mode st) modeOnDemand then
    Err (errParameter "shard count is managed automatically for ON_DEMAND streams")
  else if Z.of_nat (length (OpenShards st)) =? target then Ok st
  else Ok (retile target st).

Definition UpdateShardCount (name : string) (target : Z) (scalingType : string) (db : KinesisDB) :
  result streamRecord * KinesisDB :=
  if target <? 1 then (Err (errArgument "TargetShardCount must be at least 1"), db)
  else if negb (String.eqb scalingType "") && negb (String.eqb scalingType "UNIFORM_SCALING") then
    (Err (errParameter "ScalingType must be UNIFORM_SCALING"), db)
  else UpdateStream name (rescaleIn target) db.

(** ** Retention *)

(** What is left of a bucket past the stream's retention. *)
Definition prune (cutoff : Z) (b : bucket record) : bucket record :=
  foldl (fun b k => bdelete k b) b (filter (fun e => ArrivedNs e.2 < cutoff) (bentries b)).*1.

(** A closed shard whose bucket had nothing when the transaction began is dropped: [None].
    What this sweep deletes is not counted yet. *)
Definition sweep_shard (cutoff : Z) (name : string) (sh : shard) (m : gmap string (bucket record)) :
  option shard * gmap string (bucket record) :=
  let bn := recBucket name (sh_ID sh) in
  match m !! bn with
  | Some b =>
      if Closed sh && (bkeyn b =? 0) then (None, delete bn m) else (Some sh, <[bn := prune cutoff b]> m)
  | None => if Closed sh then (None, m) else (Some sh, m)
  end.

Fixpoint sweep_shards (cutoff : Z) (name : string) (l : list shard) (m : gmap string (bucket record)) :
  list shard * gmap string (bucket record) :=
  match l with
  | [] => ([], m)
  | sh :: l' =>
      let '(keep, m) := sweep_shard cutoff name sh m in
      let '(live, m) := sweep_shards cutoff name l' m in
      (match keep with Some sh => sh :: live | None => live end, m)
  end.

(** The instant before which a stream's records are past its retention. *)
Definition retention_cutoff (now : Z) (st : streamRecord) : Z :=
  wrap64 (now + wrap64 (- RetentionHours st * 3600 * second)).

Definition sweep_stream (now : Z) (db : KinesisDB) (st : streamRecord) : KinesisDB :=
  let '(live, m) := sweep_shards (retention_cutoff now st) (st_Name st) (Shards st) (k_records db) in
  let db := set_records m db in
  if Nat.eqb (length live) (length (Shards st)) then db
  else match putStream (set_shards live st) db with Ok (_, db') => db' | Err _ => db end.

Definition KinesisSweep (now : Z) (db : KinesisDB) : KinesisDB :=
  foldl (sweep_stream now) db (match k_streams db with Some b => (bentries b).*2 | None => [] end).

(** ** Consumers *)

Definition RegisterConsumer (now : Z) (arn name : string) (db : KinesisDB) : result consumer * KinesisDB :=
  if String.eqb name "" then (Err (errArgument "ConsumerName is required"), db)
  else match streamFromARN arn with
  | Err e => (Err e, db)
  | Ok stream =>
      run_update (
        _ ← getStream stream;
        db ← tx_read;
        let b := default bempty (k_consumers db) in
        match bget (consumerKey arn name) b with
        | Some _ => tx_throw (errInUse "consumer %s is already registered on %s")
        | None =>
            let c := mkConsumer name arn (arn +:+ "/consumer/" +:+ name +:+ ":" +:+ pretty (unix_seconds now))
              (unix_seconds now) "ACTIVE" in
            b ← tx_lift (bput (consumerKey arn name) c b);
            _ ← tx_modify (set_consumers b);
            mret c
        end) db
  end.

(** By its own ARN, the last registration that has it; else by stream and name. *)
Definition FindConsumer (arn name consumerARN : string) (db : KinesisDB) : result consumer :=
  match k_consumers db with
  | None => Err errNoConsumer
  | Some b =>
      match (if negb (String.eqb consumerARN "") then last (filter (fun c => c_ARN c = consumerARN) (bentries b).*2)
             else bget (consumerKey arn name) b) with
      | Some c => Ok c
      | None => Err errNoConsumer
      end
  end.

Definition DeleteConsumer (c : consumer) : KinesisDB -> result unit * KinesisDB :=
  run_update (
    db ← tx_read;
    match k_consumers db with
    | None => tx_throw errNoConsumer
    | Some b => tx_modify (set_consumers (bdelete (consumerKey (c_StreamARN c) (c_Name c)) b))
    end).

(** Sorted by name. *)
Definition consumer_le (a b : consumer) : Prop := bytes_le (c_Name a) (c_Name b).

#[global] Instance consumer_le_dec : RelDecision consumer_le.
Proof. intros a b. unfold consumer_le. apply _. Defined.

Definition ListConsumers (arn : string) (db : KinesisDB) : list consumer :=
  match k_consumers db with
  | None => []
  | Some b => merge_sort consumer_le (filter (fun c => c_StreamARN c = arn) (bentries b).*2)
  end.
End kinesis.
