(* ===== verification/Reads.v ===== *)
(** * Reads: iterators and the data plane of streams

    Model of src/kinesis/records.go, iterator.go and of the reads and key checks of
    store.go and actions.go. *)

From stdpp Require Import pretty sorting.
From S2P Require Import Prelude Bytes Ident Clock Digits Wire UrlBase64 Bolt Cursor Tx Kinesis.

Definition maxGetRecords : Z := 10000.
Definition maxGetBytes : Z := 10485760.

(** ** Sequence numbers and iterators *)

Definition formatSeq (seq : Z) : string := pad0 21 (pretty seq).

Definition parseSeq (s : string) : option Z :=
  if String.eqb s "" then None
  else match parse_uint (trim_left zero_char s) with
       | Some n => Some n
       | None => if String.eqb (trim zero_char s) "" then Some 0 else None
       end.

Definition iteratorTTL : Z := 300 * second.

(** A position in a shard: what it reads comes after [cu_After]. *)
Record cursor := mkCursor { cu_Stream : string; cu_Shard : string; cu_After : Z; cu_IssuedNs : Z }.

Definition encodeIterator (c : cursor) : string :=
  raw_url_encode (cu_Stream c +:+ "|" +:+ cu_Shard c +:+ "|" +:+ pretty (cu_After c) +:+ "|" +:+ pretty (cu_IssuedNs c)).

Definition decodeIterator (tok : string) (now : Z) : result cursor :=
  match raw_url_decode tok with
  | None => Err (errArgument "invalid ShardIterator")
  | Some raw =>
      match split_on "|" raw with
      | [stream; shard; after; issued] =>
          match parse_uint after, parse_int issued with
          | Some after, Some issued =>
              if iteratorTTL <? sat64 (now - issued) then Err (Errf 400 "ExpiredIteratorException"
                "Iterator expired. The iterator was created at %s and was expired after %s.")
              else Ok (mkCursor stream shard after issued)
          | _, _ => Err (errArgument "invalid ShardIterator")
          end
      | _ => Err (errArgument "invalid ShardIterator")
      end
  end.

(** ** Reading a shard *)

(** The length of what [json.Marshal] writes for a record; a blob that is empty is nil. *)
Definition record_len (r : record) : Z :=
  slen "{'seq':,'pk':,'data':,'t':}" + slen (pretty (r_Seq r)) + str_len (PartitionKey r) +
  (if String.eqb (ExplicitHashKey r) "" then 0 else slen ",'ehk':" + str_len (ExplicitHashKey r)) +
  (if String.eqb (r_Data r) "" then slen "null" else 2 + slen (base64_encode (r_Data r))) + slen (pretty (ArrivedNs r)).

(** From a cursor on: the records, and the sequence number of the last. *)
Fixpoint fetch_walk (limit : Z) (sh : shard) (entries : list (string * record)) (recs : list record) (bytes next : Z) :
  list record * Z :=
  match entries with
  | [] => (recs, next)
  | (_, r) :: rest =>
      if (limit <=? Z.of_nat (length recs)) || (maxGetBytes <? bytes + record_len r) then (recs, next)
      else if Closed sh && negb (EndSeq sh =? 0) && (EndSeq sh <? r_Seq r) then (recs, next)
      else fetch_walk limit sh rest (recs ++ [r]) (bytes + record_len r) (r_Seq r)
  end.

Definition fetch_limit (limit : Z) : Z := if (limit <=? 0) || (maxGetRecords <? limit) then maxGetRecords else limit.

Section reads.
Context `{B : Bolt} (kms : option (string -> option (bool * string))).

Definition records_of (db : KinesisDB) (stream shard : string) : option (bucket record) :=
  k_records db !! recBucket stream shard.

Definition find_shard_of (name shardId : string) : Tx KinesisDB (streamRecord * shard) :=
  st ← getStream name;
  match find_shard (Shards st) shardId with Some sh => mret (st, sh) | None => tx_throw errNoShard end.

(** The records, where to go on, and how old the last record is. *)
Definition Fetch (now : Z) (name shard : string) (after limit : Z) (db : KinesisDB) : result (list record * Z * Z) :=
  run_view (
    ss ← find_shard_of name shard;
    match records_of db name shard with
    | None => mret ([], after, 0)
    | Some b =>
        let '(recs, next) := fetch_walk (fetch_limit limit) ss.2 (seek (be64 (after + 1)) (bentries b)) [] 0 after in
        mret (recs, next, match last recs with Some r => sat64 (now - ArrivedNs r) | None => 0 end)
    end) db.

(** The sequence number below the first record at or after an instant. *)
Definition SeqAtOrAfter (name shard : string) (ts : Z) (db : KinesisDB) : Z :=
  match records_of db name shard with
  | None => 0
  | Some b =>
      match List.find (fun e => ArrivedNs e.2 <? ts) (reverse (bentries b)) with
      | Some e => be_value 0 e.1
      | None => 0
      end
  end.

Definition LatestSeq (name shard : string) (db : KinesisDB) : Z :=
  match records_of db name shard ≫= (fun b => last (bentries b)) with Some e => be_value 0 e.1 | None => 0 end.

(** One below the oldest record, so that it is still delivered. *)
Definition TrimHorizonSeq (name shard : string) (db : KinesisDB) : Z :=
  match records_of db name shard ≫= (fun b => head (bentries b)) with
  | Some e => if 0 <? be_value 0 e.1 then be_value 0 e.1 - 1 else be_value 0 e.1
  | None => 0
  end.

(** ** The key of an encrypted stream *)

(** [kms] is the key service: [None] when it is not wired, and for a key whether it was
    found and its state, [None] when the service does not answer. *)
Definition requireUsableKey (keyID : string) : option APIError :=
  if String.eqb keyID "" then None
  else match kms with
  | None => None
  | Some describe =>
      match describe keyID with
      | None => None
      | Some (found, state) =>
          if negb found then Some (Errf 400 "KMSNotFoundException" "Invalid KeyId %q: the key was not found in this account.")
          else if String.eqb state "Enabled" then None
          else if String.eqb state "PendingDeletion" || String.eqb state "PendingImport" || String.eqb state "Unavailable" then
            Some (Errf 400 "KMSInvalidStateException" "The state of the KMS key %q is %s, which is not valid for this request.")
          else Some (Errf 400 "KMSDisabledException" "The request was rejected because the specified KMS key %q is not enabled.")
      end
  end.

Definition keyForStream (name : string) (db : KinesisDB) : string :=
  match find_stream db name with
  | Some st => if String.eqb (EncryptionType st) "KMS" then st_KeyID st else ""
  | None => ""
  end.

Definition hStartEncryption (name keyID : string) (db : KinesisDB) : result streamRecord * KinesisDB :=
  if String.eqb keyID "" then (Err (errParameter "KeyId is required"), db)
  else match requireUsableKey keyID with
  | Some e => (Err e, db)
  | None => UpdateStream name (fun st => Ok (set_config (RetentionHours st) (st_Mode st) (st_Tags st) "KMS" keyID
              (EnhancedMetrics st) (ResourcePolicy st) st)) db
  end.

Definition hPutRecords `{GoHash} (now : Z) (name : string) (entries : list putEntry) (db : KinesisDB) :
  result (list putResult) * KinesisDB :=
  match requireUsableKey (keyForStream name db) with
  | Some e => (Err e, db)
  | None => Put now name entries db
  end.

(** ** Requests *)

(** [seqArg] and [ts] are read by the types that use them. *)
Definition hGetShardIterator (now : Z) (name shard typ seqArg : string) (ts : result Z) (db : KinesisDB) : result string :=
  if String.eqb shard "" then Err (errParameter "ShardId is required")
  else match GetStream name db with
  | Err e => Err e
  | Ok st =>
      match find_shard (Shards st) shard with
      | None => Err errNoShard
      | Some sh =>
          after ← (if String.eqb typ "TRIM_HORIZON" then
                     let after := TrimHorizonSeq name shard db in
                     Ok (if (0 <? StartSeq sh) && (after <? StartSeq sh - 1) then StartSeq sh - 1 else after)
                   else if String.eqb typ "LATEST" then Ok (LatestSeq name shard db)
                   else if String.eqb typ "AT_SEQUENCE_NUMBER" || String.eqb typ "AFTER_SEQUENCE_NUMBER" then
                     match parseSeq seqArg with
                     | None => Err (errArgument "StartingSequenceNumber is required for %s")
                     | Some seq => Ok (if String.eqb typ "AT_SEQUENCE_NUMBER" && (0 <? seq) then seq - 1 else seq)
                     end
                   else if String.eqb typ "AT_TIMESTAMP" then ts ← ts; Ok (SeqAtOrAfter name shard ts db)
                   else if String.eqb typ "" then Err (errParameter "ShardIteratorType is required")
                   else Err (errParameter "invalid ShardIteratorType %q"));
          Ok (encodeIterator (mkCursor name shard after (wrap64 now)))
      end
  end.

(** The shards that name [parent] as a parent, with all their parents. *)
Definition childShards (st : streamRecord) (parent : string) : list (shard * list string) :=
  map (fun sh => (sh, if String.eqb (AdjacentID sh) "" then [ParentID sh] else [ParentID sh; AdjacentID sh]))
    (List.filter (fun sh => String.eqb (ParentID sh) parent || String.eqb (AdjacentID sh) parent) (Shards st)).

Record gotRecords := mkGotRecords {
  gr_Records : list record;
  gr_MillisBehindLatest : Z;
  gr_NextShardIterator : option string;        (* null once the shard is drained *)
  gr_ChildShards : list (shard * list string)
}.

Definition drained (sh : shard) (next : Z) : bool := Closed sh && ((EndSeq sh =? 0) || (EndSeq sh <=? next)).

Definition hGetRecords (now : Z) (tok : string) (limit : Z) (db : KinesisDB) : result gotRecords :=
  if String.eqb tok "" then Err (errParameter "ShardIterator is required")
  else
    cur ← decodeIterator tok now;
    match requireUsableKey (keyForStream (cu_Stream cur) db) with
    | Some e => Err e
    | None =>
        '(recs, next, behind) ← Fetch now (cu_Stream cur) (cu_Shard cur) (cu_After cur) limit db;
        ss ← run_view (find_shard_of (cu_Stream cur) (cu_Shard cur)) db;
        if drained ss.2 next then
          Ok (mkGotRecords recs (behind ÷ 1000000) None (childShards ss.1 (sh_ID ss.2)))
        else
          Ok (mkGotRecords recs (behind ÷ 1000000)
            (Some (encodeIterator (mkCursor (cu_Stream cur) (cu_Shard cur) next (wrap64 now)))) [])
    end.

Definition hListShards (name start : string) (db : KinesisDB) : result (list shard) :=
  st ← GetStream name db;
  Ok (List.filter (fun sh => negb (negb (String.eqb start "") && negb (bytes_ltb start (sh_ID sh)))) (Shards st)).

(** The sequence range a shard is shown with; an open shard has no end. *)
Definition shardWire (sh : shard) : string * option string :=
  (formatSeq (StartSeq sh), if Closed sh then Some (formatSeq (Z.max (EndSeq sh) (StartSeq sh))) else None).
End reads.
