(* ===== verification/KinesisSpec.v ===== *)
(** * KinesisSpec: what streams keep true

    The open shards of a stream share out the hash space, a reshard hands every range to
    children that name their parents, and each record is in the shard that owned its hash
    when it came, between the sequence numbers of the shard. *)

From stdpp Require Import pretty sorting.
From S2P Require Import Prelude Bytes Ident Clock Digits Wire Bolt Cursor Tx Kinesis.

(** ** Names *)

Lemma shardID_inj m n : 0 <= m -> 0 <= n -> shardID m = shardID n -> m = n.
Proof. intros Hm Hn E. apply sapp_inj_l in E. by apply pad0_pretty_inj in E. Qed.

Lemma shardID_ne n : shardID n <> "".
Proof. done. Qed.

Lemma bound_pretty n : 0 <= n -> bound (pretty n) = n.
Proof. intros H. unfold bound. by rewrite parse_big_pretty. Qed.

Lemma stream_chars_no c s : stream_char c = false -> stream_chars s = true -> has_char c s = false.
Proof.
  intros Hc. induction s as [|d s IH]; [done|]. cbn [stream_chars has_char]. intros [Hd Hs]%andb_true_iff.
  rewrite IH, orb_false_r by done. destruct (Ascii.eqb_spec d c) as [->|]; congruence.
Qed.

Lemma recBucket_inj n1 s1 n2 s2 :
  stream_chars n1 = true -> stream_chars n2 = true -> recBucket n1 s1 = recBucket n2 s2 -> n1 = n2 /\ s1 = s2.
Proof.
  intros H1 H2 E. unfold recBucket in E. apply sapp_inj_l in E. 
  change (n1 +:+ String ":" s1 = n2 +:+ String ":" s2) in E. apply (f_equal (cut_on ":")) in E.
  rewrite !(cut_on_app ":") in E by (by apply stream_chars_no). by injection E.
Qed.

(** ** The hash space *)

Definition owns (h : Z) (sh : shard) : bool := negb (Closed sh) && covers h sh.
Definition owners (h : Z) (l : list shard) : list shard := List.filter (owns h) l.

(** Every hash has one open shard. *)
Definition tiled (l : list shard) : Prop := forall h, 0 <= h <= maxHash -> exists sh, owners h l = [sh].

Lemma owners_app h l1 l2 : owners h (l1 ++ l2) = owners h l1 ++ owners h l2.
Proof. apply List.filter_app. Qed.

Lemma elem_of_owners h l sh : sh ∈ owners h l <-> sh ∈ l /\ Closed sh = false /\ covers h sh = true.
Proof.
  unfold owners, owns. rewrite elem_of_filter_bool, andb_true_iff, negb_true_iff. done.
Qed.

(** ** Closing shards *)

Definition closings (next_seq : Z) (ids : list string) (l : list shard) : list shard :=
  map (fun sh => if bool_decide (sh_ID sh ∈ ids) then closeShard next_seq sh else sh) l.

Lemma ids_closings n ids l : map sh_ID (closings n ids l) = map sh_ID l.
Proof. unfold closings. rewrite map_map. apply map_ext. intros sh. by case_bool_decide. Qed.

Lemma close_id_closings n id l : NoDup (map sh_ID l) -> close_id n id l = closings n [id] l.
Proof.
  induction l as [|sh l IH]; [done|]. cbn [map close_id closings]. intros [Hn Hd]%NoDup_cons.
  destruct (String.eqb_spec (sh_ID sh) id) as [E|E].
  - rewrite bool_decide_eq_true_2 by (rewrite E; by left). f_equal. subst id. clear IH Hd. unfold closings.
    induction l as [|s l IH]; [done|]. cbn [map] in *. rewrite not_elem_of_cons in Hn. destruct Hn as [Hs Hn].
    rewrite bool_decide_eq_false_2 by (rewrite list_elem_of_singleton; congruence). f_equal. by apply IH.
  - rewrite bool_decide_eq_false_2 by (by rewrite list_elem_of_singleton). f_equal. by apply IH.
Qed.

Lemma owners_closings h n ids l :
  owners h (closings n ids l) = List.filter (fun sh => negb (bool_decide (sh_ID sh ∈ ids))) (owners h l).
Proof.
  induction l as [|sh l IH]; [done|]. unfold owners, closings in *. cbn [map List.filter].
  case_bool_decide as Hi; cbn [owns closeShard Closed negb andb].
  - rewrite IH. destruct (owns h sh); [|done]. cbn [List.filter]. by rewrite bool_decide_eq_true_2.
  - rewrite IH. destruct (owns h sh); [|done]. cbn [List.filter]. by rewrite bool_decide_eq_false_2.
Qed.

(** The owner of a hash once some shards are closed. *)
Lemma owners_closed h n ids l sh :
  owners h l = [sh] -> owners h (closings n ids l) = if bool_decide (sh_ID sh ∈ ids) then [] else [sh].
Proof. intros E. rewrite owners_closings, E. cbn [List.filter]. by case_bool_decide. Qed.

(** ** Streams in shape *)

Record shard_ok (st : streamRecord) (sh : shard) : Prop := {
  so_id : exists n, 0 <= n < NextShardNum st /\ sh_ID sh = shardID n;
  so_range : exists lo hi, StartHash sh = pretty lo /\ EndHash sh = pretty hi /\ 0 <= lo <= hi /\ hi <= maxHash;
  so_parents : forall id, id = ParentID sh \/ id = AdjacentID sh ->
    id = "" \/ exists n, 0 <= n < NextShardNum st /\ id = shardID n;
  so_seq : 1 <= StartSeq sh <= NextSeq st;
  so_end : if Closed sh then StartSeq sh - 1 <= EndSeq sh < NextSeq st else EndSeq sh = 0
}.

Definition names_parent (c p : shard) : Prop := ParentID c = sh_ID p \/ AdjacentID c = sh_ID p.

Record shape (st : streamRecord) : Prop := {
  sp_num : 0 <= NextShardNum st;
  sp_seq : 1 <= NextSeq st < 2 ^ 64;
  sp_shards : forall sh, sh ∈ Shards st -> shard_ok st sh;
  sp_ids : NoDup (map sh_ID (Shards st));
  sp_lineage : forall p c, p ∈ Shards st -> c ∈ Shards st -> names_parent c p ->
    Closed p = true /\ EndSeq p < StartSeq c
}.

Definition stream_ok (st : streamRecord) : Prop := shape st /\ tiled (Shards st).

Lemma id_unique l a b : NoDup (map sh_ID l) -> a ∈ l -> b ∈ l -> sh_ID a = sh_ID b -> a = b.
Proof.
  induction l as [|s l IH]; [by intros _ ?%elem_of_nil|]. cbn [map]. intros [Hn Hd]%NoDup_cons Ha Hb E.
  assert (forall x, x ∈ l -> sh_ID x ∈ map sh_ID l) as Hin by (intros x; apply (list_elem_of_fmap_2 sh_ID)).
  apply elem_of_cons in Ha as [->|Ha], Hb as [->|Hb]; [done|..|by apply IH].
  - destruct Hn. rewrite E. by apply Hin.
  - destruct Hn. rewrite <- E. by apply Hin.
Qed.

Lemma find_shard_elem l id sh : find_shard l id = Some sh -> sh ∈ l /\ sh_ID sh = id.
Proof.
  induction l as [|s l IH]; [done|]. cbn [find_shard]. destruct (String.eqb_spec (sh_ID s) id) as [E|E].
  - intros [= <-]. split; [by left|done].
  - intros [H1 H2]%IH. split; [by right|done].
Qed.

Lemma elem_of_closings n ids l sh' :
  sh' ∈ closings n ids l <-> exists sh, sh ∈ l /\ sh' = if bool_decide (sh_ID sh ∈ ids) then closeShard n sh else sh.
Proof.
  unfold closings. rewrite list_elem_of_In, in_map_iff.
  split; intros (s & H1 & H2); exists s; [rewrite list_elem_of_In|rewrite <- list_elem_of_In]; by split.
Qed.

(** Closing open shards. *)
Lemma close_shape st ids :
  shape st -> (forall sh, sh ∈ Shards st -> sh_ID sh ∈ ids -> Closed sh = false) ->
  shape (set_shards (closings (NextSeq st) ids (Shards st)) st).
Proof.
  intros [S1 S2 S3 S4 S5] Hopen.
  assert (forall n, (if 1 <? n then n - 1 else 0) = Z.max 0 (n - 1)) as Hmax.
  { intros n. destruct (Z.ltb_spec 1 n); lia. }
  split; cbn [Shards set_shards NextSeq NextShardNum]; [done|done| |by rewrite ids_closings|].
  - intros sh' (sh & Hsh & ->)%elem_of_closings. destruct (S3 sh Hsh) as [I1 I2 I3 I4 I5].
    case_bool_decide as Hi; [|by split]. rewrite (Hopen sh Hsh Hi) in I5.
    split; cbn [closeShard sh_ID StartHash EndHash ParentID AdjacentID StartSeq EndSeq Closed]; [done..|].
    rewrite I5, Hmax. cbn [set_shards NextSeq]. lia.
  - intros p' c' (p & Hp & ->)%elem_of_closings (c & Hc & ->)%elem_of_closings Hn.
    assert (names_parent c p) as Hn'.
    { revert Hn. unfold names_parent. repeat case_bool_decide; done. }
    destruct (S5 p c Hp Hc Hn') as [Hcl Hlt]. rewrite bool_decide_eq_false_2.
    + split; [done|]. by case_bool_decide.
    + intros Hi. rewrite (Hopen p Hp Hi) in Hcl. done.
Qed.

(** A parent of a new shard, if any, is closed and ends below it. *)
Definition parent_ok (st : streamRecord) (id : string) : Prop :=
  id = "" \/ exists p, p ∈ Shards st /\ sh_ID p = id.

Lemma open_shape lo hi parent adjacent st :
  shape st -> 0 <= lo <= hi -> hi <= maxHash -> parent_ok st parent -> parent_ok st adjacent ->
  (forall p, p ∈ Shards st -> sh_ID p = parent \/ sh_ID p = adjacent -> Closed p = true) ->
  shape (openChild lo hi parent adjacent st).
Proof.
  intros [S1 S2 S3 S4 S5] Hlo Hhi Hp Ha Hcl.
  assert (forall id, parent_ok st id -> id = "" \/ exists n, 0 <= n < NextShardNum st /\ id = shardID n) as Hid.
  { intros id [->|(p & Hin & <-)]; [by left|]. right. destruct (so_id _ _ (S3 p Hin)) as (n & Hn & E). by exists n. }
  assert (forall p, p ∈ Shards st -> sh_ID p <> shardID (NextShardNum st)) as Hfresh.
  { intros p Hin E. destruct (so_id _ _ (S3 p Hin)) as (n & Hn & E'). rewrite E' in E. apply shardID_inj in E; lia. }
  split; cbn [openChild set_counters set_shards Shards NextSeq NextShardNum]; [lia|done|..].
  - intros sh [Hin| ->%list_elem_of_singleton]%elem_of_app.
    + destruct (S3 sh Hin) as [(n & Hn & E) I2 I3 I4 I5]. split; [|done|..].
      * exists n. simpl. split; [lia|done].
      * intros id Hi. destruct (I3 id Hi) as [->|(m & Hm & ->)]; [by left|]. right. exists m. simpl. split; [lia|done].
      * done.
      * done.
    + split; [..|simpl; lia|done].
      * exists (NextShardNum st). simpl. split; [lia|done].
      * exists lo, hi. done.
      * intros id Hi. assert (parent_ok st id) as Hok by (destruct Hi as [->| ->]; done).
        destruct (Hid id Hok) as [->|(m & Hm & ->)]; [by left|]. right. exists m. simpl. split; [lia|done].
  - rewrite map_app. apply NoDup_app. split; [done|]. split; [|apply NoDup_singleton].
    intros x Hx ->%list_elem_of_singleton. apply (list_elem_of_fmap sh_ID) in Hx as (p & E & Hin). by apply (Hfresh p Hin).
  - intros p c [Hpin| ->%list_elem_of_singleton]%elem_of_app [Hcin| ->%list_elem_of_singleton]%elem_of_app.
    + by apply S5.
    + intros Hn. destruct (S3 p Hpin) as [_ _ _ _ I5]. rewrite (Hcl p Hpin) in * by (destruct Hn; auto).
      split; [done|]. simpl. lia.
    + intros Hn. exfalso. destruct (S3 c Hcin) as [_ _ I3 _ _].
      destruct (I3 (shardID (NextShardNum st))) as [E|(n & Hn' & E)]; [by destruct Hn; auto|done|]. apply shardID_inj in E; lia.
    + intros Hn. exfalso.
      assert (forall id, parent_ok st id -> id <> shardID (NextShardNum st)) as Hne.
      { intros id Hok E. destruct (Hid id Hok) as [->|(n & Hn' & ->)]; [done|]. apply shardID_inj in E; lia. }
      destruct Hn as [E|E]; simpl in E; [by apply (Hne _ Hp)|by apply (Hne _ Ha)].
Qed.

(** ** Opening shards *)

Definition child (st : streamRecord) (lo hi : Z) (parent adjacent : string) : shard :=
  mkShard (shardID (NextShardNum st)) (pretty lo) (pretty hi) parent adjacent (NextSeq st) 0 false.

Lemma covers_range sh lo hi h :
  StartHash sh = pretty lo -> EndHash sh = pretty hi -> 0 <= lo <= hi -> covers h sh = true <-> lo <= h <= hi.
Proof. intros E1 E2 Hr. unfold covers. rewrite E1, E2, !bound_pretty by lia. zbool. lia. Qed.

Lemma owners_open h lo hi parent adjacent st :
  0 <= lo <= hi ->
  owners h (Shards (openChild lo hi parent adjacent st)) =
    owners h (Shards st) ++ (if decide (lo <= h <= hi) then [child st lo hi parent adjacent] else []).
Proof.
  intros Hr. unfold openChild. cbn [set_counters set_shards Shards]. rewrite owners_app. f_equal.
  unfold owners. cbn [List.filter owns]. unfold owns. cbn [Closed negb andb].
  pose proof (covers_range (child st lo hi parent adjacent) lo hi h eq_refl eq_refl Hr) as Hc.
  unfold child in Hc. unfold covers in *. destruct (_ && _), (decide _); naive_solver.
Qed.

(** Even ranges cover what is left of the hash space, and only that. *)
Lemma tile_spec k count lo pa st :
  0 < count -> 0 <= lo -> (0 < k)%nat -> lo + Z.of_nat k * ((maxHash + 1) / count) <= maxHash + 1 ->
  0 < (maxHash + 1) / count -> shape st ->
  (forall h, pa h = "" \/ exists p, p ∈ Shards st /\ sh_ID p = pa h /\ Closed p = true) ->
  let st' := tile k count lo pa st in
  shape st' /\ NextSeq st' = NextSeq st /\ st_Name st' = st_Name st /\
  (exists new, Shards st' = Shards st ++ new) /\
  forall h, exists new, owners h (Shards st') = owners h (Shards st) ++ new /\
    (if decide (lo <= h <= maxHash) then exists sh, new = [sh] else new = []).
Proof.
  intros Hc. revert lo st. induction k as [|k IH]; [lia|]. intros lo st Hlo _ Hfit Hspan S Hpa. cbn [tile].
  set (span := (maxHash + 1) / count) in *. set (hi := if Nat.eqb k 0 then maxHash else lo + span - 1).
  assert (lo <= hi <= maxHash /\ (k <> 0%nat -> hi = lo + span - 1)) as [Hhi Hhi'].
  { unfold hi. destruct (Nat.eqb_spec k 0); split; [|done|nia|done]. nia. }
  assert (shape (openChild lo hi (pa lo) "" st)) as S1.
  { assert (forall p, p ∈ Shards st -> sh_ID p <> "") as Hne.
    { intros p Hp E. destruct (so_id _ _ (sp_shards _ S p Hp)) as (n & _ & E'). rewrite E' in E. by apply (shardID_ne n). }
    apply open_shape; [done|lia|lia| |by left|].
    - destruct (Hpa lo) as [E|(p & Hp & E & _)]; [by left|right; by exists p].
    - intros p Hp [E|E]; [|by destruct (Hne p Hp)].
      destruct (Hpa lo) as [E'|(p' & Hp' & E' & Hcl)]; [rewrite E' in E; by destruct (Hne p Hp)|].
      rewrite (id_unique (Shards st) p p'); [done|apply (sp_ids _ S)|done..|congruence]. }
  destruct (Nat.eqb_spec k 0) as [->|Hk].
  - cbn [tile]. split; [done|]. split; [done|]. split; [done|]. split; [by eexists|]. intros h. rewrite owners_open by lia.
    eexists. split; [done|]. change hi with maxHash. case_decide; [by eexists|done].
  - specialize (Hhi' Hk). destruct (IH (hi + 1) (openChild lo hi (pa lo) "" st)) as (S2 & Q & N & (new & A) & O);
      [lia|lia|rewrite Hhi'; lia|done|done|..].
    { intros h. destruct (Hpa h) as [E|(p & Hp & E & Hcl)]; [by left|]. right. exists p. split; [|done].
      cbn. apply elem_of_app. by left. }
    split; [done|]. split; [done|]. split; [done|]. split.
    { rewrite A. eexists. cbn. by rewrite <- app_assoc. }
    intros h. destruct (O h) as (new2 & E & Hnew). rewrite E, owners_open, <- app_assoc by lia. eexists. split; [done|].
    destruct (decide (hi + 1 <= h <= maxHash)); [destruct Hnew as [sh ->]|subst new2];
      destruct (decide (lo <= h <= hi)), (decide (lo <= h <= maxHash)); try lia; simpl; eauto.
Qed.

Definition closed_parent (st : streamRecord) (id : string) : Prop :=
  id = "" \/ exists p, p ∈ Shards st /\ sh_ID p = id /\ Closed p = true.

Lemma open_closed_shape lo hi a b st :
  shape st -> 0 <= lo <= hi -> hi <= maxHash -> closed_parent st a -> closed_parent st b ->
  shape (openChild lo hi a b st).
Proof.
  intros S Hlo Hhi Ha Hb.
  assert (forall id p, closed_parent st id -> p ∈ Shards st -> sh_ID p = id -> Closed p = true) as Hcl.
  { intros id p [->|(p' & Hp' & E' & Hcl)] Hp E.
    - destruct (so_id _ _ (sp_shards _ S p Hp)) as (n & _ & E'). rewrite E' in E. by destruct (shardID_ne n).
    - rewrite (id_unique (Shards st) p p'); [done|apply (sp_ids _ S)|done..|congruence]. }
  assert (forall id, closed_parent st id -> parent_ok st id) as Hok.
  { intros id [->|(p & Hp & E & _)]; [by left|right; by exists p]. }
  apply open_shape; auto. intros p Hp [E|E]; [by apply (Hcl a)|by apply (Hcl b)].
Qed.

Lemma closed_parent_grows st lo hi a b id : closed_parent st id -> closed_parent (openChild lo hi a b st) id.
Proof.
  intros [->|(p & Hp & H)]; [by left|]. right. exists p. split; [|done]. cbn. apply elem_of_app. by left.
Qed.

Lemma closed_parent_closings st ids sh :
  sh ∈ Shards st -> sh_ID sh ∈ ids -> closed_parent (set_shards (closings (NextSeq st) ids (Shards st)) st) (sh_ID sh).
Proof.
  intros Hsh Hi. right. exists (closeShard (NextSeq st) sh). split; [|done]. apply elem_of_closings. exists sh.
  by rewrite bool_decide_eq_true_2.
Qed.

(** ** What a reshard does *)

(** Every shard is still there, closed at most, and the counter stands. *)
Definition reshards (st st' : streamRecord) : Prop :=
  st_Name st' = st_Name st /\ NextSeq st' = NextSeq st /\
  forall sh, sh ∈ Shards st -> exists sh', sh' ∈ Shards st' /\
    (sh' = sh \/ (Closed sh = false /\ sh' = closeShard (NextSeq st) sh)).

(** A hash stays with its shard, or goes to a child of it. *)
Definition hands_over (st st' : streamRecord) : Prop :=
  forall h p c, owners h (Shards st) = [p] -> owners h (Shards st') = [c] -> c = p \/ names_parent c p.

Lemma reshards_closings st ids l :
  (forall sh, sh ∈ Shards st -> sh_ID sh ∈ ids -> Closed sh = false) ->
  (forall sh, sh ∈ closings (NextSeq st) ids (Shards st) -> sh ∈ l) ->
  forall st', Shards st' = l -> st_Name st' = st_Name st -> NextSeq st' = NextSeq st -> reshards st st'.
Proof.
  intros Hopen Hin st' El En Eq. split; [done|]. split; [done|]. intros sh Hsh. rewrite El.
  exists (if bool_decide (sh_ID sh ∈ ids) then closeShard (NextSeq st) sh else sh). split.
  - apply Hin, elem_of_closings. by exists sh.
  - case_bool_decide as Hi; [right|by left]. by split; [apply Hopen|].
Qed.

Lemma shard_bounds st sh : shape st -> sh ∈ Shards st ->
  0 <= bound (StartHash sh) <= bound (EndHash sh) /\ bound (EndHash sh) <= maxHash /\
  forall h, covers h sh = true <-> bound (StartHash sh) <= h <= bound (EndHash sh).
Proof.
  intros S Hsh. destruct (so_range _ _ (sp_shards _ S sh Hsh)) as (lo & hi & E1 & E2 & Hr & Hhi).
  rewrite E1, E2, !bound_pretty by lia. split; [lia|]. split; [lia|]. intros h. by apply covers_range.
Qed.

(** The owner of a hash is the open shard that covers it. *)
Lemma owner_is st h sh : stream_ok st -> sh ∈ Shards st -> Closed sh = false -> covers h sh = true ->
  owners h (Shards st) = [sh].
Proof.
  intros [S T] Hsh Hc Hcov. destruct (T h) as [sh' E].
  { destruct (shard_bounds st sh S Hsh) as (Hr & Hm & Hi). apply Hi in Hcov. lia. }
  assert (sh ∈ owners h (Shards st)) as Hin by (by apply elem_of_owners). rewrite E in Hin.
  apply list_elem_of_singleton in Hin as ->. done.
Qed.

Lemma split_ok target newStart st st' :
  stream_ok st -> splitIn target newStart st = Ok st' -> stream_ok st' /\ reshards st st' /\ hands_over st st'.
Proof.
  intros [S T]. unfold splitIn. destruct (find_shard (Shards st) target) as [sh|] eqn:Ef; [|done].
  apply find_shard_elem in Ef as [Hsh Eid]. destruct (Closed sh) eqn:Ecl; [done|].
  destruct (shard_bounds st sh S Hsh) as (Hr & Hm & Hcov).
  destruct (_ || _) eqn:Eg; [done|]. apply orb_false_iff in Eg as [G1%Z.leb_gt G2%Z.ltb_ge].
  rewrite close_id_closings by apply (sp_ids _ S). set (st1 := set_shards _ st). intros [= <-].
  assert (forall s, s ∈ Shards st -> sh_ID s ∈ [target] -> s = sh) as Honly.
  { intros s Hs Hi%list_elem_of_singleton. apply (id_unique (Shards st)); [apply (sp_ids _ S)|done|done|congruence]. }
  assert (shape st1) as S1 by (apply close_shape; [done|]; intros s Hs Hi; by rewrite (Honly s Hs Hi)).
  assert (closed_parent st1 target) as Hp by (rewrite <- Eid; apply closed_parent_closings; [done|rewrite Eid; by left]).
  set (lo := bound (StartHash sh)) in *. set (hi := bound (EndHash sh)) in *.
  set (st2 := openChild lo (newStart - 1) target "" st1).
  assert (shape st2) as S2 by (apply open_closed_shape; [done|lia|lia|done|by left]).
  assert (shape (openChild newStart hi target "" st2)) as S3.
  { apply open_closed_shape; [done|lia|lia|by apply closed_parent_grows|by left]. }
  assert (forall h p, owners h (Shards st) = [p] ->
    exists c, owners h (Shards (openChild newStart hi target "" st2)) = [c] /\ (c = p \/ names_parent c p)) as Hall.
  { intros h p Ep. rewrite owners_open by lia. unfold st2. rewrite owners_open by lia. cbn [set_shards st1 Shards].
    rewrite (owners_closed _ _ _ _ p Ep). assert (p ∈ owners h (Shards st)) as Hin by (rewrite Ep; by left).
    apply elem_of_owners in Hin as (Hp' & Hpc & Hph). case_bool_decide as Hi.
    - rewrite (Honly p Hp' Hi) in *. apply Hcov in Hph.
      destruct (decide (lo <= h <= newStart - 1)), (decide (newStart <= h <= hi)); try lia;
        (eexists; split; [done|]; right; by left).
    - assert (~ (lo <= h <= hi)) as Hno.
      { intros Hh. apply Hcov in Hh. assert (owners h (Shards st) = [sh]) as E by (by apply owner_is).
        rewrite E in Ep. injection Ep as <-. apply Hi. rewrite Eid. by left. }
      destruct (decide (lo <= h <= newStart - 1)), (decide (newStart <= h <= hi)); try lia. exists p. split; [done|by left]. }
  split; [split; [done|]|split].
  - intros h Hh. destruct (T h Hh) as [p Ep]. destruct (Hall h p Ep) as (c & Ec & _). by exists c.
  - eapply (reshards_closings st [target]); [intros s Hs Hi; by rewrite (Honly s Hs Hi)| |done..].
    intros s Hs. cbn. rewrite !elem_of_app. by left; left.
  - intros h p c Ep Ec. destruct (Hall h p Ep) as (c' & Ec' & H). rewrite Ec in Ec'. by injection Ec' as ->.
Qed.

Lemma closings_pair n a b l : closings n [b] (closings n [a] l) = closings n [a; b] l.
Proof.
  unfold closings. rewrite map_map. apply map_ext. intros sh.
  assert (sh_ID (if bool_decide (sh_ID sh ∈ [a]) then closeShard n sh else sh) = sh_ID sh) as E by (by case_bool_decide).
  rewrite E. repeat case_bool_decide; try done; try (exfalso; set_solver).
  unfold closeShard. simpl. by destruct (1 <? n).
Qed.

(** Two adjacent open shards, merged. *)
Lemma join_ok st sa sb :
  stream_ok st -> sa ∈ Shards st -> sb ∈ Shards st -> Closed sa = false -> Closed sb = false ->
  bound (EndHash sa) + 1 = bound (StartHash sb) ->
  let st' := openChild (bound (StartHash sa)) (bound (EndHash sb)) (sh_ID sa) (sh_ID sb)
    (set_shards (closings (NextSeq st) [sh_ID sa; sh_ID sb] (Shards st)) st) in
  stream_ok st' /\ reshards st st' /\ hands_over st st'.
Proof.
  intros [S T] Ha Hb Ca Cb Hadj. set (st1 := set_shards _ st).
  destruct (shard_bounds st sa S Ha) as (Ra & Ma & Va), (shard_bounds st sb S Hb) as (Rb & Mb & Vb).
  assert (forall s, s ∈ Shards st -> sh_ID s ∈ [sh_ID sa; sh_ID sb] -> s = sa \/ s = sb) as Honly.
  { intros s Hs [E|[E|?%elem_of_nil]%elem_of_cons]%elem_of_cons; [left|right|done];
      by apply (id_unique (Shards st)); [apply (sp_ids _ S)|..]. }
  assert (shape st1) as S1.
  { apply close_shape; [done|]. intros s Hs Hi. by destruct (Honly s Hs Hi) as [->| ->]. }
  assert (closed_parent st1 (sh_ID sa)) as Pa by (apply closed_parent_closings; [done|by left]).
  assert (closed_parent st1 (sh_ID sb)) as Pb by (apply closed_parent_closings; [done|by right; left]).
  intros st'. assert (shape st') as S' by (apply open_closed_shape; [done|lia|lia|done..]).
  assert (forall h p, owners h (Shards st) = [p] ->
    exists c, owners h (Shards st') = [c] /\ (c = p \/ names_parent c p)) as Hall.
  { intros h p Ep. unfold st'. rewrite owners_open by lia. cbn [set_shards st1 Shards]. rewrite (owners_closed _ _ _ _ p Ep).
    assert (p ∈ owners h (Shards st)) as Hin by (rewrite Ep; by left). apply elem_of_owners in Hin as (Hp & Hpc & Hph).
    case_bool_decide as Hi.
    - assert (bound (StartHash sa) <= h <= bound (EndHash sb)) as Hh.
      { destruct (Honly p Hp Hi) as [->| ->]; [apply Va in Hph|apply Vb in Hph]; lia. }
      rewrite decide_True by done. eexists. split; [done|]. right.
      destruct (Honly p Hp Hi) as [->| ->]; [by left|by right].
    - exists p. split; [|by left]. rewrite decide_False; [done|]. intros Hh. apply Hi.
      destruct (decide (h <= bound (EndHash sa))) as [Hl|Hl].
      + rewrite (owner_is st h sa) in Ep; [injection Ep as <-; by left|done|done|done|apply Va; lia].
      + rewrite (owner_is st h sb) in Ep; [injection Ep as <-; by right; left|done|done|done|apply Vb; lia]. }
  split; [split; [done|]|split].
  - intros h Hh. destruct (T h Hh) as [p Ep]. destruct (Hall h p Ep) as (c & Ec & _). by exists c.
  - eapply (reshards_closings st [sh_ID sa; sh_ID sb]); [|intros s Hs; apply elem_of_app; by left|done..].
    intros s Hs Hi. by destruct (Honly s Hs Hi) as [->| ->].
  - intros h p c Ep Ec. destruct (Hall h p Ep) as (c' & Ec' & H). rewrite Ec in Ec'. by injection Ec' as ->.
Qed.

Lemma merge_ok a b st st' :
  stream_ok st -> mergeIn a b st = Ok st' -> stream_ok st' /\ reshards st st' /\ hands_over st st'.
Proof.
  intros O. pose proof O as [S _]. unfold mergeIn.
  destruct (find_shard (Shards st) a) as [sa|] eqn:Ea; [|done]. destruct (find_shard (Shards st) b) as [sb|] eqn:Eb; [|done].
  apply find_shard_elem in Ea as [Ha _], Eb as [Hb _].
  destruct (_ || _) eqn:Ec; [done|]. apply orb_false_iff in Ec as [Ca Cb].
  assert (forall lower upper, lower ∈ Shards st -> upper ∈ Shards st -> Closed lower = false -> Closed upper = false ->
    (if negb (bound (EndHash lower) + 1 =? bound (StartHash upper)) then Err (errArgument "shards %s and %s are not adjacent")
     else Ok (openChild (bound (StartHash lower)) (bound (EndHash upper)) (sh_ID lower) (sh_ID upper)
       (set_shards (close_id (NextSeq st) (sh_ID upper) (close_id (NextSeq st) (sh_ID lower) (Shards st))) st))) = Ok st' ->
    stream_ok st' /\ reshards st st' /\ hands_over st st') as Hjoin.
  { intros lower upper Hl Hu Cl Cu. destruct (Z.eqb_spec (bound (EndHash lower) + 1) (bound (StartHash upper))) as [Hadj|]; [|done].
    cbn [negb]. rewrite !close_id_closings, closings_pair; [|apply (sp_ids _ S)|rewrite close_id_closings, ids_closings; apply (sp_ids _ S)].
    intros [= <-]. by apply join_ok. }
  destruct (_ <? _); by apply Hjoin.
Qed.

(** ** Rescaling *)

Lemma rescale_ok target st st' :
  1 <= target < 2 ^ 63 -> stream_ok st -> rescaleIn target st = Ok st' -> stream_ok st' /\ reshards st st'.
Proof.
  intros Ht [S T]. unfold rescaleIn. destruct (String.eqb _ _); [done|].
  destruct (_ =? _). { intros [= <-]. split; [done|]. split; [done|]. split; [done|]. intros sh Hsh. exists sh. by split; [|left]. }
  unfold retile. set (ids := map sh_ID (OpenShards st)).
  assert (forall sh, sh ∈ OpenShards st <-> sh ∈ Shards st /\ Closed sh = false) as Hopen.
  { intros sh. unfold OpenShards. by rewrite elem_of_filter_bool, negb_true_iff. }
  assert (forall sh, sh ∈ Shards st -> sh_ID sh ∈ ids -> Closed sh = false) as Hids.
  { intros sh Hsh (s & E & Hs)%(list_elem_of_fmap sh_ID). apply Hopen in Hs as [Hs Hc].
    by rewrite (id_unique (Shards st) sh s (sp_ids _ S) Hsh Hs E). }
  assert (map (fun sh => if Closed sh then sh else closeShard (NextSeq st) sh) (Shards st) =
    closings (NextSeq st) ids (Shards st)) as ->.
  { apply map_ext_in. intros sh Hsh%list_elem_of_In. case_bool_decide as Hi; [by rewrite Hids|].
    destruct (Closed sh) eqn:E; [done|]. destruct Hi. by apply (list_elem_of_fmap_2 sh_ID), Hopen. }
  set (st1 := set_shards _ st). intros [= <-].
  destruct (tile_spec (Z.to_nat target) target 0 (parentAt (OpenShards st)) st1) as (S' & Q & N & (new & A) & O).
  - lia.
  - lia.
  - lia.
  - rewrite Z2Nat.id by lia. pose proof (Z.mul_div_le (maxHash + 1) target). lia.
  - apply Z.div_str_pos. unfold maxHash. lia.
  - by apply close_shape.
  - intros h. unfold parentAt. destruct (List.find _ _) as [sh|] eqn:Ef; [|by left]. right.
    apply find_some in Ef as [Hin%list_elem_of_In%Hopen _]. destruct Hin as [Hs Hc].
    destruct (closed_parent_closings st ids sh) as [E|(p & Hp & E & Hcl)]; [done| |by destruct (so_id _ _ (sp_shards _ S sh Hs)) as (n & _ & E'); rewrite E' in E; destruct (shardID_ne n)|by exists p].
    by apply (list_elem_of_fmap_2 sh_ID), Hopen.
  - set (st2 := tile _ _ _ _ st1) in *. split; [split; [done|]|].
    + intros h Hh. destruct (O h) as (ne & E & Hne). rewrite decide_True in Hne by done. destruct Hne as [sh ->].
      exists sh. rewrite E. destruct (T h Hh) as [p Ep]. cbn [st1 set_shards Shards].
      rewrite (owners_closed _ _ _ _ p Ep). rewrite bool_decide_eq_true_2; [done|].
      assert (p ∈ owners h (Shards st)) as Hin by (rewrite Ep; by left). apply elem_of_owners in Hin as (Hp & Hpc & _).
      by apply (list_elem_of_fmap_2 sh_ID), Hopen.
    + apply (reshards_closings st ids (Shards st2)); [done| |done|exact N|exact Q].
      intros s Hs. rewrite A. apply elem_of_app. by left.
Qed.
