(* ===== verification/KinesisRun.v ===== *)
(** * KinesisRun: what every operation on streams keeps

    The operations of the store as steps of one machine, and the invariant that ties the
    stored records to the shards of their streams. *)

From stdpp Require Import pretty sorting.
From S2P Require Import Prelude Bytes Ident Clock Digits Wire UrlBase64 Bolt Cursor Tx Kinesis Reads KinesisSpec.

(** The hash that routes a record. *)
Definition record_hash `{GoHash} (r : record) : option Z :=
  if String.eqb (ExplicitHashKey r) "" then Some (hashOf (PartitionKey r)) else parse_big (ExplicitHashKey r).

Record record_ok `{GoHash} (st : streamRecord) (sh : shard) (k : string) (r : record) : Prop := {
  ro_key : k = be64 (r_Seq r);
  ro_seq : StartSeq sh <= r_Seq r < NextSeq st;
  ro_end : Closed sh = true -> r_Seq r <= EndSeq sh;
  ro_hash : exists h, record_hash r = Some h /\ covers h sh = true;
  ro_size : slen (PartitionKey r) <= 256 /\ slen (r_Data r) <= maxRecordSize /\ - 2 ^ 63 <= ArrivedNs r < 2 ^ 63
}.

(** Streams by name and records by bucket and key. *)
Record store_ok `{GoHash} (F : string -> option streamRecord) (R : string -> string -> option record) : Prop := {
  ok_streams : forall name st, F name = Some st -> st_Name st = name /\ stream_chars name = true /\ stream_ok st;
  ok_records : forall bn k r, R bn k = Some r -> exists name st sh,
    F name = Some st /\ sh ∈ Shards st /\ bn = recBucket name (sh_ID sh) /\ record_ok st sh k r
}.

Definition stored `{Bolt} (m : gmap string (bucket record)) (bn k : string) : option record := m !! bn ≫= bget k.

Definition db_ok `{Bolt} `{GoHash} (db : KinesisDB) : Prop := store_ok (find_stream db) (stored (k_records db)).

(** The streams once one is replaced. *)
Definition replaced (st : streamRecord) (F : string -> option streamRecord) (name : string) : option streamRecord :=
  if decide (name = st_Name st) then Some st else F name.

Section invariant.
Context `{B : Bolt} {BL : BoltLaws B} `{GoHash}.
#[local] Set Default Proof Using "BL".

Lemma store_ok_ext F F' R R' :
  (forall n, F n = F' n) -> (forall bn k, R bn k = R' bn k) -> store_ok F R -> store_ok F' R'.
Proof using.
  intros EF ER [H1 H2]. split.
  - intros name st. rewrite <- EF. apply H1.
  - intros bn k r. rewrite <- ER. intros (name & st & sh & Hf & Hr)%H2. exists name, st, sh. by rewrite <- EF.
Qed.

(** Fewer records of the same streams. *)
Lemma store_ok_fewer F R R' : (forall bn k r, R' bn k = Some r -> R bn k = Some r) -> store_ok F R -> store_ok F R'.
Proof using. intros ER [H1 H2]. split; [done|]. intros bn k r Hr. by apply H2, ER. Qed.

Lemma putStream_spec st db u db' :
  putStream st db = Ok (u, db') ->
  (forall n, find_stream db' n = replaced st (find_stream db) n) /\ k_records db' = k_records db /\
  k_consumers db' = k_consumers db.
Proof.
  unfold putStream. run_tx. destruct (bput _ _ _) as [b|] eqn:E; [|done]. intros [= <- <-].
  split; [|done]. intros n. unfold find_stream, replaced, set_streams. cbn [k_streams]. cbn [mbind option_bind].
  rewrite (bget_bput _ _ _ _ _ n E). case_decide; [done|]. destruct (k_streams db); simpl; [done|apply bget_bempty].
Qed.

(** A record stays a record of its shard when the shard is closed at most. *)
Lemma record_ok_reshards st st' sh sh' k r :
  shape st -> sh ∈ Shards st -> NextSeq st' = NextSeq st -> sh' = sh \/ (Closed sh = false /\ sh' = closeShard (NextSeq st) sh) ->
  record_ok st sh k r -> record_ok st' sh' k r.
Proof using.
  intros S Hsh EN Hc [R1 R2 R3 R4 R5]. destruct (so_seq _ _ (sp_shards _ S sh Hsh)) as [Hs _].
  destruct Hc as [->|[_ ->]]; split; try done; rewrite ?EN; [done|done|..]; cbn [closeShard StartSeq EndSeq].
  intros _. destruct (Z.ltb_spec 1 (NextSeq st)); lia.
Qed.

Lemma replace_ok F R st st' :
  store_ok F R -> F (st_Name st) = Some st -> stream_ok st' -> reshards st st' -> store_ok (replaced st' F) R.
Proof using.
  intros [H1 H2] Hst Hok (EN & EQ & Hre). destruct (H1 _ _ Hst) as (_ & Hch & S & _). split.
  - intros name s. unfold replaced. case_decide as E; [intros [= <-]; subst name; by rewrite EN|apply H1].
  - intros bn k r Hr. destruct (H2 bn k r Hr) as (name & s & sh & Hs & Hin & -> & Hrec).
    destruct (decide (name = st_Name st')) as [->|Hne].
    + rewrite EN, Hst in Hs. injection Hs as <-. destruct (Hre sh Hin) as (sh' & Hin' & Hc).
      exists (st_Name st'), st', sh'. unfold replaced. rewrite decide_True by done. split; [done|]. split; [done|]. split.
      * destruct Hc as [->|[_ ->]]; done.
      * by eapply record_ok_reshards.
    + exists name, s, sh. unfold replaced. by rewrite decide_False.
Qed.

(** A change of a stream that a transaction applies. *)
Definition keeps_stream (fn : streamRecord -> result streamRecord) : Prop :=
  forall st st', stream_ok st -> fn st = Ok st' -> stream_ok st' /\ reshards st st'.

Lemma UpdateStream_spec name fn db r db' :
  UpdateStream name fn db = (r, db') ->
  (exists e, r = Err e /\ db' = db) \/
  exists st st', find_stream db name = Some st /\ fn st = Ok st' /\ r = Ok st' /\
    (forall n, find_stream db' n = replaced st' (find_stream db) n) /\ k_records db' = k_records db.
Proof.
  unfold UpdateStream, run_update, getStream. run_tx. destruct (find_stream db name) as [st|]; [|intros [= <- <-]; left; by eexists].
  cbv beta iota. destruct (fn st) as [st'|e] eqn:Ef; [|intros [= <- <-]; left; by eexists].
  destruct (putStream st' db) as [[u db1]|e] eqn:Ep; [|intros [= <- <-]; left; by eexists].
  apply putStream_spec in Ep as (P1 & P2 & _). intros [= <- <-]. right. by exists st, st'.
Qed.

Lemma UpdateStream_keeps name fn db : keeps_stream fn -> db_ok db -> db_ok (UpdateStream name fn db).2.
Proof.
  intros Hfn Hok. destruct (UpdateStream name fn db) as [r db'] eqn:E.
  apply UpdateStream_spec in E as [(e & _ & ->)|(st & st' & Hst & Ef & _ & EF & ER)]; [done|].
  destruct (ok_streams _ _ Hok _ _ Hst) as (EN & _ & S). destruct (Hfn st st' S Ef) as [S' Hre].
  apply (store_ok_ext (replaced st' (find_stream db)) _ (stored (k_records db)) _);
    [intros n; by rewrite EF|intros bn k; cbn [snd]; by rewrite ER|]. eapply replace_ok; [exact Hok|by rewrite EN|done..].
Qed.

(** Settings leave the shards and the counters alone. *)
Lemma config_keeps hours mode tags enc key metrics policy st :
  stream_ok st -> stream_ok (set_config hours mode tags enc key metrics policy st) /\
    reshards st (set_config hours mode tags enc key metrics policy st).
Proof using.
  intros [[S1 S2 S3 S4 S5] T]. split; [split; [split|]; try done|].
  - intros sh Hsh. destruct (S3 sh Hsh). by split.
  - split; [done|]. split; [done|]. intros sh Hsh. exists sh. by split; [|left].
Qed.

(** ** Creating and writing *)

Lemma tileShards_ok count name created hours mode :
  1 <= count < 2 ^ 63 ->
  let st := tileShards count (mkStreamRecord name created hours mode [] 0 1 ∅ "" "" [] "") in
  st_Name st = name /\ stream_ok st.
Proof using.
  intros Hc. unfold tileShards. set (st0 := set_shards [] _).
  assert (shape st0) as S0.
  { split; simpl; [lia|lia|by intros ? ?%elem_of_nil|constructor|by intros ?? ?%elem_of_nil]. }
  destruct (tile_spec (Z.to_nat count) count 0 (fun _ => "") st0) as (S & _ & N & _ & O); try lia.
  - rewrite Z2Nat.id by lia. pose proof (Z.mul_div_le (maxHash + 1) count). lia.
  - apply Z.div_str_pos. unfold maxHash. lia.
  - done.
  - intros h. by left.
  - split; [exact N|]. split; [exact S|]. intros h Hh. destruct (O h) as (new & E & Hn). rewrite decide_True in Hn by done.
    destruct Hn as [sh ->]. exists sh. by rewrite E.
Qed.

Lemma new_stream_ok F R st :
  store_ok F R -> F (st_Name st) = None -> stream_chars (st_Name st) = true -> stream_ok st -> store_ok (replaced st F) R.
Proof using.
  intros [H1 H2] Hn Hch Hok. split.
  - intros name s. unfold replaced. case_decide as E; [intros [= <-]; by subst name|apply H1].
  - intros bn k r (name & s & sh & Hs & Hr)%H2. exists name, s, sh. unfold replaced. rewrite decide_False; [done|congruence].
Qed.

Lemma valid_name_chars name : validStreamName name = None -> stream_chars name = true.
Proof using. unfold validStreamName. destruct (String.eqb _ _); [done|]. destruct (_ <? _); [done|]. by destruct (stream_chars name). Qed.

Lemma CreateStream_keeps now name count mode db :
  count < 2 ^ 63 -> db_ok db -> db_ok (CreateStream now name count mode db).2.
Proof.
  intros Hc Hok. unfold CreateStream. destruct (validStreamName name) eqn:Ev; [done|]. apply valid_name_chars in Ev.
  set (mode' := if String.eqb mode "" then modeProvisioned else mode). destruct (_ && _); [done|].
  destruct (negb _ && _) eqn:Eg; [done|]. set (count' := if String.eqb mode' modeOnDemand then 4 else count).
  assert (1 <= count' < 2 ^ 63) as Hc'.
  { unfold count'. destruct (String.eqb mode' modeOnDemand); [lia|]. cbn [negb andb] in Eg. apply Z.ltb_ge in Eg. lia. }
  unfold run_update. run_tx. destruct (find_stream db name) eqn:En; [done|].
  destruct (tileShards_ok count' name (unix_seconds now) defRetentionHours mode' Hc') as [N S]. set (st := tileShards count' _) in *.
  destruct (putStream st db) as [[u db1]|e] eqn:Ep; [|done]. apply putStream_spec in Ep as (P1 & P2 & _). cbn [snd].
  apply (store_ok_ext (replaced st (find_stream db)) _ (stored (k_records db)) _); [done|intros; by rewrite P2|].
  apply new_stream_ok; [done|..]; by rewrite ?N.
Qed.

Lemma put_record_spec bn r db u db' :
  put_record bn r db = Ok (u, db') ->
  k_streams db' = k_streams db /\
  forall b k, stored (k_records db') b k = if decide (b = bn /\ k = be64 (r_Seq r)) then Some r else stored (k_records db) b k.
Proof.
  unfold put_record. run_tx. destruct (bput _ _ _) as [b'|] eqn:E; [|done]. intros [= <- <-]. split; [done|].
  intros b k. unfold stored. cbn [set_records k_records]. destruct (decide (b = bn)) as [->|Hb].
  - rewrite lookup_insert_eq. cbn [mbind option_bind]. rewrite (bget_bput _ _ _ _ _ k E).
    destruct (decide (k = be64 (r_Seq r))); [by rewrite decide_True|]. rewrite decide_False by naive_solver.
    destruct (k_records db !! bn); simpl; [done|apply bget_bempty].
  - rewrite lookup_insert_ne, decide_False by naive_solver. done.
Qed.

Lemma find_head {A} (p : A -> bool) l : List.find p l = head (List.filter p l).
Proof using. induction l as [|x l IH]; [done|]. simpl. by destruct (p x). Qed.

Lemma shardFor_spec st pk ehk sh :
  stream_ok st -> shardFor st pk ehk = Ok sh ->
  exists h, (if String.eqb ehk "" then Some (hashOf pk) else parse_big ehk) = Some h /\
    sh ∈ Shards st /\ Closed sh = false /\ covers h sh = true.
Proof using.
  intros _. unfold shardFor.
  assert (forall h, match List.find (fun sh => negb (Closed sh) && covers h sh) (Shards st) with
    | Some sh => Ok sh | None => Err (errArgument "no open shard covers hash %s") end = Ok sh ->
    sh ∈ Shards st /\ Closed sh = false /\ covers h sh = true) as Hf.
  { intros h. destruct (List.find _ _) as [s|] eqn:E; [|done]. intros [= ->].
    apply find_some in E as [Hin%list_elem_of_In Hc]. by rewrite andb_true_iff, negb_true_iff in Hc. }
  destruct (String.eqb ehk ""); [intros Hs%Hf; by eexists|]. destruct (parse_big ehk) as [v|]; [|done].
  destruct (_ || _); [done|]. intros Hs%Hf. by eexists.
Qed.

Lemma counters_ok st n : stream_ok st -> NextSeq st <= n < 2 ^ 64 ->
  stream_ok (set_counters (NextShardNum st) n st).
Proof using.
  intros [[S1 S2 S3 S4 S5] T] Hn. split; [split|]; try done; cbn [set_counters NextSeq]; [lia|].
  intros sh Hsh. destruct (S3 sh Hsh) as [I1 I2 I3 I4 I5]. split; try done; cbn [set_counters NextSeq].
  - lia.
  - destruct (Closed sh); lia.
Qed.

Lemma put_one_keeps now name e st F db st' pr db' :
  put_one now name e st db = Ok ((st', pr), db') -> name = st_Name st -> NextSeq st + 1 < 2 ^ 64 ->
  stream_ok st -> store_ok (replaced st F) (stored (k_records db)) ->
  stream_ok st' /\ store_ok (replaced st' F) (stored (k_records db')) /\ st_Name st' = st_Name st /\
  NextSeq st' = NextSeq st + 1 /\ k_streams db' = k_streams db.
Proof.
  intros Hp -> Hroom Hst Hok. unfold put_one in Hp. destruct (String.eqb _ _); [done|].
  destruct (256 <? slen (e_PartitionKey e)) eqn:Hpk; [done|]. destruct (maxRecordSize <? slen (e_Data e)) eqn:Hd; [done|].
  apply Z.ltb_ge in Hpk, Hd. run_tx. destruct (shardFor st _ _) as [sh|] eqn:Es; [|done].
  apply shardFor_spec in Es as (h & Hh & Hsh & Hopen & Hcov); [|done]. set (r := mkRecord _ _ _ _ _) in Hp.
  destruct (put_record _ r db) as [[u db1]|] eqn:Er; [|done]. apply put_record_spec in Er as [E1 E2]. injection Hp as <- <- <-.
  destruct Hst as [Hsp Ht]. pose proof (sp_seq _ Hsp) as Hs1. rewrite Z.mod_small by lia.
  assert (stream_ok (set_counters (NextShardNum st) (NextSeq st + 1) st)) as Hst' by (apply counters_ok; [done|lia]).
  split; [done|]. split; [|done]. set (st' := set_counters _ _ st) in *. destruct Hok as [H1 H2]. split.
  - intros n s. unfold replaced. case_decide as En; [|intros Hs; apply H1; unfold replaced; by rewrite decide_False].
    intros [= <-]. subst n. split; [done|]. split; [|done].
    destruct (H1 (st_Name st) st) as (_ & Hc & _); [unfold replaced; by rewrite decide_True|done].
  - intros b k r'. rewrite E2. case_decide as Eb.
    + intros [= <-]. destruct Eb as [-> ->]. exists (st_Name st), st', sh. unfold replaced. rewrite decide_True by done.
      split; [done|]. split; [done|]. split; [done|].
      destruct (so_seq _ _ (sp_shards _ Hsp sh Hsh)). split; cbn [r_Seq r st' set_counters NextSeq]; [done|lia|by rewrite Hopen|by exists h|].
      split; [done|]. split; [done|]. apply wrap64_range.
    + intros (n & s & sh' & Hs & Hin & -> & Hrec)%H2. revert Hs. unfold replaced. case_decide as En.
      * intros [= <-]. subst n. exists (st_Name st), st', sh'. rewrite decide_True by done.
        split; [done|]. split; [done|]. split; [done|]. destruct Hrec as [R1 R2 R3 R4 R5].
        split; try done. cbn [st' set_counters NextSeq]. lia.
      * intros Hs. exists n, s, sh'. by rewrite decide_False.
Qed.

Lemma put_all_keeps now name entries st F db st' prs db' :
  put_all now name entries st db = Ok ((st', prs), db') -> name = st_Name st ->
  NextSeq st + Z.of_nat (length entries) < 2 ^ 64 ->
  stream_ok st -> store_ok (replaced st F) (stored (k_records db)) ->
  stream_ok st' /\ store_ok (replaced st' F) (stored (k_records db')) /\ st_Name st' = st_Name st /\
  k_streams db' = k_streams db.
Proof.
  revert st db st' prs db'. induction entries as [|e entries IH]; intros st db st' prs db'; [by intros [= <- <- <-]|].
  cbn [put_all length]. intros Hp Hn Hroom Hst Hok. run_tx.
  destruct (put_one now name e st db) as [[[st1 pr] db1]|] eqn:E1; [|done].
  destruct (put_all now name entries st1 db1) as [[[st2 prs2] db2]|] eqn:E2; [|by cbn in Hp; rewrite E2 in Hp].
  cbn [fst snd] in Hp. rewrite E2 in Hp. injection Hp as <- <- <-.
  eapply put_one_keeps in E1 as (S1 & K1 & N1 & Q1 & D1); [|done|lia|done|done].
  eapply IH in E2 as (S2 & K2 & N2 & D2); [|congruence|lia|done|done]. split; [done|]. split; [done|]. split; congruence.
Qed.

Definition seq_room (db : KinesisDB) : Prop :=
  forall name st, find_stream db name = Some st -> NextSeq st + maxPutRecords < 2 ^ 64.

Lemma replaced_self st F n : F (st_Name st) = Some st -> replaced st F n = F n.
Proof using. intros E. unfold replaced. by case_decide as En; [rewrite En|]. Qed.

Lemma Put_keeps now name entries db : seq_room db -> db_ok db -> db_ok (Put now name entries db).2.
Proof.
  intros Hr Hok. unfold Put. destruct (Nat.eqb _ _); [done|]. destruct (_ <? _) eqn:El; [done|]. apply Z.ltb_ge in El.
  unfold run_update, getStream. run_tx. destruct (find_stream db name) as [st|] eqn:Es; [|done]. cbv beta iota.
  destruct (put_all now name entries st db) as [[[st' prs] db1]|] eqn:E1; [|done]. cbn [fst].
  destruct (putStream st' db1) as [[u db2]|] eqn:E2; [|done]. apply putStream_spec in E2 as (P1 & P2 & _). cbn [snd].
  destruct (ok_streams _ _ Hok _ _ Es) as (En & _ & Hst). subst name.
  eapply (put_all_keeps _ _ _ _ (find_stream db)) in E1 as (S1 & K1 & N1 & D1);
    [|done|pose proof (Hr _ _ Es); lia|done|eapply store_ok_ext; [intros n; symmetry; by apply replaced_self|done|done]].
  eapply store_ok_ext; [| |exact K1]; [|intros; by rewrite P2].
  intros n. rewrite P1. unfold replaced, find_stream. by rewrite D1.
Qed.

(** ** Deleting and sweeping *)

Definition fewer (R' R : string -> string -> option record) : Prop :=
  forall b k r, R' b k = Some r -> R b k = Some r.

#[global] Instance fewer_preorder : PreOrder fewer.
Proof using. split; [by intros ????|]. intros a b c H1 H2 ?? r Hr. by apply H2, H1. Qed.

Lemma stored_delete m b b' k r : stored (delete b m) b' k = Some r <-> b' <> b /\ stored m b' k = Some r.
Proof using.
  unfold stored. destruct (decide (b' = b)) as [->|Hb]; [rewrite lookup_delete_eq|rewrite lookup_delete_ne by done].
  - split; [done|by intros []].
  - naive_solver.
Qed.

Lemma drop_buckets name l db u db' :
  tx_each (fun sh => tx_modify (fun db => set_records (delete (recBucket name (sh_ID sh)) (k_records db)) db)) l db = Ok (u, db') ->
  k_streams db' = k_streams db /\ k_consumers db' = k_consumers db /\
  forall b k r, stored (k_records db') b k = Some r ->
    stored (k_records db) b k = Some r /\ forall sh, sh ∈ l -> b <> recBucket name (sh_ID sh).
Proof using.
  revert db. induction l as [|sh l IH]; intros db; cbn [tx_each].
  { intros [= <- <-]. split; [done|]. split; [done|]. intros b k r Hr. split; [done|]. by intros ? ?%elem_of_nil. }
  run_tx. intros (E1 & E2 & E3)%IH. split; [done|]. split; [done|].
  intros b k r [Hr Hl]%E3. apply stored_delete in Hr as [Hne Hr]. split; [done|].
  intros s [->|Hs]%elem_of_cons; [done|by apply Hl].
Qed.

Lemma DeleteStream_keeps ident name db : db_ok db -> db_ok (DeleteStream ident name db).2.
Proof.
  intros Hok. unfold DeleteStream, run_update, getStream. run_tx. destruct (find_stream db name) as [st|] eqn:Es; [|done].
  cbv beta iota. fold (@tx_modify KinesisDB). destruct (tx_each _ (Shards st) db) as [[u db1]|] eqn:Ed; [|done].
  apply drop_buckets in Ed as (E1 & E2 & E3). cbn [snd].
  set (db2 := match k_consumers db1 with Some _ => _ | None => _ end).
  assert (k_streams db2 = k_streams db /\ k_records db2 = k_records db1) as [F1 F2].
  { unfold db2. destruct (k_consumers db1); done. }
  set (db3 := match k_streams db2 with Some _ => _ | None => _ end).
  assert (forall n, find_stream db3 n = if decide (n = name) then None else find_stream db n) as F3.
  { intros n. unfold db3. rewrite F1. unfold find_stream. destruct (k_streams db) as [b|] eqn:Eb; cbn [set_streams k_streams mbind option_bind].
    - apply bget_bdelete.
    - rewrite F1. cbn. by case_decide. }
  assert (k_records db3 = k_records db1) as F4 by (unfold db3; destruct (k_streams db2); done).
  destruct Hok as [H1 H2]. destruct (H1 _ _ Es) as (En & Ech & _). split.
  - intros n s. rewrite F3. case_decide; [done|apply H1].
  - intros b k r. rewrite F4. intros [Hr Hl]%E3. destruct (H2 _ _ _ Hr) as (n & s & sh & Hs & Hin & -> & Hrec).
    exists n, s, sh. rewrite F3. rewrite decide_False; [done|]. intros ->. rewrite Hs in Es. injection Es as ->.
    by apply (Hl sh Hin).
Qed.

Lemma sweep_shard_spec cutoff name sh m keep m' :
  sweep_shard cutoff name sh m = (keep, m') ->
  fewer (stored m') (stored m) /\
  (keep = Some sh \/ (keep = None /\ Closed sh = true /\ forall k, stored m' (recBucket name (sh_ID sh)) k = None)).
Proof.
  unfold sweep_shard. set (bn := recBucket name (sh_ID sh)). destruct (m !! bn) as [b|] eqn:Eb.
  - destruct (Closed sh && _) eqn:Ec; intros [= <- <-].
    + split; [by intros b' k r [_ ?]%stored_delete|]. right. apply andb_true_iff in Ec as [Ec _]. split; [done|]. split; [done|].
      intros k. unfold stored. by rewrite lookup_delete_eq.
    + split; [|by left]. intros b' k r. unfold stored. destruct (decide (b' = bn)) as [->|]; [|by rewrite lookup_insert_ne].
      rewrite lookup_insert_eq, Eb. apply bget_deleted_some.
  - destruct (Closed sh) eqn:Ec; intros [= <- <-]; (split; [done|]); [right|by left]. split; [done|]. split; [done|].
    intros k. unfold stored. by rewrite Eb.
Qed.

Lemma sweep_shards_spec cutoff name l m live m' :
  sweep_shards cutoff name l m = (live, m') ->
  live `sublist_of` l /\ (forall h, owners h live = owners h l) /\ fewer (stored m') (stored m) /\
  forall sh k r, sh ∈ l -> stored m' (recBucket name (sh_ID sh)) k = Some r -> sh ∈ live.
Proof.
  revert m live m'. induction l as [|sh l IH]; intros m live m'; cbn [sweep_shards].
  { intros [= <- <-]. split; [constructor|]. split; [done|]. split; [done|]. by intros ??? ?%elem_of_nil. }
  destruct (sweep_shard cutoff name sh m) as [keep m1] eqn:E1. destruct (sweep_shards cutoff name l m1) as [live2 m2] eqn:E2.
  apply sweep_shard_spec in E1 as [F1 K1]. apply IH in E2 as (S2 & O2 & F2 & L2). intros [= <- <-].
  split; [destruct K1 as [->|[-> _]]; by constructor|]. split; [|split; [by etrans|]].
  - intros h. unfold owners in *. destruct K1 as [->|(-> & Hc & _)]; cbn [List.filter]; [by rewrite O2|].
    unfold owns at 2. rewrite Hc. apply O2.
  - intros s k r [->|Hs]%elem_of_cons Hr.
    + destruct K1 as [->|(-> & _ & Hn)]; [by left|]. apply F2 in Hr. by rewrite Hn in Hr.
    + apply (L2 s k r Hs) in Hr. destruct keep; [by right|done].
Qed.

(** Dropping closed shards that hold nothing. *)
Lemma drop_shards_ok F R R' st live :
  store_ok F R -> F (st_Name st) = Some st -> live `sublist_of` Shards st ->
  (forall h, owners h live = owners h (Shards st)) -> fewer R' R ->
  (forall sh k r, sh ∈ Shards st -> R' (recBucket (st_Name st) (sh_ID sh)) k = Some r -> sh ∈ live) ->
  store_ok (replaced (set_shards live st) F) R'.
Proof using.
  intros [H1 H2] Hst Hsub Ho Hf Hl. destruct (H1 _ _ Hst) as (_ & Hch & [S1 S2 S3 S4 S5] & T).
  assert (forall sh, sh ∈ live -> sh ∈ Shards st) as Hin by (intros sh ?; by eapply elem_of_sublist). split.
  - intros n s. unfold replaced. case_decide as En; [|apply H1]. intros [= <-]. subst n. split; [done|]. split; [done|].
    split; [split|]; try done; cbn [set_shards Shards].
    + intros sh Hsh. destruct (S3 sh (Hin sh Hsh)). by split.
    + eapply sublist_NoDup; [exact S4|]. clear -Hsub. by induction Hsub; constructor.
    + intros p c Hp Hc. by apply S5; apply Hin.
    + intros h Hh. cbn [set_shards Shards]. rewrite Ho. by apply T.
  - intros b k r Hr. destruct (H2 b k r (Hf _ _ _ Hr)) as (n & s & sh & Hs & Hsh & -> & Hrec).
    unfold replaced. cbn [set_shards st_Name]. destruct (decide (n = st_Name st)) as [->|Hn].
    + rewrite Hst in Hs. injection Hs as <-. exists (st_Name st), (set_shards live st), sh. rewrite decide_True by done.
      split; [done|]. split; [by eapply Hl|]. split; [done|]. destruct Hrec. by split.
    + exists n, s, sh. by rewrite decide_False.
Qed.

Lemma sweep_stream_keeps now db st :
  db_ok db -> find_stream db (st_Name st) = Some st ->
  db_ok (sweep_stream now db st) /\
  forall n, n <> st_Name st -> find_stream (sweep_stream now db st) n = find_stream db n.
Proof.
  intros Hok Hst. unfold sweep_stream. destruct (sweep_shards _ _ _ _) as [live m] eqn:E.
  apply sweep_shards_spec in E as (Hsub & Ho & Hf & Hl).
  assert (db_ok (set_records m db)) as Hok' by (by eapply store_ok_fewer; [exact Hf|]).
  destruct (Nat.eqb _ _); [done|]. destruct (putStream _ _) as [[u db']|] eqn:Ep; [|done].
  apply putStream_spec in Ep as (P1 & P2 & _). split.
  - eapply store_ok_ext; [intros n; symmetry; apply P1|intros; by rewrite P2|]. by eapply drop_shards_ok.
  - intros n Hn. rewrite P1. unfold replaced. cbn [set_shards st_Name]. by rewrite decide_False.
Qed.

Lemma KinesisSweep_keeps now db : db_ok db -> db_ok (KinesisSweep now db).
Proof.
  intros Hok. unfold KinesisSweep. destruct (k_streams db) as [b|] eqn:Eb; [|done].
  assert (forall st, st ∈ (bentries b).*2 -> find_stream db (st_Name st) = Some st) as Hl.
  { intros st ([k v] & -> & Hin)%list_elem_of_fmap. apply bentries_bget in Hin. cbn [snd].
    assert (find_stream db k = Some v) as Hk by (unfold find_stream; by rewrite Eb).
    by destruct (ok_streams _ _ Hok _ _ Hk) as (-> & _). }
  assert (NoDup (map st_Name (bentries b).*2)) as Hd.
  { assert (map st_Name (bentries b).*2 = (bentries b).*1) as ->.
    { rewrite <- list_fmap_compose. apply list_fmap_ext. intros i [k v] Hi%list_elem_of_lookup_2.
      apply bentries_bget in Hi. assert (find_stream db k = Some v) as Hk by (unfold find_stream; by rewrite Eb).
      by destruct (ok_streams _ _ Hok _ _ Hk). }
    apply bentries_keys_NoDup. }
  clear Eb. revert db Hok Hl Hd. generalize (bentries b).*2 as l. induction l as [|st l IH]; intros db Hok Hl Hd; [done|].
  cbn [foldl]. destruct (sweep_stream_keeps now db st Hok) as [Hok' Hn]; [apply Hl; by left|].
  cbn [map] in Hd. apply NoDup_cons in Hd as [Hni Hd]. apply IH; [done| |done].
  intros s Hs. rewrite Hn; [apply Hl; by right|]. intros E. apply Hni. rewrite <- E. by apply (list_elem_of_fmap_2 st_Name).
Qed.

Lemma CreateStream_room now name count mode db :
  count < 2 ^ 63 -> seq_room db -> seq_room (CreateStream now name count mode db).2.
Proof.
  intros Hc Hr. unfold CreateStream. destruct (validStreamName name); [done|].
  set (mode' := if String.eqb mode "" then modeProvisioned else mode). destruct (_ && _); [done|].
  destruct (negb _ && _); [done|]. unfold run_update. run_tx. destruct (find_stream db name); [done|].
  set (st := tileShards _ _). destruct (putStream st db) as [[u db1]|] eqn:Ep; [|done]. apply putStream_spec in Ep as (P1 & _).
  cbn [snd]. intros n s. rewrite P1. unfold replaced. case_decide; [|apply Hr]. intros [= <-].
  assert (forall k c lo pa st, NextSeq (tile k c lo pa st) = NextSeq st) as Ht.
  { clear. induction k as [|k IH]; intros c lo pa st; [done|]. cbn [tile]. by rewrite IH. }
  unfold st, tileShards. rewrite Ht. unfold maxPutRecords. simpl. lia.
Qed.

(** ** Consumers *)

Lemma consumers_keep A (f : Tx KinesisDB A) db :
  (forall a db', f db = Ok (a, db') -> k_streams db' = k_streams db /\ k_records db' = k_records db) ->
  db_ok db -> db_ok (run_update f db).2.
Proof using.
  intros Hf Hok. unfold run_update. destruct (f db) as [[a db']|e] eqn:E; [|done]. destruct (Hf a db' eq_refl) as [E1 E2].
  eapply store_ok_ext; [| |exact Hok]; intros; cbn [snd]; unfold find_stream; by rewrite ?E1, ?E2.
Qed.

Lemma Register_keeps now arn name db : db_ok db -> db_ok (RegisterConsumer now arn name db).2.
Proof using.
  intros Hok. unfold RegisterConsumer. destruct (String.eqb name ""); [done|]. destruct (streamFromARN arn) as [stream|]; [|done].
  apply consumers_keep; [|done]. intros a db'. unfold getStream. run_tx. destruct (find_stream db stream); [|done]. cbv beta iota.
  destruct (bget _ _); [done|]. destruct (bput _ _ _); [|done]. by intros [= _ <-].
Qed.

Lemma Deregister_keeps c db : db_ok db -> db_ok (DeleteConsumer c db).2.
Proof using.
  intros Hok. apply consumers_keep; [|done]. intros a db'. run_tx. destruct (k_consumers db); [|done]. by intros [= _ <-].
Qed.

Lemma empty_ok : db_ok empty_KinesisDB.
Proof using. by split. Qed.
End invariant.

(** ** One machine *)

Inductive kop :=
| KCreate (name : string) (count : Z) (mode : string)
| KDelete (name : string)
| KPut (name : string) (entries : list putEntry)
| KSplit (name target newStartingHashKey : string)
| KMerge (name a b : string)
| KScale (name : string) (target : Z) (scalingType : string)
| KMode (name mode : string)
| KRetention (name : string) (hours : Z) (increase : bool)
| KTag (name : string) (tags : gmap string string)
| KUntag (name : string) (keys : list string)
| KMonitoring (name : string) (metrics : list string) (enable : bool)
| KEncrypt (name keyID : string)
| KDecrypt (name : string)
| KPolicy (name policy : string)
| KNoPolicy (name : string)
| KRegister (arn name : string)
| KDeregister (c : consumer)
| KSweep.

(** The counts a request gives are Go integers. *)
Definition op_ints (o : kop) : Prop :=
  match o with KCreate _ n _ | KScale _ n _ => n < 2 ^ 63 | _ => True end.

Section machine.
Context `{B : Bolt} `{GoHash} (ident : Identity) (kms : option (string -> option (bool * string))).

Definition kstep (now : Z) (o : kop) (db : KinesisDB) : KinesisDB :=
  match o with
  | KCreate name count mode => (CreateStream now name count mode db).2
  | KDelete name => (DeleteStream ident name db).2
  | KPut name entries => (hPutRecords kms now name entries db).2
  | KSplit name target start => (SplitShard name target start db).2
  | KMerge name a b => (MergeShards name a b db).2
  | KScale name target scaling => (UpdateShardCount name target scaling db).2
  | KMode name mode => (hUpdateStreamMode name mode db).2
  | KRetention name hours increase => (setRetention name hours increase db).2
  | KTag name tags => (addTags name tags db).2
  | KUntag name keys => (removeTags name keys db).2
  | KMonitoring name metrics enable => (setMonitoring name metrics enable db).2
  | KEncrypt name key => (hStartEncryption kms name key db).2
  | KDecrypt name => (hStopEncryption name db).2
  | KPolicy name policy => (hPutResourcePolicy name policy db).2
  | KNoPolicy name => (hDeleteResourcePolicy name db).2
  | KRegister arn name => (RegisterConsumer now arn name db).2
  | KDeregister c => (DeleteConsumer c db).2
  | KSweep => KinesisSweep now db
  end.
End machine.

Section properties.
Context `{B : Bolt} {BL : BoltLaws B} `{GoHash} (ident : Identity) (kms : option (string -> option (bool * string))).
#[local] Set Default Proof Using "BL".

Lemma keeps_config (f : streamRecord -> streamRecord) :
  (forall st, exists h m t e k l p, f st = set_config h m t e k l p st) -> keeps_stream (fun st => Ok (f st)).
Proof using. intros Hf st st' Hok [= <-]. destruct (Hf st) as (h & m & t & e & k & l & p & ->). by apply config_keeps. Qed.

Lemma kstep_keeps now o db : db_ok db -> seq_room db -> op_ints o -> db_ok (kstep ident kms now o db).
Proof.
  intros Hok Hr Hi. destruct o; cbn [kstep op_ints] in *.
  - by apply CreateStream_keeps.
  - by apply DeleteStream_keeps.
  - unfold hPutRecords. destruct (requireUsableKey _ _); [done|]. by apply Put_keeps.
  - unfold SplitShard. destruct (String.eqb _ _); [done|]. destruct (parse_big _); [|done].
    apply UpdateStream_keeps; [|done]. intros st st' Hs Hf. by destruct (split_ok _ _ _ _ Hs Hf) as (? & ? & _).
  - unfold MergeShards. destruct (_ || _); [done|]. destruct (String.eqb _ _); [done|].
    apply UpdateStream_keeps; [|done]. intros st st' Hs Hf. by destruct (merge_ok _ _ _ _ Hs Hf) as (? & ? & _).
  - unfold UpdateShardCount. destruct (target <? 1) eqn:E; [done|]. apply Z.ltb_ge in E. destruct (_ && _); [done|].
    apply UpdateStream_keeps; [|done]. intros st st' Hs Hf. by apply (rescale_ok target).
  - unfold hUpdateStreamMode. destruct (_ && _); [done|]. apply UpdateStream_keeps; [|done]. apply keeps_config. intros st. by repeat eexists.
  - unfold setRetention. destruct (_ || _); [done|]. apply UpdateStream_keeps; [|done]. intros st st' Hs.
    destruct (_ && _); [done|]. destruct (_ && _); [done|]. intros [= <-]. by apply config_keeps.
  - apply UpdateStream_keeps; [|done]. apply keeps_config. intros st. by repeat eexists.
  - apply UpdateStream_keeps; [|done]. apply keeps_config. intros st. by repeat eexists.
  - apply UpdateStream_keeps; [|done]. apply keeps_config. intros st. by repeat eexists.
  - unfold hStartEncryption. destruct (String.eqb _ _); [done|]. destruct (requireUsableKey _ _); [done|].
    apply UpdateStream_keeps; [|done]. apply keeps_config. intros st. by repeat eexists.
  - apply UpdateStream_keeps; [|done]. apply keeps_config. intros st. by repeat eexists.
  - unfold hPutResourcePolicy. destruct (String.eqb _ _); [done|]. apply UpdateStream_keeps; [|done]. apply keeps_config. intros st. by repeat eexists.
  - apply UpdateStream_keeps; [|done]. apply keeps_config. intros st. by repeat eexists.
  - by apply Register_keeps.
  - by apply Deregister_keeps.
  - by apply KinesisSweep_keeps.
Qed.

(** C13: The open shards of every stream share out the hash space, and every record is where
    its hash sends it.  Whatever operation runs (creating and deleting streams, puts,
    splits, merges, rescales, settings, sweeps), each hash has exactly one open shard in
    each stream; and each stored record is in the bucket of a shard whose range has the
    hash of its key, with a sequence number from the shard's start to its end. *)
Theorem hash_space_shared now o db :
  db_ok db -> seq_room db -> op_ints o ->
  let db' := kstep ident kms now o db in
  db_ok db' /\
  (forall name st h, find_stream db' name = Some st -> 0 <= h <= maxHash -> exists sh, owners h (Shards st) = [sh]) /\
  forall bn k r, stored (k_records db') bn k = Some r -> exists name st sh h,
    find_stream db' name = Some st /\ sh ∈ Shards st /\ bn = recBucket name (sh_ID sh) /\
    record_hash r = Some h /\ covers h sh = true /\ StartSeq sh <= r_Seq r /\ (Closed sh = true -> r_Seq r <= EndSeq sh).
Proof.
  intros Hok Hr Hi db'. pose proof (kstep_keeps now o db Hok Hr Hi) as Hok'. split; [done|]. split.
  - intros name st h Hst Hh. destruct (ok_streams _ _ Hok' _ _ Hst) as (_ & _ & _ & T). by apply T.
  - intros bn k r (name & st & sh & Hst & Hin & E & [R1 R2 R3 (h & R4 & R5) R6])%(ok_records _ _ Hok').
    exists name, st, sh, h. repeat split; try done. lia.
Qed.

(** C14: A put appends to the shard its key hashes to.  On a request with one record whose key
    and data are within the limits, and whose explicit hash key, if any, is a number below
    2^128, exactly one open shard covers the hash; the answer names it and the stream's
    next sequence number; the record is stored there under that number, no other stored
    record changes, and the counter advances by one.  Only a refusal of the database fails
    the put, and leaves the state as it was. *)
Theorem put_routes now name e db st h r db' :
  db_ok db -> seq_room db -> find_stream db name = Some st ->
  e_PartitionKey e <> "" -> slen (e_PartitionKey e) <= 256 -> slen (e_Data e) <= maxRecordSize ->
  (if String.eqb (e_ExplicitHashKey e) "" then Some (hashOf (e_PartitionKey e)) else parse_big (e_ExplicitHashKey e)) = Some h ->
  0 <= h <= maxHash -> Put now name [e] db = (r, db') ->
  exists sh, owners h (Shards st) = [sh] /\
    let record := mkRecord (NextSeq st) (e_PartitionKey e) (e_ExplicitHashKey e) (e_Data e) (wrap64 now) in
    ((r = Ok [mkPutResult (sh_ID sh) (NextSeq st)] /\
      (exists st', find_stream db' name = Some st' /\ NextSeq st' = NextSeq st + 1 /\ Shards st' = Shards st) /\
      forall bn k, stored (k_records db') bn k =
        if decide (bn = recBucket name (sh_ID sh) /\ k = be64 (NextSeq st)) then Some record else stored (k_records db) bn k) \/
     (exists err, r = Err err /\ db' = db /\ exists V k (v : V) b, bput k v b = Err err)).
Proof.
  intros Hok Hroom Hst Hne Hpk Hd Hh Hr Hp. destruct (ok_streams _ _ Hok _ _ Hst) as (EN & _ & Hs).
  destruct (proj2 Hs h Hr) as [sh Eo]. exists sh. split; [done|]. revert Hp.
  unfold Put, run_update, getStream. cbn [length Nat.eqb]. change (maxPutRecords <? Z.of_nat 1) with false. cbv iota. run_tx.
  rewrite Hst. cbv beta iota. cbn [put_all]. unfold put_one. destruct (String.eqb_spec (e_PartitionKey e) ""); [done|].
  rewrite (proj2 (Z.ltb_ge _ _) Hpk), (proj2 (Z.ltb_ge _ _) Hd).
  assert (shardFor st (e_PartitionKey e) (e_ExplicitHashKey e) = Ok sh) as Es.
  { unfold shardFor. pose proof (find_head (owns h) (Shards st)) as Hf. fold (owners h (Shards st)) in Hf. rewrite Eo in Hf. unfold owns in Hf.
    destruct (String.eqb (e_ExplicitHashKey e) ""); [injection Hh as Hh; rewrite Hh; cbn; by rewrite Hf|].
    rewrite Hh. destruct (_ || _) eqn:E; [zbool; lia|]. cbn. by rewrite Hf. }
  run_tx. rewrite Es. set (rec := mkRecord _ _ _ _ _).
  destruct (put_record _ rec db) as [[u db1]|err] eqn:E1.
  2:{ intros [= <- <-]. right. exists err. split; [done|]. split; [done|]. revert E1. unfold put_record. run_tx.
      destruct (bput _ _ _) eqn:Eb; [done|]. intros [= <-]. by repeat eexists. }
  apply put_record_spec in E1 as [D1 R1]. cbn [fst snd]. set (st' := set_counters _ _ st).
  destruct (putStream st' db1) as [[u' db2]|err] eqn:E2.
  2:{ intros [= <- <-]. right. exists err. split; [done|]. split; [done|]. revert E2. unfold putStream. run_tx.
      destruct (bput _ _ _) eqn:Eb; [done|]. intros [= <-]. by repeat eexists. }
  apply putStream_spec in E2 as (P1 & P2 & _). intros [= <- <-]. left. split; [done|]. split.
  - exists st'. rewrite P1. unfold replaced. cbn [st' set_counters st_Name NextSeq Shards]. rewrite decide_True by done.
    split; [done|]. split; [|done]. pose proof (sp_seq _ (proj1 Hs)). specialize (Hroom _ _ Hst). unfold maxPutRecords in Hroom.
    apply Z.mod_small. lia.
  - intros bn k. rewrite P2. apply R1.
Qed.

(** A record in the bucket of a shard of a stream is a record of that shard. *)
Lemma own_record db name st sh k r :
  db_ok db -> find_stream db name = Some st -> sh ∈ Shards st ->
  stored (k_records db) (recBucket name (sh_ID sh)) k = Some r -> record_ok st sh k r.
Proof using.
  intros Hok Hst Hin Hr. destruct (ok_records _ _ Hok _ _ _ Hr) as (n & s & sh' & Hs' & Hin' & E & Hrec).
  destruct (ok_streams _ _ Hok _ _ Hs') as (_ & Hc & _), (ok_streams _ _ Hok _ _ Hst) as (_ & Hc0 & S0 & _).
  apply recBucket_inj in E as [<- E]; [|done..]. rewrite Hst in Hs'. injection Hs' as <-.
  by rewrite (id_unique (Shards st) sh sh' (sp_ids _ S0) Hin Hin' E).
Qed.

(** C15: A reshard keeps the records of a key in order.  When a split or a merge moves a hash
    from a shard to another, the new shard names the old one as a parent and every record
    of the old one is below its start.  And in every state, between a shard and a child of
    it, the shard is closed and each of its records is below each record of the child: a
    consumer that reads a shard to its end and then its children sees a key's records in
    the order they came. *)
Theorem reshard_keeps_order name st db :
  db_ok db -> find_stream db name = Some st ->
  (forall st' db',
     (exists target start, SplitShard name target start db = (Ok st', db')) \/
     (exists a b, MergeShards name a b db = (Ok st', db')) ->
     find_stream db' name = Some st' /\
     forall h p c, owners h (Shards st) = [p] -> owners h (Shards st') = [c] -> c <> p ->
       names_parent c p /\
       forall k r, stored (k_records db') (recBucket name (sh_ID p)) k = Some r -> r_Seq r < StartSeq c) /\
  forall p c k r k' r', p ∈ Shards st -> c ∈ Shards st -> names_parent c p ->
    stored (k_records db) (recBucket name (sh_ID p)) k = Some r ->
    stored (k_records db) (recBucket name (sh_ID c)) k' = Some r' -> Closed p = true /\ r_Seq r < r_Seq r'.
Proof.
  intros Hok Hst. destruct (ok_streams _ _ Hok _ _ Hst) as (EN & Ech & Hs).
  split.
  - intros st' db' Hop.
    assert (exists fn, UpdateStream name fn db = (Ok st', db') /\
      forall s s', stream_ok s -> fn s = Ok s' -> stream_ok s' /\ reshards s s' /\ hands_over s s') as (fn & Hu & Hfn).
    { destruct Hop as [(target & start & E)|(a & b & E)]; revert E; [unfold SplitShard|unfold MergeShards].
      - destruct (String.eqb _ _); [done|]. destruct (parse_big start) as [ns|]; [|done]. intros E. exists (splitIn target ns).
        split; [done|]. intros. by apply (split_ok target ns).
      - destruct (_ || _); [done|]. destruct (String.eqb _ _); [done|]. intros E. exists (mergeIn a b).
        split; [done|]. intros. by apply (merge_ok a b). }
    assert (db_ok db') as Hok'.
    { pose proof (UpdateStream_keeps name fn db) as Hk. rewrite Hu in Hk. apply Hk; [|done]. intros s s' S F.
      by destruct (Hfn s s' S F) as (? & ? & _). }
    apply UpdateStream_spec in Hu as [(e & [=] & _)|(s & s' & Es & Ef & [= <-] & EF & ER)]. rewrite Hst in Es. injection Es as <-.
    destruct (Hfn st st' Hs Ef) as (Hs' & (N & Q & Hre) & Hand).
    assert (find_stream db' name = Some st') as Hst' by (rewrite EF; unfold replaced; by rewrite decide_True by congruence).
    split; [done|]. intros h p c Ep Ec Hne. destruct (Hand h p c Ep Ec) as [?|Hn]; [done|]. split; [done|]. intros k r Hr.
    assert (p ∈ owners h (Shards st)) as Hp by (rewrite Ep; by left). apply elem_of_owners in Hp as (Hp & _).
    assert (c ∈ owners h (Shards st')) as Hc by (rewrite Ec; by left). apply elem_of_owners in Hc as (Hc & _).
    destruct (Hre p Hp) as (p' & Hp' & Hpc). assert (sh_ID p' = sh_ID p) as Eid by (destruct Hpc as [->|[_ ->]]; done).
    assert (names_parent c p') as Hn' by (unfold names_parent; by rewrite Eid).
    destruct (sp_lineage _ (proj1 Hs') p' c Hp' Hc Hn') as [Hcl Hlt]. rewrite <- Eid in Hr.
    pose proof (ro_end _ _ _ _ (own_record db' name st' p' k r Hok' Hst' Hp' Hr) Hcl). lia.
  - intros p c k r k' r' Hp Hc Hn Hr Hr'. destruct (sp_lineage _ (proj1 Hs) p c Hp Hc Hn) as [Hcl Hlt]. split; [done|].
    pose proof (ro_end _ _ _ _ (own_record db name st p k r Hok Hst Hp Hr) Hcl).
    pose proof (ro_seq _ _ _ _ (own_record db name st c k' r' Hok Hst Hc Hr')). lia.
Qed.
End properties.

(** ** A concrete stream *)

(** A digest that only counts. *)
#[global] Instance flat_hash : GoHash := {| md5 s := be64 0 +:+ be64 (slen s) |}.

Definition home : Identity := mkIdentity "" "".
Definition two_shards : KinesisDB := (CreateStream 0 "events" 2 "" empty_KinesisDB).2.

Lemma two_shards_ok : db_ok two_shards /\ seq_room two_shards.
Proof. split; [apply CreateStream_keeps; [done|apply empty_ok]|by apply CreateStream_room]. Qed.

(** Where the two shards of the concrete stream are. *)
Lemma two_shards_found : exists st, find_stream two_shards "events" = Some st /\
  map (fun sh => (bound (StartHash sh), bound (EndHash sh))) (Shards st) = [(0, 2 ^ 127 - 1); (2 ^ 127, maxHash)].
Proof.
  assert (match find_stream two_shards "events" with
    | Some st => bool_decide (map (fun sh => (bound (StartHash sh), bound (EndHash sh))) (Shards st) = [(0, 2 ^ 127 - 1); (2 ^ 127, maxHash)])
    | None => false end = true) as E by (vm_compute; reflexivity).
  destruct (find_stream two_shards "events") as [st|]; [|done]. exists st. split; [done|]. by apply bool_decide_eq_true in E.
Qed.

Lemma hash_space_shared_witness :
  db_ok two_shards /\ forall name st h, find_stream (kstep home None 5 (KSplit "events" "shardId-000000000000" "7") two_shards) name = Some st ->
    0 <= h <= maxHash -> exists sh, owners h (Shards st) = [sh].
Proof.
  destruct two_shards_ok as [Hok Hr]. revert Hok Hr. generalize two_shards as db. intros db Hok Hr. split; [done|].
  destruct (hash_space_shared home None 5 (KSplit "events" "shardId-000000000000" "7") db Hok Hr I) as (_ & Ht & _).
  exact Ht.
Defined.

Lemma put_routes_witness :
  exists sh, forall r db', Put 5 "events" [mkPutEntry "k" "9" "data"] two_shards = (r, db') ->
    r = Ok [mkPutResult (sh_ID sh) 1] \/ exists err, r = Err err.
Proof.
  destruct two_shards_ok as [Hok Hr]. destruct two_shards_found as (st & Hst & _).
  assert (NextSeq st = 1) as Hn.
  { assert (option_map NextSeq (find_stream two_shards "events") = Some 1) as E by (vm_compute; reflexivity).
    rewrite Hst in E. by injection E. }
  revert Hok Hr Hst. generalize two_shards as db. intros db Hok Hr Hst. set (e := mkPutEntry "k" "9" "data").
  destruct (Put 5 "events" [e] db) as [r0 db0] eqn:E.
  destruct (put_routes 5 "events" e db st 9 r0 db0 Hok Hr Hst) as (sh & _ & H);
    [discriminate|vm_compute; discriminate|vm_compute; discriminate|reflexivity|unfold maxHash; lia|exact E|].
  exists sh. rewrite <- Hn. intros r db' [= <- <-].
  destruct H as [(-> & _)|(err & -> & _)]; [left; reflexivity|right; exists err; reflexivity].
Defined.

Lemma reshard_keeps_order_witness :
  exists st, find_stream two_shards "events" = Some st /\
    forall st' db', SplitShard "events" "shardId-000000000000" "7" two_shards = (Ok st', db') ->
      forall h p c, owners h (Shards st) = [p] -> owners h (Shards st') = [c] -> c <> p -> names_parent c p.
Proof.
  destruct two_shards_ok as [Hok Hr]. destruct two_shards_found as (st & Hst & _). exists st. split; [exact Hst|].
  revert Hok Hst. generalize two_shards as db. intros db Hok Hst st' db' E h p c Ep Ec Hne.
  destruct (proj1 (reshard_keeps_order "events" st db Hok Hst) st' db') as [_ H]; [left; eexists _, _; exact E|].
  apply (H h p c Ep Ec Hne).
Defined.
