(* ===== verification/KinesisRead.v ===== *)
(** * KinesisRead: what a consumer reads

    A consumer that follows the iterators of a shard reads each record once, in order; and
    where it does not learn that the shard has ended. *)

From stdpp Require Import pretty sorting.
From S2P Require Import Prelude Bytes Ident Clock Digits Wire UrlBase64 Bolt Cursor Tx Kinesis Reads KinesisSpec KinesisRun.

(** ** Tokens *)

Lemma digits_no c s acc n : parse_digits acc s = Some n -> ~ (48 <= byte_of c <= 57) -> has_char c s = false.
Proof.
  intros H Hc. revert acc H. induction s as [|d s IH]; intros acc; [done|]. cbn [parse_digits has_char].
  destruct (_ && _) eqn:E; [|done]. intros Hs. rewrite (IH _ Hs), orb_false_r.
  destruct (Ascii.eqb_spec d c) as [->|]; [|done]. zbool. lia.
Qed.

Lemma pretty_no_bar (n : Z) : has_char "|" (pretty n) = false.
Proof.
  assert (forall x : N, has_char "|" (pretty x) = false) as Hn.
  { intros x. apply (digits_no _ _ 0 (Z.of_N x)); [apply parse_digits_pretty_N|]. vm_compute. intuition discriminate. }
  destruct n as [|p|p]; [done|apply (Hn (Npos p))|]. change (pretty (Z.neg p)) with ("-" +:+ pretty (Npos p)).
  cbn [String.append has_char]. apply Hn.
Qed.

Lemma token_roundtrip c now :
  has_char "|" (cu_Stream c) = false -> has_char "|" (cu_Shard c) = false -> 0 <= cu_After c < 2 ^ 64 ->
  - 2 ^ 63 <= cu_IssuedNs c < 2 ^ 63 -> now - cu_IssuedNs c <= iteratorTTL -> decodeIterator (encodeIterator c) now = Ok c.
Proof.
  intros H1 H2 H3 H4 H5. unfold decodeIterator, encodeIterator. rewrite raw_url_roundtrip.
  change (split_on "|" _) with (split_on "|" (cu_Stream c +:+ String "|" (cu_Shard c +:+ String "|"
    (pretty (cu_After c) +:+ String "|" (pretty (cu_IssuedNs c)))))).
  rewrite !split_on_app, split_on_none by (done || apply pretty_no_bar).
  rewrite parse_uint_pretty, parse_int_pretty by done. rewrite (proj2 (Z.ltb_ge _ _)); [by destruct c|].
  unfold sat64, iteratorTTL, second in *. lia.
Qed.

Lemma parseSeq_formatSeq n : 0 <= n < 2 ^ 64 -> parseSeq (formatSeq n) = Some n.
Proof.
  intros Hn. unfold parseSeq, formatSeq. set (s := pad0 21 (pretty n)).
  assert (parse_digits 0 s = Some n) as Hs by (unfold s; rewrite parse_digits_pad0; apply parse_digits_pretty; lia).
  assert (s <> "") as Hne.
  { intros E. unfold s, pad0 in E. destruct (pretty n) eqn:Ep; [by apply (pretty_ne n); [lia|]|].
    destruct (repeat _ _); discriminate E. }
  destruct (String.eqb_spec s ""); [done|]. pose proof (parse_digits_trim s) as Ht. rewrite Hs in Ht.
  unfold parse_uint. destruct (String.eqb_spec (trim_left zero_char s) "") as [E|E].
  - rewrite E in Ht. injection Ht as <-. unfold trim. by rewrite E.
  - rewrite Ht. cbn. by rewrite (proj2 (Z.ltb_lt _ _)) by lia.
Qed.

(** ** Sizes *)

(** A stored record fits a response, but for a very long hash key. *)
Lemma record_fits `{GoHash} st sh k r :
  shape st -> record_ok st sh k r -> sh ∈ Shards st -> slen (ExplicitHashKey r) <= 1000000 -> record_len r <= maxGetBytes.
Proof.
  intros S [R1 R2 R3 R4 (R5 & R6 & R7)] Hsh He. unfold record_len, str_len.
  pose proof (str_body_len_bound (PartitionKey r)). pose proof (str_body_len_bound (ExplicitHashKey r)).
  pose proof (base64_len (r_Data r)). pose proof (sp_seq _ S). destruct (so_seq _ _ (sp_shards _ S sh Hsh)).
  pose proof (pretty_len (r_Seq r) ltac:(lia)). pose proof (pretty_len (ArrivedNs r) ltac:(lia)).
  change (slen "{'seq':,'pk':,'data':,'t':}") with 27. change (slen ",'ehk':") with 7. change (slen "null") with 4.
  unfold maxGetBytes, maxRecordSize in *. pose proof (slen_nonneg (r_Data r)). pose proof (slen_nonneg (ExplicitHashKey r)).
  destruct (String.eqb _ _), (String.eqb _ _); lia.
Qed.

(** ** One request *)

Definition records_in `{Bolt} (db : KinesisDB) (name id : string) : list record :=
  match records_of db name id with Some b => (bentries b).*2 | None => [] end.

Definition above (after : Z) (l : list record) : list record := List.filter (fun r => after <? r_Seq r) l.

Definition by_seq (l : list record) : Prop := StronglySorted (fun r r' => r_Seq r < r_Seq r') l.

Lemma by_seq_above after l : by_seq l -> by_seq (above after l).
Proof.
  intros Hs. unfold above. induction Hs as [|x l Hl IH Hx]; cbn [List.filter]; [constructor|].
  destruct (after <? r_Seq x); [|done]. constructor; [done|]. apply Forall_forall. intros y [Hy _]%elem_of_filter_bool.
  rewrite Forall_forall in Hx. by apply Hx.
Qed.

Lemma above_rest after l p r q : by_seq l -> above after l = p ++ r :: q -> above (r_Seq r) l = q.
Proof.
  intros Hs E. assert (above (r_Seq r) l = above (r_Seq r) (above after l)) as ->.
  { assert (after < r_Seq r) as Hlt.
    { assert (r ∈ above after l) as Hin by (rewrite E; set_solver). apply elem_of_filter_bool in Hin as [_ Hin]. zbool. lia. }
    clear Hs E. unfold above. induction l as [|x l IH]; [done|]. cbn [List.filter].
    destruct (Z.ltb_spec after (r_Seq x)); cbn [List.filter]; destruct (Z.ltb_spec (r_Seq r) (r_Seq x)); try lia; [by f_equal|done|done]. }
  pose proof (by_seq_above after l Hs) as Hs'. rewrite E in Hs' |- *. unfold above. rewrite List.filter_app. cbn [List.filter]. rewrite Z.ltb_irrefl.
  apply StronglySorted_app in Hs' as (Hlow & _ & Hq). apply StronglySorted_inv in Hq as [_ Hall]. rewrite Forall_forall in Hall.
  rewrite filter_none, filter_all; [done|..]; intros x Hx; apply Z.ltb_lt || apply Z.ltb_ge; [by apply Hall|].
  specialize (Hlow x r Hx ltac:(by left)). simpl in Hlow. lia.
Qed.

Lemma length_pos {A} (l : list A) : l <> [] -> (0 < length l)%nat.
Proof. destruct l; [done|simpl; lia]. Qed.

(** Where the next request goes on. *)
Definition after_of (next : Z) (rs : list record) : Z := match last rs with Some r => r_Seq r | None => next end.

Lemma fetch_walk_spec limit sh l recs bytes next :
  (forall e, e ∈ l -> record_len e.2 <= maxGetBytes /\ (Closed sh = true -> r_Seq e.2 <= EndSeq sh)) ->
  exists n, (n <= length l)%nat /\
    fetch_walk limit sh l recs bytes next = (recs ++ take n l.*2, after_of next (take n l.*2)) /\
    (recs = [] -> bytes = 0 -> 1 <= limit -> l <> [] -> (0 < n)%nat).
Proof.
  revert recs bytes next. induction l as [|[k r] l IH]; intros recs bytes next Hl; [exists 0%nat; by rewrite app_nil_r|].
  cbn [fetch_walk]. destruct (Hl (k, r)) as [Hlen Hend]; [by left|]. cbn [snd] in *.
  destruct (_ || _) eqn:Ef.
  { exists 0%nat. rewrite app_nil_r. split; [lia|]. split; [done|]. intros -> -> H1 _. exfalso.
    apply orb_true_iff in Ef as [Ef|Ef]; zbool; cbn [length] in *; lia. }
  destruct (Closed sh && _ && _) eqn:Ec.
  { rewrite !andb_true_iff in Ec. destruct Ec as [[Hc _] Hs]. specialize (Hend Hc). zbool. lia. }
  destruct (IH (recs ++ [r]) (bytes + record_len r) (r_Seq r)) as (n & Hn & E & _); [intros e He; apply Hl; by right|].
  exists (Datatypes.S n). rewrite E. cbn [fmap list_fmap take]. split; [cbn [length]; lia|]. split; [|lia].
  f_equal; [by rewrite <- app_assoc|]. unfold after_of. rewrite last_cons. by destruct (last (take n l.*2)).
Qed.

Section reading.
Context `{B : Bolt} {BL : BoltLaws B} `{GoHash} (kms : option (string -> option (bool * string))).
#[local] Set Default Proof Using "BL".

Lemma seek_above l after :
  StronglySorted bytes_lt l.*1 -> (forall e, e ∈ l -> e.1 = be64 (r_Seq e.2) /\ 0 <= r_Seq e.2 < 2 ^ 64) ->
  0 <= after < 2 ^ 64 - 1 -> (seek (be64 (after + 1)) l).*2 = above after l.*2.
Proof using.
  intros Hs Hl Ha. rewrite seek_filter by (by apply sorted_entries). unfold above. clear Hs.
  induction l as [|[k r] l IH]; [done|]. cbn [List.filter fmap list_fmap fst snd].
  destruct (Hl (k, r)) as [E Hr]; [by left|]. cbn [fst snd] in *. subst k.
  assert (negb (bytes_ltb (be64 (r_Seq r)) (be64 (after + 1))) = (after <? r_Seq r)) as ->.
  { unfold bytes_ltb. rewrite be64_cmp by lia. destruct (Z.ltb_spec after (r_Seq r)), (Z.compare_spec (r_Seq r) (after + 1)); lia || done. }
  destruct (after <? r_Seq r); cbn [fmap list_fmap snd]; rewrite <- IH by (intros e He; apply Hl; by right); done.
Qed.

Lemma find_shard_in l sh : NoDup (map sh_ID l) -> sh ∈ l -> find_shard l (sh_ID sh) = Some sh.
Proof using.
  induction l as [|s l IH]; [by intros _ ?%elem_of_nil|]. cbn [map find_shard]. intros Hd Hin.
  destruct (String.eqb_spec (sh_ID s) (sh_ID sh)) as [E|E].
  - f_equal. apply (id_unique (s :: l)); [exact Hd|by left|done|done].
  - apply NoDup_cons in Hd as [_ Hd]. apply elem_of_cons in Hin as [->|Hin]; [done|by apply IH].
Qed.

Lemma shardID_no_bar n : 0 <= n -> has_char "|" (shardID n) = false.
Proof using.
  intros Hn. change (shardID n) with ("shardId-" +:+ pad0 12 (pretty n)). cbn [String.append has_char].
  apply (digits_no _ _ 0 n); [rewrite parse_digits_pad0; by apply parse_digits_pretty|]. vm_compute. intuition discriminate.
Qed.

(** A shard of a stream, read while nothing writes. *)
Section one_shard.
Context (db : KinesisDB) (name : string) (st : streamRecord) (sh : shard).
Context (Hok : db_ok db) (Hst : find_stream db name = Some st) (Hsh : sh ∈ Shards st).
Context (Hkey : requireUsableKey kms (keyForStream name db) = None).
Context (Hfit : forall r, r ∈ records_in db name (sh_ID sh) -> record_len r <= maxGetBytes).
#[local] Set Default Proof Using "BL Hok Hst Hsh Hkey Hfit".
#[local] Abbreviation records := (records_in db name (sh_ID sh)).

Lemma stream_shape : shape st.
Proof. apply (ok_streams _ _ Hok _ _ Hst). Qed.

Lemma entry_ok b e : records_of db name (sh_ID sh) = Some b -> e ∈ bentries b -> record_ok st sh e.1 e.2.
Proof.
  intros Hb He. destruct e as [k r]. apply bentries_bget in He. eapply own_record; [exact Hok|done|done|].
  unfold stored. unfold records_of in Hb. by rewrite Hb.
Qed.

Lemma entry_seq b e : records_of db name (sh_ID sh) = Some b -> e ∈ bentries b ->
  e.1 = be64 (r_Seq e.2) /\ 1 <= r_Seq e.2 < 2 ^ 64 - 1 /\ StartSeq sh <= r_Seq e.2.
Proof.
  intros Hb He. destruct (entry_ok b e Hb He) as [R1 R2 _ _ _]. pose proof (sp_seq _ stream_shape).
  destruct (so_seq _ _ (sp_shards _ stream_shape sh Hsh)). split; [done|]. lia.
Qed.

Lemma records_sorted : by_seq records.
Proof.
  unfold records_in. destruct (records_of db name (sh_ID sh)) as [b|] eqn:Eb; [|constructor].
  pose proof (bentries_sorted _ b) as Hs. pose proof (fun e => entry_seq b e Eb) as He.
  induction (bentries b) as [|e l IH]; [constructor|]. cbn [fmap list_fmap] in *. apply StronglySorted_inv in Hs as [Hs Ha].
  constructor; [apply IH; [done|]; intros x Hx; apply He; by right|]. apply Forall_forall.
  intros r (x & -> & Hx)%list_elem_of_fmap. rewrite Forall_forall in Ha.
  assert (bytes_lt e.1 x.1) as Hlt by (by apply Ha, list_elem_of_fmap_2).
  destruct (He e) as (E1 & E2 & _); [by left|]. destruct (He x) as (E3 & E4 & _); [by right|].
  unfold bytes_lt in Hlt. rewrite E1, E3, be64_cmp in Hlt by lia. by apply Z.compare_lt_iff in Hlt.
Qed.

Lemma token_ok after issued t :
  0 <= after < 2 ^ 64 -> - 2 ^ 63 <= issued < 2 ^ 63 -> t - issued <= iteratorTTL ->
  let c := mkCursor name (sh_ID sh) after issued in
  encodeIterator c <> "" /\ decodeIterator (encodeIterator c) t = Ok c.
Proof.
  intros Ha Hi Ht c. assert (decodeIterator (encodeIterator c) t = Ok c) as Hd.
  { apply token_roundtrip; try done; cbn [cu_Stream cu_Shard c].
    - destruct (ok_streams _ _ Hok _ _ Hst) as (_ & Hc & _). by apply stream_chars_no.
    - destruct (so_id _ _ (sp_shards _ stream_shape sh Hsh)) as (n & Hn & ->). apply shardID_no_bar. lia. }
  split; [|done]. intros E. rewrite E in Hd. by cbn in Hd.
Qed.

(** One request reads on from where its token stands. *)
Lemma get_step t limit after issued :
  0 <= after < 2 ^ 64 - 1 -> - 2 ^ 63 <= issued < 2 ^ 63 -> t - issued <= iteratorTTL ->
  exists n g, hGetRecords kms t (encodeIterator (mkCursor name (sh_ID sh) after issued)) limit db = Ok g /\
    let rest := above after records in
    let next := after_of after (take n rest) in
    gr_Records g = take n rest /\ (rest <> [] -> (0 < n)%nat) /\ above next records = drop n rest /\ after <= next < 2 ^ 64 - 1 /\
    gr_NextShardIterator g = (if drained sh next then None else Some (encodeIterator (mkCursor name (sh_ID sh) next (wrap64 t)))).
Proof.
  intros Ha Hi Ht. destruct (token_ok after issued t ltac:(lia) Hi Ht) as [Hne Hdec].
  unfold hGetRecords. destruct (String.eqb_spec (encodeIterator (mkCursor name (sh_ID sh) after issued)) "") as [|_]; [done|].
  rewrite Hdec. cbn [mbind result_bind cu_Stream cu_Shard cu_After]. rewrite Hkey.
  assert (run_view (find_shard_of name (sh_ID sh)) db = Ok (st, sh)) as Hss.
  { unfold run_view, find_shard_of, getStream. run_tx. rewrite Hst. cbv beta iota.
    by rewrite (find_shard_in _ _ (sp_ids _ stream_shape) Hsh). }
  assert (exists n behind, Fetch t name (sh_ID sh) after limit db =
      Ok (take n (above after records), after_of after (take n (above after records)), behind) /\
      (above after records <> [] -> (0 < n)%nat) /\ (n <= length (above after records))%nat) as (n & behind & Ef & Hn & Hle).
  { unfold Fetch, run_view, find_shard_of, getStream. run_tx. rewrite Hst. cbv beta iota.
    rewrite (find_shard_in _ _ (sp_ids _ stream_shape) Hsh). cbv beta iota. cbn [snd]. 
    assert (forall b, records_of db name (sh_ID sh) = Some b -> records = (bentries b).*2) as Hrec.
    { intros b Eb. unfold records_in. by rewrite Eb. }
    destruct (records_of db name (sh_ID sh)) as [b|] eqn:Eb.
    2: { unfold records_in. rewrite Eb. exists 0%nat, 0. by split_and!. }
    specialize (Hrec b eq_refl).
    pose proof (seek_above (bentries b) after (bentries_sorted _ b)) as Hsk.
    destruct (fetch_walk_spec (fetch_limit limit) sh (seek (be64 (after + 1)) (bentries b)) [] 0 after) as (n & Hle & E & Hn).
    { intros e He. assert (e ∈ bentries b) as Hin.
      { rewrite seek_filter in He by apply sorted_entries, bentries_sorted. by apply elem_of_filter_bool in He as [? _]. }
      pose proof (entry_ok b e Eb Hin) as Hr. split; [|apply (ro_end _ _ _ _ Hr)].
      apply Hfit. rewrite Hrec. by apply list_elem_of_fmap_2. }
    rewrite E, Hrec. cbn [app]. assert ((seek (be64 (after + 1)) (bentries b)).*2 = above after (bentries b).*2) as Hseek.
    { apply Hsk; [|lia]. intros e He. destruct (entry_seq b e Eb He) as (? & ? & _). split; [done|lia]. }
    rewrite Hseek. exists n. eexists. split; [done|]. split.
    - intros Hr. apply Hn; [done|done|unfold fetch_limit, maxGetRecords; destruct (_ || _) eqn:El; [lia|zbool; lia]|].
      intros En. apply Hr. by rewrite <- Hseek, En.
    - rewrite <- Hseek, length_fmap. done. }
  rewrite Ef. cbn [mbind result_bind]. rewrite Hss. cbn [mbind result_bind fst snd].
  set (next := after_of after (take n (above after records))) in *.
  assert (above next records = drop n (above after records) /\ after <= next < 2 ^ 64 - 1) as [Hab Hnx].
  { unfold next, after_of. destruct (last (take n (above after records))) as [r|] eqn:El.
    - apply last_Some in El as [p Ep]. assert (above after records = p ++ r :: drop n (above after records)) as E.
      { rewrite <- (take_drop n (above after records)) at 1. by rewrite Ep, <- app_assoc. }
      split; [by apply (above_rest _ _ _ _ _ records_sorted E)|].
      assert (r ∈ above after records) as Hin by (rewrite E; set_solver). apply elem_of_filter_bool in Hin as [Hin Hlt].
      apply Z.ltb_lt in Hlt. unfold records_in in Hin. destruct (records_of db name (sh_ID sh)) as [b|] eqn:Eb; [|by apply elem_of_nil in Hin].
      apply list_elem_of_fmap in Hin as (e & -> & He). destruct (entry_seq b e Eb He) as (_ & ? & _). lia.
    - apply last_None in El. split; [|lia]. destruct n as [|n]; [done|]. destruct (above after records) eqn:E; done. }
  exists n. destruct (drained sh next) eqn:Ed; eexists; (split; [reflexivity|]); cbv zeta; fold next; rewrite ?Ed;
    split_and!; first [exact Hn|exact Hab|apply Hnx|reflexivity].
Qed.

(** What a consumer reads that follows the iterators, a request for each instant and limit,
    and the iterator it is left with. *)
Fixpoint follow (reqs : list (Z * Z)) (tok : string) : result (list record * option string) :=
  match reqs with
  | [] => Ok ([], Some tok)
  | (t, limit) :: reqs =>
      g ← hGetRecords kms t tok limit db;
      match gr_NextShardIterator g with
      | None => Ok (gr_Records g, None)
      | Some tok => rest ← follow reqs tok; Ok (gr_Records g ++ rest.1, rest.2)
      end
  end.

(** Each request comes before the iterator it uses expires. *)
Fixpoint timely (issued : Z) (reqs : list (Z * Z)) : Prop :=
  - 2 ^ 63 <= issued < 2 ^ 63 /\
  match reqs with [] => True | (t, _) :: reqs => t - issued <= iteratorTTL /\ timely t reqs end.

Lemma after_of_app a l l' : after_of (after_of a l) l' = after_of a (l ++ l').
Proof using. unfold after_of. rewrite last_app. by destruct (last l'). Qed.

(** Nothing is left behind where a shard is drained. *)
Lemma drained_rest next : 0 <= next -> drained sh next = true -> above next records = [].
Proof.
  intros Hn [Hc Hd]%andb_true_iff. apply filter_none. intros r Hr. unfold records_in in Hr.
  destruct (records_of db name (sh_ID sh)) as [b|] eqn:Eb; [|by apply elem_of_nil in Hr].
  apply list_elem_of_fmap in Hr as (e & -> & He). pose proof (ro_end _ _ _ _ (entry_ok b e Eb He) Hc).
  destruct (entry_seq b e Eb He) as (_ & Hs & _). apply Z.ltb_ge. apply orb_true_iff in Hd as [Hd|Hd]; zbool; lia.
Qed.

Lemma follow_spec reqs after issued :
  0 <= after < 2 ^ 64 - 1 -> timely issued reqs -> (length (above after records) < length reqs)%nat ->
  exists fin, follow reqs (encodeIterator (mkCursor name (sh_ID sh) after issued)) = Ok (above after records, fin) /\
    (fin = None <-> drained sh (after_of after (above after records)) = true).
Proof.
  revert after issued. induction reqs as [|[t limit] reqs IH]; intros after issued Ha Hi Hlen; [simpl in Hlen; lia|].
  destruct Hi as [Hi [Ht Hreqs]]. destruct (get_step t limit after issued Ha Hi Ht) as (n & g & E & Hg).
  cbn [follow]. rewrite E. cbn [mbind result_bind]. cbv zeta in Hg. set (rest := above after records) in *.
  set (next := after_of after (take n rest)) in *. destruct Hg as (-> & Hn & Hrest & Hnext & ->).
  assert (- 2 ^ 63 <= t < 2 ^ 63) as Hti by (by destruct reqs as [|[]], Hreqs). rewrite (wrap64_small t Hti).
  assert (after_of after rest = after_of next (drop n rest)) as Eafter by (unfold next; by rewrite after_of_app, take_drop).
  destruct (drained sh next) eqn:Ed.
  { exists None. pose proof (drained_rest next ltac:(lia) Ed) as Hd. rewrite Hd in Hrest. rewrite Eafter, <- Hrest. cbn [after_of last].
    split; [|done]. do 2 f_equal. by rewrite <- (take_drop n rest) at 2; rewrite <- Hrest, app_nil_r. }
  destruct (decide (rest = [])) as [Er|Er]; [destruct reqs as [|q reqs]|].
  { cbn [follow mbind result_bind fst snd]. eexists. split; [by rewrite Er, take_nil|]. rewrite Eafter, Er, drop_nil.
    cbn [after_of last]. by rewrite Ed. }
  all: destruct (IH next t) as (fin & Ef & Hfin);
    [lia|done|rewrite Hrest, length_drop; first [specialize (Hn Er); apply length_pos in Er|rewrite Er]; cbn [length] in *; lia|].
  all: rewrite Ef; cbn [mbind result_bind fst snd]; exists fin; rewrite Hrest, take_drop; split; [done|]; by rewrite Eafter, <- Hrest.
Qed.

(** ** Where an iterator starts *)

Lemma above_all a : (forall r, r ∈ records -> a < r_Seq r) -> above a records = records.
Proof using. intros Ha. apply filter_all. intros r Hr. by apply Z.ltb_lt, Ha. Qed.

Lemma TrimHorizon_spec :
  0 <= TrimHorizonSeq name (sh_ID sh) db < 2 ^ 64 - 2 /\ above (TrimHorizonSeq name (sh_ID sh) db) records = records.
Proof.
  pose proof records_sorted as Hs. unfold TrimHorizonSeq. destruct (records_of db name (sh_ID sh)) as [b|] eqn:Eb; cbn [mbind option_bind].
  2: { unfold records_in. by rewrite Eb. }
  destruct (head (bentries b)) as [e|] eqn:Eh.
  2: { unfold records_in. rewrite Eb. by destruct (bentries b). }
  assert (e ∈ bentries b) as He by (destruct (bentries b); [done|injection Eh as ->; by left]).
  destruct (entry_seq b e Eb He) as (-> & Hr & _). rewrite be64_value by lia. rewrite (proj2 (Z.ltb_lt _ _)) by lia. split; [lia|].
  apply above_all. unfold records_in in *. rewrite Eb in *. destruct (bentries b) as [|e' l]; [done|]. injection Eh as ->.
  cbn [fmap list_fmap] in *. apply StronglySorted_inv in Hs as [_ Ha]. rewrite Forall_forall in Ha.
  intros r [->|Hin]%elem_of_cons; [lia|]. specialize (Ha r Hin). simpl in Ha. lia.
Qed.

(** Iterators that read everything above [a]. *)
Inductive starts : string -> string -> Z -> Prop :=
| starts_trim seqArg : starts "TRIM_HORIZON" seqArg 0
| starts_at n : 1 <= n < 2 ^ 64 - 1 -> starts "AT_SEQUENCE_NUMBER" (formatSeq n) (n - 1)
| starts_after n : 0 <= n < 2 ^ 64 - 1 -> starts "AFTER_SEQUENCE_NUMBER" (formatSeq n) n.

Lemma start_spec t0 typ seqArg ts a :
  starts typ seqArg a -> exists a', 0 <= a' < 2 ^ 64 - 1 /\ above a' records = above a records /\
    hGetShardIterator t0 name (sh_ID sh) typ seqArg ts db = Ok (encodeIterator (mkCursor name (sh_ID sh) a' (wrap64 t0))).
Proof.
  intros Hstart. unfold hGetShardIterator, GetStream, run_view, getStream.
  assert (sh_ID sh <> "") as Hne by (by destruct (so_id _ _ (sp_shards _ stream_shape sh Hsh)) as (n & _ & ->)).
  destruct (String.eqb_spec (sh_ID sh) ""); [done|]. run_tx. rewrite Hst. cbv beta iota.
  rewrite (find_shard_in _ _ (sp_ids _ stream_shape) Hsh).
  destruct Hstart as [seqArg|n' Hn'|n' Hn'].
  - rewrite String.eqb_refl. destruct TrimHorizon_spec as [Hr Ht]. pose proof (sp_seq _ stream_shape).
    destruct (so_seq _ _ (sp_shards _ stream_shape sh Hsh)) as [Hss Hse].
    assert (forall r, r ∈ records -> StartSeq sh <= r_Seq r /\ 0 < r_Seq r) as Hlow.
    { intros r Hin. unfold records_in in Hin. destruct (records_of db name (sh_ID sh)) as [b|] eqn:Eb; [|by apply elem_of_nil in Hin].
      apply list_elem_of_fmap in Hin as (e & -> & He). destruct (entry_seq b e Eb He) as (_ & ? & ?). lia. }
    rewrite (above_all 0) by (intros r Hin; by apply Hlow).
    destruct (_ && _); cbn [mbind result_bind]; [exists (StartSeq sh - 1)|exists (TrimHorizonSeq name (sh_ID sh) db)].
    + split; [lia|]. split; [|done]. apply above_all. intros r Hin. specialize (Hlow r Hin). lia.
    + split; [lia|]. by split.
  - cbn [String.eqb Ascii.eqb Bool.eqb orb andb]. rewrite parseSeq_formatSeq by lia. rewrite (proj2 (Z.ltb_lt _ _)) by lia.
    exists (n' - 1). split; [lia|]. by split.
  - cbn [String.eqb Ascii.eqb Bool.eqb orb andb]. rewrite parseSeq_formatSeq by lia. exists n'. split; [lia|]. by split.
Qed.
End one_shard.

End reading.

(** ** A concrete reader *)

Lemma seq_room_check `{B : Bolt} {BL : BoltLaws B} (db : KinesisDB) :
  match k_streams db with
  | Some b => forallb (fun e : string * streamRecord => NextSeq e.2 + maxPutRecords <? 2 ^ 64) (bentries b)
  | None => true
  end = true -> seq_room db.
Proof.
  intros Hc name st Hst. unfold find_stream in Hst. destruct (k_streams db) as [b|]; [|done]. cbn [mbind option_bind] in Hst.
  rewrite forallb_forall in Hc. apply bentries_bget, list_elem_of_In in Hst. specialize (Hc _ Hst). by apply Z.ltb_lt in Hc.
Qed.

(** Records at both ends of the hash space, and a split of the shard that has the first. *)
Definition two_records : KinesisDB :=
  kstep home None 6 (KPut "events" [mkPutEntry "k" "0" "first"; mkPutEntry "k" (pretty maxHash) "second"]) two_shards.
Definition split_after : KinesisDB := kstep home None 7 (KSplit "events" "shardId-000000000000" "7") two_records.

Lemma split_after_ok : db_ok split_after.
Proof.
  destruct two_shards_ok as [H1 H2]. apply kstep_keeps; [apply kstep_keeps; [exact H1|exact H2|exact I]| |exact I].
  apply seq_room_check. vm_compute. reflexivity.
Qed.

(** The shard that was split: closed at 2, with the record 1 only. *)
Lemma split_after_shard : exists st sh r, find_stream split_after "events" = Some st /\ sh ∈ Shards st /\ Closed sh = true /\
  EndSeq sh = 2 /\ records_in split_after "events" (sh_ID sh) = [r] /\ r_Seq r = 1 /\ record_len r <= maxGetBytes /\
  String.eqb (keyForStream "events" split_after) "" = true.
Proof.
  assert (match find_stream split_after "events" with
    | Some st => match head (Shards st) with
      | Some sh => match records_in split_after "events" (sh_ID sh) with
        | [r] => Closed sh && (EndSeq sh =? 2) && (r_Seq r =? 1) && (record_len r <=? maxGetBytes) &&
                 String.eqb (keyForStream "events" split_after) ""
        | _ => false end
      | None => false end
    | None => false end = true) as E by (vm_compute; reflexivity).
  revert E. generalize split_after as db. intros db.
  destruct (find_stream db "events") as [st|]; [|done]. destruct (head (Shards st)) as [sh|] eqn:Eh; [|done].
  destruct (records_in db "events" (sh_ID sh)) as [|r [|]] eqn:Er; [done| |done]. rewrite !andb_true_iff, !Z.eqb_eq, Z.leb_le.
  intros ((((Hc & He) & Hs) & Hl) & Hk). exists st, sh, r.
  assert (sh ∈ Shards st) as Hin by (destruct (Shards st); [done|injection Eh as ->; by left]). by split_and!.
Qed.

