(* ===== verification/Calendar.v ===== *)
(** * Calendar: dates of the Gregorian calendar

    What the schedules use of Go's package time, in UTC.  A day is counted from January 1 of
    year 1, a minute from its midnight; [time.Date] accepts a month or a day past the end
    of its unit and carries it over. *)

From S2P Require Import Prelude.

Definition leap (y : Z) : bool := (y mod 4 =? 0) && (negb (y mod 100 =? 0) || (y mod 400 =? 0)).

(** The days before a year. *)
Definition year_start (y : Z) : Z := 365 * (y - 1) + (y - 1) / 4 - (y - 1) / 100 + (y - 1) / 400.

(** The days of a year before a month; before month 13 they are all. *)
Definition month_start (lp : bool) (m : Z) : Z :=
  nth (Z.to_nat (m - 1)) [0; 31; 59; 90; 120; 151; 181; 212; 243; 273; 304; 334; 365] 0 + (if lp && (2 <? m) then 1 else 0).

(** The day of [time.Date(y, m, d)]. *)
Definition date (y m d : Z) : Z :=
  let y' := y + (m - 1) / 12 in
  year_start y' + month_start (leap y') ((m - 1) mod 12 + 1) + (d - 1).

Definition year_of (day : Z) : Z :=
  let n400 := day / 146097 in
  let r400 := day mod 146097 in
  let n100 := Z.min 3 (r400 / 36524) in
  let r100 := r400 - 36524 * n100 in
  let n4 := r100 / 1461 in
  let r4 := r100 mod 1461 in
  400 * n400 + 100 * n100 + 4 * n4 + Z.min 3 (r4 / 365) + 1.

Definition year_day (day : Z) : Z := day - year_start (year_of day).

(** The first month that ends after a day of the year. *)
Definition month_in (lp : bool) (yd : Z) : Z :=
  match List.find (fun m => yd <? month_start lp (m + 1)) [1; 2; 3; 4; 5; 6; 7; 8; 9; 10; 11] with Some m => m | None => 12 end.

Definition month_of (day : Z) : Z := month_in (leap (year_of day)) (year_day day).
Definition day_of (day : Z) : Z := year_day day - month_start (leap (year_of day)) (month_of day) + 1.

(** Sunday is 0. *)
Definition weekday (day : Z) : Z := (day + 1) mod 7.

(** ** Years *)

Lemma leap_cases y : year_start (y + 1) = year_start y + 365 + (if leap y then 1 else 0).
Proof.
  unfold year_start, leap. destruct (Z.eqb_spec (y mod 4) 0), (Z.eqb_spec (y mod 100) 0), (Z.eqb_spec (y mod 400) 0);
    cbn [andb orb negb]; zdiv.
Qed.

Lemma year_start_lt y z : y < z -> year_start y + 365 * (z - y) <= year_start z.
Proof. intros H. unfold year_start. zdiv. Qed.

Lemma year_of_spec day : year_start (year_of day) <= day < year_start (year_of day + 1).
Proof.
  unfold year_start, year_of. set (n400 := day / 146097). set (r400 := day mod 146097).
  assert (day = 146097 * n400 + r400 /\ 0 <= r400 < 146097) as [Hd Hr] by (unfold n400, r400; zdiv). clearbody n400 r400.
  set (n100 := Z.min 3 (r400 / 36524)). set (r100 := r400 - 36524 * n100).
  assert (0 <= n100 <= 3 /\ 0 <= r100 /\ (r100 < 36524 \/ (n100 = 3 /\ r100 = 36524)) /\ r400 = 36524 * n100 + r100) as (H1 & H2 & H3 & H4)
    by (unfold r100, n100; zdiv). clearbody n100 r100.
  set (n4 := r100 / 1461). set (r4 := r100 mod 1461).
  assert (r100 = 1461 * n4 + r4 /\ 0 <= r4 < 1461 /\ 0 <= n4 <= 24) as (H5 & H6 & H7) by (unfold n4, r4; zdiv). clearbody n4 r4.
  set (n := Z.min 3 (r4 / 365)). assert (0 <= n <= 3 /\ 365 * n <= r4 /\ (r4 < 365 * n + 365 \/ (n = 3 /\ r4 = 1460))) as (H8 & H9 & H10)
    by (unfold n; zdiv). clearbody n. subst day r400 r100.
  replace (400 * n400 + 100 * n100 + 4 * n4 + n + 1 - 1) with (400 * n400 + (100 * n100 + 4 * n4 + n)) by lia.
  replace (400 * n400 + 100 * n100 + 4 * n4 + n + 1 + 1 - 1) with (400 * n400 + (100 * n100 + 4 * n4 + n + 1)) by lia.
  set (p := 100 * n100 + 4 * n4 + n) in *. assert (0 <= p <= 399) by lia. zdiv.
Qed.

(** The year of a day is the only one that holds it. *)
Lemma year_of_unique y day : year_start y <= day < year_start (y + 1) -> year_of day = y.
Proof.
  intros H. pose proof (year_of_spec day). destruct (Z.lt_trichotomy (year_of day) y) as [Hl|[?|Hl]]; [|done|]; exfalso.
  - destruct (Z.eq_dec (year_of day + 1) y) as [<-|]; [lia|]. pose proof (year_start_lt (year_of day + 1) y). lia.
  - destruct (Z.eq_dec (y + 1) (year_of day)) as [E|]; [rewrite <- E in *; lia|]. pose proof (year_start_lt (y + 1) (year_of day)). lia.
Qed.

(** ** Months *)

Definition year_len (lp : bool) : Z := if lp then 366 else 365.

Lemma year_day_range day : 0 <= year_day day < year_len (leap (year_of day)).
Proof.
  pose proof (year_of_spec day) as H. rewrite leap_cases in H. unfold year_day, year_len. destruct (leap _); lia.
Qed.

(** What holds of each number of a range, by evaluation. *)
Lemma seqZ_all (P : Z -> bool) lo len n : forallb P (seqZ lo len) = true -> lo <= n < lo + len -> P n = true.
Proof. rewrite forallb_forall. intros H Hn. by apply H, list_elem_of_In, elem_of_seqZ. Qed.

Lemma month_in_spec lp yd :
  0 <= yd < year_len lp -> 1 <= month_in lp yd <= 12 /\ month_start lp (month_in lp yd) <= yd < month_start lp (month_in lp yd + 1).
Proof.
  intros H.
  set (P := fun yd => (1 <=? month_in lp yd) && (month_in lp yd <=? 12) && (month_start lp (month_in lp yd) <=? yd) &&
    (yd <? month_start lp (month_in lp yd + 1))).
  assert (P yd = true) as HP by (apply (seqZ_all P 0 (year_len lp)); [by destruct lp|lia]). unfold P in HP. zbool. lia.
Qed.

Lemma month_start_step lp m : 1 <= m <= 12 -> month_start lp m + 28 <= month_start lp (m + 1) <= month_start lp m + 31.
Proof.
  intros H. set (P := fun m => (month_start lp m + 28 <=? month_start lp (m + 1)) && (month_start lp (m + 1) <=? month_start lp m + 31)).
  assert (P m = true) as HP by (apply (seqZ_all P 1 12); [by destruct lp|lia]). unfold P in HP. zbool. lia.
Qed.

Lemma month_start_le lp m n : 1 <= m -> m <= n -> n <= 13 -> month_start lp m <= month_start lp n.
Proof.
  intros Hm Hmn. replace n with (m + Z.of_nat (Z.to_nat (n - m))) by lia. generalize (Z.to_nat (n - m)). clear Hmn.
  induction n0 as [|k IH]; intros Hn; [by rewrite Z.add_0_r|]. etransitivity; [apply IH; lia|].
  rewrite Nat2Z.inj_succ, Z.add_succ_r. pose proof (month_start_step lp (m + Z.of_nat k)). unfold Z.succ. lia.
Qed.

Lemma month_in_unique lp m yd : 1 <= m <= 12 -> month_start lp m <= yd < month_start lp (m + 1) -> month_in lp yd = m.
Proof.
  intros Hm Hyd. assert (0 <= yd < year_len lp) as Hr.
  { pose proof (month_start_le lp 1 m). pose proof (month_start_le lp (m + 1) 13).
    assert (month_start lp 1 = 0 /\ month_start lp 13 = year_len lp) as [] by (by destruct lp). lia. }
  destruct (month_in_spec lp yd Hr) as [H1 H2]. destruct (Z.lt_trichotomy (month_in lp yd) m) as [Hl|[?|Hl]]; [|done|]; exfalso.
  - pose proof (month_start_le lp (month_in lp yd + 1) m). lia.
  - pose proof (month_start_le lp (m + 1) (month_in lp yd)). lia.
Qed.

Definition month_len (y m : Z) : Z := month_start (leap y) (m + 1) - month_start (leap y) m.

(** ** Dates *)

Lemma date_in_month y m d : 1 <= m <= 12 -> date y m d = year_start y + month_start (leap y) m + (d - 1).
Proof. intros Hm. unfold date. rewrite Z.div_small, Z.mod_small by lia. by rewrite Z.add_0_r, Z.sub_add. Qed.

(** The first day of the next month, the next year's when it is December. *)
Lemma date_next_month y m : 1 <= m <= 12 -> date y (m + 1) 1 = year_start y + month_start (leap y) (m + 1).
Proof.
  intros Hm. destruct (Z.eq_dec m 12) as [->|]; [|rewrite date_in_month by lia; lia].
  unfold date. change ((12 + 1 - 1) / 12) with 1. change ((12 + 1 - 1) mod 12 + 1) with 1. rewrite leap_cases.
  assert (month_start (leap (y + 1)) 1 = 0) as -> by (by destruct (leap (y + 1))). destruct (leap y); change (month_start true (12 + 1)) with 366; change (month_start false (12 + 1)) with 365; lia.
Qed.

Lemma date_next_year y : date (y + 1) 1 1 = year_start (y + 1).
Proof. rewrite date_in_month by lia. assert (month_start (leap (y + 1)) 1 = 0) as -> by (by destruct (leap (y + 1))). lia. Qed.

Lemma date_december y : date y (12 + 1) 1 = date (y + 1) 1 1.
Proof.
  rewrite date_next_month, date_next_year, leap_cases by lia.
  assert (month_start (leap y) (12 + 1) = 365 + (if leap y then 1 else 0)) as -> by (by destruct (leap y)). lia.
Qed.

(** A valid date is read back. *)
Lemma date_fields y m d :
  1 <= m <= 12 -> 1 <= d <= month_len y m -> year_of (date y m d) = y /\ month_of (date y m d) = m /\ day_of (date y m d) = d.
Proof.
  intros Hm Hd. unfold month_len in Hd. rewrite date_in_month by done.
  set (day := year_start y + month_start (leap y) m + (d - 1)).
  assert (year_of day = y) as Ey.
  { apply year_of_unique. rewrite leap_cases. unfold day. pose proof (month_start_le (leap y) 1 m). pose proof (month_start_le (leap y) (m + 1) 13).
    assert (month_start (leap y) 1 = 0 /\ month_start (leap y) 13 = 365 + (if leap y then 1 else 0)) as [] by (by destruct (leap y)). lia. }
  assert (year_day day = month_start (leap y) m + (d - 1)) as Eyd by (unfold year_day; rewrite Ey; unfold day; lia).
  assert (month_of day = m) as Em by (unfold month_of; rewrite Ey, Eyd; apply month_in_unique; lia).
  split; [done|]. split; [done|]. unfold day_of. rewrite Ey, Em, Eyd. lia.
Qed.

Lemma month_of_spec day :
  1 <= month_of day <= 12 /\
  year_start (year_of day) + month_start (leap (year_of day)) (month_of day) <= day <
  year_start (year_of day) + month_start (leap (year_of day)) (month_of day + 1).
Proof.
  pose proof (month_in_spec (leap (year_of day)) (year_day day) (year_day_range day)) as [H1 H2].
  split; [done|]. unfold month_of. unfold year_day in *. lia.
Qed.

Lemma day_of_spec day : 1 <= day_of day <= month_len (year_of day) (month_of day).
Proof. pose proof (month_of_spec day) as [_ H]. unfold day_of, month_len, year_day. lia. Qed.

Lemma date_of_day day : date (year_of day) (month_of day) (day_of day) = day.
Proof. destruct (month_of_spec day) as [Hm _]. rewrite date_in_month by done. unfold day_of, year_day. lia. Qed.

(** A day with the fields of another is that day. *)
Lemma same_date day day' :
  year_of day = year_of day' -> month_of day = month_of day' -> day_of day = day_of day' -> day = day'.
Proof. intros E1 E2 E3. rewrite <- (date_of_day day), <- (date_of_day day'). congruence. Qed.

(** Days of one month, and of one year. *)
Lemma same_year day s : day <= s < date (year_of day + 1) 1 1 -> year_of s = year_of day.
Proof. rewrite date_next_year. intros H. apply year_of_unique. pose proof (year_of_spec day). lia. Qed.

Lemma same_month day s :
  day <= s < date (year_of day) (month_of day + 1) 1 -> year_of s = year_of day /\ month_of s = month_of day.
Proof.
  destruct (month_of_spec day) as [Hm Hd]. rewrite date_next_month by done. intros H.
  assert (exists d, s = date (year_of day) (month_of day) d /\ 1 <= d <= month_len (year_of day) (month_of day)) as (d & -> & Hd').
  { exists (s - year_start (year_of day) - month_start (leap (year_of day)) (month_of day) + 1).
    rewrite date_in_month by done. unfold month_len. split; lia. }
  by destruct (date_fields (year_of day) (month_of day) d) as (-> & -> & _).
Qed.

(** [time.Date(y, m+1, 0).Day()]. *)
Lemma last_day y m : 1 <= m <= 12 -> day_of (date y (m + 1) 0) = month_len y m.
Proof.
  intros Hm. assert (date y (m + 1) 0 = date y m (month_len y m)) as ->.
  { assert (date y (m + 1) 0 = date y (m + 1) 1 - 1) as -> by (unfold date; lia).
    rewrite date_next_month, date_in_month by done. unfold month_len. lia. }
  apply date_fields; [done|]. unfold month_len. pose proof (month_start_step (leap y) m Hm). lia.
Qed.

Lemma year_of_le day day' : day <= day' -> year_of day <= year_of day'.
Proof.
  intros H. pose proof (year_of_spec day). pose proof (year_of_spec day').
  destruct (Z.le_gt_cases (year_of day) (year_of day')); [done|exfalso].
  destruct (Z.eq_dec (year_of day' + 1) (year_of day)) as [E|]; [rewrite E in *; lia|].
  pose proof (year_start_lt (year_of day' + 1) (year_of day)). lia.
Qed.
