(* ===== verification/Cron.v ===== *)
(** * Cron: schedules in AWS's dialect

    Model of src/internal/awscron/awscron.go: the six fields of a cron expression, and the
    first firing after an instant. *)

From S2P Require Import Prelude Bytes Clock Calendar.

(** ** Data *)

(** A boolean array or a map of integers is the set of what is marked. *)
Record Expression := mkExpression {
  minutes : gset Z;
  hours : gset Z;
  months : gset Z;
  years : gset Z;
  anyYear : bool;
  byDOM : bool;                   (* else by day of the week *)
  dom : gset Z;
  domL : bool;                    (* last day of the month *)
  domW : list Z;                  (* nearest weekday to a day *)
  domLW : bool;                   (* last weekday *)
  dow : gset Z;                   (* 1 is Sunday *)
  dowL : Z;                       (* last such weekday of the month; 0 is none *)
  dowN : list (Z * Z)             (* the k-th such weekday *)
}.

(** ** Sets of a field *)

Definition name_table : Type := list (string * Z).

Definition monthNames : name_table :=
  [("JAN", 1); ("FEB", 2); ("MAR", 3); ("APR", 4); ("MAY", 5); ("JUN", 6);
   ("JUL", 7); ("AUG", 8); ("SEP", 9); ("OCT", 10); ("NOV", 11); ("DEC", 12)].
Definition dayNames : name_table :=
  [("SUN", 1); ("MON", 2); ("TUE", 3); ("WED", 4); ("THU", 5); ("FRI", 6); ("SAT", 7)].

Definition lookup_name (names : name_table) (s : string) : option Z :=
  option_map snd (List.find (fun e => String.eqb e.1 (to_upper s)) names).

Definition atoiNamed (names : name_table) (s : string) : result Z :=
  match lookup_name names s with
  | Some v => Ok v
  | None => match parse_int s with Some v => Ok v | None => Err (plain_error "%q is not a value") end
  end.

(** Marks [v]: an array of [size] panics outside its range, a map takes any key. *)
Definition set_mark (size : option Z) (v : Z) (set : gset Z) : outcome (gset Z) :=
  match size with
  | Some n => if (0 <=? v) && (v <? n) then mret ({[v]} ∪ set) else Panic
  | None => mret ({[v]} ∪ set)
  end.

(** [for v := v; v <= end; v += step]: the addition wraps. *)
Fixpoint mark_steps (fuel : nat) (size : option Z) (v last step : Z) (set : gset Z) : outcome (gset Z) :=
  match fuel with
  | O => OutOfFuel
  | S fuel =>
      if v <=? last then set ← set_mark size v set; mark_steps fuel size (wrap64 (v + step)) last step set
      else mret set
  end.

(** What a field ranges over: its bounds, its names, and the array it marks. *)
Record fieldRange := mkFieldRange { lo : Z; hi : Z; rg_names : name_table; rg_size : option Z }.

Definition mark (r : fieldRange) (v last step : Z) (set : gset Z) : outcome (gset Z) :=
  mark_steps (Z.to_nat (Z.max (hi r) last + 8)) (rg_size r) v last step set.

(** One member of a list. *)
Definition parsePart (r : fieldRange) (part : string) (set : gset Z) : outcome (gset Z) :=
  '(step, part) ← match cut_on "/" part with
    | Some (value, step) =>
        match parse_int step with
        | Some n => if n <=? 0 then Ret (Err (plain_error "bad step in %q")) else mret (n, value)
        | None => Ret (Err (plain_error "bad step in %q"))
        end
    | None => mret (1, part)
    end;
  let plain (first last : Z) : outcome (gset Z) :=
    if (first <? lo r) || (hi r <? last) then Ret (Err (plain_error "%q is outside %d-%d"))
    else mark r first last step set in
  if String.eqb part "*" then plain (lo r) (hi r)
  else match cut_on "-" part with
  | Some (a, b) =>
      first ← Ret (atoiNamed (rg_names r) a);
      last ← Ret (atoiNamed (rg_names r) b);
      if last <? first then set ← mark r first (hi r) step set; mark r (lo r) last step set
      else plain first last
  | None =>
      v ← Ret (atoiNamed (rg_names r) part);
      plain v (if step =? 1 then v else hi r)
  end.

Fixpoint parseParts (r : fieldRange) (parts : list string) (set : gset Z) : outcome (gset Z) :=
  match parts with
  | [] => mret set
  | part :: parts => set ← parsePart r part set; parseParts r parts set
  end.

Definition parseSet (r : fieldRange) (field : string) (set : gset Z) : outcome (gset Z) :=
  if String.eqb field "" then Ret (Err (plain_error "empty field")) else parseParts r (split_on "," field) set.

Definition minute_range : fieldRange := mkFieldRange 0 59 [] (Some 60).
Definition hour_range : fieldRange := mkFieldRange 0 23 [] (Some 24).
Definition month_range : fieldRange := mkFieldRange 1 12 monthNames (Some 13).
Definition year_range : fieldRange := mkFieldRange 1970 2199 [] None.
Definition dom_range : fieldRange := mkFieldRange 1 31 [] (Some 32).
Definition dow_range : fieldRange := mkFieldRange 1 7 dayNames (Some 8).

(** ** Days *)

(** The rules of the day-of-month field. *)
Record dom_rules := mkDom { dm_set : gset Z; dm_L : bool; dm_W : list Z; dm_LW : bool }.

Fixpoint parseDOM_parts (parts : list string) (d : dom_rules) : outcome dom_rules :=
  match parts with
  | [] => mret d
  | part :: parts =>
      d ← (if String.eqb part "L" then mret (mkDom (dm_set d) true (dm_W d) (dm_LW d))
           else if String.eqb part "LW" then mret (mkDom (dm_set d) (dm_L d) (dm_W d) true)
           else match cut_suffix "W" part with
           | Some day =>
               match parse_int day with
               | Some n =>
                   if (n <? 1) || (31 <? n) then Ret (Err (plain_error "%q is not a weekday-nearest day"))
                   else mret (mkDom (dm_set d) (dm_L d) (dm_W d ++ [n]) (dm_LW d))
               | None => Ret (Err (plain_error "%q is not a weekday-nearest day"))
               end
           | None => set ← parseSet dom_range part (dm_set d); mret (mkDom set (dm_L d) (dm_W d) (dm_LW d))
           end);
      parseDOM_parts parts d
  end.
Definition parseDOM (field : string) : outcome dom_rules := parseDOM_parts (split_on "," field) (mkDom ∅ false [] false).

(** The rules of the day-of-week field. *)
Record dow_rules := mkDow { dw_set : gset Z; dw_L : Z; dw_N : list (Z * Z) }.

Definition weekday_arg (s format : string) : result Z :=
  match atoiNamed dayNames s with
  | Ok d => if (d <? 1) || (7 <? d) then Err (plain_error format) else Ok d
  | Err _ => Err (plain_error format)
  end.

Fixpoint parseDOW_parts (parts : list string) (d : dow_rules) : outcome dow_rules :=
  match parts with
  | [] => mret d
  | part :: parts =>
      d ← (if String.eqb part "L" then mret (mkDow ({[7]} ∪ dw_set d) (dw_L d) (dw_N d))
           else match cut_suffix "L" part with
           | Some day => day ← Ret (weekday_arg day "%q is not a last-weekday"); mret (mkDow (dw_set d) day (dw_N d))
           | None =>
               match cut_on "#" part with
               | Some (a, b) =>
                   day ← Ret (weekday_arg a "%q is not a weekday");
                   match parse_int b with
                   | Some n =>
                       if (n <? 1) || (5 <? n) then Ret (Err (plain_error "%q is not an ordinal 1-5"))
                       else if Nat.ltb 0 (length (dw_N d)) then
                         Ret (Err (plain_error "only one #-expression is allowed in the day-of-week field"))
                       else mret (mkDow (dw_set d) (dw_L d) (dw_N d ++ [(day, n)]))
                   | None => Ret (Err (plain_error "%q is not an ordinal 1-5"))
                   end
               | None => set ← parseSet dow_range part (dw_set d); mret (mkDow set (dw_L d) (dw_N d))
               end
           end);
      parseDOW_parts parts d
  end.
Definition parseDOW (field : string) : outcome dow_rules := parseDOW_parts (split_on "," field) (mkDow ∅ 0 []).

Definition parseYears (field : string) : outcome (gset Z * bool) :=
  if String.eqb field "*" then mret (∅, true) else set ← parseSet year_range field ∅; mret (set, false).

(** What is between [cron(] and the closing parenthesis, if they are there. *)
Definition cron_inner (expr : string) : string :=
  let inner := trim_space expr in
  match cut_prefix "cron(" inner with
  | Some rest => match cut_suffix ")" rest with Some s => s | None => inner end
  | None => inner
  end.

Definition Parse (expr : string) : outcome Expression :=
  match fields (cron_inner expr) with
  | [mins; hrs; dms; mons; dws; yrs] =>
      m ← parseSet minute_range mins ∅;
      h ← parseSet hour_range hrs ∅;
      mo ← parseSet month_range mons ∅;
      y ← parseYears yrs;
      let domQ := String.eqb dms "?" in
      let dowQ := String.eqb dws "?" in
      if Bool.eqb domQ dowQ then Ret (Err (plain_error "exactly one of day-of-month and day-of-week must be ?"))
      else if domQ then
        d ← parseDOW dws;
        mret (mkExpression m h mo y.1 y.2 false ∅ false [] false (dw_set d) (dw_L d) (dw_N d))
      else
        d ← parseDOM dms;
        mret (mkExpression m h mo y.1 y.2 true (dm_set d) (dm_L d) (dm_W d) (dm_LW d) ∅ 0 [])
  | _ => Ret (Err (plain_error "a cron expression has six fields, got %d"))
  end.

(** ** Days that match *)

Definition daysIn (y m : Z) : Z := day_of (date y (m + 1) 0).

(** The Monday to Friday closest to a day inside its month. *)
Definition nearestWeekday (y m n : Z) : Z :=
  let last := daysIn y m in
  let n := if last <? n then last else n in
  let wd := weekday (date y m n) in
  if wd =? 6 then if 1 <? n then n - 1 else n + 2
  else if wd =? 0 then if n <? last then n + 1 else n - 2
  else n.

Definition dayMatches (e : Expression) (d : Z) : bool :=
  let y := year_of d in
  let m := month_of d in
  let day := day_of d in
  let last := daysIn y m in
  if byDOM e then
    bool_decide (day ∈ dom e) || (domL e && (day =? last)) ||
    (domLW e && (day =? nearestWeekday y m last)) ||
    existsb (fun n => (n <=? last) && (day =? nearestWeekday y m n)) (domW e)
  else
    let wd := weekday d + 1 in
    bool_decide (wd ∈ dow e) || (negb (dowL e =? 0) && (wd =? dowL e) && (last <? day + 7)) ||
    existsb (fun n => (wd =? n.1) && ((day - 1) / 7 + 1 =? n.2)) (dowN e).

(** ** The next firing *)

(** The last year the search looks at. *)
Definition last_year (e : Expression) : Z := if anyYear e then 2200 else set_fold Z.max 0 (years e).

(** One round at minute [t]: the firing, the end of the search, or where to look next. *)
Definition next_step (e : Expression) (t : Z) : Z + option Z :=
  let d := t / 1440 in
  if last_year e <? year_of d then inr None
  else if negb (anyYear e) && negb (bool_decide (year_of d ∈ years e)) then inl (date (year_of d + 1) 1 1 * 1440)
  else if negb (bool_decide (month_of d ∈ months e)) then inl (date (year_of d) (month_of d + 1) 1 * 1440)
  else if negb (dayMatches e d) then inl (date (year_of d) (month_of d) (day_of d + 1) * 1440)
  else if negb (bool_decide (t mod 1440 / 60 ∈ hours e)) then inl (date (year_of d) (month_of d) (day_of d) * 1440 + (t mod 1440 / 60 + 1) * 60)
  else if negb (bool_decide (t mod 60 ∈ minutes e)) then inl (t + 1)
  else inr (Some t).

(** At most 2^[k] rounds. *)
Fixpoint rounds {A R} (step : A -> A + R) (k : nat) (a : A) : A + R :=
  match k with
  | O => step a
  | S k => match rounds step k a with inl a => rounds step k a | inr r => inr r end
  end.

(** Minutes, from nanoseconds since 1970 and back. *)
Definition unix_epoch : Z := date 1970 1 1 * 1440.
Definition minute_of (ns : Z) : Z := ns / (60 * second) + unix_epoch.
Definition instant (t : Z) : Z := (t - unix_epoch) * (60 * second).

(** The minutes left before the search ends. *)
Definition horizon (e : Expression) (t : Z) : Z := Z.max 1 (date (last_year e + 1) 1 1 * 1440 - t + 1).

Definition next_loop (e : Expression) (t : Z) : option (option Z) :=
  match rounds (next_step e) (Z.to_nat (Z.log2_up (horizon e t))) t with inr r => Some r | inl _ => None end.

Definition Next (e : Expression) (after : Z) : option Z :=
  option_map instant (default None (next_loop e (minute_of after + 1))).
