(* ===== verification/CronSpec.v ===== *)
(** * CronSpec: what a schedule means

    The search for the next firing ends and skips nothing; the rules of days mean what the
    dialect says; a field marks what it denotes, and where parsing panics. *)

From stdpp Require Import pretty.
From S2P Require Import Prelude Bytes Clock Digits Calendar Cron.

(** ** Rounds *)

Lemma rounds_spec {A R} (step : A -> A + R) (mu : A -> Z) (I : A -> A -> Prop) :
  (forall a, I a a) -> (forall a b c, I a b -> I b c -> I a c) ->
  (forall a a', step a = inl a' -> I a a' /\ 0 <= mu a' < mu a) ->
  forall k a, match rounds step k a with
    | inl a' => I a a' /\ 0 <= mu a' <= mu a - 2 ^ Z.of_nat k
    | inr r => exists b, I a b /\ step b = inr r
    end.
Proof.
  intros Hrefl Htrans Hstep k. induction k as [|k IH]; intros a.
  - cbn [rounds]. destruct (step a) as [a'|r] eqn:E; [|by exists a]. destruct (Hstep a a' E). split; [done|]. simpl Z.of_nat. lia.
  - cbn [rounds]. specialize (IH a) as IHa. destruct (rounds step k a) as [b|r]; [|done]. destruct IHa as [Hab Hb].
    specialize (IH b). destruct (rounds step k b) as [c|r].
    + destruct IH as [Hbc Hc]. split; [by eapply Htrans|]. rewrite Nat2Z.inj_succ, Z.pow_succ_r; lia.
    + destruct IH as (c & Hbc & E). exists c. split; [by eapply Htrans|done].
Qed.

(** ** Firings *)

(** A minute at which a schedule fires. *)
Definition fires (e : Expression) (t : Z) : bool :=
  (anyYear e || bool_decide (year_of (t / 1440) ∈ years e)) && bool_decide (month_of (t / 1440) ∈ months e) &&
  dayMatches e (t / 1440) && bool_decide (t mod 1440 / 60 ∈ hours e) && bool_decide (t mod 60 ∈ minutes e).

Definition quiet (e : Expression) (t t' : Z) : Prop := t <= t' /\ forall s, t <= s < t' -> fires e s = false.

Lemma quiet_trans e t u v : quiet e t u -> quiet e u v -> quiet e t v.
Proof.
  intros [H1 H2] [H3 H4]. split; [lia|]. intros s Hs. destruct (Z.lt_ge_cases s u); [apply H2|apply H4]; lia.
Qed.

Lemma last_year_bound e y : anyYear e = false -> y ∈ years e -> y <= last_year e.
Proof.
  intros Ha. unfold last_year. rewrite Ha. revert y.
  apply (set_fold_ind_L (fun r X => forall y, y ∈ X -> y <= r)); [set_solver|].
  intros x X r _ IH y [->%elem_of_singleton|Hy]%elem_of_union; [lia|]. specialize (IH y Hy). lia.
Qed.

Lemma date_next_day d : date (year_of d) (month_of d) (day_of d + 1) = d + 1.
Proof. rewrite <- (date_of_day d) at 4. unfold date. lia. Qed.

(** A round either finds a firing, or moves on over minutes at which there is none. *)
Lemma next_step_spec e t :
  match next_step e t with
  | inl t' => quiet e t t' /\ t < t' <= date (last_year e + 1) 1 1 * 1440
  | inr (Some t') => t' = t /\ fires e t = true
  | inr None => last_year e < year_of (t / 1440)
  end.
Proof.
  unfold next_step. set (d := t / 1440). assert (t = d * 1440 + t mod 1440 /\ 0 <= t mod 1440 < 1440) as [Et Hm] by (unfold d; zdiv).
  destruct (Z.ltb_spec (last_year e) (year_of d)) as [|Hy]; [done|].
  assert (date (year_of d + 1) 1 1 <= date (last_year e + 1) 1 1) as Hend.
  { rewrite !date_next_year. destruct (Z.eq_dec (year_of d) (last_year e)) as [->|]; [done|].
    pose proof (year_start_lt (year_of d + 1) (last_year e + 1)). lia. }
  assert (d + 1 <= date (year_of d + 1) 1 1) as Hd1 by (rewrite date_next_year; pose proof (year_of_spec d); lia).
  assert (date (year_of d) (month_of d + 1) 1 <= date (year_of d + 1) 1 1) as Hmon.
  { destruct (month_of_spec d) as [Hm12 _]. rewrite date_next_month, date_next_year, leap_cases by done.
    pose proof (month_start_le (leap (year_of d)) (month_of d + 1) 13).
    assert (month_start (leap (year_of d)) 13 = 365 + (if leap (year_of d) then 1 else 0)) by (by destruct (leap (year_of d))). lia. }
  assert (forall t', t < t' -> (forall s, d <= s / 1440 -> s < t' -> (s / 1440 = d -> t <= s) -> fires e s = false) -> quiet e t t') as Hq.
  { intros t' Ht' Hs. split; [lia|]. intros s [Hs1 Hs2]. apply Hs; [unfold d; zdiv|done|done]. }
  destruct (_ && _) eqn:E1.
  { split; [|lia]. apply Hq; [lia|]. intros s Hs Hs' _. unfold fires. rewrite (same_year d (s / 1440)) by zdiv.
    apply andb_true_iff in E1 as [Ea Eb]. apply negb_true_iff in Ea, Eb. by rewrite Ea, Eb. }
  assert (d + 1 <= date (year_of d) (month_of d + 1) 1) as Hd2.
  { destruct (month_of_spec d) as [Hm12 ?]. rewrite date_next_month by done. lia. }
  destruct (bool_decide (month_of d ∈ months e)) eqn:E2; cbn [negb].
  2: { split; [|lia]. apply Hq; [lia|]. intros s Hs Hs' _. unfold fires. destruct (same_month d (s / 1440)) as [-> ->]; [zdiv|].
    by rewrite E2, andb_false_r. }
  rewrite date_next_day. destruct (dayMatches e d) eqn:E3; cbn [negb].
  2: { split; [|lia]. apply Hq; [lia|]. intros s Hs Hs' _. unfold fires. assert (s / 1440 = d) as -> by zdiv. by rewrite E3, !andb_false_r. }
  rewrite date_of_day. destruct (bool_decide (t mod 1440 / 60 ∈ hours e)) eqn:E4; cbn [negb].
  2: { assert (t mod 1440 / 60 <= 23) by zdiv. split; [|split; [zdiv|lia]]. apply Hq; [zdiv|]. intros s Hs Hs' Hs''. unfold fires.
    assert (s / 1440 = d) as Es by zdiv. assert (s mod 1440 / 60 = t mod 1440 / 60) as -> by (specialize (Hs'' Es); zdiv).
    by rewrite E4, andb_false_r. }
  destruct (bool_decide (t mod 60 ∈ minutes e)) eqn:E5; cbn [negb].
  2: { split; [|lia]. split; [lia|]. intros s Hs. assert (s = t) as -> by lia. unfold fires. by rewrite E5, andb_false_r. }
  split; [done|]. unfold fires. fold d. rewrite E2, E3, E4, E5. destruct (anyYear e), (bool_decide (year_of d ∈ years e)); done.
Qed.

(** The search ends. *)
Lemma next_loop_spec e t :
  exists r, next_loop e t = Some r /\
    match r with
    | Some t' => quiet e t t' /\ fires e t' = true
    | None => exists t', quiet e t t' /\ last_year e < year_of (t' / 1440)
    end.
Proof.
  unfold next_loop. set (bound := date (last_year e + 1) 1 1 * 1440).
  pose proof (rounds_spec (next_step e) (fun t => bound - t) (quiet e)) as Hr.
  specialize (Hr ltac:(intros a; split; [lia|intros; lia]) ltac:(intros; by eapply quiet_trans)).
  assert (forall a a', next_step e a = inl a' -> quiet e a a' /\ 0 <= bound - a' < bound - a) as Hstep.
  { intros a a' E. pose proof (next_step_spec e a) as Hs. rewrite E in Hs. destruct Hs as [Hq Hb]. split; [done|]. fold bound in Hb. lia. }
  specialize (Hr Hstep (Z.to_nat (Z.log2_up (horizon e t))) t).
  destruct (rounds _ _ _) as [t'|r].
  { exfalso. destruct Hr as [_ Hb]. rewrite Z2Nat.id in Hb by apply Z.log2_up_nonneg.
    assert (horizon e t <= 2 ^ Z.log2_up (horizon e t)) as Hh.
    { destruct (Z.eq_dec (horizon e t) 1) as [->|]; [done|]. apply Z.log2_up_spec. unfold horizon in *. lia. }
    unfold horizon in Hh at 1. fold bound in Hh. lia. }
  exists r. split; [done|]. destruct Hr as (b & Hq & E). pose proof (next_step_spec e b) as Hs. rewrite E in Hs.
  destruct r as [t'|]; [destruct Hs as [-> Hf]; done|by exists b].
Qed.

Lemma instant_minute after t : after < instant t <-> minute_of after + 1 <= t.
Proof. unfold instant, minute_of, second. zdiv. Qed.

Lemma instant_mono s t : instant s < instant t <-> s < t.
Proof. unfold instant, second. lia. Qed.

(** A search that ends has missed only firings after the year 2200. *)
Lemma search_end e t t' s : quiet e t t' -> last_year e < year_of (t' / 1440) -> t <= s -> fires e s = true ->
  anyYear e = true /\ 2200 < year_of (s / 1440).
Proof.
  intros [Hle Hq] Hy Hs Hfs. assert (t' <= s) as Hts by (destruct (Z.lt_ge_cases s t'); [by rewrite Hq in Hfs by lia|lia]).
  assert (last_year e < year_of (s / 1440)) as Hly.
  { pose proof (year_of_le (t' / 1440) (s / 1440)). assert (t' / 1440 <= s / 1440) by zdiv. lia. }
  destruct (anyYear e) eqn:Ea; [split; [done|]; unfold last_year in Hly; by rewrite Ea in Hly|exfalso].
  unfold fires in Hfs. rewrite Ea in Hfs. cbn [orb] in Hfs. zbool.
  match goal with H : bool_decide (_ ∈ years e) = true |- _ => apply bool_decide_eq_true in H; apply (last_year_bound e _ Ea) in H end. lia.
Qed.

(** C17: [Next] answers the least firing after an instant.  Its search always ends; an answer is
    strictly later, is a minute at which the schedule fires, and no firing lies between; and
    when there is no answer there is no later firing, but one after the year 2200 for a
    schedule of every year. *)
Theorem Next_least e after :
  exists r, next_loop e (minute_of after + 1) = Some r /\ Next e after = option_map instant r /\
    match r with
    | Some t => after < instant t /\ fires e t = true /\ forall s, after < instant s -> fires e s = true -> t <= s
    | None => forall s, after < instant s -> fires e s = true -> anyYear e = true /\ 2200 < year_of (s / 1440)
    end.
Proof.
  destruct (next_loop_spec e (minute_of after + 1)) as (r & E & Hr). exists r. split; [done|].
  split; [unfold Next; by rewrite E|]. destruct r as [t|].
  - destruct Hr as [[Hle Hq] Hf]. split; [by apply instant_minute|]. split; [done|]. intros s Hs%instant_minute Hfs.
    destruct (Z.lt_ge_cases s t); [|lia]. by rewrite Hq in Hfs by lia.
  - destruct Hr as (t' & Hq & Hy). intros s Hs%instant_minute. by apply (search_end _ _ _ _ Hq Hy).
Qed.

(** ** Days *)

Definition workday (y m d : Z) : Prop := 1 <= weekday (date y m d) <= 5.

(** The Monday to Friday of a month that is closest to its [n]th. *)
Definition closest (y m n d : Z) : Prop :=
  1 <= d <= month_len y m /\ workday y m d /\
  forall d', 1 <= d' <= month_len y m -> workday y m d' -> Z.abs (d - n) <= Z.abs (d' - n).

Lemma month_len_bounds y m : 1 <= m <= 12 -> 28 <= month_len y m <= 31.
Proof. intros Hm. unfold month_len. pose proof (month_start_step (leap y) m Hm). lia. Qed.

Lemma daysIn_len y m : 1 <= m <= 12 -> daysIn y m = month_len y m.
Proof. apply last_day. Qed.

Lemma nearest_is_closest y m n d :
  1 <= m <= 12 -> 1 <= n <= month_len y m -> d = nearestWeekday y m n <-> closest y m n d.
Proof.
  intros Hm Hn. pose proof (month_len_bounds y m Hm) as Hlen. unfold nearestWeekday, closest, workday. rewrite daysIn_len by done.
  rewrite (proj2 (Z.ltb_ge _ _)) by lia. set (b := date y m 0). assert (forall d, date y m d = b + d) as Hb by (intros; unfold b, date; lia).
  clearbody b. rewrite !Hb. setoid_rewrite Hb. clear Hb. set (wd := weekday (b + n)).
  assert (forall k, weekday (b + k) = (wd + (k - n)) mod 7) as Hwd by (intros; unfold wd, weekday; zdiv).
  assert (0 <= wd < 7) as Hr by (unfold wd, weekday; zdiv). setoid_rewrite Hwd. clearbody wd. clear Hwd b. set (len := month_len y m) in *. clearbody len.
  destruct (Z.eqb_spec wd 6) as [E6|E6]; [destruct (Z.ltb_spec 1 n)|destruct (Z.eqb_spec wd 0) as [E0|E0]; [destruct (Z.ltb_spec n len)|]].
  all: match goal with |- _ = ?x <-> _ => split; [intros ->; split; [lia|]; split; [zdiv|]; intros d' Hd' Hw; zdiv|
      intros (H1 & H2 & H3); specialize (H3 x); zdiv] end.
Qed.

(** The days of a month up to the [n]th that are the weekday of the [d]th. *)
Lemma count_weekday y m d n : 1 <= d -> 0 <= n ->
  Z.of_nat (length (filter (fun k => weekday (date y m k) = weekday (date y m d)) (seqZ 1 n))) = (n + 6 - (d - 1) mod 7) / 7.
Proof.
  intros Hd. revert n. refine (natlike_ind _ _ _); [rewrite seqZ_nil by lia; cbn [filter list_filter length]; zdiv|].
  intros n Hn IH. unfold Z.succ.
  rewrite seqZ_app by lia. rewrite filter_app, length_app, Nat2Z.inj_add, IH. cbn [seqZ].
  assert (seqZ (1 + n) 1 = [1 + n]) as -> by (rewrite seqZ_cons by lia; by rewrite seqZ_nil by lia).
  assert (weekday (date y m (1 + n)) = weekday (date y m d) <-> n mod 7 = (d - 1) mod 7) as Hw by (unfold weekday, date; zdiv).
  rewrite filter_cons. case_decide as E; rewrite Hw in E; cbn [filter list_filter length]; zdiv.
Qed.

(** The day after the last of a month is in another. *)
Lemma last_of_month d : day_of d = month_len (year_of d) (month_of d) <-> month_of (d + 1) <> month_of d.
Proof.
  destruct (month_of_spec d) as [Hm _]. pose proof (day_of_spec d) as Hd. pose proof (date_next_day d) as En.
  set (y := year_of d) in *. set (m := month_of d) in *. set (day := day_of d) in *. rewrite <- En. split; [intros ->|intros Hne].
  - assert (date y m (month_len y m + 1) = date y (m + 1) 1) as -> by (rewrite date_next_month, date_in_month by done; unfold month_len; lia).
    destruct (Z.eq_dec m 12) as [->|].
    + rewrite date_december. destruct (date_fields (y + 1) 1 1) as (_ & -> & _); [lia|pose proof (month_len_bounds (y + 1) 1); lia|lia].
    + destruct (date_fields y (m + 1) 1) as (_ & -> & _); [lia|pose proof (month_len_bounds y (m + 1)); lia|lia].
  - destruct (Z.eq_dec day (month_len y m)); [done|]. exfalso. apply Hne.
    by destruct (date_fields y m (day + 1)) as (_ & -> & _); [|lia|].
Qed.

(** No later day of the month is the same weekday. *)
Lemma last_such_weekday d :
  month_len (year_of d) (month_of d) < day_of d + 7 <->
  forall d', d < d' -> month_of d' = month_of d -> year_of d' = year_of d -> weekday d' <> weekday d.
Proof.
  destruct (month_of_spec d) as [Hm _]. pose proof (day_of_spec d) as Hd. pose proof (date_of_day d) as Ed.
  assert (forall k, date (year_of d) (month_of d) (day_of d + k) = d + k) as Edk by (intros; rewrite <- Ed at 4; unfold date; lia). split.
  - intros Hl d' Hd' Em Ey Ew. pose proof (day_of_spec d') as Hd''. pose proof (date_of_day d') as Ed'.
    rewrite Em, Ey in Hd'', Ed'. assert (d' = d + (day_of d' - day_of d)) as E by (rewrite <- Edk, Zplus_minus; by rewrite Ed').
    unfold weekday in Ew. zdiv.
  - intros Hno. destruct (Z.lt_ge_cases (month_len (year_of d) (month_of d)) (day_of d + 7)); [done|exfalso].
    destruct (date_fields (year_of d) (month_of d) (day_of d + 7)) as (E1 & E2 & _); [done|lia|]. rewrite Edk in E1, E2.
    apply (Hno (d + 7)); [lia|done|done|]. unfold weekday. zdiv.
Qed.

(** The rules of days mean what the dialect says of them.  A day-of-month field admits a listed
    day, with L the last of the month, with nW the Monday to Friday of the month closest to
    day n, where there is such a day, and with LW the one closest to the last; a
    day-of-week field admits a listed weekday, with nL the last such weekday of the month,
    and with n#k the k-th such weekday of the month. *)
Lemma day_rules e d :
  Forall (fun n => 1 <= n) (domW e) ->
  let y := year_of d in let m := month_of d in let day := day_of d in let wd := weekday d + 1 in
  dayMatches e d = true <->
  if byDOM e then
    day ∈ dom e \/ (domL e = true /\ month_of (d + 1) <> m) \/ (domLW e = true /\ closest y m (month_len y m) day) \/
    exists n, n ∈ domW e /\ n <= month_len y m /\ closest y m n day
  else
    wd ∈ dow e \/ (dowL e <> 0 /\ wd = dowL e /\ forall d', d < d' -> month_of d' = m -> year_of d' = y -> weekday d' <> weekday d) \/
    exists w k, (w, k) ∈ dowN e /\ wd = w /\
      Z.of_nat (length (filter (fun n => weekday (date y m n) = weekday d) (seqZ 1 day))) = k.
Proof.
  intros HW y m day wd. destruct (month_of_spec d) as [Hm _]. fold m in Hm. pose proof (day_of_spec d) as Hday. fold y m day in Hday.
  assert (date y m day = d) as Ed by apply date_of_day.
  unfold dayMatches. fold y m day wd. rewrite daysIn_len by done. pose proof (month_len_bounds y m Hm) as Hlen.
  destruct (byDOM e).
  - rewrite !orb_true_iff, !andb_true_iff, bool_decide_eq_true, existsb_exists, !Z.eqb_eq, nearest_is_closest by lia.
    rewrite (last_of_month d : day = month_len y m <-> month_of (d + 1) <> m).
    setoid_rewrite andb_true_iff. setoid_rewrite Z.leb_le. setoid_rewrite Z.eqb_eq. setoid_rewrite <- list_elem_of_In.
    assert ((exists n, n ∈ domW e /\ n <= month_len y m /\ day = nearestWeekday y m n) <->
            (exists n, n ∈ domW e /\ n <= month_len y m /\ closest y m n day)) as ->; [|tauto].
    rewrite Forall_forall in HW. split; intros (n & Hn & Hl & H); exists n; split; try done; split; try done;
      apply nearest_is_closest; try done; specialize (HW n Hn); lia.
  - rewrite !orb_true_iff, !andb_true_iff, bool_decide_eq_true, existsb_exists, negb_true_iff, Z.eqb_eq, Z.eqb_neq, Z.ltb_lt.
    rewrite (last_such_weekday d : month_len y m < day + 7 <-> _).
    setoid_rewrite andb_true_iff. setoid_rewrite Z.eqb_eq. setoid_rewrite <- list_elem_of_In.
    assert ((exists x : Z * Z, x ∈ dowN e /\ wd = x.1 /\ (day - 1) / 7 + 1 = x.2) <->
      (exists w k, (w, k) ∈ dowN e /\ wd = w /\ Z.of_nat (length (filter (fun n => weekday (date y m n) = weekday d) (seqZ 1 day))) = k)) as ->; [|tauto].
    pose proof (count_weekday y m day day) as Hc. rewrite Ed in Hc. rewrite Hc by lia.
    assert ((day + 6 - (day - 1) mod 7) / 7 = (day - 1) / 7 + 1) as -> by zdiv.
    split; [intros ([w k] & ? & ? & ?); by exists w, k|intros (w & k & ? & ? & ?); by exists (w, k)].
Qed.

(** The Monday to Friday closest to the first of August 2026, a Saturday, is the third. *)
Lemma day_rules_witness :
  let e := mkExpression ∅ ∅ ∅ ∅ true true ∅ false [1] false ∅ 0 [] in
  dayMatches e (date 2026 8 3) = true /\ exists n, n ∈ domW e /\ n <= month_len 2026 8 /\ closest 2026 8 n 3.
Proof.
  intros e. assert (dayMatches e (date 2026 8 3) = true) as H by (vm_compute; reflexivity). split; [exact H|].
  apply (day_rules e (date 2026 8 3)) in H; [|by repeat constructor].
  destruct H as [Hin|[[Hl _]|[[Hl _]|(n & Hn & Hle & Hc)]]]; [by apply elem_of_empty in Hin|done|done|].
  exists n. split; [exact Hn|split; [exact Hle|exact Hc]].
Defined.

(** ** Marking *)

(** The fields of an expression: what they range over fits what they mark. *)
Record range_ok (r : fieldRange) : Prop := {
  rk_lo : 0 <= lo r <= hi r;
  rk_hi : hi r < 2 ^ 61;
  rk_size : match rg_size r with Some n => hi r < n | None => True end;
  rk_names : Forall (fun e => 0 <= e.2) (rg_names r)
}.

Lemma mark_small r v last step set :
  range_ok r -> 0 <= v -> last <= hi r -> 1 <= step < 2 ^ 62 ->
  exists set', mark r v last step set = Ret (Ok set') /\
    forall x, x ∈ set' <-> x ∈ set \/ (v <= x <= last /\ (x - v) mod step = 0).
Proof.
  intros [Hr Hh Hsz _] Hv Hl Hs. unfold mark.
  assert (exists fuel, Z.to_nat (Z.max (hi r) last + 8) = fuel /\ last - v + 2 <= Z.of_nat fuel /\ (0 < fuel)%nat) as (fuel & -> & Hf & Hpos) by (eexists; split; [done|lia]).
  revert v set Hv Hf. induction fuel as [|fuel IH]; intros v set Hv Hf; [lia|]. cbn [mark_steps].
  destruct (Z.leb_spec v last) as [Hle|Hgt].
  2: { exists set. split; [done|]. intros x. split; [tauto|]. intros [?|[? _]]; [done|lia]. }
  assert (set_mark (rg_size r) v set = Ret (Ok ({[v]} ∪ set))) as ->.
  { unfold set_mark. destruct (rg_size r) as [n|]; [|done]. by rewrite (proj2 (Z.leb_le _ _)), (proj2 (Z.ltb_lt _ _)) by lia. }
  cbn [mbind outcome_mbind outcome_bind]. rewrite wrap64_small by lia.
  destruct fuel as [|fuel]; [lia|]. destruct (IH ltac:(lia) (v + step) ({[v]} ∪ set)) as (set' & E & Hin); [lia|lia|].
  exists set'. split; [done|]. intros x. rewrite Hin, elem_of_union, elem_of_singleton.
  assert ((x - v) mod step = (x - (v + step)) mod step) as Hm.
  { replace (x - v) with (x - (v + step) + 1 * step) by lia. by rewrite Z.mod_add by lia. }
  rewrite Hm. split.
  - intros [[->|?]|[? ?]]; [|tauto|right; split; [lia|done]]. right. split; [lia|].
    replace (v - (v + step)) with (- 1 * step) by lia. by apply Z.mod_mul; lia.
  - intros [?|[Hx E']]; [tauto|]. destruct (Z.eq_dec x v) as [->|]; [tauto|]. right. split; [|done]. split; [|lia].
    destruct (Z.le_gt_cases (v + step) x); [done|exfalso].
    replace (x - (v + step)) with (x - v + - 1 * step) in E' by lia. rewrite Z.mod_add, Z.mod_small in E' by lia. lia.
Qed.

(** ** Fields that fit

    The steps of a field are far from the width of an integer, and no range ends above the
    field's. *)

Definition part_fits (r : fieldRange) (part : string) : bool :=
  let '(value, step) := match cut_on "/" part with Some (v, k) => (v, default 1 (parse_int k)) | None => (part, 1) end in
  (step <? 2 ^ 62) &&
  match cut_on "-" value with
  | Some (_, b) => match atoiNamed (rg_names r) b with Ok n => n <=? hi r | Err _ => true end
  | None => true
  end.

Definition field_fits (r : fieldRange) (field : string) : bool := forallb (part_fits r) (split_on "," field).

Definition expr_fits (expr : string) : bool :=
  match fields (cron_inner expr) with
  | [mins; hrs; dms; mons; dws; yrs] =>
      field_fits minute_range mins && field_fits hour_range hrs && field_fits dom_range dms &&
      field_fits month_range mons && field_fits dow_range dws && field_fits year_range yrs
  | _ => true
  end.

Lemma parse_digits_nonneg s acc n : 0 <= acc -> parse_digits acc s = Some n -> 0 <= n.
Proof.
  revert acc. induction s as [|c s IH]; intros acc Ha; cbn [parse_digits]; [by intros [= <-]|].
  destruct (_ && _) eqn:E; [|done]. apply IH. zbool. lia.
Qed.

Lemma atoi_nonneg r s v : range_ok r -> has_char "-" s = false -> atoiNamed (rg_names r) s = Ok v -> 0 <= v.
Proof.
  intros [_ _ _ Hn] Hs. unfold atoiNamed, lookup_name. destruct (List.find _ _) as [e|] eqn:Ef; cbn [option_map].
  - intros [= <-]. apply List.find_some in Ef as [Hin _]. rewrite Forall_forall in Hn. by apply Hn, list_elem_of_In.
  - destruct (parse_int s) as [n|] eqn:Ep; [|done]. intros [= ->]. revert Ep. unfold parse_int. destruct s as [|c s]; [done|].
    cbn [has_char] in Hs. apply orb_false_iff in Hs as [Hc _]. rewrite Hc.
    destruct (Ascii.eqb c "+"); (destruct (String.eqb _ _); [done|]); (destruct (parse_digits 0 _) as [d|] eqn:Ed; [|done]);
      apply parse_digits_nonneg in Ed; try lia; cbn; case_match; by intros [= <-] || done.
Qed.

Definition settles {A} (m : outcome A) : Prop := exists r, m = Ret r.

Lemma settles_bind {A B} (m : outcome A) (f : A -> outcome B) :
  settles m -> (forall a, m = Ret (Ok a) -> settles (f a)) -> settles (m ≫= f).
Proof. intros [[a|e] ->] Hf; [by apply Hf|by exists (Err e)]. Qed.

Lemma settles_ret {A} (r : result A) : settles (Ret r).
Proof. by exists r. Qed.
Lemma settles_mret {A} (a : A) : settles (mret a).
Proof. by exists (Ok a). Qed.
#[local] Hint Resolve settles_ret settles_mret : core.

Lemma mark_settles r v last step set :
  range_ok r -> 0 <= v -> last <= hi r -> 1 <= step < 2 ^ 62 -> settles (mark r v last step set).
Proof. intros. destruct (mark_small r v last step set) as (set' & -> & _); auto. Qed.

Lemma parsePart_settles r part set : range_ok r -> part_fits r part = true -> settles (parsePart r part set).
Proof.
  intros Hr Hf. unfold parsePart. apply settles_bind.
  { destruct (cut_on "/" part) as [[v k]|]; [|done]. destruct (parse_int k) as [n|]; [|done]. by destruct (n <=? 0). }
  intros [step value] Ev. assert (1 <= step < 2 ^ 62 /\ match cut_on "-" value with
      | Some (_, b) => match atoiNamed (rg_names r) b with Ok n => n <= hi r | Err _ => True end | None => True end) as [Hstep Hlast].
  { unfold part_fits in Hf. destruct (cut_on "/" part) as [[v k]|].
    - destruct (parse_int k) as [n|]; [|done]. cbn [from_option] in Hf. unfold id in Hf. destruct (Z.leb_spec n 0); [done|]. injection Ev as <- <-. zbool.
      split; [lia|]. destruct (cut_on "-" v) as [[? b]|]; [|done]. destruct (atoiNamed _ b); [by zbool|done].
    - injection Ev as <- <-. zbool. split; [lia|]. destruct (cut_on "-" part) as [[? b]|]; [|done]. destruct (atoiNamed _ b); [by zbool|done]. }
  clear Hf Ev. pose proof (rk_lo _ Hr) as Hlo.
  assert (forall first last, settles (if (first <? lo r) || (hi r <? last) then Ret (Err (plain_error "%q is outside %d-%d")) else mark r first last step set)) as Hplain.
  { intros first last. destruct (_ || _) eqn:E; [done|]. zbool. apply mark_settles; lia || done. }
  destruct (String.eqb value "*"); [apply Hplain|]. destruct (cut_on "-" value) as [[a b]|] eqn:Ec.
  - apply settles_bind; [done|]. intros first Ea. apply settles_bind; [done|]. intros last Eb. injection Ea as Ea. injection Eb as Eb. rewrite Eb in Hlast.
    destruct (Z.ltb_spec last first); [|apply Hplain]. apply cut_on_some in Ec as [Hn _]. apply (atoi_nonneg r) in Ea; [|done..].
    apply settles_bind; [|intros set' _]; apply mark_settles; done || lia.
  - apply settles_bind; [done|]. intros. apply Hplain.
Qed.

Lemma parseSet_settles r field set : range_ok r -> field_fits r field = true -> settles (parseSet r field set).
Proof.
  intros Hr. unfold parseSet, field_fits. destruct (String.eqb field ""); [done|]. revert set. induction (split_on "," field) as [|part parts IH]; intros set; [by intros; apply settles_mret|].
  cbn [forallb parseParts]. intros [Hp Hps]%andb_true_iff. apply settles_bind; [by apply parsePart_settles|]. intros. by apply IH.
Qed.

(** A list of parts that each fit. *)
Lemma part_settles r part set : range_ok r -> has_char "," part = false -> part_fits r part = true -> settles (parseSet r part set).
Proof. intros Hr Hc Hp. apply parseSet_settles; [done|]. unfold field_fits. rewrite split_on_none by done. cbn [forallb]. by rewrite Hp. Qed.

Lemma dom_range_ok : range_ok dom_range. Proof. split; cbn; lia || done. Qed.
Lemma dow_range_ok : range_ok dow_range. Proof. split; cbn; [lia|lia|done|repeat constructor; done]. Qed.
Lemma minute_range_ok : range_ok minute_range. Proof. split; cbn; lia || done. Qed.
Lemma hour_range_ok : range_ok hour_range. Proof. split; cbn; lia || done. Qed.
Lemma year_range_ok : range_ok year_range. Proof. split; cbn; lia || done. Qed.
Lemma month_range_ok : range_ok month_range. Proof. split; cbn; [lia|lia|done|repeat constructor; done]. Qed.

Lemma parseDOM_settles field : field_fits dom_range field = true -> settles (parseDOM field).
Proof.
  unfold parseDOM, field_fits. intros Hf. pose proof (split_on_parts "," field) as Hc. revert Hf Hc. generalize (mkDom ∅ false [] false) as d.
  induction (split_on "," field) as [|part parts IH]; intros d Hf Hc; [apply settles_mret|]. cbn [forallb parseDOM_parts] in *. apply andb_true_iff in Hf as [Hp Hps].
  apply settles_bind; [|intros; apply IH; [done|]; intros; apply Hc; by right].
  repeat case_match; try done. apply settles_bind; [|done]. apply part_settles; [apply dom_range_ok|apply Hc; by left|done].
Qed.

Lemma parseDOW_settles field : field_fits dow_range field = true -> settles (parseDOW field).
Proof.
  unfold parseDOW, field_fits. intros Hf. pose proof (split_on_parts "," field) as Hc. revert Hf Hc. generalize (mkDow ∅ 0 []) as d.
  induction (split_on "," field) as [|part parts IH]; intros d Hf Hc; [apply settles_mret|]. cbn [forallb parseDOW_parts] in *. apply andb_true_iff in Hf as [Hp Hps].
  apply settles_bind; [|intros; apply IH; [done|]; intros; apply Hc; by right].
  repeat case_match; try done; (apply settles_bind; [|intros; repeat case_match; done]); try done.
  apply part_settles; [apply dow_range_ok|apply Hc; by left|done].
Qed.

(** Parsing answers or refuses an expression whose steps are below 2^62 and whose ranges do
    not end above their field: it neither runs out of fuel nor panics.  Without the bounds it
    panics, though every text should be refused with an error: the bounds of a range that
    wraps around are not checked, and a step near the width of an integer overflows, and
    either leaves the field's array. *)
Lemma Parse_total :
  (forall expr, expr_fits expr = true -> exists r, Parse expr = Ret r) /\
  Parse "cron(90-70 * * * ? *)" = Panic /\ Parse "cron(1/9223372036854775807 * * * ? *)" = Panic.
Proof.
  split; [|split; vm_compute; reflexivity]. intros expr. unfold expr_fits, Parse.
  destruct (fields (cron_inner expr)) as [|mins [|hrs [|dms [|mons [|dws [|yrs [|]]]]]]]; try (intros; by eexists).
  rewrite !andb_true_iff. intros (((((H1 & H2) & H3) & H4) & H5) & H6).
  apply settles_bind; [by apply parseSet_settles; [apply minute_range_ok|]|intros m _].
  apply settles_bind; [by apply parseSet_settles; [apply hour_range_ok|]|intros h _].
  apply settles_bind; [by apply parseSet_settles; [apply month_range_ok|]|intros mo _].
  apply settles_bind; [unfold parseYears; destruct (String.eqb yrs "*"); [done|]; apply settles_bind; [by apply parseSet_settles; [apply year_range_ok|]|done]|intros y _].
  destruct (Bool.eqb _ _); [done|]. destruct (String.eqb dms "?").
  - apply settles_bind; [by apply parseDOW_settles|done].
  - apply settles_bind; [by apply parseDOM_settles|done].
Qed.

(** ** What a field denotes *)

Definition steps_from (first last n v : Z) : Prop := first <= v <= last /\ (v - first) mod n = 0.

(** A value as a field writes it, a number or a name. *)
Record word (r : fieldRange) (x : string) (v : Z) : Prop := {
  wd_comma : has_char "," x = false;
  wd_slash : has_char "/" x = false;
  wd_dash : has_char "-" x = false;
  wd_star : x <> "*" /\ x <> "";
  wd_value : atoiNamed (rg_names r) x = Ok v;
  wd_range : lo r <= v <= hi r
}.

(** What an item denotes under a step. *)
Inductive item_means (r : fieldRange) (n : Z) : string -> (Z -> Prop) -> Prop :=
| im_star : item_means r n "*" (steps_from (lo r) (hi r) n)
| im_one x v : word r x v -> item_means r n x (steps_from v (if n =? 1 then v else hi r) n)
| im_span x y a b : word r x a -> word r y b -> a <= b -> item_means r n (x +:+ "-" +:+ y) (steps_from a b n)
| im_wrap x y a b : word r x a -> word r y b -> b < a ->
    item_means r n (x +:+ "-" +:+ y) (fun v => steps_from a (hi r) n v \/ steps_from (lo r) b n v).

Inductive part_means (r : fieldRange) : string -> (Z -> Prop) -> Prop :=
| pm_plain t P : item_means r 1 t P -> part_means r t P
| pm_step t k n P : has_char "," k = false -> parse_int k = Some n -> 1 <= n < 2 ^ 62 -> item_means r n t P ->
    part_means r (t +:+ "/" +:+ k) P.

Lemma item_chars r n t P : item_means r n t P -> has_char "," t = false /\ has_char "/" t = false /\ t <> "".
Proof.
  destruct 1 as [|x v [] |x y a b [] []|x y a b [] []]; [done|by split_and!; [| |tauto]|..];
    rewrite !has_char_app; cbn [has_char]; (split_and!; [by apply orb_false_iff|by apply orb_false_iff|]); by destruct x.
Qed.

(** The items of a field whose step is known. *)
Lemma item_marks r n t P set :
  range_ok r -> 1 <= n < 2 ^ 62 -> item_means r n t P ->
  forall part, cut_on "/" part = match cut_on "/" part with Some (_, k) => Some (t, k) | None => None end ->
  (match cut_on "/" part with Some (_, k) => parse_int k = Some n | None => part = t /\ n = 1 end) ->
  exists set', parsePart r part set = Ret (Ok set') /\ forall v, v ∈ set' <-> v ∈ set \/ P v.
Proof.
  intros Hr Hn Ht part Hcut Hstep. unfold parsePart.
  assert ((match cut_on "/" part with
     | Some (value, step) =>
         match parse_int step with
         | Some n => if n <=? 0 then Ret (Err (plain_error "bad step in %q")) else mret (n, value)
         | None => Ret (Err (plain_error "bad step in %q"))
         end
     | None => mret (1, part) end : outcome (Z * string)) = Ret (Ok (n, t))) as ->.
  { destruct (cut_on "/" part) as [[v k]|]; [|by destruct Hstep as [-> ->]]. injection Hcut as ->. rewrite Hstep.
    by rewrite (proj2 (Z.leb_gt _ _)) by lia. }
  cbn [mbind outcome_mbind outcome_bind]. pose proof (rk_lo _ Hr) as Hlo.
  assert (forall first last, lo r <= first -> last <= hi r -> exists set',
    (if (first <? lo r) || (hi r <? last) then Ret (Err (plain_error "%q is outside %d-%d")) else mark r first last n set) = Ret (Ok set') /\
    forall v, v ∈ set' <-> v ∈ set \/ steps_from first last n v) as Hplain.
  { intros first last Hf Hl. rewrite (proj2 (Z.ltb_ge _ _)), (proj2 (Z.ltb_ge _ _)) by lia. cbn [orb].
    by apply mark_small; [|lia|..]. }
  destruct Ht as [|x v W|x y a b W W' Hab|x y a b W W' Hab].
  - by apply Hplain.
  - destruct W as [_ _ Hd [Hst _] Hv ?]. destruct (String.eqb_spec x "*"); [done|]. rewrite cut_on_has, Hv by done.
    cbn [mbind outcome_mbind outcome_bind]. apply Hplain; [lia|destruct (n =? 1); lia].
  - destruct W as [_ _ Hd _ Hv ?], W' as [_ _ Hd' _ Hv' ?]. destruct (String.eqb_spec (x +:+ "-" +:+ y) "*") as [E|_].
    { exfalso. destruct x as [|c [|]]; discriminate E. }
    change ("-" +:+ y) with (String "-" y). rewrite cut_on_app, Hv, Hv' by done. cbn [mbind outcome_mbind outcome_bind].
    rewrite (proj2 (Z.ltb_ge _ _)) by done. apply Hplain; lia.
  - destruct W as [_ _ Hd _ Hv ?], W' as [_ _ Hd' _ Hv' ?]. destruct (String.eqb_spec (x +:+ "-" +:+ y) "*") as [E|_].
    { exfalso. destruct x as [|c [|]]; discriminate E. }
    change ("-" +:+ y) with (String "-" y). rewrite cut_on_app, Hv, Hv' by done. cbn [mbind outcome_mbind outcome_bind].
    rewrite (proj2 (Z.ltb_lt _ _)) by done.
    destruct (mark_small r a (hi r) n set Hr) as (set1 & -> & Hin1); [lia..|]. cbn [mbind outcome_mbind outcome_bind].
    destruct (mark_small r (lo r) b n set1 Hr) as (set2 & -> & Hin2); [lia..|]. exists set2. split; [done|].
    intros v. unfold steps_from. rewrite Hin2, Hin1. tauto.
Qed.

Lemma part_marks r part P set :
  range_ok r -> part_means r part P -> exists set', parsePart r part set = Ret (Ok set') /\ forall v, v ∈ set' <-> v ∈ set \/ P v.
Proof.
  intros Hr Hp. destruct Hp as [t P Ht|t k n P _ Hk Hn Ht].
  - destruct (item_chars _ _ _ _ Ht) as (_ & Hs & _). apply (item_marks r 1 t P); [done|lia|done|..]; by rewrite cut_on_has.
  - destruct (item_chars _ _ _ _ Ht) as (_ & Hs & _). change ("/" +:+ k) with (String "/" k).
    apply (item_marks r n t P); [done|done|done|..]; by rewrite cut_on_app.
Qed.

(** A field marks what it denotes.  A list of parts, each a star, a value, a range or a range
    that wraps around, with or without a step, is parsed to the union of what the parts denote:
    every [n]th from the first, up to the end of the range or, for a value with a step other
    than 1, to the top of the field.  A value with the step 1 stands for itself alone. *)
Lemma field_denotes r parts Ps :
  range_ok r -> parts <> [] -> Forall2 (part_means r) parts Ps ->
  exists set, parseSet r (String.concat "," parts) ∅ = Ret (Ok set) /\ forall v, v ∈ set <-> Exists (fun P => P v) Ps.
Proof.
  intros Hr Hne HP. unfold parseSet.
  assert (Forall (fun p => has_char "," p = false /\ p <> "") parts) as Hc.
  { clear Hne. induction HP as [|p P parts Ps Hp _ IH]; [done|]. constructor; [|done]. destruct Hp as [t P Ht|t k n P Hk _ _ Ht];
      destruct (item_chars _ _ _ _ Ht) as (H1 & _ & H2); [done|]. rewrite has_char_app, H1. split; [done|by destruct t]. }
  destruct (String.eqb_spec (String.concat "," parts) "") as [E|_].
  { exfalso. destruct parts as [|p [|q parts]]; [done|..]; apply Forall_inv in Hc as [_ Hp]; [done|]. by destruct p. }
  rewrite split_concat by (done || by eapply Forall_impl; [exact Hc|intros ? []]).
  assert (forall s0, exists set, parseParts r parts s0 = Ret (Ok set) /\ forall v, v ∈ set <-> v ∈ s0 \/ Exists (fun P => P v) Ps) as Hall.
  { clear Hne Hc. induction HP as [|p P parts Ps Hp _ IH]; intros s0.
    - exists s0. split; [done|]. intros v. rewrite Exists_nil. tauto.
    - destruct (part_marks r p P s0 Hr Hp) as (s1 & E & H1). destruct (IH s1) as (s2 & E2 & H2). exists s2. cbn [parseParts]. rewrite E.
      split; [exact E2|]. intros v. rewrite H2, H1, Exists_cons. tauto. }
  destruct (Hall ∅) as (set & E & Hin). exists set. split; [done|]. intros v. rewrite Hin. set_solver.
Qed.

Lemma field_denotes_witness : exists set, parseSet month_range "NOV-feb,6/3" ∅ = Ret (Ok set) /\
  forall v, v ∈ set <-> ((11 <= v <= 12 \/ 1 <= v <= 2) \/ v = 6 \/ v = 9 \/ v = 12).
Proof.
  destruct (field_denotes month_range ["NOV-feb"; "6/3"] [fun v => steps_from 11 12 1 v \/ steps_from 1 2 1 v; steps_from 6 12 3])
    as (set & E & Hin); [apply month_range_ok|discriminate| |].
  - constructor; [|constructor; [|constructor]].
    + apply pm_plain. apply (im_wrap month_range 1 "NOV" "feb" 11 2); [split; first [reflexivity|split; discriminate|cbn; lia]..|lia].
    + apply (pm_step month_range "6" "3" 3); [reflexivity|reflexivity|lia|]. apply (im_one month_range 3 "6" 6). split; first [reflexivity|split; discriminate|cbn; lia].
  - exists set. split; [exact E|]. intros v. rewrite Hin, Exists_cons, Exists_cons, Exists_nil. unfold steps_from.
    split; [intros [H|[H|[]]]|intros [H|H]]; [| |left|right; left]; rewrite ?Z.mod_1_r in *; zdiv.
Defined.
