(* ===== verification/Pattern.v ===== *)
(** * Pattern: event patterns

    Model of src/internal/eventpattern/eventpattern.go: a pattern is parsed into a tree of
    objects and leaves, and matched against a decoded event.

    A document of [any] values is its [json] tree: a number is the text it was read from,
    and decoding refuses a number that is not a float64. *)

From stdpp Require Import pretty.
From S2P Require Import Prelude Bytes Wire Star GoText.

Section pattern.
Context `{GoText}.

(** ** Documents *)

(** Whether every number of a document is in the range of a float64. *)
Fixpoint numbers_ok (j : json) : bool :=
  match j with
  | JNum t => match parse_float t with Some _ => true | None => false end
  | JArr l => forallb numbers_ok l
  | JObj m => map_fold (fun _ x acc => numbers_ok x && acc) true m
  | _ => true
  end.

(** [json.Unmarshal] into an [any]. *)
Definition decode_any (j : json) : result json :=
  if numbers_ok j then Ok j else Err (plain_error "json: cannot unmarshal number into Go value of type float64").

Definition toFloat (v : json) : option float := match v with JNum t => parse_float t | _ => None end.

Definition unmarshal_string_map (j : json) : option (gmap string string) :=
  m ← unmarshal_object j;
  map_fold (fun k x acc => acc ← acc; s ← unmarshal_string x; Some (<[k := s]> acc)) (Some ∅) m.

(** ** Conditions *)

Inductive condition :=
| exactCond (want : json)
| prefixCond (s : string) (ignoreCase : bool)
| suffixCond (s : string) (ignoreCase : bool)
| ignoreCaseCond (s : string)
| wildcardCond (pattern : string)
| notCond (inner : condition)
| anyOfCond (conds : list condition)
| numericCond (bounds : list (string * float))
| existsCond (want : bool)
| cidrCond (net : cidr).

Inductive patternNode :=
| objectNode (fields : gmap string patternNode) (ors : list (list patternNode))
| leafNode (conds : list condition).

(** ** Parsing *)

Definition bad (format : string) : APIError := plain_error format.

Definition parse_affix (mk : string -> bool -> condition) (arg : json) (format : string) : result condition :=
  match unmarshal_string arg with
  | Some s => Ok (mk s false)
  | None =>
      match unmarshal_string_map arg ≫= (fun sub => sub !! "equals-ignore-case") with
      | Some ic => Ok (mk ic true)
      | None => Err (bad format)
      end
  end.

(** The operators that [anything-but] takes too. *)
Definition parse_text_operator (name : string) (arg : json) : option (result condition) :=
  if String.eqb name "prefix" then Some (parse_affix prefixCond arg "field %q: prefix expects a string")
  else if String.eqb name "suffix" then Some (parse_affix suffixCond arg "field %q: suffix expects a string")
  else if String.eqb name "equals-ignore-case" then
    Some (match unmarshal_string arg with Some s => Ok (ignoreCaseCond s) | None => Err (bad "field %q: equals-ignore-case expects a string") end)
  else if String.eqb name "wildcard" then
    Some (match unmarshal_string arg with Some s => Ok (wildcardCond s) | None => Err (bad "field %q: wildcard expects a string") end)
  else None.

(** The single member of an operator object. *)
Definition single_member (m : gmap string json) : option (string * json) :=
  match map_to_list m with [e] => Some e | _ => None end.

Definition parseAnythingBut (arg : json) : result condition :=
  match arg with
  | JObj op =>
      match single_member op with
      | None => Err (bad "field %q: anything-but sub-operator must be a single-key object")
      | Some (name, sub) =>
          match parse_text_operator name sub with
          | Some r => r
          | None => Err (bad "field %q: anything-but does not support %q")
          end
      end
  | JArr l => vs ← mapR decode_any l; Ok (anyOfCond (map exactCond vs))
  | _ => v ← decode_any arg; Ok (exactCond v)
  end.

Definition numeric_ops : list string := ["="; "<"; "<="; ">"; ">="].

Definition parse_bound (op n : json) : result (string * float) :=
  match op with
  | JStr op =>
      match toFloat n with
      | None => Err (bad "field %q: numeric bound must be a number")
      | Some n => if existsb (String.eqb op) numeric_ops then Ok (op, n) else Err (bad "field %q: unknown numeric operator %q")
      end
  | _ => Err (bad "field %q: numeric operator must be a string")
  end.

Definition parseNumeric (arg : json) : result condition :=
  match (if numbers_ok arg then unmarshal_array arg else None) with
  | None => Err (bad "field %q: numeric expects an array")
  | Some [op; n] => b ← parse_bound op n; Ok (numericCond [b])
  | Some [op; n; op'; n'] => b ← parse_bound op n; b' ← parse_bound op' n'; Ok (numericCond [b; b'])
  | Some _ => Err (bad "field %q: numeric expects [op, n] or [op, n, op, n]")
  end.

Definition parseOperator (name : string) (arg : json) : result condition :=
  match parse_text_operator name arg with
  | Some r => r
  | None =>
      if String.eqb name "anything-but" then inner ← parseAnythingBut arg; Ok (notCond inner)
      else if String.eqb name "numeric" then parseNumeric arg
      else if String.eqb name "exists" then
        match unmarshal_bool arg with Some b => Ok (existsCond b) | None => Err (bad "field %q: exists expects true or false") end
      else if String.eqb name "cidr" then
        match unmarshal_string arg with
        | None => Err (bad "field %q: cidr expects a string")
        | Some s => match parse_cidr s with Some net => Ok (cidrCond net) | None => Err (bad "field %q: %v") end
        end
      else Err (bad "field %q: unknown operator %q")
  end.

Definition parseCondition (raw : json) : result condition :=
  match raw with
  | JObj op =>
      match single_member op with
      | None => Err (bad "field %q: operator conditions must be single-key objects")
      | Some (name, arg) => parseOperator name arg
      end
  | _ => v ← decode_any raw; Ok (exactCond v)
  end.

Definition parseLeaf (val : json) : result (list condition) :=
  match unmarshal_array val with
  | None => Err (bad "field %q must be an array of conditions or a nested object")
  | Some [] => Err (bad "field %q has an empty condition list")
  | Some list => mapR parseCondition list
  end.

(** An alternative of [$or] is an object, or [null], which is one without fields. *)
Definition parse_alt (parse : json -> result patternNode) (alt : json) : result patternNode :=
  match alt with
  | JObj _ | JNull => parse alt
  | _ => Err (bad "$or must be an array of pattern objects")
  end.

(** What a field adds to the node of its object. *)
Definition parse_field (parse : json -> result patternNode) (key : string) (val : json)
  (node : gmap string patternNode * list (list patternNode)) : result (gmap string patternNode * list (list patternNode)) :=
  if String.eqb key "$or" then
    match val with
    | JArr l =>
        parsed ← mapR (parse_alt parse) l;
        if Nat.eqb (length parsed) 0 then Err (bad "$or must have at least one alternative") else Ok (node.1, node.2 ++ [parsed])
    | JNull => Err (bad "$or must have at least one alternative")
    | _ => Err (bad "$or must be an array of pattern objects")
    end
  else match val with
  | JObj _ => sub ← parse val; Ok (<[key := sub]> node.1, node.2)
  | _ => conds ← parseLeaf val; Ok (<[key := leafNode conds]> node.1, node.2)
  end.

Fixpoint parseObject (j : json) : result patternNode :=
  match j with
  | JObj m =>
      node ← map_fold (fun key val acc => node ← acc; parse_field parseObject key val node) (Ok (∅, [])) m;
      Ok (objectNode node.1 node.2)
  | _ => Ok (objectNode ∅ [])
  end.

(** A pattern document: an object with at least one field. *)
Definition ParsePattern (src : json) : result patternNode :=
  match unmarshal_object src with
  | None => Err (bad "event pattern is not a JSON object: %w")
  | Some m => if bool_decide (m = ∅) then Err (bad "event pattern must have at least one field") else parseObject src
  end.

(** ** Matching *)

Definition wildcardMatch (pattern s : string) : bool := star_match Ascii.eqb pattern s.

Definition has_suffix (s p : string) : bool :=
  Nat.leb (String.length p) (String.length s) && String.eqb (drop_bytes (String.length s - String.length p) s) p.

Definition exact_matches (want val : json) : bool :=
  match toFloat want with
  | Some wf => match toFloat val with Some vf => bool_decide (float_compare wf vf = Some Eq) | None => false end
  | None =>
      match want, val with
      | JStr w, JStr s => String.eqb s w
      | JBool w, JBool b => Bool.eqb b w
      | JNull, JNull => true
      | _, _ => false
      end
  end.

Definition bound_holds (v : float) (b : string * float) : bool :=
  let c := float_compare v b.2 in
  if String.eqb b.1 "=" then bool_decide (c = Some Eq)
  else if String.eqb b.1 "<" then bool_decide (c = Some Lt)
  else if String.eqb b.1 "<=" then bool_decide (c = Some Lt) || bool_decide (c = Some Eq)
  else if String.eqb b.1 ">" then bool_decide (c = Some Gt)
  else if String.eqb b.1 ">=" then bool_decide (c = Some Gt) || bool_decide (c = Some Eq)
  else true.

(** On a value that is there; [existsCond] looks at no value. *)
Fixpoint cond_matches (c : condition) (val : json) : bool :=
  match c with
  | exactCond want => exact_matches want val
  | prefixCond p ic =>
      match val with
      | JStr s =>
          if ic then Nat.leb (String.length p) (String.length s) && equal_fold (take_bytes (String.length p) s) p
          else has_prefix s p
      | _ => false
      end
  | suffixCond p ic =>
      match val with
      | JStr s =>
          if ic then Nat.leb (String.length p) (String.length s) && equal_fold (drop_bytes (String.length s - String.length p) s) p
          else has_suffix s p
      | _ => false
      end
  | ignoreCaseCond w => match val with JStr s => equal_fold s w | _ => false end
  | wildcardCond p => match val with JStr s => wildcardMatch p s | _ => false end
  | notCond inner => negb (cond_matches inner val)
  | anyOfCond conds => existsb (fun c => cond_matches c val) conds
  | numericCond bounds =>
      match toFloat val with Some v => forallb (bound_holds v) bounds | None => false end
  | existsCond want => Bool.eqb true want
  | cidrCond net =>
      match val with
      | JStr s => match parse_ip s with Some ip => cidr_contains net ip | None => false end
      | _ => false
      end
  end.

(** The values a condition is tried on: the elements of an array. *)
Definition candidates (val : json) : list json := match val with JArr l => l | _ => [val] end.

Definition matchValue (conds : list condition) (val : option json) : bool :=
  existsb (fun c =>
    match c with
    | existsCond want => Bool.eqb (match val with Some _ => true | None => false end) want
    | _ => match val with Some v => existsb (cond_matches c) (candidates v) | None => false end
    end) conds.

Fixpoint node_match (n : patternNode) (doc : json) : bool :=
  match n with
  | leafNode conds => matchValue conds (Some doc)
  | objectNode fields ors =>
      match doc with
      | JObj obj =>
          map_fold (fun key sub acc =>
            match sub with
            | leafNode conds => matchValue conds (obj !! key)
            | objectNode _ _ => match obj !! key with Some val => node_match sub val | None => false end
            end && acc) true fields &&
          forallb (fun alts => existsb (fun alt => node_match alt doc) alts) ors
      | _ => false
      end
  end.

Definition Match (p : patternNode) (event : json) : result bool :=
  doc ← decode_any event; Ok (node_match p doc).
End pattern.
