(* ===== verification/PatternSpec.v ===== *)
(** * PatternSpec: what event patterns mean

    The language as relations on documents, and that a parsed pattern matches what its
    source means. *)

From Stdlib Require Import Wf_nat.
From S2P Require Import Prelude Bytes Wire Star GoText Pattern.

Section pattern.
Context `{GoText}.

(** ** The language *)

Definition op (name : string) (arg : json) : json := JObj {[ name := arg ]}.

(** Numbers compare as floats, other scalars literally. *)
Inductive same_value : json -> json -> Prop :=
| same_num t t' x y : parse_float t = Some x -> parse_float t' = Some y -> float_compare x y = Some Eq ->
    same_value (JNum t) (JNum t')
| same_str s : same_value (JStr s) (JStr s)
| same_bool b : same_value (JBool b) (JBool b)
| same_null : same_value JNull JNull.

(** An operator on text; a [null] argument stands for the empty text. *)
Inductive text_means : string -> json -> string -> Prop :=
| tm_prefix arg p t : unmarshal_string arg = Some p -> text_means "prefix" arg (p +:+ t)
| tm_prefix_fold arg m p x t : unmarshal_string arg = None -> unmarshal_string_map arg = Some m ->
    m !! "equals-ignore-case" = Some p -> equal_fold x p = true -> text_means "prefix" arg (x +:+ t)
| tm_suffix arg p t : unmarshal_string arg = Some p -> text_means "suffix" arg (t +:+ p)
| tm_suffix_fold arg m p x t : unmarshal_string arg = None -> unmarshal_string_map arg = Some m ->
    m !! "equals-ignore-case" = Some p -> equal_fold x p = true -> text_means "suffix" arg (t +:+ x)
| tm_fold arg p s : unmarshal_string arg = Some p -> equal_fold s p = true -> text_means "equals-ignore-case" arg s
| tm_wildcard arg p s : unmarshal_string arg = Some p -> wild_by Ascii.eqb p s -> text_means "wildcard" arg s.

Definition text_ops : list string := ["prefix"; "suffix"; "equals-ignore-case"; "wildcard"].

(** A comparison with a bound. *)
Inductive within_bound (x : float) : json -> json -> Prop :=
| wb_eq t y : parse_float t = Some y -> float_compare x y = Some Eq -> within_bound x (JStr "=") (JNum t)
| wb_lt t y : parse_float t = Some y -> float_compare x y = Some Lt -> within_bound x (JStr "<") (JNum t)
| wb_le t y c : parse_float t = Some y -> float_compare x y = Some c -> c <> Gt -> within_bound x (JStr "<=") (JNum t)
| wb_gt t y : parse_float t = Some y -> float_compare x y = Some Gt -> within_bound x (JStr ">") (JNum t)
| wb_ge t y c : parse_float t = Some y -> float_compare x y = Some c -> c <> Lt -> within_bound x (JStr ">=") (JNum t).

Definition is_object (j : json) : Prop := match j with JObj _ => True | _ => False end.
Definition is_array (j : json) : Prop := match j with JArr _ => True | _ => False end.

(** A condition on one value of the event. *)
Inductive cond_means : json -> json -> Prop :=
| cm_exact w v : ~ is_object w -> same_value w v -> cond_means w v
| cm_text name arg s : text_means name arg s -> cond_means (op name arg) (JStr s)
| cm_but_text name arg v : name ∈ text_ops -> (forall s, v = JStr s -> ~ text_means name arg s) ->
    cond_means (op "anything-but" (op name arg)) v
| cm_but_list l v : (forall w, w ∈ l -> ~ same_value w v) -> cond_means (op "anything-but" (JArr l)) v
| cm_but_value w v : ~ is_object w -> ~ is_array w -> ~ same_value w v -> cond_means (op "anything-but" w) v
| cm_numeric o n t x : parse_float t = Some x -> within_bound x o n -> cond_means (op "numeric" (JArr [o; n])) (JNum t)
| cm_numeric2 o n o' n' t x : parse_float t = Some x -> within_bound x o n -> within_bound x o' n' ->
    cond_means (op "numeric" (JArr [o; n; o'; n'])) (JNum t)
| cm_cidr arg c s net a : unmarshal_string arg = Some c -> parse_cidr c = Some net -> parse_ip s = Some a ->
    cidr_contains net a = true -> cond_means (op "cidr" arg) (JStr s).

(** A condition on a field: on its absence, or on the value or one of its elements. *)
Inductive leaf_means : json -> option json -> Prop :=
| lm_exists arg b val : unmarshal_bool arg = Some b -> (b = true <-> val <> None) -> leaf_means (op "exists" arg) val
| lm_value c v e : e ∈ candidates v -> cond_means c e -> leaf_means c (Some v).

(** Every field of a pattern holds, and of each [$or] an alternative; a [null] alternative
    holds of every object. *)
Inductive matches : json -> json -> Prop :=
| matches_object m obj :
    (forall l, m !! "$or" = Some (JArr l) -> exists alt, alt ∈ l /\ matches alt (JObj obj)) ->
    (forall key sub, key <> "$or" -> m !! key = Some (JObj sub) -> exists v, obj !! key = Some v /\ matches (JObj sub) v) ->
    (forall key conds, key <> "$or" -> m !! key = Some (JArr conds) -> exists c, c ∈ conds /\ leaf_means c (obj !! key)) ->
    matches (JObj m) (JObj obj)
| matches_null obj : matches JNull (JObj obj).

(** No text of a document has a star. *)
Fixpoint no_stars (j : json) : Prop :=
  match j with
  | JStr s => has_char star s = false
  | JArr l => foldr (fun x acc => no_stars x /\ acc) True l
  | JObj m => map_fold (fun _ x acc => no_stars x /\ acc) True m
  | _ => True
  end.

(** ** Conditions *)

Lemma exact_matches_spec w v : exact_matches w v = true <-> same_value w v.
Proof.
  unfold exact_matches, toFloat. split.
  - destruct w as [|b|t|s|l|m], v as [|b'|t'|s'|l'|m']; cbn; try done; try (by destruct (parse_float t)); intros E.
    + constructor.
    + apply Bool.eqb_prop in E as ->. constructor.
    + destruct (parse_float t) as [x|] eqn:E1; [|done]. destruct (parse_float t') as [y|] eqn:E2; [|done].
      apply bool_decide_eq_true in E. by econstructor.
    + apply String.eqb_eq in E as ->. constructor.
  - destruct 1 as [t t' x y E1 E2 E3|s|b|]; [rewrite E1, E2; by apply bool_decide_eq_true|apply String.eqb_refl|apply eqb_reflx|done].
Qed.

(** ** Text *)

Lemma equal_fold_length s t : equal_fold s t = true -> String.length s = String.length t.
Proof.
  unfold equal_fold. intros E%String.eqb_eq. assert (forall s, String.length (to_lower s) = String.length s) as Hl.
  { clear. induction s as [|c s IH]; [done|]. unfold to_lower in *. cbn. by rewrite IH. }
  by rewrite <- Hl, E, Hl.
Qed.

(** What is before a suffix has the rest of the length. *)
Lemma before_suffix a b : (String.length (a +:+ b) - String.length b)%nat = String.length a.
Proof. rewrite string_length_app. lia. Qed.

Lemma has_suffix_spec s p : has_suffix s p = true <-> exists t, s = t +:+ p.
Proof.
  unfold has_suffix. rewrite andb_true_iff, Nat.leb_le, String.eqb_eq. split.
  - intros [Hl E]. destruct (take_drop_bytes (String.length s - String.length p) s) as [Es _]; [lia|]. rewrite E in Es. by eexists.
  - intros [t ->]. rewrite before_suffix, drop_bytes_app, string_length_app. split; [lia|done].
Qed.

Lemma fold_prefix_spec s p :
  Nat.leb (String.length p) (String.length s) && equal_fold (take_bytes (String.length p) s) p = true <->
  exists x t, s = x +:+ t /\ equal_fold x p = true.
Proof.
  rewrite andb_true_iff, Nat.leb_le. split.
  - intros [Hl E]. destruct (take_drop_bytes (String.length p) s Hl) as [Es _]. by eexists _, _.
  - intros (x & t & -> & E). rewrite <- (equal_fold_length _ _ E), take_bytes_app, string_length_app. split; [lia|done].
Qed.

Lemma fold_suffix_spec s p :
  Nat.leb (String.length p) (String.length s) && equal_fold (drop_bytes (String.length s - String.length p) s) p = true <->
  exists x t, s = t +:+ x /\ equal_fold x p = true.
Proof.
  rewrite andb_true_iff, Nat.leb_le. split.
  - intros [Hl E]. destruct (take_drop_bytes (String.length s - String.length p) s) as [Es _]; [lia|]. by eexists _, _.
  - intros (x & t & -> & E). rewrite <- (equal_fold_length _ _ E), before_suffix, drop_bytes_app, string_length_app. split; [lia|done].
Qed.

(** ** Operators *)

Lemma parse_affix_cases mk arg f c : parse_affix mk arg f = Ok c ->
  (exists p, unmarshal_string arg = Some p /\ c = mk p false) \/
  (exists m p, unmarshal_string arg = None /\ unmarshal_string_map arg = Some m /\ m !! "equals-ignore-case" = Some p /\ c = mk p true).
Proof.
  unfold parse_affix. destruct (unmarshal_string arg) as [p|]; [intros [= <-]; left; by exists p|].
  destruct (unmarshal_string_map arg) as [m|]; [|done]. cbn [mbind option_bind]. destruct (m !! _) as [p|] eqn:E; [|done].
  intros [= <-]. right. by exists m, p.
Qed.

(** A text condition is one of the four, matches text only, and matches what it means. *)
Lemma text_operator_spec name arg c :
  parse_text_operator name arg = Some (Ok c) ->
  name ∈ text_ops /\ (forall v, cond_matches c v = true -> exists s, v = JStr s) /\
  forall s, has_char star s = false -> cond_matches c (JStr s) = true <-> text_means name arg s.
Proof.
  unfold parse_text_operator, text_ops.
  destruct (String.eqb_spec name "prefix") as [->|N1]; [|destruct (String.eqb_spec name "suffix") as [->|N2];
    [|destruct (String.eqb_spec name "equals-ignore-case") as [->|N3]; [|destruct (String.eqb_spec name "wildcard") as [->|N4]; [|done]]]].
  - intros [= Hp]. split; [set_solver|]. apply parse_affix_cases in Hp as [(p & E & ->)|(m & p & E0 & E1 & E2 & ->)];
      (split; [intros [] ?; try done; by eexists|]; intros s _; cbn [cond_matches]).
    + rewrite has_prefix_spec. split; [intros [t ->]; by eapply tm_prefix|]. intros Ht. inversion Ht; simplify_eq. by eexists.
    + rewrite fold_prefix_spec. split; [intros (x & t & -> & ?); by eapply tm_prefix_fold|]. intros Ht. inversion Ht; simplify_eq. by eexists _, _.
  - intros [= Hp]. split; [set_solver|]. apply parse_affix_cases in Hp as [(p & E & ->)|(m & p & E0 & E1 & E2 & ->)];
      (split; [intros [] ?; try done; by eexists|]; intros s _; cbn [cond_matches]).
    + rewrite has_suffix_spec. split; [intros [t ->]; by eapply tm_suffix|]. intros Ht. inversion Ht; simplify_eq. by eexists.
    + rewrite fold_suffix_spec. split; [intros (x & t & -> & ?); by eapply tm_suffix_fold|]. intros Ht. inversion Ht; simplify_eq. by eexists _, _.
  - destruct (unmarshal_string arg) as [p|] eqn:E; [|done]. intros [= <-]. split; [set_solver|]. split; [intros [] ?; try done; by eexists|].
    intros s _. cbn [cond_matches]. split; [by apply tm_fold|]. intros Ht. inversion Ht; by simplify_eq.
  - destruct (unmarshal_string arg) as [p|] eqn:E; [|done]. intros [= <-]. split; [set_solver|]. split; [intros [] ?; try done; by eexists|].
    intros s Hs. cbn [cond_matches]. assert (wildcardMatch p s = true <-> wild_by Ascii.eqb p s) as ->.
    { split; [apply star_match_sound|apply star_match_complete; [|done]]. intros c Hc%Ascii.eqb_eq. done. }
    split; [by apply tm_wildcard|]. intros Ht. inversion Ht; by simplify_eq.
Qed.

Lemma bound_holds_spec o n b x : parse_bound o n = Ok b -> bound_holds x b = true <-> within_bound x o n.
Proof.
  unfold parse_bound. destruct o as [| | |o| |]; try done. destruct n as [| |t| | |]; try done. cbn [toFloat].
  destruct (parse_float t) as [y|] eqn:E; [|done]. destruct (existsb (String.eqb o) numeric_ops) eqn:Eo; [|done]. intros [= <-].
  apply existsb_exists in Eo as (o' & Ho & <-%String.eqb_eq). unfold bound_holds. cbn [fst snd].
  simpl in Ho. destruct Ho as [<-|[<-|[<-|[<-|[<-|[]]]]]]; cbn [String.eqb Ascii.eqb Bool.eqb andb];
    rewrite ?orb_true_iff, !bool_decide_eq_true; (split; [|intros Hw; inversion Hw; simplify_eq; try done]).
  - intros Hc. by eapply wb_eq.
  - intros Hc. by eapply wb_lt.
  - intros [Hc|Hc]; by eapply wb_le.
  - match goal with c : comparison |- _ => destruct c; simplify_eq; tauto end.
  - intros Hc. by eapply wb_gt.
  - intros [Hc|Hc]; by eapply wb_ge.
  - match goal with c : comparison |- _ => destruct c; simplify_eq; tauto end.
Qed.

Lemma op_inj n a n' a' : op n a = op n' a' -> n = n' /\ a = a'.
Proof.
  intros E. apply (f_equal (fun j => match j with JObj m => m | _ => ∅ end)) in E. unfold op in E. assert (({[n := a]} : gmap string json) !! n = ({[n' := a']} : gmap string json) !! n) as Hn by (by rewrite E).
  rewrite lookup_singleton_eq in Hn. symmetry in Hn. apply lookup_singleton_Some in Hn as [-> ->]. done.
Qed.

Lemma single_member_op m name arg : single_member m = Some (name, arg) -> JObj m = op name arg.
Proof.
  unfold single_member, op. destruct (map_to_list m) as [|e [|]] eqn:E; [done| |done]. intros [= ->]. f_equal.
  rewrite <- (list_to_map_to_list m), E. cbn. by rewrite insert_empty.
Qed.

Lemma not_text_op name arg s : bool_decide (name ∈ text_ops) = false -> ~ text_means name arg s.
Proof. intros Hn Ht. apply bool_decide_eq_false in Hn. apply Hn. destruct Ht; set_solver. Qed.

Lemma cond_means_inv name arg v : cond_means (op name arg) v ->
  (exists s, v = JStr s /\ text_means name arg s) \/
  (name = "anything-but" /\ ((exists n a, arg = op n a /\ n ∈ text_ops /\ forall s, v = JStr s -> ~ text_means n a s) \/
     (exists l, arg = JArr l /\ forall w, w ∈ l -> ~ same_value w v) \/
     (~ is_object arg /\ ~ is_array arg /\ ~ same_value arg v))) \/
  (name = "numeric" /\ exists t x, v = JNum t /\ parse_float t = Some x /\
     ((exists o n, arg = JArr [o; n] /\ within_bound x o n) \/
      (exists o n o' n', arg = JArr [o; n; o'; n'] /\ within_bound x o n /\ within_bound x o' n'))) \/
  (name = "cidr" /\ exists c s net a, v = JStr s /\ unmarshal_string arg = Some c /\ parse_cidr c = Some net /\
     parse_ip s = Some a /\ cidr_contains net a = true).
Proof.
  intros Hc. remember (op name arg) as j eqn:Ej.
  destruct Hc as [w v Hw _|n a s Ht|n a v Hn Ht|l v Hl|w v Ho Ha Hs|o n t x Hx Hb|o n o' n' t x Hx Hb Hb'|a c s net i H1 H2 H3 H4].
  - subst w. by destruct Hw.
  - apply op_inj in Ej as [-> ->]. left. by exists s.
  - apply op_inj in Ej as [<- <-]. right; left. split; [done|]. left. by exists n, a.
  - apply op_inj in Ej as [<- <-]. right; left. split; [done|]. right; left. by exists l.
  - apply op_inj in Ej as [<- <-]. right; left. split; [done|]. by right; right.
  - apply op_inj in Ej as [<- <-]. right; right; left. split; [done|]. exists t, x. split; [done|]. split; [done|]. left. by exists o, n.
  - apply op_inj in Ej as [<- <-]. right; right; left. split; [done|]. exists t, x. split; [done|]. split; [done|]. right. by exists o, n, o', n'.
  - apply op_inj in Ej as [<- <-]. right; right; right. split; [done|]. by exists c, s, net, i.
Qed.

(** A condition that is not on existence means what it matches. *)
Definition means_as (raw : json) (c : condition) : Prop :=
  (forall b, c <> existsCond b) /\ forall v, no_stars v -> cond_matches c v = true <-> cond_means raw v.

Lemma decode_any_Ok v w : decode_any v = Ok w -> w = v.
Proof. unfold decode_any. destruct (numbers_ok v); [by intros [= <-]|done]. Qed.

Lemma exact_means w : ~ is_object w -> means_as w (exactCond w).
Proof.
  intros Hw. split; [done|]. intros v _. cbn [cond_matches]. rewrite exact_matches_spec. split; [by apply cm_exact|].
  intros Hc. remember w as w' eqn:Ew. destruct Hc; try (subst; by destruct Hw). done.
Qed.

Lemma text_means_op name arg s : text_means name arg s -> name ∈ text_ops.
Proof. unfold text_ops. destruct 1; set_solver. Qed.

Lemma text_means_as name arg c : parse_text_operator name arg = Some (Ok c) -> means_as (op name arg) c.
Proof.
  intros Hp. destruct (text_operator_spec _ _ _ Hp) as (Hn & Hs & Hm). split.
  { intros b ->. revert Hp. unfold parse_text_operator, parse_affix. by repeat case_match. }
  intros v Hv. split.
  - intros Hc. destruct (Hs v Hc) as [s ->]. apply cm_text. by apply Hm.
  - intros [(s & -> & Ht)|[[-> _]|[[-> _]|[-> _]]]]%cond_means_inv; [by apply Hm|..]; discriminate Hp.
Qed.

(** What [anything-but] refuses. *)
Definition but_means (arg v : json) : Prop :=
  (exists n a, arg = op n a /\ n ∈ text_ops /\ forall s, v = JStr s -> ~ text_means n a s) \/
  (exists l, arg = JArr l /\ forall w, w ∈ l -> ~ same_value w v) \/
  (~ is_object arg /\ ~ is_array arg /\ ~ same_value arg v).

Lemma but_means_op arg v : cond_means (op "anything-but" arg) v <-> but_means arg v.
Proof.
  split.
  - intros [(s & -> & Ht)|[[_ Hb]|[[[=] _]|[[=] _]]]]%cond_means_inv; [|done]. by apply not_text_op in Ht.
  - intros [(n & a & -> & Hn & Hs)|[(l & -> & Hl)|(Ho & Ha & Hs)]]; [by apply cm_but_text|by apply cm_but_list|by apply cm_but_value].
Qed.

Lemma mapR_decode l vs : mapR decode_any l = Ok vs -> vs = l.
Proof. rewrite mapR_Ok. induction 1 as [|x y l vs E _ IH]; [done|]. apply decode_any_Ok in E as ->. by rewrite IH. Qed.

Lemma any_of_exact l v : existsb (fun c => cond_matches c v) (map exactCond l) = true <-> exists w, w ∈ l /\ same_value w v.
Proof.
  rewrite existsb_exists. split.
  - intros (c & (w & <- & Hw)%in_map_iff & Hm). exists w. split; [by apply list_elem_of_In|by apply exact_matches_spec].
  - intros (w & Hw & Hm). exists (exactCond w). split; [apply in_map; by apply list_elem_of_In|by apply exact_matches_spec].
Qed.

Lemma anything_but_means arg c : parseAnythingBut arg = Ok c -> means_as (op "anything-but" arg) (notCond c).
Proof.
  intros Hp. split; [done|]. intros v Hv. cbn [cond_matches]. rewrite negb_true_iff, <- not_true_iff_false, but_means_op.
  unfold parseAnythingBut in Hp. destruct arg as [|b|t|s|l|m].
  5: { inv_bind. injection Hp as <-. apply mapR_decode in Ha as ->. cbn [cond_matches]. rewrite any_of_exact. split.
       - intros Hno. right; left. exists l. split; [done|]. intros w Hw Hs. apply Hno. by exists w.
       - intros [(n & x & [=] & _)|[(l' & [= <-] & Hl)|(_ & Hna & _)]] (w & Hw & Hs); [by apply (Hl w)|by apply Hna]. }
  5: { destruct (single_member m) as [[n a]|] eqn:Em; [|done]. apply single_member_op in Em. rewrite Em.
       destruct (parse_text_operator n a) as [r|] eqn:Et; [|done]. subst r. destruct (text_operator_spec _ _ _ Et) as (Hn & Hs & Hm).
       split.
       - intros Hno. left. exists n, a. split; [done|]. split; [done|]. intros s ->. intros Ht. apply Hno. by apply Hm.
       - intros [(n' & a' & [-> ->]%op_inj & _ & Hx)|[(l & [=] & _)|(Hno & _)]] Hc; [|by destruct Hno].
         destruct (Hs v Hc) as [s ->]. apply (Hx s eq_refl). by apply Hm. }
  all: inv_bind; injection Hp as <-; apply decode_any_Ok in Ha as ->; cbn [cond_matches]; rewrite exact_matches_spec; split;
    [intros Hno; right; right; split; [intros []|split; [intros []|exact Hno]]|intros [(? & ? & [=] & _)|[(? & [=] & _)|(_ & _ & Hno)]]; exact Hno].
Qed.

Lemma numeric_means arg c : parseNumeric arg = Ok c -> means_as (op "numeric" arg) c.
Proof.
  unfold parseNumeric. destruct (numbers_ok arg); [|done].
  assert (forall arg v P, (forall x t, v = JNum t -> parse_float t = Some x -> P x <->
      (exists o n, arg = JArr [o; n] /\ within_bound x o n) \/
      (exists o n o' n', arg = JArr [o; n; o'; n'] /\ within_bound x o n /\ within_bound x o' n')) ->
    (exists t x, v = JNum t /\ parse_float t = Some x /\ P x) <-> cond_means (op "numeric" arg) v) as Hnum.
  { intros arg' v P HP. split.
    - intros (t & x & -> & Hx & Hp). apply (HP x t eq_refl Hx) in Hp as [(o & n & -> & Hw)|(o & n & o' & n' & -> & Hw & Hw')];
        [by eapply cm_numeric|by eapply cm_numeric2].
    - intros [(s & -> & Ht)|[[[=] _]|[(_ & t & x & -> & Hx & Hb)|[[=] _]]]]%cond_means_inv; [by apply not_text_op in Ht|].
      exists t, x. split; [done|]. split; [done|]. by apply (HP x t). }
  assert (forall v bounds, (match toFloat v with Some x => forallb (bound_holds x) bounds | None => false end) = true <->
    exists t x, v = JNum t /\ parse_float t = Some x /\ forallb (bound_holds x) bounds = true) as Hv.
  { intros v bounds. split; [|intros (t & x & -> & E & Hb); cbn [toFloat]; by rewrite E]. destruct v; try done. cbn [toFloat].
    destruct (parse_float text) as [x|] eqn:E; [|done]. intros Hb. by exists text, x. }
  destruct arg as [| | | |l|]; try done. cbn [unmarshal_array]. destruct l as [|o [|n [|o' [|n' [|? ?]]]]]; try done; intros Hp.
  - inv_bind. injection Hp as <-. split; [done|]. intros v _. cbn [cond_matches]. rewrite Hv. apply Hnum. intros x t _ _.
    cbn [forallb]. rewrite andb_true_r, (bound_holds_spec _ _ _ x Ha).
    split; [intros Hw; left; by eexists _, _|by intros [(? & ? & [= <- <-] & ?)|(? & ? & ? & ? & [=] & _)]].
  - do 2 inv_bind. injection Hp as <-. split; [done|]. intros v _. cbn [cond_matches]. rewrite Hv. apply Hnum. intros x t _ _.
    cbn [forallb]. rewrite andb_true_r, andb_true_iff, (bound_holds_spec _ _ _ x Ha), (bound_holds_spec _ _ _ x Ha0).
    split; [intros Hw; right; by eexists _, _, _, _|by intros [(? & ? & [=] & _)|(? & ? & ? & ? & [= <- <- <- <-] & ?)]].
Qed.

(** What a condition is parsed to, on existence or on values. *)
Lemma condition_means raw c :
  parseCondition raw = Ok c ->
  (exists arg b, raw = op "exists" arg /\ unmarshal_bool arg = Some b /\ c = existsCond b) \/
  (means_as raw c /\ forall arg, raw <> op "exists" arg).
Proof.
  unfold parseCondition. destruct raw as [| | | | |m];
    try (intros Hp; inv_bind; injection Hp as <-; apply decode_any_Ok in Ha as ->; right; split; [apply exact_means; intros []|done]).
  destruct (single_member m) as [[name arg]|] eqn:Em; [|done]. apply single_member_op in Em. rewrite Em. unfold parseOperator.
  destruct (parse_text_operator name arg) as [r|] eqn:Et.
  { intros ->. right. split; [by apply text_means_as|]. intros a [-> _]%op_inj. discriminate Et. }
  destruct (String.eqb_spec name "anything-but") as [->|_].
  { intros Hp. inv_bind. injection Hp as <-. right. split; [by apply anything_but_means|]. by intros ? [[=] _]%op_inj. }
  destruct (String.eqb_spec name "numeric") as [->|_].
  { intros Hp. right. split; [by apply numeric_means|]. by intros ? [[=] _]%op_inj. }
  destruct (String.eqb_spec name "exists") as [->|_].
  { destruct (unmarshal_bool arg) as [b|] eqn:Eb; [|done]. intros [= <-]. left. by exists arg, b. }
  destruct (String.eqb_spec name "cidr") as [->|_]; [|done].
  destruct (unmarshal_string arg) as [s|] eqn:Es; [|done]. destruct (parse_cidr s) as [net|] eqn:En; [|done]. intros [= <-]. right.
  split; [|by intros ? [[=] _]%op_inj]. split; [done|]. intros v _. cbn [cond_matches]. split.
  - destruct v as [| | |t| |]; try done. destruct (parse_ip t) as [i|] eqn:Ei; [|done]. intros Hc. by eapply cm_cidr.
  - intros [(t & -> & Ht)|[[[=] _]|[[[=] _]|(_ & c & t & n & i & -> & E1 & E2 & E3 & E4)]]]%cond_means_inv; [by apply not_text_op in Ht|].
    simplify_eq. by rewrite E3.
Qed.

(** ** Fields *)

Lemma no_stars_elem l v : no_stars (JArr l) -> v ∈ l -> no_stars v.
Proof. cbn [no_stars]. induction l as [|x l IH]; [by intros _ ?%elem_of_nil|]. cbn [foldr]. intros [Hx Hl] [->|Hv]%elem_of_cons; auto. Qed.

Lemma no_stars_member m k v : no_stars (JObj m) -> m !! k = Some v -> no_stars v.
Proof.
  cbn [no_stars]. induction m as [|k' x m Hk Hfst IH] using map_first_key_ind; [done|].
  rewrite map_fold_insert_first_key by done. intros [Hx Hm]. destruct (decide (k = k')) as [->|].
  - rewrite lookup_insert_eq. by intros [= <-].
  - rewrite lookup_insert_ne by done. by apply IH.
Qed.

Lemma candidates_no_stars v e : no_stars v -> e ∈ candidates v -> no_stars e.
Proof. intros Hv. destruct v; cbn [candidates]; try (by intros ->%list_elem_of_singleton). by apply no_stars_elem. Qed.

Definition opt_no_stars (val : option json) : Prop := match val with Some v => no_stars v | None => True end.

(** One condition of a leaf. *)
Lemma one_condition raw c val :
  parseCondition raw = Ok c -> opt_no_stars val ->
  match c with
  | existsCond want => Bool.eqb (match val with Some _ => true | None => false end) want
  | _ => match val with Some v => existsb (cond_matches c) (candidates v) | None => false end
  end = true <-> leaf_means raw val.
Proof.
  intros Hp Hv. destruct (condition_means raw c Hp) as [(arg & b & -> & Hb & ->)|[[Hne Hc] Hno]]; clear Hp.
  - rewrite eqb_true_iff. split.
    + intros <-. eapply lm_exists; [exact Hb|]. destruct val; split; [intros _; discriminate|reflexivity|discriminate|intros Hnn; by destruct Hnn].
    + intros Hl. remember (op "exists" arg) as j eqn:Ej. destruct Hl as [arg' b' val Hb' Hw|c v e He Hm].
      * apply op_inj in Ej as [_ ->]. rewrite Hb in Hb'. injection Hb' as <-. destruct b, val; [reflexivity|by destruct (proj1 Hw eq_refl)|exfalso; assert (false = true) by (apply Hw; discriminate); discriminate|reflexivity].
      * subst c. by apply cond_means_inv in Hm as [(s & -> & Ht%not_text_op)|[[[=] _]|[[[=] _]|[[=] _]]]].
  - transitivity (match val with Some v => existsb (cond_matches c) (candidates v) | None => false end = true).
    { destruct c; done || (by exfalso; eapply Hne). }
    split.
    + destruct val as [v|]; [|done]. intros (e & He & Hm)%existsb_exists. apply list_elem_of_In in He.
      apply (lm_value _ v e He). apply Hc; [|done]. by apply (candidates_no_stars v).
    + intros Hl. destruct Hl as [arg b val Hb Hw|c' v e He Hm]; [by destruct (Hno arg)|]. apply existsb_exists. exists e.
      split; [by apply list_elem_of_In|]. apply Hc; [|done]. by apply (candidates_no_stars v).
Qed.

Lemma leaf_matches val conds fv :
  parseLeaf val = Ok conds -> opt_no_stars fv ->
  exists l, val = JArr l /\ (matchValue conds fv = true <-> exists c, c ∈ l /\ leaf_means c fv).
Proof.
  intros Hp Hv. unfold parseLeaf in Hp. destruct (unmarshal_array val) as [l|] eqn:El; [|done].
  destruct l as [|x l]; [done|]. assert (val = JArr (x :: l)) as -> by (destruct val; simplify_eq/=; done). exists (x :: l). split; [done|].
  apply mapR_Ok in Hp. clear El. unfold matchValue. rewrite existsb_exists. split.
  - intros (c & Hc%list_elem_of_In & Hm). apply list_elem_of_lookup in Hc as [i Hi].
    apply (Forall2_lookup_r _ _ _ _ _ Hp) in Hi as (raw & Hr & E). exists raw. split; [by eapply list_elem_of_lookup_2|].
    by apply (one_condition raw c).
  - intros (raw & Hraw & Hm). apply list_elem_of_lookup in Hraw as [i Hi].
    apply (Forall2_lookup_l _ _ _ _ _ Hp) in Hi as (c & Hc & E). exists c. split; [apply list_elem_of_In; by eapply list_elem_of_lookup_2|].
    by apply (one_condition raw c).
Qed.

(** ** Objects *)

(** What a field is parsed to. *)
Definition field_node (val : json) (sub : patternNode) : Prop :=
  match val with
  | JObj _ => parseObject val = Ok sub
  | _ => exists conds, parseLeaf val = Ok conds /\ sub = leafNode conds
  end.

Definition or_nodes (val : option json) (ors : list (list patternNode)) : Prop :=
  match val with
  | None => ors = []
  | Some val => exists l alts, val = JArr l /\ ors = [alts] /\ Forall2 (fun alt sub => parse_alt parseObject alt = Ok sub) l alts
  end.

Record parsed_as (m : gmap string json) (fields : gmap string patternNode) (ors : list (list patternNode)) : Prop := {
  pa_fields : forall key val, key <> "$or" -> m !! key = Some val -> exists sub, fields !! key = Some sub /\ field_node val sub;
  pa_only : forall key sub, fields !! key = Some sub -> key <> "$or" /\ is_Some (m !! key);
  pa_ors : or_nodes (m !! "$or") ors
}.

Lemma parse_object_spec m n : parseObject (JObj m) = Ok n -> exists fields ors, n = objectNode fields ors /\ parsed_as m fields ors.
Proof.
  cbn [parseObject]. intros Hp. inv_bind. injection Hp as <-. exists a.1, a.2. split; [done|]. revert a Ha.
  apply (map_fold_weak_ind (fun r m => forall a, r = Ok a -> parsed_as m a.1 a.2)).
  { intros a [= <-]. split; [intros key val _; by rewrite lookup_empty|intros key sub; cbn; by rewrite lookup_empty|by rewrite lookup_empty]. }
  intros k x m' r Hk IH a. destruct r as [b|]; [|done]. cbn [mbind result_bind]. destruct (IH b eq_refl) as [F1 F2 F3]. clear IH. unfold parse_field.
  destruct (String.eqb_spec k "$or") as [->|Hne].
  - destruct x as [| | | |l|]; try done. intros Hp. inv_bind. destruct (Nat.eqb _ _); [done|]. injection Hp as <-. cbn [fst snd]. split.
    + intros key val Hkey. rewrite lookup_insert_ne by done. by apply F1.
    + intros key sub Hs. destruct (F2 key sub Hs) as [Hkey Hm]. split; [done|]. by rewrite lookup_insert_ne.
    + rewrite lookup_insert_eq. rewrite Hk in F3. cbn in F3. rewrite F3. exists l, a0. split; [done|]. split; [done|]. by apply mapR_Ok.
  - assert (forall sub, field_node x sub -> parsed_as (<[k:=x]> m') (<[k := sub]> b.1) b.2) as Hadd.
    { intros sub Hsub. split.
      - intros key val Hkey. destruct (decide (key = k)) as [->|]; [|rewrite !lookup_insert_ne by done; by apply F1].
        rewrite !lookup_insert_eq. intros [= <-]. by exists sub.
      - intros key s. destruct (decide (key = k)) as [->|]; [rewrite !lookup_insert_eq; intros _; split; [exact Hne|by eexists]|].
        rewrite !lookup_insert_ne by done. apply F2.
      - by rewrite lookup_insert_ne. }
    destruct x as [| | | | |m2]; intros Hp; inv_bind; injection Hp as <-; apply Hadd; first [exact Ha|eexists; split; [exact Ha|reflexivity]].
Qed.

(** Leaves come from arrays, and objects from objects. *)
Lemma parseObject_object j n : parseObject j = Ok n -> exists fields ors, n = objectNode fields ors.
Proof. destruct j; [..|intros (f & o & -> & _)%parse_object_spec; by exists f, o]; intros [= <-]; by eexists _, _. Qed.

(** A parsed object matches what its source means. *)
Lemma node_match_spec j n doc :
  is_object j -> parseObject j = Ok n -> no_stars doc -> node_match n doc = true <-> matches j doc.
Proof.
  revert n doc. induction j as [j IH] using (induction_ltof1 _ json_nodes). unfold ltof in IH. intros n doc Hj Hp Hd. destruct j as [| | | | |m]; try done.
  destruct (parse_object_spec m n Hp) as (F & O & -> & [F1 F2 F3]). cbn [node_match]. destruct doc as [| | | | |obj]; try (split; [done|by inversion 1]).
  rewrite andb_true_iff, map_fold_andb, forallb_forall.
  assert (forall key, opt_no_stars (obj !! key)) as Hobj by (intros key; destruct (obj !! key) eqn:E; [by eapply no_stars_member|done]).
  assert (forall alt sub, alt ∈ match m !! "$or" with Some (JArr l) => l | _ => [] end -> parse_alt parseObject alt = Ok sub ->
    node_match sub (JObj obj) = true <-> matches alt (JObj obj)) as Halt.
  { intros alt sub Hin E. destruct (m !! "$or") as [[| | | |l|]|] eqn:Eo; try by apply elem_of_nil in Hin.
    destruct alt as [| | | | |m']; try done; cbn [parse_alt] in E.
    - injection E as <-. split; [intros _; constructor|done].
    - apply IH; try done. pose proof (json_nodes_member _ _ _ Eo). pose proof (json_nodes_elem _ _ Hin). lia. }
  split.
  - intros [HF HO]. constructor.
    + intros l El. rewrite El in F3, Halt. destruct F3 as (l' & alts & [= <-] & -> & Hall). specialize (HO alts ltac:(by left)).
      apply existsb_exists in HO as (sub & Hs%list_elem_of_In & Hm). apply list_elem_of_lookup in Hs as [i Hi].
      apply (Forall2_lookup_r _ _ _ _ _ Hall) in Hi as (alt & Ha%list_elem_of_lookup_2 & E). exists alt. split; [done|]. by apply (Halt alt sub).
    + intros key sub Hkey Hm. destruct (F1 key _ Hkey Hm) as (s & Hs & E). specialize (HF key s Hs). cbn beta in HF.
      destruct (parseObject_object _ _ E) as (f & o & ->). destruct (obj !! key) as [v|] eqn:Ev; [|done]. exists v. split; [done|].
      apply (IH (JObj sub)) with (n := objectNode f o); try done; [by eapply json_nodes_member|by eapply no_stars_member].
    + intros key conds Hkey Hm. destruct (F1 key _ Hkey Hm) as (s & Hs & cs & E & ->). specialize (HF key _ Hs). cbn beta iota in HF.
      destruct (leaf_matches _ _ _ E (Hobj key)) as (l & [= <-] & Hl). by apply Hl.
  - intros Hm. inversion Hm as [m' obj' H1 H2 H3|]; subst. split.
    + intros key sub Hs. destruct (F2 key sub Hs) as [Hkey [val Hval]]. destruct (F1 key val Hkey Hval) as (sub' & Hs' & E). simplify_eq.
      destruct val as [| | | | |m2]; [destruct E as (cs & E & ->); destruct (leaf_matches _ _ _ E (Hobj key)) as (l0 & El & Hl); try done..|].
      * apply Hl. injection El as <-. by apply H3.
      * destruct (parseObject_object _ _ E) as (f & o & ->). destruct (H2 key m2 Hkey Hval) as (v & Ev & Hv). rewrite Ev.
        apply (IH (JObj m2)); try done; [by eapply json_nodes_member|by eapply no_stars_member].
    + intros alts Hin%list_elem_of_In. destruct (m !! "$or") as [val|] eqn:Eo; [|rewrite F3 in Hin; by apply elem_of_nil in Hin].
      destruct F3 as (l & alts' & -> & -> & Hall). apply list_elem_of_singleton in Hin as ->. destruct (H1 l eq_refl) as (alt & Ha & Hma).
      apply existsb_exists. pose proof Ha as Ha'. apply list_elem_of_lookup in Ha' as [i Hi].
      apply (Forall2_lookup_l _ _ _ _ _ Hall) in Hi as (sub & Hs%list_elem_of_lookup_2 & E). exists sub.
      split; [by apply list_elem_of_In|]. by apply (Halt alt sub).
Qed.

Lemma parsed_pattern_means src p doc : ParsePattern src = Ok p -> no_stars doc -> node_match p doc = true <-> matches src doc.
Proof.
  unfold ParsePattern. intros Hp Hd. destruct (unmarshal_object src) as [m|] eqn:Em; [|done]. case_bool_decide; [done|].
  assert (src = JObj m) as -> by (destruct src; simplify_eq/=; done). by apply node_match_spec.
Qed.

(** C18: A pattern matches exactly the events it means.  When a pattern parses, and the event
    is JSON without a star in its texts, matching answers whether every field of the pattern
    holds, one condition of each leaf on the field's value or an element of it, and one
    alternative of each [$or].  The relation reads the source of the pattern and knows
    nothing of the tree the parser builds. *)
Theorem pattern_means src p event :
  ParsePattern src = Ok p -> numbers_ok event = true -> no_stars event ->
  exists b, Match p event = Ok b /\ (b = true <-> matches src event).
Proof.
  intros Hp Hn Hd. unfold Match, decode_any. rewrite Hn. cbn [mbind result_bind]. eexists. split; [done|]. by apply parsed_pattern_means.
Qed.
End pattern.

(** An order of two kilograms or more, from one shop or without a state. *)
Definition sample_pattern : json :=
  JObj {[ "detail" := JObj {[ "weight" := JArr [op "numeric" (JArr [JStr ">="; JNum "2"])] ]};
          "$or" := JArr [JObj {[ "source" := JArr [JStr "shop"] ]}; JObj {[ "state" := JArr [op "exists" (JBool false)] ]}] ]}.
Definition sample_event : json :=
  JObj {[ "detail" := JObj {[ "weight" := JArr [JNum "1"; JNum "7"] ]}; "source" := JStr "shop"; "state" := JStr "sent" ]}.

Lemma pattern_means_witness : exists p, ParsePattern sample_pattern = Ok p /\ Match p sample_event = Ok true /\ matches sample_pattern sample_event.
Proof.
  assert (match ParsePattern sample_pattern with Ok p => match Match p sample_event with Ok b => b | _ => false end | _ => false end = true) as E
    by (vm_compute; reflexivity).
  destruct (ParsePattern sample_pattern) as [p|] eqn:Hp; [|discriminate]. exists p. split; [reflexivity|].
  destruct (pattern_means sample_pattern p sample_event Hp) as (b & Hb & Hm); [vm_compute; reflexivity|vm_compute; repeat split|].
  rewrite Hb in E |- *. rewrite E in Hm |- *. split; [reflexivity|apply Hm; reflexivity].
Defined.
