(* ===== verification/Events.v ===== *)
(** * Events: event buses, rules and archives

    Model of src/eventbridge/store.go and archive.go: the records of buses, rules, archives
    and replays in their buckets, and the log of archived events. *)

From stdpp Require Import sorting.
From S2P Require Import Prelude Bytes Ident GoText Bolt Cursor Tx Star Pattern.

(** ** Data *)

(** The request an API destination makes. *)
Record httpParameters := mkHttp {
  PathParameterValues : list string;
  HeaderParameters : gmap string string;
  QueryStringParameters : gmap string string
}.

Record inputTransformer := mkTransformer { PathsMap : gmap string string; Template : string }.

Record target := mkTarget {
  tg_ID : string;
  tg_ARN : string;
  tg_Input : string;                            (* a literal input *)
  tg_InputPath : string;
  tg_Transformer : option inputTransformer;
  tg_Http : option httpParameters
}.

Record rule := mkRule {
  ru_Bus : string;
  ru_Name : string;
  ru_Pattern : string;
  ru_Schedule : string;
  ru_State : string;
  ru_Desc : string;
  ru_RoleArn : string;
  ru_Targets : list target;
  ru_Tags : gmap string string
}.

Record bus := mkBus {
  bu_Name : string;
  bu_Tags : gmap string string;
  bu_Description : string;
  bu_DeadLetterARN : string;
  bu_KmsKeyIdentifier : string;
  bu_Policy : string
}.

Record archive := mkArchive {
  ar_Name : string;
  ar_EventSourceArn : string;
  ar_Pattern : string;
  ar_RetentionDays : Z;
  ar_Desc : string;
  ar_State : string;
  ar_Created : Z;
  ar_EventCount : Z;
  ar_SizeBytes : Z
}.

(** A replay, complete when it is stored; the order of its filter is that of a map. *)
Record replay := mkReplay {
  rp_Name : string;
  rp_EventSourceArn : string;
  rp_DestinationArn : string;
  rp_FilterArns : gset string;
  rp_EventStart : Z;
  rp_EventEnd : Z;
  rp_State : string;
  rp_StateReason : string;
  rp_Start : Z;
  rp_End : Z;
  rp_LastEvent : Z
}.

Record storedEvent := mkStored { se_Time : Z; se_Event : string }.

Definition set_state (s : string) (r : rule) : rule :=
  mkRule (ru_Bus r) (ru_Name r) (ru_Pattern r) (ru_Schedule r) s (ru_Desc r) (ru_RoleArn r) (ru_Targets r) (ru_Tags r).
Definition set_targets (l : list target) (r : rule) : rule :=
  mkRule (ru_Bus r) (ru_Name r) (ru_Pattern r) (ru_Schedule r) (ru_State r) (ru_Desc r) (ru_RoleArn r) l (ru_Tags r).
Definition set_rule_tags (m : gmap string string) (r : rule) : rule :=
  mkRule (ru_Bus r) (ru_Name r) (ru_Pattern r) (ru_Schedule r) (ru_State r) (ru_Desc r) (ru_RoleArn r) (ru_Targets r) m.
Definition set_bus_tags (m : gmap string string) (b : bus) : bus :=
  mkBus (bu_Name b) m (bu_Description b) (bu_DeadLetterARN b) (bu_KmsKeyIdentifier b) (bu_Policy b).
Definition set_counts (count size : Z) (a : archive) : archive :=
  mkArchive (ar_Name a) (ar_EventSourceArn a) (ar_Pattern a) (ar_RetentionDays a) (ar_Desc a) (ar_State a) (ar_Created a) count size.

Definition DefaultBus : string := "default".
Definition new_bus (name : string) (tags : gmap string string) : bus := mkBus name tags "" "" "" "".

(** ** Names *)

Definition nul : string := String (chr 0) "".

Definition rule_ARN (id : Identity) (r : rule) : string :=
  if String.eqb (ru_Bus r) DefaultBus then ARN id "events" ("rule/" +:+ ru_Name r)
  else ARN id "events" ("rule/" +:+ ru_Bus r +:+ "/" +:+ ru_Name r).
Definition busARN (id : Identity) (name : string) : string := ARN id "events" ("event-bus/" +:+ name).
Definition ruleKey (bus name : string) : string := bus +:+ nul +:+ name.

(** A bare name stands for itself. *)
Definition busFromArn (arn : string) : string := default arn (after_first ":event-bus/" arn).
Definition archiveFromArn (arn : string) : string := default arn (after_first ":archive/" arn).

Definition errRuleNotFound : APIError := Errf 400 "ResourceNotFoundException" "Rule %s does not exist".
Definition errArchiveNotFound : APIError := Errf 400 "ResourceNotFoundException" "Archive %s does not exist".
Definition errReplayNotFound : APIError := Errf 400 "ResourceNotFoundException" "Replay %s does not exist".
Definition errBusNotFound : APIError := Errf 400 "ResourceNotFoundException" "event bus %s does not exist".

(** ** Entries under a prefix *)

(** The entries a cursor finds from a prefix on, while they have it. *)
Fixpoint take_prefixed {V} (p : string) (l : list (string * V)) : list (string * V) :=
  match l with
  | [] => []
  | e :: l' => if has_prefix e.1 p then e :: take_prefixed p l' else []
  end.

Section entries.
Context `{B : Bolt}.

Definition prefixed {V} (p : string) (b : bucket V) : list (string * V) := take_prefixed p (seek p (bentries b)).

(** Deletes them, after the cursor has collected their keys. *)
Definition delete_prefixed {V} (p : string) (b : bucket V) : bucket V :=
  foldl (fun b k => bdelete k b) b (prefixed p b).*1.

Definition opt_entries {V} (b : option (bucket V)) : list (string * V) := match b with Some b => bentries b | None => [] end.
Definition opt_prefixed {V} (p : string) (b : option (bucket V)) : list (string * V) := match b with Some b => prefixed p b | None => [] end.
End entries.

(** ** The database *)

Record EventDB `{Bolt} := mkEventDB {
  e_buses : option (bucket bus);
  e_rules : option (bucket rule);
  e_archives : option (bucket archive);
  e_events : option (bucket storedEvent);
  e_replays : option (bucket replay)
}.
#[global] Arguments e_buses {_} _.
#[global] Arguments e_rules {_} _.
#[global] Arguments e_archives {_} _.
#[global] Arguments e_events {_} _.
#[global] Arguments e_replays {_} _.

(** Records listed by name. *)
Definition name_le {A} (name : A -> string) (a b : A) : Prop := bytes_cmp (name a) (name b) <> Gt.
#[global] Instance name_le_dec {A} (name : A -> string) : RelDecision (name_le name).
Proof. intros a b. unfold name_le. destruct (bytes_cmp (name a) (name b)); [left|left|right]; auto. Defined.

Section events.
Context `{B : Bolt} `{GoText} `{JsonText}.

#[local] Abbreviation E := (Tx EventDB).

Definition empty_EventDB : EventDB := mkEventDB _ None None None None None.

Definition set_buses (b : bucket bus) (db : EventDB) : EventDB :=
  mkEventDB _ (Some b) (e_rules db) (e_archives db) (e_events db) (e_replays db).
Definition set_rules (b : bucket rule) (db : EventDB) : EventDB :=
  mkEventDB _ (e_buses db) (Some b) (e_archives db) (e_events db) (e_replays db).
Definition set_archives (b : bucket archive) (db : EventDB) : EventDB :=
  mkEventDB _ (e_buses db) (e_rules db) (Some b) (e_events db) (e_replays db).
Definition set_events (b : bucket storedEvent) (db : EventDB) : EventDB :=
  mkEventDB _ (e_buses db) (e_rules db) (e_archives db) (Some b) (e_replays db).
Definition set_replays (b : bucket replay) (db : EventDB) : EventDB :=
  mkEventDB _ (e_buses db) (e_rules db) (e_archives db) (e_events db) (Some b).

Definition put_bus (name : string) (b : bus) : E unit :=
  db ← tx_read; bk ← tx_lift (bput name b (default bempty (e_buses db))); tx_modify (set_buses bk).
Definition put_rule (r : rule) (bus name : string) : E unit :=
  db ← tx_read; bk ← tx_lift (bput (ruleKey bus name) r (default bempty (e_rules db))); tx_modify (set_rules bk).
Definition put_archive (name : string) (a : archive) : E unit :=
  db ← tx_read; bk ← tx_lift (bput name a (default bempty (e_archives db))); tx_modify (set_archives bk).

Definition find_bus (db : EventDB) (name : string) : option bus := e_buses db ≫= bget name.
Definition find_rule (db : EventDB) (bus name : string) : option rule := e_rules db ≫= bget (ruleKey bus name).
Definition find_archive (db : EventDB) (name : string) : option archive := e_archives db ≫= bget name.

(** ** Buses *)

Definition busExists (db : EventDB) (name : string) : bool :=
  String.eqb name DefaultBus || match find_bus db name with Some _ => true | None => false end.

Definition CreateBus (name : string) (tags : gmap string string) (db : EventDB) : result unit * EventDB :=
  if String.eqb name "" || String.eqb name DefaultBus || has_char "/" name || has_char "\" name || has_char " " name then
    (Err (Errf 400 "ValidationException" "invalid event bus name %q"), db)
  else
    run_update (
      db ← tx_read;
      match find_bus db name with
      | Some _ => tx_throw (Errf 400 "ResourceAlreadyExistsException" "event bus %s already exists")
      | None => put_bus name (new_bus name tags)
      end) db.

(** A bus that is not stored is left alone. *)
Definition UpdateBus (name : string) (fn : bus -> bus) : EventDB -> result unit * EventDB :=
  run_update (
    db ← tx_read;
    match find_bus db name with
    | Some b => put_bus name (fn b)
    | None => mret tt
    end).

(** Stores the default bus the first time it is written. *)
Definition MutateBus (name : string) (fn : bus -> bus) : EventDB -> result unit * EventDB :=
  run_update (
    db ← tx_read;
    if negb (busExists db name) then tx_throw errBusNotFound
    else put_bus name (fn (default (new_bus name ∅) (find_bus db name)))).

Definition DeleteBus (name : string) (db : EventDB) : result unit * EventDB :=
  if String.eqb name DefaultBus then (Err (Errf 400 "ValidationException" "the default event bus cannot be deleted"), db)
  else
    run_update (
      _ ← tx_modify (fun db => match e_buses db with Some b => set_buses (bdelete name b) db | None => db end);
      tx_modify (fun db => match e_rules db with Some b => set_rules (delete_prefixed (name +:+ nul) b) db | None => db end)) db.

(** The default bus first, as stored if it is; then by name. *)
Definition list_bus (acc : bus * list bus) (b : bus) : bus * list bus :=
  if String.eqb (bu_Name b) DefaultBus then (b, acc.2) else (acc.1, acc.2 ++ [b]).
Definition ListBuses (db : EventDB) : list bus :=
  let '(first, rest) := foldl list_bus (new_bus DefaultBus ∅, []) (opt_entries (e_buses db)).*2 in
  merge_sort (name_le bu_Name) (first :: rest).

(** ** Rules *)

(** Targets stay with a rule that is put again, and so do tags it is put without. *)
Definition put_over (old : option rule) (r : rule) : rule :=
  match old with
  | Some old =>
      set_rule_tags (if bool_decide (ru_Tags r = ∅) then ru_Tags old else ru_Tags r) (set_targets (ru_Targets old) r)
  | None => r
  end.

Definition PutRule (r : rule) : EventDB -> result unit * EventDB :=
  run_update (
    db ← tx_read;
    if negb (busExists db (ru_Bus r)) then tx_throw errBusNotFound
    else put_rule (put_over (find_rule db (ru_Bus r) (ru_Name r)) r) (ru_Bus r) (ru_Name r)).

Definition GetRule (bus name : string) (db : EventDB) : result rule :=
  match find_rule db bus name with Some r => Ok r | None => Err errRuleNotFound end.

Definition UpdateRule (bus name : string) (fn : rule -> rule) : EventDB -> result unit * EventDB :=
  run_update (
    db ← tx_read;
    match find_rule db bus name with
    | Some r => put_rule (fn r) bus name
    | None => tx_throw errRuleNotFound
    end).

Definition DeleteRule (bus name : string) : EventDB -> result unit * EventDB :=
  run_update (
    db ← tx_read;
    match e_rules db with
    | None => mret tt
    | Some b =>
        if match bget (ruleKey bus name) b with Some r => negb (bool_decide (ru_Targets r = [])) | None => false end then
          tx_throw (Errf 400 "ValidationException" "Rule can't be deleted since it has targets.")
        else tx_modify (set_rules (bdelete (ruleKey bus name) b))
    end).

Definition Rules (bus prefix : string) (db : EventDB) : list rule := (opt_prefixed (ruleKey bus prefix) (e_rules db)).*2.

(** ** Archives *)

(** The text of a pattern or an event. *)
Definition parse_pattern (src : string) : result patternNode :=
  match json_parse src with Some j => ParsePattern j | None => Err (bad "event pattern is not a JSON object: %w") end.
Definition decode_event (event : string) : result json :=
  match json_parse event with Some j => decode_any j | None => Err (plain_error "event is not valid JSON: %w") end.

(** What is left of an error of the parser in the answer. *)
Definition invalid_pattern : APIError := Errf 400 "InvalidEventPatternException" "%v".

Definition CreateArchive (a : archive) (db : EventDB) : result unit * EventDB :=
  if negb (String.eqb (ar_Pattern a) "") && negb (is_ok (parse_pattern (ar_Pattern a))) then (Err invalid_pattern, db)
  else
    run_update (
      db ← tx_read;
      if negb (busExists db (busFromArn (ar_EventSourceArn a))) then tx_throw errBusNotFound
      else match find_archive db (ar_Name a) with
      | Some _ => tx_throw (Errf 400 "ResourceAlreadyExistsException" "archive %s already exists")
      | None => put_archive (ar_Name a) a
      end) db.

Definition GetArchive (name : string) (db : EventDB) : result archive :=
  match find_archive db name with Some a => Ok a | None => Err errArchiveNotFound end.

Definition ListArchives (namePrefix sourceArn : string) (db : EventDB) : list archive :=
  merge_sort (name_le ar_Name)
    (List.filter (fun a =>
       (String.eqb namePrefix "" || has_prefix (ar_Name a) namePrefix) &&
       (String.eqb sourceArn "" || String.eqb (ar_EventSourceArn a) sourceArn)) (opt_entries (e_archives db)).*2).

Definition UpdateArchive (name : string) (fn : archive -> result archive) : EventDB -> result unit * EventDB :=
  run_update (
    db ← tx_read;
    match find_archive db name with
    | Some a => a' ← tx_lift (fn a); put_archive name a'
    | None => tx_throw errArchiveNotFound
    end).

Definition DeleteArchive (name : string) : EventDB -> result unit * EventDB :=
  run_update (
    _ ← tx_modify (fun db => match e_archives db with Some b => set_archives (bdelete name b) db | None => db end);
    tx_modify (fun db => match e_events db with Some b => set_events (delete_prefixed (name +:+ nul) b) db | None => db end)).

Definition eventKey (name : string) (seq : Z) : string := name +:+ nul +:+ be64 seq.

(** Logs one event and counts it on its archive. *)
Definition AppendArchiveEvent (name : string) (t : Z) (event : string) : EventDB -> result unit * EventDB :=
  run_update (
    db ← tx_read;
    match find_archive db name with
    | None => mret tt
    | Some a =>
        let b := bnext_sequence (default bempty (e_events db)) in
        b' ← tx_lift (bput (eventKey name (bsequence b)) (mkStored t event) b);
        _ ← tx_modify (set_events b');
        put_archive name (set_counts (ar_EventCount a + 1) (ar_SizeBytes a + slen event) a)
    end).

(** The events of a window, whose zero ends are open. *)
Definition in_window (start stop : Z) (e : storedEvent) : bool :=
  negb (negb (start =? 0) && (se_Time e <? start)) && negb (negb (stop =? 0) && (stop <? se_Time e)).
Definition ReplayEvents (name : string) (start stop : Z) (db : EventDB) : list storedEvent :=
  List.filter (in_window start stop) (opt_prefixed (name +:+ nul) (e_events db)).*2.
Definition last_time (l : list storedEvent) : Z := foldl (fun last e => Z.max last (se_Time e)) 0 l.

(** ** Replays *)

Definition PutReplay (r : replay) : EventDB -> result unit * EventDB :=
  run_update (
    db ← tx_read;
    match e_replays db ≫= bget (rp_Name r) with
    | Some _ => tx_throw (Errf 400 "ResourceAlreadyExistsException" "replay %s already exists")
    | None => bk ← tx_lift (bput (rp_Name r) r (default bempty (e_replays db))); tx_modify (set_replays bk)
    end).

Definition GetReplay (name : string) (db : EventDB) : result replay :=
  match e_replays db ≫= bget name with Some r => Ok r | None => Err errReplayNotFound end.

Definition ListReplays (namePrefix : string) (db : EventDB) : list replay :=
  merge_sort (name_le rp_Name)
    (List.filter (fun r => String.eqb namePrefix "" || has_prefix (rp_Name r) namePrefix) (opt_entries (e_replays db)).*2).
End events.
