(* ===== verification/EventApi.v ===== *)
(** * EventApi: the handlers of EventBridge and its deliveries

    Model of src/eventbridge/actions.go, archive_actions.go and patterncache.go, with
    parseRate of scheduler.go.  A request is the JSON object it was decoded from.  What
    reaches other services is a list of deliveries, in the order they are made; their
    outcomes are logged and change nothing here. *)

From stdpp Require Import pretty.
From S2P Require Import Prelude Bytes Ident Clock Digits GoText Bolt Tx Star Pattern Cron Events.

(** The texts the handlers make with Go's library: an event, whose detail is a text of its
    own; a decoded document; an instant; and a JSON number read as an int64. *)
Class EventText := {
  event_text : gmap string json -> string -> string;
  any_text : json -> string;
  iso8601 : Z -> string;
  number_int64 : string -> Z
}.

(** ** Requests *)

Definition str_of (p : gmap string json) (key : string) : string :=
  match p !! key with Some (JStr s) => s | _ => "" end.
Definition obj_of (j : json) : gmap string json := match j with JObj m => m | _ => ∅ end.
Definition text_of (j : json) : option string := match j with JStr s => Some s | _ => None end.
Definition arr_of (p : gmap string json) (key : string) : list json :=
  match p !! key with Some (JArr l) => l | _ => [] end.

Definition busOrDefault (p : gmap string json) : string :=
  let b := str_of p "EventBusName" in
  if String.eqb b "" then DefaultBus
  else match after_last "/" b with
  | Some name => if has_prefix b "arn:" then name else b
  | None => b
  end.

(** ** Rates *)

Definition minute : Z := 60 * second.

(** A duration, which wraps around. *)
Definition parseRate (expr : string) : option Z :=
  match cut_prefix "rate(" (trim_space expr) with
  | None => None
  | Some inner =>
      match cut_suffix ")" inner with
      | None => None
      | Some body =>
          match fields body with
          | [number; word] =>
              match parse_int number with
              | None => None
              | Some n =>
                  if n <=? 0 then None
                  else
                    let word := to_lower word in
                    let unit := default word (cut_suffix "s" word) in
                    let plural := match cut_suffix "s" word with Some _ => true | None => false end in
                    if negb (Bool.eqb plural (1 <? n)) then None
                    else if String.eqb unit "minute" then Some (wrap64 (n * minute))
                    else if String.eqb unit "hour" then Some (wrap64 (n * (60 * minute)))
                    else if String.eqb unit "day" then Some (wrap64 (wrap64 (n * 24) * (60 * minute)))
                    else None
              end
          | _ => None
          end
      end
  end.

(** ** Deliveries *)

Inductive call :=
| SQSSend (queue payload : string)
| LambdaInvokeAsync (fn payload : string)
| SNSPublish (arn payload : string)
| LogsPut (group stream payload request : string)
| CallDestination (tg : target) (payload : string).

(** A call on behalf of a rule. *)
Record delivery := mkDelivery { dl_rule : string; dl_call : call }.

(** The service: its database and the patterns it has compiled. *)
Record server `{Bolt} `{GoText} := mkServer { sv_db : EventDB; sv_patterns : gmap string patternNode }.
#[global] Arguments sv_db {_ _} _.
#[global] Arguments sv_patterns {_ _} _.

Section api.
Context `{B : Bolt} `{GT : GoText} `{JT : JsonText} `{ET : EventText} (ident : Identity).

#[local] Abbreviation server := (server (H := B) (H0 := GT)).
#[local] Abbreviation params := (gmap string json).

Definition with_db (s : server) (db : EventDB) : server := mkServer _ _ db (sv_patterns s).
Definition on_db {A} (f : EventDB -> result A * EventDB) (s : server) : result A * server :=
  let '(r, db) := f (sv_db s) in (r, with_db s db).

(** ** Compiled patterns *)

Definition maxCachedPatterns : nat := 512.

Definition compiled (src : string) (m : gmap string patternNode) : result patternNode * gmap string patternNode :=
  match m !! src with
  | Some p => (Ok p, m)
  | None =>
      match parse_pattern src with
      | Err e => (Err e, m)
      | Ok p => (Ok p, <[src := p]> (if Nat.leb maxCachedPatterns (size m) then ∅ else m))
      end
  end.

(** ** Shaping the input of a target *)

Definition extractPath (event path : string) : option json :=
  match decode_event event with
  | Err _ => None
  | Ok doc =>
      let path := default path (cut_prefix "$" path) in
      let path := default path (cut_prefix "." path) in
      if String.eqb path "" then Some doc
      else foldl (fun cur part => match cur with Some (JObj m) => m !! part | _ => None end) (Some doc) (split_on "." path)
  end.

Definition renderScalar (v : json) : string := match v with JStr s => s | _ => any_text v end.

Definition substitute (event : string) (out : string) (e : string * string) : string :=
  replace_all ("<" +:+ e.1 +:+ ">") (renderScalar (default (JStr "") (extractPath event e.2))) out.

(** [None] when the path of the input leads nowhere. *)
Definition shapeInput (tg : target) (event : string) : option string :=
  if negb (String.eqb (tg_Input tg) "") then Some (tg_Input tg)
  else if negb (String.eqb (tg_InputPath tg) "") then any_text <$> extractPath event (tg_InputPath tg)
  else match tg_Transformer tg with
  | Some t => Some (foldl (substitute event) (Template t) (range (PathsMap t)))
  | None => Some event
  end.

Definition event_id (event : string) : string :=
  match json_parse event with Some j => str_of (obj_of j) "id" | None => "" end.

(** The call a target asks for; nothing when its input cannot be shaped or no service is
    known for it. *)
Definition dispatch (r : rule) (event : string) (tg : target) : option delivery :=
  match shapeInput tg event with
  | None => None
  | Some payload =>
      let arn := tg_ARN tg in
      let name := default arn (after_last ":" arn) in
      let by_rule c := Some (mkDelivery (rule_ARN ident r) c) in
      if contains arn ":sqs:" then by_rule (SQSSend name payload)
      else if contains arn ":lambda:" then by_rule (LambdaInvokeAsync name payload)
      else if contains arn ":sns:" then by_rule (SNSPublish arn payload)
      else if contains arn ":logs:" then
        match after_first ":log-group:" arn with
        | Some rest => by_rule (LogsPut (default rest (cut_suffix ":*" rest)) (ru_Name r) payload (event_id event))
        | None => None
        end
      else if contains arn ":api-destination/" then by_rule (CallDestination tg payload)
      else None
  end.

(** ** Matching *)

(** One rule of a bus. *)
Definition visit_rule (doc : json) (event : string) (wanted : option (gset string))
    (acc : list delivery * gmap string patternNode) (r : rule) : list delivery * gmap string patternNode :=
  let '(out, m) := acc in
  if negb (String.eqb (ru_State r) "ENABLED") || String.eqb (ru_Pattern r) "" then acc
  else if match wanted with Some f => negb (bool_decide (rule_ARN ident r ∈ f)) | None => false end then acc
  else
    let '(p, m) := compiled (ru_Pattern r) m in
    match p with
    | Err _ => (out, m)
    | Ok p => if node_match p doc then (out ++ omap (dispatch r event) (ru_Targets r), m) else (out, m)
    end.

Definition matchAndDispatch (bus event : string) (wanted : option (gset string)) (s : server) : list delivery * server :=
  match decode_event event with
  | Err _ => ([], s)
  | Ok doc =>
      let '(out, m) := foldl (visit_rule doc event wanted) ([], sv_patterns s) (Rules bus "" (sv_db s)) in
      (out, mkServer _ _ (sv_db s) m)
  end.

(** ** Archiving *)

(** An event that does not decode ends the walk at the first archive with a pattern. *)
Fixpoint capture_walk (now : Z) (event : string) (arcs : list archive) (s : server) : server :=
  match arcs with
  | [] => s
  | a :: arcs =>
      let append s := (on_db (AppendArchiveEvent (ar_Name a) (unix_seconds now) event) s).2 in
      if negb (String.eqb (ar_State a) "ENABLED") then capture_walk now event arcs s
      else if String.eqb (ar_Pattern a) "" then capture_walk now event arcs (append s)
      else
        let '(p, m) := compiled (ar_Pattern a) (sv_patterns s) in
        let s := mkServer _ _ (sv_db s) m in
        match p with
        | Err _ => capture_walk now event arcs s
        | Ok p =>
            match decode_event event with
            | Err _ => s
            | Ok doc => capture_walk now event arcs (if node_match p doc then append s else s)
            end
        end
  end.

Definition captureToArchives (now : Z) (bus event : string) (s : server) : server :=
  capture_walk now event (ListArchives "" (busARN ident bus) (sv_db s)) s.

(** ** Events *)

(** The document rules match, but for its detail. *)
Definition event_fields (now : Z) (id : string) (entry : params) : params :=
  <["version" := JStr "0"]> (<["id" := JStr id]> (<["detail-type" := JStr (str_of entry "DetailType")]>
  (<["source" := JStr (str_of entry "Source")]> (<["account" := JStr (account_of (id_Account ident))]>
  (<["time" := JStr (iso8601 now)]> (<["region" := JStr (region_of (id_Region ident))]>
  {[ "resources" := match entry !! "Resources" with None | Some JNull => JArr [] | Some j => j end ]})))))).

Definition entry_detail (entry : params) : string :=
  let d := str_of entry "Detail" in if String.eqb d "" then "{}" else d.
(** The bus of an entry is not read as an ARN. *)
Definition entry_bus (entry : params) : string :=
  let b := str_of entry "EventBusName" in if String.eqb b "" then DefaultBus else b.

(** An entry fails with a code, or is an event with an identifier. *)
Definition putOneEvent (now : Z) (id : string) (entry : params) (s : server) : string + string * list delivery * server :=
  if String.eqb (str_of entry "Source") "" || String.eqb (str_of entry "DetailType") "" then inl "ValidationException"
  else match json_parse (entry_detail entry) with
  | None => inl "MalformedDetail"
  | Some _ =>
      let event := event_text (event_fields now id entry) (entry_detail entry) in
      let '(out, s) := matchAndDispatch (entry_bus entry) event None s in
      inr (id, out, captureToArchives now (entry_bus entry) event s)
  end.

(** The results of the entries, in their order, and how many failed. *)
Record put_state := mkPut { pu_results : list (string + string); pu_failed : Z; pu_out : list delivery; pu_server : server }.

Definition put_entry (now : Z) (acc : put_state) (e : string * json) : put_state :=
  match putOneEvent now e.1 (obj_of e.2) (pu_server acc) with
  | inl code => mkPut (pu_results acc ++ [inl code]) (pu_failed acc + 1) (pu_out acc) (pu_server acc)
  | inr (id, out, s) => mkPut (pu_results acc ++ [inr id]) (pu_failed acc) (pu_out acc ++ out) s
  end.

(** [ids] are the identifiers drawn for the entries. *)
Definition putEvents (now : Z) (ids : list string) (p : params) (s : server) : result put_state :=
  match p !! "Entries" with
  | Some (JArr entries) =>
      if bool_decide (entries = []) || Nat.ltb 10 (length entries) then
        Err (Errf 400 "ValidationException" "PutEvents accepts 1-10 entries")
      else Ok (foldl (put_entry now) (mkPut [] 0 [] s) (zip ids entries))
  | _ => Err (Errf 400 "ValidationException" "PutEvents accepts 1-10 entries")
  end.
End api.
