(* ===== verification/EventHandlers.v ===== *)
(** * EventHandlers: rules, targets, buses, tags, archives and replays

    The handlers of src/eventbridge/actions.go and archive_actions.go that change what is
    stored.  Answers keep what the code decides: the rendering of a record is left out. *)

From stdpp Require Import pretty.
From S2P Require Import Prelude Bytes Ident Clock GoText Bolt Tx Star Pattern Cron Events EventApi.

Section handlers.
Context `{B : Bolt} `{GT : GoText} `{JT : JsonText} `{ET : EventText} (ident : Identity).

#[local] Abbreviation server := (server (H := B) (H0 := GT)).
#[local] Abbreviation params := (gmap string json).

Definition validation (format : string) : APIError := Errf 400 "ValidationException" format.

(** ** Rules *)

(** A rate, or a cron expression; the parser of the latter can panic. *)
Definition check_schedule (p : params) (schedule : string) : outcome unit :=
  if String.eqb schedule "" then mret tt
  else if negb (String.eqb (busOrDefault p) DefaultBus) then
    Ret (Err (validation "ScheduleExpression is supported only on the default event bus."))
  else match parseRate schedule with
  | Some _ => mret tt
  | None =>
      match Cron.Parse schedule with
      | Ret (Ok _) => mret tt
      | Ret (Err _) => Ret (Err (validation "Parameter ScheduleExpression is not valid."))
      | Panic => Panic
      | OutOfFuel => OutOfFuel
      end
  end.

Definition rule_of (p : params) : rule :=
  mkRule (busOrDefault p) (str_of p "Name") (str_of p "EventPattern") (str_of p "ScheduleExpression")
    (if String.eqb (str_of p "State") "" then "ENABLED" else str_of p "State")
    (str_of p "Description") (str_of p "RoleArn") [] ∅.

Definition check_rule (p : params) : outcome unit :=
  if String.eqb (str_of p "Name") "" then Ret (Err (validation "Name is required"))
  else if String.eqb (str_of p "EventPattern") "" && String.eqb (str_of p "ScheduleExpression") "" then
    Ret (Err (validation "either EventPattern or ScheduleExpression is required"))
  else if negb (String.eqb (str_of p "EventPattern") "") && negb (is_ok (parse_pattern (str_of p "EventPattern"))) then
    Ret (Err invalid_pattern)
  else check_schedule p (str_of p "ScheduleExpression").

(** Answers the ARN of the rule. *)
Definition putRule (p : params) (s : server) : outcome (string * server) :=
  _ ← check_rule p;
  let '(r, s) := on_db (PutRule (rule_of p)) s in
  match r with Ok _ => mret (rule_ARN ident (rule_of p), s) | Err e => Ret (Err e) end.

Definition deleteRule (p : params) (s : server) : result unit * server :=
  on_db (DeleteRule (busOrDefault p) (str_of p "Name")) s.
Definition enableRule (p : params) (s : server) : result unit * server :=
  on_db (UpdateRule (busOrDefault p) (str_of p "Name") (set_state "ENABLED")) s.
Definition disableRule (p : params) (s : server) : result unit * server :=
  on_db (UpdateRule (busOrDefault p) (str_of p "Name") (set_state "DISABLED")) s.

(** ** Targets *)

Definition strings_in (m : params) : gmap string string := omap text_of m.

Definition parseTargetHTTPParameters (hp : params) : httpParameters :=
  mkHttp (omap text_of (arr_of hp "PathParameterValues"))
    (strings_in (obj_of (default JNull (hp !! "HeaderParameters"))))
    (strings_in (obj_of (default JNull (hp !! "QueryStringParameters")))).

Definition target_of (tm : params) : target :=
  mkTarget (str_of tm "Id") (str_of tm "Arn") (str_of tm "Input") (str_of tm "InputPath")
    (match tm !! "InputTransformer" with
     | Some (JObj it) => Some (mkTransformer (strings_in (obj_of (default JNull (it !! "InputPathsMap")))) (str_of it "InputTemplate"))
     | _ => None
     end)
    (match tm !! "HttpParameters" with Some (JObj hp) => Some (parseTargetHTTPParameters hp) | _ => None end).

Definition parse_target (j : json) : result target :=
  let t := target_of (obj_of j) in
  if String.eqb (tg_ID t) "" || String.eqb (tg_ARN t) "" then Err (validation "each target needs Id and Arn") else Ok t.

(** Replaces the first target of the identifier, or adds one. *)
Fixpoint put_target (l : list target) (nt : target) : list target :=
  match l with
  | [] => [nt]
  | t :: l => if String.eqb (tg_ID t) (tg_ID nt) then nt :: l else t :: put_target l nt
  end.
Fixpoint remove_target (l : list target) (id : string) : list target :=
  match l with
  | [] => []
  | t :: l => if String.eqb (tg_ID t) id then l else t :: remove_target l id
  end.

Definition putTargets (p : params) (s : server) : result unit * server :=
  if bool_decide (arr_of p "Targets" = []) then (Err (validation "Targets is required"), s)
  else match mapR parse_target (arr_of p "Targets") with
  | Err e => (Err e, s)
  | Ok targets =>
      on_db (UpdateRule (busOrDefault p) (str_of p "Rule") (fun r => set_targets (foldl put_target (ru_Targets r) targets) r)) s
  end.

Definition removeTargets (p : params) (s : server) : result unit * server :=
  let ids := (fun j => default "" (text_of j)) <$> arr_of p "Ids" in
  on_db (UpdateRule (busOrDefault p) (str_of p "Rule") (fun r => set_targets (foldl remove_target (ru_Targets r) ids) r)) s.

Definition listRuleNamesByTarget (p : params) (s : server) : list string :=
  ru_Name <$> List.filter (fun r => existsb (fun t => String.eqb (tg_ARN t) (str_of p "TargetArn")) (ru_Targets r))
    (Rules (busOrDefault p) "" (sv_db s)).

(** ** Buses *)

Definition describe_bus (p : params) (dlq : string) (b : bus) : bus :=
  mkBus (bu_Name b) (bu_Tags b) (str_of p "Description")
    (match p !! "DeadLetterConfig" with Some (JObj m) => str_of m "Arn" | _ => dlq end)
    (str_of p "KmsKeyIdentifier") (bu_Policy b).

(** Two transactions. *)
Definition createEventBus (p : params) (s : server) : result string * server :=
  let name := str_of p "Name" in
  let '(r, s) := on_db (CreateBus name ∅) s in
  match r with
  | Err e => (Err e, s)
  | Ok _ =>
      let '(r, s) := on_db (UpdateBus name (fun b => describe_bus p (bu_DeadLetterARN b) b)) s in
      match r with Err e => (Err e, s) | Ok _ => (Ok (busARN ident name), s) end
  end.

Definition deleteEventBus (p : params) (s : server) : result unit * server := on_db (DeleteBus (str_of p "Name")) s.

Definition named_bus (p : params) : string := if String.eqb (str_of p "Name") "" then DefaultBus else str_of p "Name".
Definition listed_bus (name : string) (s : server) : option bus :=
  List.find (fun b => String.eqb (bu_Name b) name) (ListBuses (sv_db s)).

Definition updateEventBus (p : params) (s : server) : result string * server :=
  match listed_bus (named_bus p) s with
  | None => (Err (Errf 404 "ResourceNotFoundException" "Event bus %s does not exist."), s)
  | Some _ =>
      let '(r, s) := on_db (UpdateBus (named_bus p) (describe_bus p "")) s in
      match r with Err e => (Err e, s) | Ok _ => (Ok (busARN ident (named_bus p)), s) end
  end.

Definition describeEventBus (p : params) (s : server) : result bus :=
  match listed_bus (named_bus p) s with Some b => Ok b | None => Err errBusNotFound end.

(** ** Tags *)

Definition busFromARN (arn : string) : option string := after_first ":event-bus/" arn.

(** The bus and the name of a rule. *)
Definition ruleFromARN (arn : string) : result (string * string) :=
  match after_first ":rule/" arn with
  | None => Err (validation "%q is not the ARN of a rule or an event bus")
  | Some rest => Ok (match cut_on "/" rest with Some bn => bn | None => (DefaultBus, rest) end)
  end.

Definition add_tag (tags : gmap string string) (j : json) : gmap string string :=
  let k := str_of (obj_of j) "Key" in if String.eqb k "" then tags else <[k := str_of (obj_of j) "Value"]> tags.
Definition remove_tag (tags : gmap string string) (j : json) : gmap string string :=
  match j with JStr k => delete k tags | _ => tags end.

(** Changes the tags of the bus or the rule an ARN names. *)
Definition change_tags (f : gmap string string -> gmap string string) (p : params) (s : server) : result unit * server :=
  match busFromARN (str_of p "ResourceARN") with
  | Some name => on_db (MutateBus name (fun b => set_bus_tags (f (bu_Tags b)) b)) s
  | None =>
      match ruleFromARN (str_of p "ResourceARN") with
      | Err e => (Err e, s)
      | Ok (bus, name) => on_db (UpdateRule bus name (fun r => set_rule_tags (f (ru_Tags r)) r)) s
      end
  end.

Definition tagResource (p : params) : server -> result unit * server :=
  change_tags (fun tags => foldl add_tag tags (arr_of p "Tags")) p.
Definition untagResource (p : params) : server -> result unit * server :=
  change_tags (fun tags => foldl remove_tag tags (arr_of p "TagKeys")) p.

(** Reading the tags of a bus writes the bus. *)
Definition listTagsForResource (p : params) (s : server) : result (gmap string string) * server :=
  match busFromARN (str_of p "ResourceARN") with
  | Some name =>
      let have := match find_bus (sv_db s) name with Some b => bu_Tags b | None => ∅ end in
      let '(r, s) := on_db (MutateBus name id) s in
      (match r with Ok _ => Ok have | Err e => Err e end, s)
  | None =>
      (bn ← ruleFromARN (str_of p "ResourceARN"); r ← GetRule bn.1 bn.2 (sv_db s); Ok (ru_Tags r), s)
  end.

Definition testEventPattern (p : params) : result bool :=
  match parse_pattern (str_of p "EventPattern") with
  | Err _ => Err invalid_pattern
  | Ok pat =>
      match decode_event (str_of p "Event") with
      | Err _ => Err (validation "%v")
      | Ok doc => Ok (node_match pat doc)
      end
  end.

(** ** Archives *)

(** A number as an int64. *)
Definition pnum (p : params) (key : string) : option Z :=
  match p !! key with Some (JNum t) => Some (number_int64 t) | _ => None end.

Definition createArchive (now : Z) (p : params) (s : server) : result unit * server :=
  if String.eqb (str_of p "ArchiveName") "" then (Err (validation "ArchiveName is required"), s)
  else if String.eqb (str_of p "EventSourceArn") "" then (Err (validation "EventSourceArn is required"), s)
  else
    on_db (CreateArchive (mkArchive (str_of p "ArchiveName") (str_of p "EventSourceArn") (str_of p "EventPattern")
      (default 0 (pnum p "RetentionDays")) (str_of p "Description") "ENABLED" (unix_seconds now) 0 0)) s.

Definition updated_archive (p : params) (a : archive) : result archive :=
  let pat := str_of p "EventPattern" in
  if negb (String.eqb pat "") && negb (is_ok (parse_pattern pat)) then Err invalid_pattern
  else Ok (mkArchive (ar_Name a) (ar_EventSourceArn a) (if String.eqb pat "" then ar_Pattern a else pat)
    (default (ar_RetentionDays a) (pnum p "RetentionDays"))
    (if String.eqb (str_of p "Description") "" then ar_Desc a else str_of p "Description")
    (ar_State a) (ar_Created a) (ar_EventCount a) (ar_SizeBytes a)).
Definition updateArchive (p : params) (s : server) : result unit * server :=
  on_db (UpdateArchive (str_of p "ArchiveName") (updated_archive p)) s.

Definition deleteArchive (p : params) (s : server) : result unit * server :=
  match GetArchive (str_of p "ArchiveName") (sv_db s) with
  | Err e => (Err e, s)
  | Ok _ => on_db (DeleteArchive (str_of p "ArchiveName")) s
  end.

(** ** Replays *)

(** The rules a destination is restricted to. *)
Definition filter_arns (dest : params) : option (gset string) :=
  if bool_decide (arr_of dest "FilterArns" = []) then None
  else Some (list_to_set (omap text_of (arr_of dest "FilterArns"))).

(** Delivers events one after the other. *)
Definition replay_event (bus : string) (wanted : option (gset string)) (acc : list delivery * server) (e : storedEvent) : list delivery * server :=
  let '(out, s) := matchAndDispatch ident bus (se_Event e) wanted acc.2 in (acc.1 ++ out, s).

Definition replay_record (now : Z) (p dest : params) (events : list storedEvent) : replay :=
  mkReplay (str_of p "ReplayName") (str_of p "EventSourceArn") (str_of dest "Arn") (default ∅ (filter_arns dest))
    (default 0 (pnum p "EventStartTime")) (default 0 (pnum p "EventEndTime")) "COMPLETED"
    ("Replayed " +:+ pretty (length events) +:+ " event(s)") (unix_seconds now) (unix_seconds now) (last_time events).

(** The events are delivered before the replay is recorded. *)
Definition startReplay (now : Z) (p : params) (s : server) : result replay * list delivery * server :=
  let name := archiveFromArn (str_of p "EventSourceArn") in
  if String.eqb (str_of p "ReplayName") "" then (Err (validation "ReplayName is required"), [], s)
  else match GetArchive name (sv_db s) with
  | Err e => (Err e, [], s)
  | Ok _ =>
      match p !! "Destination" with
      | Some (JObj dest) =>
          let events := ReplayEvents name (default 0 (pnum p "EventStartTime")) (default 0 (pnum p "EventEndTime")) (sv_db s) in
          let '(out, s) := foldl (replay_event (busFromArn (str_of dest "Arn")) (filter_arns dest)) ([], s) events in
          let r := replay_record now p dest events in
          let '(stored, s) := on_db (PutReplay r) s in
          (match stored with Ok _ => Ok r | Err e => Err e end, out, s)
      | _ => (Err (validation "Destination is required"), [], s)
      end
  end.

(** A replay is complete before it can be cancelled. *)
Definition cancelReplay (p : params) (s : server) : result unit :=
  _ ← GetReplay (str_of p "ReplayName") (sv_db s);
  Err (Errf 400 "IllegalStatusException" "replay %s is already %s and cannot be cancelled").
End handlers.
