(* ===== verification/EventInv.v ===== *)
(** * EventInv: what the records of EventBridge keep

    Buses, rules and archives are stored under their names, rules belong to buses that
    exist, and the counters of an archive are those of its log; whatever the handlers do. *)

From stdpp Require Import sorting.
From S2P Require Import Prelude Bytes Ident Clock GoText Bolt Cursor Tx Star Pattern Cron Events EventApi EventHandlers.

(** ** Names and prefixes *)

(** Names hold no byte 0: the service's tables of constraints admit letters, digits, dots,
    dashes, underscores and slashes. *)
Definition no_nul (s : string) : bool := negb (has_char (chr 0) s).

Lemma nul_cut a x : no_nul a = true -> cut_on (chr 0) (a +:+ nul +:+ x) = Some (a, x).
Proof. intros Ha%negb_true_iff. change (nul +:+ x) with (String (chr 0) x). by apply cut_on_app. Qed.

Lemma nul_inj a b x y : no_nul a = true -> no_nul b = true -> a +:+ nul +:+ x = b +:+ nul +:+ y -> a = b /\ x = y.
Proof. intros Ha Hb E%(f_equal (cut_on (chr 0))). rewrite !nul_cut in E by done. by injection E as -> ->. Qed.

Lemma nul_prefix a b x p : no_nul a = true -> no_nul b = true ->
  has_prefix (a +:+ nul +:+ x) (b +:+ nul +:+ p) = true <-> a = b /\ has_prefix x p = true.
Proof.
  intros Ha Hb. rewrite !has_prefix_spec. split.
  - intros (t & E). rewrite !sapp_assoc in E. apply nul_inj in E as [-> ->]; [|done..]. eauto.
  - intros [-> (t & ->)]. exists t. by rewrite !sapp_assoc.
Qed.

Lemma has_prefix_nil s : has_prefix s "" = true.
Proof. by destruct s. Qed.

Section prefixes.
Context `{B : Bolt} {BL : BoltLaws B}.
#[local] Set Default Proof Using "BL".

Lemma take_prefixed_filter {V} p (l : list (string * V)) :
  StronglySorted key_lt l -> (forall e, e ∈ l -> bytes_ltb e.1 p = false) ->
  take_prefixed p l = List.filter (fun e => has_prefix e.1 p) l.
Proof using.
  intros Hs. induction Hs as [|e l Hl IH He]; intros Hb; [done|]. cbn [take_prefixed]. rewrite filter_cons_bool, Forall_forall in *.
  destruct (has_prefix e.1 p) eqn:E; [f_equal; apply IH; intros x Hx; apply Hb; by right|].
  symmetry. apply filter_none. intros x Hx. destruct (has_prefix x.1 p) eqn:Ex; [|done]. apply has_prefix_spec in Ex as (t & Et).
  specialize (He x Hx). unfold key_lt in He. rewrite Et in He. apply (noprefix_lt _ _ _ E) in He. apply bytes_ltb_spec in He.
  by rewrite (Hb e) in He by left.
Qed.

(** A cursor finds all the entries of a prefix. *)
Lemma prefixed_filter {V} p (b : bucket V) : prefixed p b = List.filter (fun e => has_prefix e.1 p) (bentries b).
Proof.
  unfold prefixed. pose proof (sorted_entries _ (bentries_sorted V b)) as Hs. rewrite seek_filter by done.
  rewrite take_prefixed_filter; [|by apply sorted_filter|by intros e [_ ?%negb_true_iff]%elem_of_filter_bool].
  apply filter_implied. intros e _ Hp. by apply negb_true_iff, bytes_ltb_lt, prefix_not_below.
Qed.

Lemma elem_of_prefixed {V} p (b : bucket V) k v : (k, v) ∈ prefixed p b <-> has_prefix k p = true /\ bget k b = Some v.
Proof. rewrite prefixed_filter, elem_of_filter_bool, bentries_bget. tauto. Qed.

Lemma bget_delete_prefixed {V} p (b : bucket V) k : bget k (delete_prefixed p b) = if has_prefix k p then None else bget k b.
Proof.
  unfold delete_prefixed. rewrite bget_delete_all. case_decide as Hin.
  - apply list_elem_of_fmap in Hin as ([k' v] & -> & [Hp _]%elem_of_prefixed). cbn [fst]. by rewrite Hp.
  - destruct (has_prefix k p) eqn:Hp; [|done]. destruct (bget k b) as [v|] eqn:E; [|done]. exfalso. apply Hin, list_elem_of_fmap.
    exists (k, v). split; [done|]. by apply elem_of_prefixed.
Qed.
End prefixes.

(** ** Targets *)

Record targets_wf (l : list target) : Prop := {
  tw_ids : NoDup (tg_ID <$> l);
  tw_named : Forall (fun t => tg_ID t <> "" /\ tg_ARN t <> "") l
}.

Lemma put_target_ids l nt : tg_ID <$> put_target l nt = if decide (tg_ID nt ∈ tg_ID <$> l) then tg_ID <$> l else (tg_ID <$> l) ++ [tg_ID nt].
Proof.
  induction l as [|t l IH]; [done|]. cbn [put_target]. destruct (String.eqb_spec (tg_ID t) (tg_ID nt)) as [E|Hne].
  - rewrite !fmap_cons, E, decide_True by by left. done.
  - rewrite !fmap_cons, IH. repeat case_decide; try done; set_solver.
Qed.

Lemma put_target_in l nt t : t ∈ put_target l nt -> t = nt \/ t ∈ l.
Proof. induction l as [|t' l IH]; cbn [put_target]; [|destruct (String.eqb _ _)]; set_solver. Qed.

Lemma put_targets_wf l nts :
  targets_wf l -> Forall (fun t => tg_ID t <> "" /\ tg_ARN t <> "") nts -> targets_wf (foldl put_target l nts).
Proof.
  intros Hl Hn. revert l Hl. induction Hn as [|nt nts Hnt _ IH]; intros l [Hd Hf]; [done|]. apply IH. split.
  - rewrite put_target_ids. case_decide; [done|]. apply NoDup_app. split; [done|]. split; [set_solver|apply NoDup_singleton].
  - apply Forall_forall. intros t [->|Ht]%put_target_in; [done|]. by eapply Forall_forall in Hf.
Qed.

Lemma remove_target_in l id t : t ∈ remove_target l id -> t ∈ l.
Proof. induction l as [|t' l IH]; cbn [remove_target]; [done|]. destruct (String.eqb _ _); set_solver. Qed.

Lemma remove_target_ids l id : NoDup (tg_ID <$> l) -> NoDup (tg_ID <$> remove_target l id).
Proof.
  induction l as [|t l IH]; [done|]. rewrite fmap_cons. intros [Ht Hd]%NoDup_cons. cbn [remove_target]. destruct (String.eqb _ _); [done|].
  rewrite fmap_cons. apply NoDup_cons. split; [|by apply IH]. intros (t' & E & Hin%remove_target_in)%list_elem_of_fmap.
  apply Ht. rewrite E. by apply list_elem_of_fmap_2.
Qed.

Lemma remove_targets_wf l ids : targets_wf l -> targets_wf (foldl remove_target l ids).
Proof.
  revert l. induction ids as [|id ids IH]; intros l [Hd Hf]; [done|]. apply IH. split; [by apply remove_target_ids|].
  apply Forall_forall. intros t Ht%remove_target_in. by eapply Forall_forall in Hf.
Qed.

Lemma no_targets : targets_wf [].
Proof. split; constructor. Qed.

(** ** Well-formed records *)

Section events.
Context `{B : Bolt} {BL : BoltLaws B} `{GT : GoText} `{JT : JsonText} `{ET : EventText}.
#[local] Set Default Proof Using "BL".

Definition schedule_valid (s : string) : Prop := (exists d, parseRate s = Some d) \/ (exists e, Cron.Parse s = Ret (Ok e)).
Definition pattern_valid (s : string) : Prop := s = "" \/ exists p, parse_pattern s = Ok p.

Record rule_wf (r : rule) : Prop := {
  rw_targets : targets_wf (ru_Targets r);
  rw_pattern : pattern_valid (ru_Pattern r);
  rw_schedule : ru_Schedule r = "" \/ ru_Bus r = DefaultBus /\ schedule_valid (ru_Schedule r);
  rw_some : ru_Name r <> "" /\ (ru_Pattern r <> "" \/ ru_Schedule r <> "")
}.

Definition bus_exists (F : string -> option bus) (name : string) : Prop := name = DefaultBus \/ is_Some (F name).

(** Buses by name and rules by key. *)
Record rules_ok (F : string -> option bus) (R : string -> option rule) : Prop := {
  ro_bus : forall name b, F name = Some b -> bu_Name b = name /\ no_nul name = true;
  ro_rule : forall k r, R k = Some r -> k = ruleKey (ru_Bus r) (ru_Name r) /\ bus_exists F (ru_Bus r) /\ rule_wf r
}.

Definition get {V} (b : option (bucket V)) (k : string) : option V := b ≫= bget k.

(** The log of an archive, oldest first. *)
Definition archive_log (b : option (bucket storedEvent)) (name : string) : list storedEvent := (opt_prefixed (name +:+ nul) b).*2.
Definition total_size (l : list storedEvent) : Z := foldr (fun e acc => slen (se_Event e) + acc) 0 l.
Definition event_seq (b : option (bucket storedEvent)) : Z := match b with Some b => bsequence b | None => 0 end.

Record archive_ok (b : option (bucket storedEvent)) (name : string) (a : archive) : Prop := {
  ao_name : ar_Name a = name /\ no_nul name = true;
  ao_pattern : pattern_valid (ar_Pattern a);
  ao_count : ar_EventCount a = Z.of_nat (length (archive_log b name));
  ao_size : ar_SizeBytes a = total_size (archive_log b name)
}.

(** Archives by name and the bucket of their events. *)
Record archives_ok (A : string -> option archive) (b : option (bucket storedEvent)) : Prop := {
  ao_archive : forall name a, A name = Some a -> archive_ok b name a;
  ao_event : forall k e, get b k = Some e -> exists name n, k = eventKey name n /\ is_Some (A name) /\ 0 < n <= event_seq b;
  ao_seq : 0 <= event_seq b
}.

Definition events_ok (db : EventDB) : Prop := rules_ok (find_bus db) (get (e_rules db)) /\ archives_ok (find_archive db) (e_events db).

(** What the parser says of each pattern in the cache. *)
Definition cache_ok (m : gmap string patternNode) : Prop :=
  (forall src p, m !! src = Some p -> parse_pattern src = Ok p) /\ (size m <= maxCachedPatterns)%nat.

Definition server_ok (s : server) : Prop := events_ok (sv_db s) /\ cache_ok (sv_patterns s).

(** ** Buses and rules *)

Definition upd {A} (k : string) (v : A) (F : string -> option A) (n : string) : option A := if decide (n = k) then Some v else F n.

Lemma upd_is_some {A} k (v : A) F n : is_Some (F n) -> is_Some (upd k v F n).
Proof using. unfold upd. case_decide; [by eexists|done]. Qed.

Lemma rules_ok_ext F F' R R' : (forall n, F' n = F n) -> (forall k, R' k = R k) -> rules_ok F R -> rules_ok F' R'.
Proof using.
  intros EF ER [H1 H2]. split.
  - intros name b. rewrite EF. apply H1.
  - intros k r. rewrite ER. unfold bus_exists. rewrite EF. apply H2.
Qed.

Lemma put_bus_ok F R name b : bu_Name b = name -> no_nul name = true -> rules_ok F R -> rules_ok (upd name b F) R.
Proof using.
  intros Hn Hnul [H1 H2]. split.
  - intros n b'. unfold upd. case_decide as E; [|apply H1]. intros [= <-]. by subst.
  - intros k r (E & [Hb|Hb] & Hr)%H2; (split; [done|split; [|done]]); [by left|right; by apply upd_is_some].
Qed.

Lemma put_rule_ok F R k r : k = ruleKey (ru_Bus r) (ru_Name r) -> bus_exists F (ru_Bus r) -> rule_wf r -> rules_ok F R -> rules_ok F (upd k r R).
Proof using.
  intros Hk Hb Hr [H1 H2]. split; [done|]. intros k' r'. unfold upd. case_decide as E; [|apply H2]. intros [= <-]. by subst.
Qed.

Lemma fewer_rules_ok F R R' : (forall k r, R' k = Some r -> R k = Some r) -> rules_ok F R -> rules_ok F R'.
Proof using. intros Hle [H1 H2]. split; [done|]. intros k r Hr. by apply H2, Hle. Qed.

Lemma drop_bus_ok F R name : name <> DefaultBus -> rules_ok F R ->
  rules_ok (fun n => if decide (n = name) then None else F n) (fun k => if has_prefix k (name +:+ nul) then None else R k).
Proof using.
  intros Hd [H1 H2]. split.
  - intros n b. case_decide; [done|apply H1].
  - intros k r. destruct (has_prefix k _) eqn:Hp; [done|]. intros (E & Hb & Hr)%H2. split; [done|]. split; [|done].
    destruct Hb as [Hb|Hb]; [by left|right]. case_decide as En; [|done]. exfalso.
    subst k. unfold ruleKey in Hp. rewrite En, <- sapp_assoc, has_prefix_app in Hp. done.
Qed.

(** ** Transactions on buses and rules *)

#[local] Abbreviation E := (Tx EventDB).

Lemma put_bus_spec name b db u db' : put_bus name b db = Ok (u, db') ->
  (forall n, find_bus db' n = upd name b (find_bus db) n) /\ e_rules db' = e_rules db /\
  e_archives db' = e_archives db /\ e_events db' = e_events db.
Proof.
  unfold put_bus. run_tx. destruct (bput _ _ _) as [bk|] eqn:Ep; [|done]. intros [= <- <-]. split; [|done].
  intros n. unfold find_bus, upd. cbn [set_buses e_buses mbind option_bind]. rewrite (bget_bput _ _ _ _ _ n Ep). case_decide; [done|].
  destruct (e_buses db); [done|]. apply bget_bempty.
Qed.

Lemma put_rule_spec r bus name db u db' : put_rule r bus name db = Ok (u, db') ->
  (forall k, get (e_rules db') k = upd (ruleKey bus name) r (get (e_rules db)) k) /\ find_bus db' = find_bus db /\
  e_archives db' = e_archives db /\ e_events db' = e_events db.
Proof.
  unfold put_rule. run_tx. destruct (bput _ _ _) as [bk|] eqn:Ep; [|done]. intros [= <- <-]. split; [|done].
  intros k. unfold get, upd. cbn [set_rules e_rules mbind option_bind]. rewrite (bget_bput _ _ _ _ _ k Ep). case_decide; [done|].
  destruct (e_rules db); [done|]. apply bget_bempty.
Qed.

(** A transaction on buses and rules only. *)
Definition keeps_rules {A} (f : E A) : Prop :=
  forall db a db', rules_ok (find_bus db) (get (e_rules db)) -> f db = Ok (a, db') ->
    rules_ok (find_bus db') (get (e_rules db')) /\ e_archives db' = e_archives db /\ e_events db' = e_events db.

Lemma keeps_rules_ok {A} (f : E A) : keeps_rules f -> tx_keeps events_ok f.
Proof.
  intros Hf db a db' [HR HA] Hdb. destruct (Hf db a db' HR Hdb) as (HR' & Ea & Ee). split; [done|].
  unfold find_archive. rewrite Ea, Ee. exact HA.
Qed.

Lemma put_bus_keeps db name b a db' : bu_Name b = name -> no_nul name = true -> rules_ok (find_bus db) (get (e_rules db)) ->
  put_bus name b db = Ok (a, db') ->
  rules_ok (find_bus db') (get (e_rules db')) /\ e_archives db' = e_archives db /\ e_events db' = e_events db.
Proof.
  intros Hn Hnul HR (Hb & Er & Ea & Ee)%put_bus_spec. rewrite Er. split; [|done]. by eapply rules_ok_ext, put_bus_ok.
Qed.

Lemma busExists_spec db name : busExists db name = true -> bus_exists (find_bus db) name.
Proof using. unfold busExists, bus_exists. intros [Hd%String.eqb_eq|Hf]%orb_true_iff; [by left|right]. destruct (find_bus db name); [by eexists|done]. Qed.

Lemma exists_no_nul db name : rules_ok (find_bus db) (get (e_rules db)) -> bus_exists (find_bus db) name -> no_nul name = true.
Proof using. intros [H1 _] [->|[b Hb]]; [done|]. by apply (H1 name b). Qed.

Lemma CreateBus_keeps name tags db : no_nul name = true -> events_ok db -> events_ok (CreateBus name tags db).2.
Proof.
  intros Hnul Hok. unfold CreateBus. destruct (_ || _); [done|]. apply keeps_update; [|done]. apply keeps_rules_ok.
  intros db0 a db' HR. run_tx. destruct (find_bus db0 name); [done|]. by apply put_bus_keeps.
Qed.

Lemma UpdateBus_keeps name fn db : (forall b, bu_Name (fn b) = bu_Name b) -> events_ok db -> events_ok (UpdateBus name fn db).2.
Proof.
  intros Hfn Hok. unfold UpdateBus. apply keeps_update; [|done]. apply keeps_rules_ok. intros db0 a db' HR. run_tx.
  destruct (find_bus db0 name) as [b|] eqn:Eb; [|by intros [= _ <-]]. destruct (ro_bus _ _ HR name b Eb) as [Hn Hnul].
  apply put_bus_keeps; [by rewrite Hfn|done|done].
Qed.

Lemma MutateBus_keeps name fn db : (forall b, bu_Name (fn b) = bu_Name b) -> events_ok db -> events_ok (MutateBus name fn db).2.
Proof.
  intros Hfn Hok. unfold MutateBus. apply keeps_update; [|done]. apply keeps_rules_ok. intros db0 a db' HR. run_tx.
  destruct (busExists db0 name) eqn:Ex; [|done]. apply busExists_spec in Ex. apply put_bus_keeps; [|by eapply exists_no_nul|done].
  rewrite Hfn. destruct (find_bus db0 name) as [b|] eqn:Eb; [|done]. by apply (ro_bus _ _ HR name b).
Qed.

Lemma DeleteBus_keeps name db : events_ok db -> events_ok (DeleteBus name db).2.
Proof.
  intros Hok. unfold DeleteBus. destruct (String.eqb_spec name DefaultBus) as [|Hne]; [done|]. apply keeps_update; [|done].
  apply keeps_rules_ok. intros db0 a db' HR. run_tx. intros [= _ <-].
  split; [|by destruct db0 as [[] []]]. eapply rules_ok_ext; [..|exact (drop_bus_ok _ _ name Hne HR)].
  - intros n. destruct db0 as [[bs|] [rs|] ar ev rp]; unfold find_bus; cbn; try (by case_decide); by rewrite bget_bdelete.
  - intros k. destruct db0 as [[bs|] [rs|] ar ev rp]; unfold get; cbn; try (by destruct (has_prefix _ _)); by rewrite bget_delete_prefixed.
Qed.

Lemma UpdateRule_keeps bus name fn db :
  (forall r, ru_Bus (fn r) = ru_Bus r /\ ru_Name (fn r) = ru_Name r /\ (rule_wf r -> rule_wf (fn r))) ->
  events_ok db -> events_ok (UpdateRule bus name fn db).2.
Proof.
  intros Hfn Hok. unfold UpdateRule. apply keeps_update; [|done]. apply keeps_rules_ok. intros db0 a db' HR. run_tx.
  destruct (find_rule db0 bus name) as [r|] eqn:Er; [|done]. intros (Hk & Eb & Ea & Ee)%put_rule_spec. rewrite Eb. split; [|done].
  destruct (ro_rule _ _ HR _ r Er) as (Ekey & Hbus & Hwf). destruct (Hfn r) as (E1 & E2 & Hw).
  eapply rules_ok_ext; [done|exact Hk|]. apply put_rule_ok; [by rewrite E1, E2|by rewrite E1|by apply Hw|done].
Qed.

Lemma DeleteRule_keeps bus name db : events_ok db -> events_ok (DeleteRule bus name db).2.
Proof.
  intros Hok. unfold DeleteRule. apply keeps_update; [|done]. apply keeps_rules_ok. intros db0 a db' HR. run_tx.
  destruct (e_rules db0) as [b|] eqn:Eb; [|intros [= _ <-]; by rewrite Eb]. destruct (match bget _ _ with Some _ => _ | None => _ end); [done|].
  intros [= _ <-]. split; [|done]. eapply fewer_rules_ok; [|exact HR]. intros k r. unfold get. cbn.
  rewrite bget_bdelete. by case_decide.
Qed.

Lemma PutRule_keeps r db : (targets_wf (ru_Targets r) -> rule_wf r) -> ru_Targets r = [] -> events_ok db -> events_ok (PutRule r db).2.
Proof.
  intros Hr Ht Hok. unfold PutRule. apply keeps_update; [|done]. apply keeps_rules_ok. intros db0 a db' HR. run_tx.
  destruct (busExists db0 (ru_Bus r)) eqn:Ex; [|done]. apply busExists_spec in Ex.
  intros (Hk & Eb & Ea & Ee)%put_rule_spec. rewrite Eb. split; [|done]. eapply rules_ok_ext; [done|exact Hk|].
  destruct Hr as [H1 H2 H3 H4]; [rewrite Ht; apply no_targets|].
  unfold put_over. destruct (find_rule db0 _ _) as [old|] eqn:Eo; [|by apply put_rule_ok].
  apply put_rule_ok; [done|done| |done]. split; [|done..]. apply (ro_rule _ _ HR _ _ Eo).
Qed.

(** ** Archives and their logs *)

Lemma opt_prefixed_default {V} p (b : option (bucket V)) : opt_prefixed p b = prefixed p (default bempty b).
Proof. destruct b; [done|]. cbn. by rewrite prefixed_filter, bentries_bempty. Qed.

Lemma get_default {V} (b : option (bucket V)) k : get b k = bget k (default bempty b).
Proof. destruct b; [done|]. cbn. by rewrite bget_bempty. Qed.

Lemma prefixed_sorted {V} p (b : bucket V) : StronglySorted key_lt (prefixed p b).
Proof. rewrite prefixed_filter. apply sorted_filter, sorted_entries, bentries_sorted. Qed.

(** Buckets that agree under a prefix have the same entries there. *)
Lemma prefixed_ext {V} p (b b' : bucket V) : (forall k, has_prefix k p = true -> bget k b' = bget k b) -> prefixed p b' = prefixed p b.
Proof.
  intros E. apply sorted_unique; [apply prefixed_sorted..|]. intros [k v]. rewrite !elem_of_prefixed. split; intros [Hp Hv]; (split; [done|]).
  - by rewrite <- E.
  - by rewrite E.
Qed.

Lemma eventKey_prefix name n : has_prefix (eventKey name n) (name +:+ nul) = true.
Proof using. unfold eventKey. by rewrite <- sapp_assoc, has_prefix_app. Qed.

Lemma eventKey_under a b n : no_nul a = true -> no_nul b = true -> has_prefix (eventKey a n) (b +:+ nul) = true -> a = b.
Proof using. intros Ha Hb Hp. rewrite <- (sapp_nil_r nul) in Hp. by apply nul_prefix in Hp as [-> _]. Qed.

Lemma eventKey_inj a b m n : no_nul a = true -> no_nul b = true -> 0 <= m < 2 ^ 64 -> 0 <= n < 2 ^ 64 ->
  eventKey a m = eventKey b n -> a = b /\ m = n.
Proof using. intros Ha Hb Hm Hn [-> E]%nul_inj; [|done..]. split; [done|]. by apply be64_inj. Qed.

Section log.
Context (A : string -> option archive) (evs : option (bucket storedEvent)) (Hok : archives_ok A evs).
#[local] Set Default Proof Using "BL Hok".

Lemma event_owner k e : get evs k = Some e -> exists name n, k = eventKey name n /\ is_Some (A name) /\ no_nul name = true /\ 0 < n <= event_seq evs.
Proof.
  intros (name & n & -> & Ha & Hn)%(ao_event _ _ Hok). exists name, n. split; [done|]. split; [done|]. split; [|done].
  destruct Ha as [a Ha]. apply (ao_name _ _ _ (ao_archive _ _ Hok name a Ha)).
Qed.

Lemma no_events name : no_nul name = true -> A name = None -> archive_log evs name = [].
Proof.
  intros Hnul Hno. unfold archive_log. replace (opt_prefixed (name +:+ nul) evs) with (@nil (string * storedEvent)); [done|].
  symmetry. apply elem_of_nil_inv. intros [k e]. rewrite opt_prefixed_default, elem_of_prefixed, <- get_default.
  intros [Hp (nm & n & -> & Ha & Hnm & _)%event_owner]. apply eventKey_under in Hp as ->; [|done..]. rewrite Hno in Ha. by destruct Ha.
Qed.

(** Appending an event. *)
Lemma append_log name v b :
  is_Some (A name) -> event_seq evs + 1 < 2 ^ 64 ->
  bput (eventKey name (event_seq evs + 1)) v (bnext_sequence (default bempty evs)) = Ok b ->
  archive_log (Some b) name = archive_log evs name ++ [v] /\
  (forall name', no_nul name' = true -> name' <> name -> archive_log (Some b) name' = archive_log evs name') /\
  (forall k, get (Some b) k = upd (eventKey name (event_seq evs + 1)) v (get evs) k).
Proof.
  intros [a Ha] Hroom Hput. destruct (ao_name _ _ _ (ao_archive _ _ Hok name a Ha)) as [_ Hnul]. pose proof (ao_seq _ _ Hok) as Hseq.
  assert (forall k, get (Some b) k = upd (eventKey name (event_seq evs + 1)) v (get evs) k) as Hget.
  { intros k. unfold upd. cbn. rewrite (bget_bput _ _ _ _ _ k Hput), bget_next. by rewrite get_default. }
  split; [|split; [|exact Hget]].
  - unfold archive_log. change [v] with [(eventKey name (event_seq evs + 1), v)].*2. rewrite <- fmap_app. f_equal.
    rewrite !opt_prefixed_default. change (default bempty (Some b)) with b. apply sorted_unique; [apply prefixed_sorted|apply sorted_snoc; [apply prefixed_sorted|]|].
    + intros [k e] [Hp He]%elem_of_prefixed. rewrite <- get_default in He. apply event_owner in He as (nm & n & -> & _ & Hnm & Hn).
      apply eventKey_under in Hp as ->; [|done..]. unfold key_lt, bytes_lt, eventKey. cbn [fst].
      rewrite !bytes_cmp_app, be64_cmp by lia. apply Z.compare_lt_iff. lia.
    + intros [k e]. rewrite elem_of_app, list_elem_of_singleton, !elem_of_prefixed. change (bget k b) with (get (Some b) k).
      rewrite Hget. unfold upd. rewrite <- get_default. case_decide as Ek.
      * subst k. rewrite eventKey_prefix. split; [intros [_ [= ->]]; by right|]. intros [[_ He]|[= ->]]; [|done].
        exfalso. apply event_owner in He as (nm & n & E & _ & Hnm & Hn). apply eventKey_inj in E as [_ E]; [lia|done|done|lia|lia].
      * split; [by left|]. intros [?|[= -> ->]]; done.
  - intros name' Hnul' Hne. unfold archive_log. f_equal. rewrite !opt_prefixed_default. change (default bempty (Some b)) with b. apply prefixed_ext.
    intros k Hp. change (bget k b) with (get (Some b) k). rewrite Hget, <- get_default. unfold upd. case_decide; [|done].
    subst k. by apply eventKey_under in Hp as ->.
Qed.

(** Dropping an archive. *)
Lemma drop_log name name' b :
  no_nul name = true -> no_nul name' = true -> name' <> name -> evs = Some b ->
  archive_log (Some (delete_prefixed (name +:+ nul) b)) name' = archive_log evs name'.
Proof.
  intros Hnul Hnul' Hne ->. unfold archive_log. f_equal. rewrite !opt_prefixed_default. unfold default, from_option, id. apply prefixed_ext.
  intros k Hp. rewrite bget_delete_prefixed. destruct (has_prefix k (name +:+ nul)) eqn:Hp'; [|done].
  apply has_prefix_spec in Hp as (t & ->). rewrite sapp_assoc in Hp'. rewrite <- (sapp_nil_r (name +:+ nul)), sapp_assoc in Hp'.
  apply nul_prefix in Hp' as [-> _]; done.
Qed.
End log.

Lemma total_size_app l l' : total_size (l ++ l') = total_size l + total_size l'.
Proof using. unfold total_size. induction l as [|e l IH]; [done|]. cbn [app foldr]. rewrite IH. lia. Qed.

Lemma bsequence_delete_prefixed {V} p (b : bucket V) : bsequence (delete_prefixed p b) = bsequence b.
Proof.
  unfold delete_prefixed. generalize (prefixed p b).*1. intros ks. revert b. induction ks as [|k ks IH]; intros b; [done|]. cbn [foldl].
  by rewrite IH, bsequence_bdelete.
Qed.

(** ** Transactions on archives *)

(** The new number of events is within the width of the sequence. *)
Definition event_room (db : EventDB) : Prop := event_seq (e_events db) < 2 ^ 64.

Lemma put_archive_spec name a db u db' : put_archive name a db = Ok (u, db') ->
  (forall n, find_archive db' n = upd name a (find_archive db) n) /\ e_events db' = e_events db /\
  find_bus db' = find_bus db /\ e_rules db' = e_rules db.
Proof.
  unfold put_archive. run_tx. destruct (bput _ _ _) as [bk|] eqn:Ep; [|done]. intros [= <- <-]. split; [|done].
  intros n. unfold find_archive, upd. cbn [set_archives e_archives mbind option_bind]. rewrite (bget_bput _ _ _ _ _ n Ep). case_decide; [done|].
  destruct (e_archives db); [done|]. apply bget_bempty.
Qed.

Lemma archives_ok_ext A A' b : (forall n, A' n = A n) -> archives_ok A b -> archives_ok A' b.
Proof using.
  intros E [H1 H2 H3]. split; [intros name a; rewrite E; apply H1| |done].
  intros k e (name & n & -> & Ha & Hn)%H2. exists name, n. by rewrite E.
Qed.

Lemma put_archive_ok A b name a : archive_ok b name a -> archives_ok A b -> archives_ok (upd name a A) b.
Proof using.
  intros Ha [H1 H2 H3]. split; [| |done].
  - intros n a'. unfold upd. case_decide; [|apply H1]. intros [= <-]. by subst.
  - intros k e (nm & n & -> & Hnm & Hn)%H2. exists nm, n. split; [done|]. split; [by apply upd_is_some|done].
Qed.

(** What a transaction on archives and events keeps, when it leaves room. *)
Definition keeps_archives {A} (f : E A) : Prop :=
  forall db a db', archives_ok (find_archive db) (e_events db) -> f db = Ok (a, db') -> event_room db' ->
    archives_ok (find_archive db') (e_events db') /\ find_bus db' = find_bus db /\ e_rules db' = e_rules db.

Lemma keeps_archives_ok {A} (f : E A) db : keeps_archives f -> events_ok db -> event_room (run_update f db).2 -> events_ok (run_update f db).2.
Proof.
  intros Hf [HR HA] Hroom. unfold run_update in *. destruct (f db) as [[a db']|] eqn:E; [|done]. cbn [snd] in *.
  destruct (Hf db a db' HA E Hroom) as (HA' & Eb & Er). split; [|done]. by rewrite Eb, Er.
Qed.

Lemma put_archive_keeps db name a u db' : archives_ok (find_archive db) (e_events db) -> archive_ok (e_events db) name a ->
  put_archive name a db = Ok (u, db') ->
  archives_ok (find_archive db') (e_events db') /\ find_bus db' = find_bus db /\ e_rules db' = e_rules db.
Proof.
  intros HA Ha (Hf & Ee & Eb & Er)%put_archive_spec. rewrite Ee. split; [|done]. eapply archives_ok_ext; [exact Hf|]. by apply put_archive_ok.
Qed.

Lemma CreateArchive_keeps a db :
  no_nul (ar_Name a) = true -> ar_EventCount a = 0 -> ar_SizeBytes a = 0 ->
  events_ok db -> event_room (CreateArchive a db).2 -> events_ok (CreateArchive a db).2.
Proof.
  intros Hnul Hc Hs Hok. unfold CreateArchive. destruct (String.eqb_spec (ar_Pattern a) "") as [Ep|Hne], (parse_pattern (ar_Pattern a)) as [pat|] eqn:Epat;
    cbn [negb andb is_ok]; try done; apply keeps_archives_ok; try done; intros db0 u db' HA; run_tx;
    (destruct (busExists _ _); [|done]); (destruct (find_archive db0 (ar_Name a)) eqn:Ef; [done|]); intros E _; (eapply put_archive_keeps; [done| |exact E]);
    (split; [done| |rewrite (no_events _ _ HA) by done; done..]); first [by left|right; by exists pat].
Qed.

Lemma UpdateArchive_keeps name fn db :
  (forall a a', fn a = Ok a' -> ar_Name a' = ar_Name a /\ ar_EventCount a' = ar_EventCount a /\ ar_SizeBytes a' = ar_SizeBytes a /\
    (pattern_valid (ar_Pattern a) -> pattern_valid (ar_Pattern a'))) ->
  events_ok db -> event_room (UpdateArchive name fn db).2 -> events_ok (UpdateArchive name fn db).2.
Proof.
  intros Hfn Hok. unfold UpdateArchive. apply keeps_archives_ok; [|done]. intros db0 u db' HA. run_tx.
  destruct (find_archive db0 name) as [a|] eqn:Ea; [|done]. destruct (fn a) as [a'|] eqn:Ef; [|done]. intros E _.
  destruct (Hfn a a' Ef) as (En & Ec & Es & Hp). destruct (ao_archive _ _ HA name a Ea) as [Hn Hpat Hc Hs].
  eapply put_archive_keeps; [done| |exact E]. split; [by rewrite En|by apply Hp|by rewrite Ec|by rewrite Es].
Qed.

Lemma AppendArchiveEvent_spec name t ev db a u db' :
  archives_ok (find_archive db) (e_events db) -> find_archive db name = Some a ->
  event_room db' -> AppendArchiveEvent name t ev db = (Ok u, db') ->
  archive_log (e_events db') name = archive_log (e_events db) name ++ [mkStored t ev] /\
  (forall name', no_nul name' = true -> name' <> name -> archive_log (e_events db') name' = archive_log (e_events db) name') /\
  event_seq (e_events db') = event_seq (e_events db) + 1 /\
  (forall n, find_archive db' n = upd name (set_counts (ar_EventCount a + 1) (ar_SizeBytes a + slen ev) a) (find_archive db) n) /\
  (forall k, get (e_events db') k = upd (eventKey name (event_seq (e_events db) + 1)) (mkStored t ev) (get (e_events db)) k) /\
  find_bus db' = find_bus db /\ e_rules db' = e_rules db.
Proof.
  intros HA Ha Hroom Hrun. apply update_ok in Hrun as [(u' & _ & Hrun)|(? & [=] & _)]. revert Hrun. run_tx. rewrite Ha.
  assert (bsequence (bnext_sequence (default bempty (e_events db))) = event_seq (e_events db) + 1) as Eseq.
  { rewrite bsequence_next. destruct (e_events db); [done|]. cbn. by rewrite bsequence_bempty. }
  rewrite Eseq. destruct (bput _ _ _) as [b|] eqn:Ep; [|done]. intros (Hf & Ee & Eb & Er)%put_archive_spec.
  unfold event_room in Hroom. rewrite Ee in *. cbn [set_events e_events event_seq] in *.
  pose proof (bsequence_bput _ _ _ _ _ Ep) as Eb'. rewrite Eseq in Eb'.
  destruct (append_log _ _ HA name (mkStored t ev) b) as (H1 & H2 & H3); [by eexists|lia|done|]. done.
Qed.

Lemma AppendArchiveEvent_keeps name t ev db : events_ok db -> event_room (AppendArchiveEvent name t ev db).2 -> events_ok (AppendArchiveEvent name t ev db).2.
Proof.
  intros [HR HA] Hroom. destruct (AppendArchiveEvent name t ev db) as [r db'] eqn:E. cbn [snd] in *. destruct r as [u|].
  2:{ apply update_ok in E as [(? & [=] & _)|(? & _ & _ & ->)]. done. }
  destruct (find_archive db name) as [a|] eqn:Ea.
  2:{ unfold AppendArchiveEvent, run_update in E. revert E. run_tx. rewrite Ea. by intros [= _ <-]. }
  destruct (AppendArchiveEvent_spec _ _ _ _ _ _ _ HA Ea Hroom E) as (L1 & L2 & Eseq & Hf & Hg & Eb & Er).
  split; [by rewrite Eb, Er|]. split.
  - intros n a'. rewrite Hf. unfold upd. case_decide as En.
    + subst n. intros [= <-]. destruct (ao_archive _ _ HA name a Ea) as [Hn Hpat Hc Hs]. split; [done|done|..]; cbn; rewrite L1.
      * rewrite length_app, Hc. cbn. lia.
      * rewrite total_size_app, Hs. cbn. lia.
    + intros Ha'. destruct (ao_archive _ _ HA n a' Ha') as [Hn Hpat Hc Hs]. split; [done|done|..]; rewrite L2; (done || apply Hn).
  - intros k e. rewrite Hg, Eseq. unfold upd. pose proof (ao_seq _ _ HA). case_decide as Ek.
    + intros _. exists name, (event_seq (e_events db) + 1). split; [done|]. split; [|lia]. rewrite Hf. unfold upd. rewrite decide_True by done. by eexists.
    + intros (nm & n & -> & Hnm & Hn)%(ao_event _ _ HA). exists nm, n. split; [done|]. split; [|lia]. rewrite Hf. by apply upd_is_some.
  - rewrite Eseq. pose proof (ao_seq _ _ HA). lia.
Qed.

Lemma DeleteArchive_keeps name db : no_nul name = true -> events_ok db -> event_room (DeleteArchive name db).2 -> events_ok (DeleteArchive name db).2.
Proof.
  intros Hnul Hok. unfold DeleteArchive. apply keeps_archives_ok; [|done]. intros db0 u db' HA. run_tx. intros [= _ <-] _.
  assert (forall n, find_archive (match e_archives db0 with Some b => set_archives (bdelete name b) db0 | None => db0 end) n =
    if decide (n = name) then None else find_archive db0 n) as Hf.
  { intros n. unfold find_archive. destruct (e_archives db0) as [b|] eqn:Eb; cbn; [by rewrite bget_bdelete|]. rewrite Eb. cbn. by case_decide. }
  assert (e_events (match e_archives db0 with Some b => set_archives (bdelete name b) db0 | None => db0 end) = e_events db0) as -> by by destruct (e_archives db0).
  split; [|by destruct db0 as [? ? [] [] ?]].
  assert (forall n, find_archive (match e_events db0 with
    | Some b => set_events (delete_prefixed (name +:+ nul) b) (match e_archives db0 with Some b => set_archives (bdelete name b) db0 | None => db0 end)
    | None => match e_archives db0 with Some b => set_archives (bdelete name b) db0 | None => db0 end end) n =
    if decide (n = name) then None else find_archive db0 n) as Hf' by (intros n; rewrite <- Hf; by destruct (e_events db0)).
  eapply archives_ok_ext; [exact Hf'|]. clear Hf Hf'. destruct (e_events db0) as [b|] eqn:Ee; cbn [set_events e_events].
  - split.
    + intros n a. case_decide as En; [done|]. intros Ha. destruct (ao_archive _ _ HA n a Ha) as [Hn Hp Hc Hs].
      split; [done|done|..]; rewrite (drop_log _ _ HA name n b) by (done || apply Hn); done.
    + intros k e. cbn. rewrite bget_delete_prefixed. destruct (has_prefix k _) eqn:Hpre; [done|]. intros (nm & n & -> & Hnm & Hn)%(ao_event _ _ HA).
      exists nm, n. split; [done|]. rewrite bsequence_delete_prefixed. split; [|done]. case_decide; [|done]. subst nm. by rewrite eventKey_prefix in Hpre.
    + cbn. rewrite bsequence_delete_prefixed. apply (ao_seq _ _ HA).
  - assert (e_events (match e_archives db0 with Some b => set_archives (bdelete name b) db0 | None => db0 end) = None) as -> by by destruct (e_archives db0).
    split; [|by intros k e; cbn|done]. intros n a. case_decide; [done|]. apply (ao_archive _ _ HA).
Qed.

Lemma PutReplay_keeps r db : events_ok db -> events_ok (PutReplay r db).2.
Proof.
  intros Hok. unfold PutReplay. apply keeps_update; [|done]. intros db0 u db' H0. run_tx. intros E. repeat case_match; simplify_eq; exact H0.
Qed.
End events.
