(* ===== verification/EventRun.v ===== *)
(** * EventRun: the handlers of EventBridge as one machine

    Every handler keeps the records well-formed, and the cache of compiled patterns is
    invisible: what is delivered is a function of the rules stored. *)

From stdpp Require Import sorting.
From S2P Require Import Prelude Bytes Ident Clock GoText Bolt Cursor Tx Star Pattern Cron Events EventApi EventHandlers EventInv.

Section run.
Context `{B : Bolt} {BL : BoltLaws B} `{GT : GoText} `{JT : JsonText} `{ET : EventText} (ident : Identity).
#[local] Set Default Proof Using "BL".

(** ** The cache *)

Lemma compiled_spec src m : cache_ok m -> exists m', compiled src m = (parse_pattern src, m') /\ cache_ok m'.
Proof.
  intros [Hm Hs]. unfold compiled. destruct (m !! src) as [p|] eqn:El; [exists m; by rewrite (Hm src p El)|].
  destruct (parse_pattern src) as [p|e] eqn:Ep; [|by exists m]. eexists. split; [done|].
  set (m' := if Nat.leb _ _ then ∅ else m). assert (forall s q, m' !! s = Some q -> m !! s = Some q) as Hle.
  { unfold m'. destruct (Nat.leb _ _); [|done]. intros s q. by rewrite lookup_empty. }
  split.
  - intros s q. destruct (decide (s = src)) as [->|]; [rewrite lookup_insert_eq; by intros [= <-]|].
    rewrite lookup_insert_ne by done. intros Hq. by apply Hm, Hle.
  - rewrite map_size_insert_None; [|destruct (m' !! src) eqn:E'; [apply Hle in E'; congruence|done]].
    unfold m'. destruct (Nat.leb_spec maxCachedPatterns (size m)); [rewrite map_size_empty; unfold maxCachedPatterns; lia|lia].
Qed.

(** What a rule delivers of an event. *)
Definition rule_deliveries (doc : json) (event : string) (wanted : option (gset string)) (r : rule) : list delivery :=
  if negb (String.eqb (ru_State r) "ENABLED") || String.eqb (ru_Pattern r) "" then []
  else if match wanted with Some f => negb (bool_decide (rule_ARN ident r ∈ f)) | None => false end then []
  else match parse_pattern (ru_Pattern r) with
  | Ok p => if node_match p doc then omap (dispatch ident r event) (ru_Targets r) else []
  | Err _ => []
  end.

Definition bus_deliveries (event : string) (wanted : option (gset string)) (rules : list rule) : list delivery :=
  match decode_event event with Ok doc => concat (rule_deliveries doc event wanted <$> rules) | Err _ => [] end.

Lemma visit_rules_spec doc event wanted rules out m : cache_ok m ->
  exists m', foldl (visit_rule ident doc event wanted) (out, m) rules = (out ++ concat (rule_deliveries doc event wanted <$> rules), m') /\ cache_ok m'.
Proof.
  revert out m. induction rules as [|r rules IH]; intros out m Hm; [exists m; by rewrite app_nil_r|]. cbn [foldl].
  assert (exists m', visit_rule ident doc event wanted (out, m) r = (out ++ rule_deliveries doc event wanted r, m') /\ cache_ok m') as (m' & -> & Hm').
  { unfold visit_rule, rule_deliveries. destruct (_ || _); [exists m; by rewrite app_nil_r|]. destruct (match wanted with Some _ => _ | None => _ end); [exists m; by rewrite app_nil_r|].
    destruct (compiled_spec (ru_Pattern r) m Hm) as (m' & -> & Hm'). exists m'. split; [|done].
    destruct (parse_pattern (ru_Pattern r)) as [p|]; [destruct (node_match p doc)|]; by rewrite ?app_nil_r. }
  destruct (IH (out ++ rule_deliveries doc event wanted r) m' Hm') as (m'' & -> & Hm''). exists m''. by rewrite fmap_cons, concat_cons, app_assoc.
Qed.

Lemma matchAndDispatch_spec bus event wanted s : cache_ok (sv_patterns s) ->
  exists m, matchAndDispatch ident bus event wanted s = (bus_deliveries event wanted (Rules bus "" (sv_db s)), mkServer _ _ (sv_db s) m) /\ cache_ok m.
Proof.
  intros Hm. unfold matchAndDispatch, bus_deliveries. destruct (decode_event event) as [doc|]; [|exists (sv_patterns s); by destruct s].
  destruct (visit_rules_spec doc event wanted (Rules bus "" (sv_db s)) [] _ Hm) as (m & -> & Hm'). by exists m.
Qed.

(** ** Numbers of events *)

Definition seq_of (s : server) : Z := event_seq (e_events (sv_db s)).

Lemma append_seq name t ev db : event_seq (e_events db) <= event_seq (e_events (AppendArchiveEvent name t ev db).2).
Proof.
  unfold AppendArchiveEvent, run_update. run_tx. destruct (find_archive db name); [|done]. destruct (bput _ _ _) as [b|] eqn:Eb; [|done].
  destruct (put_archive _ _ _) as [[u db']|] eqn:Ep; [|done]. cbn [snd]. apply put_archive_spec in Ep as (_ & -> & _).
  cbn [set_events e_events event_seq]. rewrite (bsequence_bput _ _ _ _ _ Eb), bsequence_next. destruct (e_events db); cbn; [lia|]. rewrite bsequence_bempty. lia.
Qed.

Lemma on_db_snd {A} (f : EventDB -> result A * EventDB) (s : server) : sv_db (on_db f s).2 = (f (sv_db s)).2 /\ sv_patterns (on_db f s).2 = sv_patterns s.
Proof using. unfold on_db. by destruct (f (sv_db s)). Qed.

Lemma capture_seq now event arcs s : seq_of s <= seq_of (capture_walk now event arcs s).
Proof.
  revert s. induction arcs as [|a arcs IH]; intros s; [done|]. cbn [capture_walk].
  assert (forall s, seq_of s <= seq_of (on_db (AppendArchiveEvent (ar_Name a) (unix_seconds now) event) s).2) as Hs.
  { intros s'. unfold seq_of. rewrite (proj1 (on_db_snd _ s')). apply append_seq. }
  destruct (negb _); [apply IH|]. destruct (String.eqb _ _); [etrans; [apply Hs|apply IH]|].
  destruct (compiled _ _) as [[p|] m]; [|apply (IH (mkServer _ _ (sv_db s) m))]. destruct (decode_event event) as [doc|]; [|done].
  etrans; [|apply IH]. destruct (node_match p doc); [|done]. apply (Hs (mkServer _ _ (sv_db s) m)).
Qed.

Lemma capture_keeps now event arcs s : server_ok s -> seq_of (capture_walk now event arcs s) < 2 ^ 64 -> server_ok (capture_walk now event arcs s).
Proof.
  revert s. induction arcs as [|a arcs IH]; intros s Hok; [done|]. cbn [capture_walk].
  assert (forall s, server_ok s -> seq_of (on_db (AppendArchiveEvent (ar_Name a) (unix_seconds now) event) s).2 < 2 ^ 64 ->
    server_ok (on_db (AppendArchiveEvent (ar_Name a) (unix_seconds now) event) s).2) as Hs.
  { intros s' [Hdb Hm] Hr. destruct (on_db_snd (AppendArchiveEvent (ar_Name a) (unix_seconds now) event) s') as [Ed Em].
    split; rewrite ?Em; [|done]. unfold seq_of in Hr. rewrite Ed in *. by apply AppendArchiveEvent_keeps. }
  assert (forall s, server_ok s -> seq_of (capture_walk now event arcs (on_db (AppendArchiveEvent (ar_Name a) (unix_seconds now) event) s).2) < 2 ^ 64 ->
    server_ok (capture_walk now event arcs (on_db (AppendArchiveEvent (ar_Name a) (unix_seconds now) event) s).2)) as Hw.
  { intros s' Hok' Hr. apply IH; [|done]. apply Hs; [done|]. eapply Z.le_lt_trans; [apply capture_seq|exact Hr]. }
  destruct (negb _); [by apply IH|]. destruct (String.eqb _ _); [by apply Hw|].
  destruct Hok as [Hdb Hm]. destruct (compiled_spec (ar_Pattern a) _ Hm) as (m & -> & Hm').
  assert (server_ok (mkServer _ _ (sv_db s) m)) as Hok by done.
  destruct (parse_pattern (ar_Pattern a)) as [p|]; [|by apply IH]. destruct (decode_event event) as [doc|]; [|done].
  destruct (node_match p doc); [by apply Hw|by apply IH].
Qed.

(** ** Events *)

Lemma match_db bus event wanted s : sv_db (matchAndDispatch ident bus event wanted s).2 = sv_db s.
Proof using. unfold matchAndDispatch. destruct (decode_event event); [|done]. by destruct (foldl _ _ _). Qed.

Lemma match_keeps bus event wanted s : server_ok s -> server_ok (matchAndDispatch ident bus event wanted s).2.
Proof. intros [Hdb Hm]. destruct (matchAndDispatch_spec bus event wanted s Hm) as (m & -> & Hm'). done. Qed.

Lemma put_entry_seq now acc e : seq_of (pu_server acc) <= seq_of (pu_server (put_entry ident now acc e)).
Proof.
  unfold put_entry, putOneEvent. destruct (_ || _); [done|]. destruct (json_parse _); [|done].
  match goal with |- context [matchAndDispatch ident ?b ?ev None ?s] => pose proof (match_db b ev None s) as Ed end.
  destruct (matchAndDispatch _ _ _ _ _) as [out s']. cbn [snd pu_server] in *.
  assert (seq_of (pu_server acc) = seq_of s') as -> by (unfold seq_of; by rewrite Ed). apply capture_seq.
Qed.

Lemma put_entry_keeps now acc e : server_ok (pu_server acc) -> seq_of (pu_server (put_entry ident now acc e)) < 2 ^ 64 ->
  server_ok (pu_server (put_entry ident now acc e)).
Proof.
  intros Hok. unfold put_entry, putOneEvent. destruct (_ || _); [done|]. destruct (json_parse _); [|done].
  match goal with |- context [matchAndDispatch ident ?b ?ev None ?s] => pose proof (match_keeps b ev None s Hok) as Hok' end.
  destruct (matchAndDispatch _ _ _ _ _) as [out s']. intros Hr. by apply capture_keeps.
Qed.

Lemma put_entries_seq now es acc : seq_of (pu_server acc) <= seq_of (pu_server (foldl (put_entry ident now) acc es)).
Proof. revert acc. induction es as [|e es IH]; intros acc; [done|]. etrans; [apply put_entry_seq|apply IH]. Qed.

Lemma put_entries_keep now es acc : server_ok (pu_server acc) ->
  seq_of (pu_server (foldl (put_entry ident now) acc es)) < 2 ^ 64 -> server_ok (pu_server (foldl (put_entry ident now) acc es)).
Proof.
  revert acc. induction es as [|e es IH]; intros acc Hok Hr; [done|]. cbn [foldl] in *. apply IH; [|done].
  apply put_entry_keeps; [done|]. eapply Z.le_lt_trans; [apply put_entries_seq|exact Hr].
Qed.

(** ** Rules and targets *)

Lemma check_schedule_spec p s : check_schedule p s = mret tt -> s = "" \/ busOrDefault p = DefaultBus /\ schedule_valid s.
Proof using.
  unfold check_schedule. destruct (String.eqb_spec s "") as [|_]; [by left|]. destruct (String.eqb_spec (busOrDefault p) DefaultBus) as [Hb|]; [|done].
  cbn [negb]. destruct (parseRate s) as [d|] eqn:Er; [intros _; right; split; [done|]; left; by exists d|].
  destruct (Cron.Parse s) as [[e|]| |] eqn:Ec; try done. intros _. right. split; [done|]. right. by exists e.
Qed.

Lemma check_rule_spec p : check_rule p = mret tt -> targets_wf (ru_Targets (rule_of p)) -> rule_wf (rule_of p).
Proof using.
  unfold check_rule. destruct (String.eqb_spec (str_of p "Name") "") as [|Hn]; [done|].
  destruct (_ && _) eqn:E1; [done|]. destruct (negb _ && _) eqn:E2; [done|]. intros Hs%check_schedule_spec Ht. split; [done| |exact Hs|].
  - cbn [rule_of ru_Pattern]. destruct (String.eqb_spec (str_of p "EventPattern") "") as [->|_]; [by left|right].
    destruct (parse_pattern _) as [pat|]; [by exists pat|done].
  - split; [done|]. cbn [rule_of ru_Pattern ru_Schedule]. apply andb_false_iff in E1 as [?%String.eqb_neq|?%String.eqb_neq]; [by left|by right].
Qed.

Lemma set_targets_wf l r : targets_wf l -> rule_wf r -> rule_wf (set_targets l r).
Proof using. intros Hl [H1 H2 H3 H4]. by split. Qed.

Lemma parse_targets_named l ts : mapR parse_target l = Ok ts -> Forall (fun t => tg_ID t <> "" /\ tg_ARN t <> "") ts.
Proof using.
  intros Hf%mapR_Ok. induction Hf as [|j t l ts Hp _ IH]; constructor; [|done]. revert Hp. unfold parse_target.
  destruct (String.eqb_spec (tg_ID (target_of (obj_of j))) ""), (String.eqb_spec (tg_ARN (target_of (obj_of j))) ""); cbn [orb]; try done.
  by intros [= <-].
Qed.

(** A handler that only runs one transaction. *)
Lemma on_db_keeps {A} (f : EventDB -> result A * EventDB) s :
  (events_ok (sv_db s) -> events_ok (f (sv_db s)).2) -> server_ok s -> server_ok (on_db f s).2.
Proof using. intros Hf [Hdb Hm]. destruct (on_db_snd f s) as [Ed Em]. split; [rewrite Ed; by apply Hf|by rewrite Em]. Qed.

(** ** The machine *)

Inductive eop :=
| EPutRule (p : gmap string json)
| EDeleteRule (p : gmap string json)
| EEnableRule (p : gmap string json)
| EDisableRule (p : gmap string json)
| EPutTargets (p : gmap string json)
| ERemoveTargets (p : gmap string json)
| ECreateBus (p : gmap string json)
| EDeleteBus (p : gmap string json)
| EUpdateBus (p : gmap string json)
| ETag (p : gmap string json)
| EUntag (p : gmap string json)
| EListTags (p : gmap string json)
| ECreateArchive (p : gmap string json)
| EUpdateArchive (p : gmap string json)
| EDeleteArchive (p : gmap string json)
| EPutEvents (ids : list string) (p : gmap string json)
| EStartReplay (p : gmap string json).

(** A handler that panics changes nothing. *)
Definition estep (now : Z) (o : eop) (s : server) : server :=
  match o with
  | EPutRule p => match putRule ident p s with Ret (Ok (_, s')) => s' | _ => s end
  | EDeleteRule p => (deleteRule p s).2
  | EEnableRule p => (enableRule p s).2
  | EDisableRule p => (disableRule p s).2
  | EPutTargets p => (putTargets p s).2
  | ERemoveTargets p => (removeTargets p s).2
  | ECreateBus p => (createEventBus ident p s).2
  | EDeleteBus p => (deleteEventBus p s).2
  | EUpdateBus p => (updateEventBus ident p s).2
  | ETag p => (tagResource p s).2
  | EUntag p => (untagResource p s).2
  | EListTags p => (listTagsForResource p s).2
  | ECreateArchive p => (createArchive now p s).2
  | EUpdateArchive p => (updateArchive p s).2
  | EDeleteArchive p => (deleteArchive p s).2
  | EPutEvents ids p => match putEvents ident now ids p s with Ok r => pu_server r | Err _ => s end
  | EStartReplay p => (startReplay ident now p s).2
  end.

(** New names hold no byte 0. *)
Definition op_named (o : eop) : Prop :=
  match o with
  | ECreateBus p => no_nul (str_of p "Name") = true
  | ECreateArchive p => no_nul (str_of p "ArchiveName") = true
  | _ => True
  end.

Lemma change_tags_keeps f p s : server_ok s -> server_ok (change_tags f p s).2.
Proof.
  intros Hok. unfold change_tags. destruct (busFromARN _); [|destruct (ruleFromARN _) as [[bus name]|]; [|done]]; apply on_db_keeps; try done.
  - by apply MutateBus_keeps.
  - apply UpdateRule_keeps. intros r. split; [done|]. split; [done|]. by intros [].
Qed.

Lemma replay_events_keep bus wanted es out s : server_ok s -> server_ok (foldl (replay_event ident bus wanted) (out, s) es).2.
Proof.
  revert out s. induction es as [|e es IH]; intros out s Hok; [done|]. cbn [foldl]. unfold replay_event at 2. cbn [fst snd].
  pose proof (match_keeps bus (se_Event e) wanted s Hok). destruct (matchAndDispatch _ _ _ _ _) as [o s']. by apply IH.
Qed.

Lemma replay_keeps now p s : server_ok s -> server_ok (startReplay ident now p s).2.
Proof.
  intros Hok. unfold startReplay. destruct (String.eqb _ _); [done|]. destruct (GetArchive _ _); [|done]. destruct (p !! "Destination") as [[| | | | |dest]|]; try done.
  pose proof (replay_events_keep (busFromArn (str_of dest "Arn")) (filter_arns dest)
    (ReplayEvents (archiveFromArn (str_of p "EventSourceArn")) (default 0 (pnum p "EventStartTime")) (default 0 (pnum p "EventEndTime")) (sv_db s)) [] s Hok) as Hr.
  destruct (foldl _ _ _) as [out s']. cbn [snd] in Hr. match goal with |- context [PutReplay ?r] => pose proof (on_db_keeps (PutReplay r) s' (PutReplay_keeps r _) Hr) as Hp end.
  by destruct (on_db _ s').
Qed.

(** A handler that runs one transaction on archives. *)
Lemma on_db_room {A} (f : EventDB -> result A * EventDB) s :
  (events_ok (sv_db s) -> event_room (f (sv_db s)).2 -> events_ok (f (sv_db s)).2) ->
  server_ok s -> seq_of (on_db f s).2 < 2 ^ 64 -> server_ok (on_db f s).2.
Proof using.
  intros Hf [Hdb Hm]. unfold seq_of. destruct (on_db_snd f s) as [Ed Em]. rewrite Ed. intros Hr.
  split; [rewrite Ed; by apply Hf|by rewrite Em].
Qed.

Lemma putRule_keeps p s r s' : server_ok s -> putRule ident p s = Ret (Ok (r, s')) -> server_ok s'.
Proof.
  intros Hok. unfold putRule. destruct (check_rule p) as [[[]|]| |] eqn:Ec; try done. cbn [mbind outcome_mbind outcome_bind].
  pose proof (on_db_keeps (PutRule (rule_of p)) s (PutRule_keeps (rule_of p) _ (check_rule_spec p Ec) eq_refl) Hok) as Hp.
  destruct (on_db _ s) as [[[]|] s1]; [|done]. by intros [= _ <-].
Qed.

Lemma update_targets_keep p f s : (forall l, targets_wf l -> targets_wf (f l)) -> server_ok s ->
  server_ok (on_db (UpdateRule (busOrDefault p) (str_of p "Rule") (fun r => set_targets (f (ru_Targets r)) r)) s).2.
Proof.
  intros Hf. apply on_db_keeps, UpdateRule_keeps. intros r. split; [done|]. split; [done|].
  intros Hr. apply set_targets_wf; [|done]. apply Hf, Hr.
Qed.

Lemma set_state_keeps st p s : server_ok s -> server_ok (on_db (UpdateRule (busOrDefault p) (str_of p "Name") (set_state st)) s).2.
Proof. apply on_db_keeps, UpdateRule_keeps. intros r. split; [done|]. split; [done|]. by intros []. Qed.

Lemma createEventBus_keeps p s : no_nul (str_of p "Name") = true -> server_ok s -> server_ok (createEventBus ident p s).2.
Proof.
  intros Hnul Hok. unfold createEventBus.
  pose proof (on_db_keeps (CreateBus (str_of p "Name") ∅) s (CreateBus_keeps _ _ _ Hnul) Hok) as H1. destruct (on_db _ s) as [[u|] s1]; [|done].
  pose proof (on_db_keeps (UpdateBus (str_of p "Name") (fun b => describe_bus p (bu_DeadLetterARN b) b)) s1 (UpdateBus_keeps _ (fun b => describe_bus p _ b) _ (fun _ => eq_refl)) H1) as H2.
  destruct (on_db _ s1) as [[u'|] s2]; done.
Qed.

Lemma updateEventBus_keeps p s : server_ok s -> server_ok (updateEventBus ident p s).2.
Proof.
  intros Hok. unfold updateEventBus. destruct (listed_bus _ s); [|done].
  pose proof (on_db_keeps (UpdateBus (named_bus p) (describe_bus p "")) s (UpdateBus_keeps _ (fun b => describe_bus p _ b) _ (fun _ => eq_refl)) Hok) as H1.
  destruct (on_db _ s) as [[u|] s1]; done.
Qed.

Lemma listTags_keeps p s : server_ok s -> server_ok (listTagsForResource p s).2.
Proof.
  intros Hok. unfold listTagsForResource. destruct (busFromARN _) as [name|]; [|done].
  pose proof (on_db_keeps (MutateBus name id) s (MutateBus_keeps _ id _ (fun _ => eq_refl)) Hok) as H1. by destruct (on_db _ s).
Qed.

Lemma updated_archive_keeps p a a' : updated_archive p a = Ok a' ->
  ar_Name a' = ar_Name a /\ ar_EventCount a' = ar_EventCount a /\ ar_SizeBytes a' = ar_SizeBytes a /\
  (pattern_valid (ar_Pattern a) -> pattern_valid (ar_Pattern a')).
Proof using.
  unfold updated_archive. destruct (negb _ && _) eqn:E; [done|]. intros [= <-]. split; [done|]. split; [done|]. split; [done|]. cbn [ar_Pattern].
  destruct (String.eqb_spec (str_of p "EventPattern") "") as [Ep|Ep]; [done|]. intros _. right.
  destruct (parse_pattern _) as [pat|]; [by exists pat|done].
Qed.

Lemma deleteArchive_keeps p s : server_ok s -> seq_of (deleteArchive p s).2 < 2 ^ 64 -> server_ok (deleteArchive p s).2.
Proof.
  intros Hok. unfold deleteArchive, GetArchive. destruct (find_archive _ _) as [a|] eqn:Ea; [|done].
  apply on_db_room; [|done]. apply DeleteArchive_keeps. apply (ao_name _ _ _ (ao_archive _ _ (proj2 (proj1 Hok)) _ a Ea)).
Qed.

Lemma createArchive_keeps now p s : no_nul (str_of p "ArchiveName") = true -> server_ok s ->
  seq_of (createArchive now p s).2 < 2 ^ 64 -> server_ok (createArchive now p s).2.
Proof.
  intros Hnul Hok. unfold createArchive. destruct (String.eqb _ _); [done|]. destruct (String.eqb _ _); [done|].
  apply on_db_room; [|done]. by apply CreateArchive_keeps.
Qed.

Lemma estep_keeps now o s : server_ok s -> op_named o -> seq_of (estep now o s) < 2 ^ 64 -> server_ok (estep now o s).
Proof.
  intros Hok Hn. destruct o as [p|p|p|p|p|p|p|p|p|p|p|p|p|p|p|ids p|p]; cbn [estep op_named] in *; intros Hr.
  - destruct (putRule ident p s) as [[[r s']|]| |] eqn:E; try done. by eapply putRule_keeps.
  - by apply on_db_keeps, Hok; apply DeleteRule_keeps.
  - by apply set_state_keeps.
  - by apply set_state_keeps.
  - unfold putTargets. case_bool_decide; [done|]. destruct (mapR parse_target _) as [ts|] eqn:Et; [|done].
    apply (update_targets_keep p (fun l => foldl put_target l ts)); [|done]. intros l Hl. by eapply put_targets_wf, parse_targets_named.
  - apply (update_targets_keep p (fun l => foldl remove_target l ((fun j => default "" (text_of j)) <$> arr_of p "Ids"))); [|done].
    intros l Hl. by apply remove_targets_wf.
  - by apply createEventBus_keeps.
  - by apply on_db_keeps, Hok; apply DeleteBus_keeps.
  - by apply updateEventBus_keeps.
  - by apply change_tags_keeps.
  - by apply change_tags_keeps.
  - by apply listTags_keeps.
  - by apply createArchive_keeps.
  - apply on_db_room; [|done|done]. apply UpdateArchive_keeps, updated_archive_keeps.
  - by apply deleteArchive_keeps.
  - unfold putEvents in *. destruct (p !! "Entries") as [[| | | |l|]|]; try done. destruct (_ || _); [done|]. by apply put_entries_keep.
  - by apply replay_keeps.
Qed.

Definition empty_server : server := mkServer _ _ empty_EventDB ∅.

(** The states the handlers lead to, as long as the sequence of events has room. *)
Inductive reached : server -> Prop :=
| reached_start : reached empty_server
| reached_step now o s : reached s -> op_named o -> seq_of (estep now o s) < 2 ^ 64 -> reached (estep now o s).

Lemma empty_server_ok : server_ok empty_server.
Proof using. split; [|split; [done|unfold maxCachedPatterns; cbn; rewrite map_size_empty; lia]]. by split; split. Qed.

Lemma reached_ok s : reached s -> server_ok s.
Proof. induction 1 as [|now o s _ IH Hn Hr]; [apply empty_server_ok|by apply estep_keeps]. Qed.
End run.
