(* ===== verification/EventSpec.v ===== *)
(** * EventSpec: what EventBridge promises

    Records stay well-formed; an event reaches the targets of the enabled rules of its bus
    whose patterns mean it, and no others; a replay delivers the archived events again. *)

From stdpp Require Import sorting.
From S2P Require Import Prelude Bytes Ident Clock GoText Wire Bolt Cursor Tx Star Pattern PatternSpec Cron Events EventApi EventHandlers EventInv EventRun.

Section spec.
Context `{B : Bolt} {BL : BoltLaws B} `{GT : GoText} `{JT : JsonText} `{ET : EventText} (ident : Identity).
#[local] Set Default Proof Using "BL".

(** ** The rules of a bus *)

Lemma sorted_values {V} (R : V -> V -> Prop) (l : list (string * V)) :
  StronglySorted key_lt l -> (forall a b, a ∈ l -> b ∈ l -> key_lt a b -> R a.2 b.2) -> StronglySorted R l.*2.
Proof using.
  intros Hs. induction Hs as [|e l Hl IH He]; intros HR; [constructor|]. rewrite fmap_cons. constructor.
  - apply IH. intros a b Ha Hb. apply HR; by right.
  - apply Forall_forall. intros v (e' & -> & He')%list_elem_of_fmap. rewrite Forall_forall in He. apply HR; [by left|by right|by apply He].
Qed.

Lemma Rules_spec db bus : events_ok db -> no_nul bus = true ->
  StronglySorted (fun a b => bytes_lt (ru_Name a) (ru_Name b)) (Rules bus "" db) /\
  forall r, r ∈ Rules bus "" db <-> ru_Bus r = bus /\ find_rule db (ru_Bus r) (ru_Name r) = Some r.
Proof.
  intros [HR _] Hnul. unfold Rules. rewrite opt_prefixed_default.
  assert (forall k r, (k, r) ∈ prefixed (ruleKey bus "") (default bempty (e_rules db)) <-> k = ruleKey bus (ru_Name r) /\ ru_Bus r = bus /\ get (e_rules db) k = Some r) as Hin.
  { intros k r. rewrite elem_of_prefixed, <- get_default. split.
    - intros [Hp Hr]. destruct (ro_rule _ _ HR k r Hr) as (-> & Hb & _). apply nul_prefix in Hp as [<- _]; [done| |done].
      by apply (exists_no_nul db).
    - intros (-> & _ & Hr). split; [|done]. apply nul_prefix; [done|done|]. split; [done|]. apply has_prefix_nil. }
  split.
  - apply sorted_values; [apply prefixed_sorted|]. intros [k a] [k' b] [-> _]%Hin [-> _]%Hin. unfold key_lt, bytes_lt, ruleKey. cbn [fst snd].
    by rewrite !bytes_cmp_app.
  - intros r. rewrite list_elem_of_fmap. split.
    + intros ([k r'] & -> & (-> & Hb & Hr)%Hin). cbn [snd]. split; [done|]. by rewrite Hb.
    + intros [Hb Hr]. exists (ruleKey bus (ru_Name r), r). split; [done|]. apply Hin. rewrite <- Hb. done.
Qed.

(** ** Deliveries *)

(** The rules an event is for. *)
Definition selects (doc : json) (r : rule) : Prop :=
  ru_State r = "ENABLED" /\ ru_Pattern r <> "" /\ exists src, json_parse (ru_Pattern r) = Some src /\ matches src doc.

Definition selectsb (doc : json) (wanted : option (gset string)) (r : rule) : bool :=
  String.eqb (ru_State r) "ENABLED" && negb (String.eqb (ru_Pattern r) "") &&
  (match wanted with Some f => bool_decide (rule_ARN ident r ∈ f) | None => true end) &&
  (match parse_pattern (ru_Pattern r) with Ok p => node_match p doc | Err _ => false end).

Lemma selected_deliveries doc event wanted rules :
  concat (rule_deliveries ident doc event wanted <$> rules) =
  concat ((fun r => omap (dispatch ident r event) (ru_Targets r)) <$> List.filter (selectsb doc wanted) rules).
Proof using.
  induction rules as [|r rules IH]; [done|]. rewrite fmap_cons, concat_cons, IH, filter_cons_bool. unfold rule_deliveries at 1, selectsb at 2.
  destruct (String.eqb (ru_State r) "ENABLED"), (String.eqb (ru_Pattern r) ""), wanted as [f|]; try case_bool_decide; try done; cbn [negb orb andb];
    destruct (parse_pattern (ru_Pattern r)) as [p|]; try done; by destruct (node_match p doc).
Qed.

Lemma selectsb_spec doc wanted r : rule_wf r -> no_stars doc ->
  selectsb doc wanted r = true <-> selects doc r /\ match wanted with Some f => rule_ARN ident r ∈ f | None => True end.
Proof using.
  intros Hwf Hd. unfold selectsb, selects. rewrite !andb_true_iff, negb_true_iff, String.eqb_eq, String.eqb_neq.
  assert ((match wanted with Some f => bool_decide (rule_ARN ident r ∈ f) | None => true end) = true <->
    match wanted with Some f => rule_ARN ident r ∈ f | None => True end) as -> by (destruct wanted; [apply bool_decide_eq_true|done]).
  assert (ru_Pattern r <> "" -> match parse_pattern (ru_Pattern r) with Ok p => node_match p doc | Err _ => false end = true <->
    exists src, json_parse (ru_Pattern r) = Some src /\ matches src doc) as Hm; [|tauto].
  intros Hne. destruct (rw_pattern _ Hwf) as [|[p Hp]]; [done|]. rewrite Hp. unfold parse_pattern in Hp. destruct (json_parse (ru_Pattern r)) as [src|]; [|done].
  rewrite (parsed_pattern_means src p doc Hp Hd). split; [intros; by exists src|]. by intros (? & [= <-] & ?).
Qed.

(** What a bus delivers of an event, of the rules wanted: nothing of a text that is no JSON,
    or with a number past the range of a float64.  Nothing is said of an event with a star
    in one of its texts, which the matcher of wildcards can miss. *)
Definition delivers (db : EventDB) (bus : string) (wanted : option (gset string)) (event : string) (out : list delivery) : Prop :=
  match json_parse event with
  | None => out = []
  | Some doc =>
      if numbers_ok doc then no_stars doc ->
        exists rs, out = concat ((fun r => omap (dispatch ident r event) (ru_Targets r)) <$> rs) /\
          StronglySorted (fun a b => bytes_lt (ru_Name a) (ru_Name b)) rs /\
          forall r, r ∈ rs <-> find_rule db (ru_Bus r) (ru_Name r) = Some r /\ ru_Bus r = bus /\ selects doc r /\
            match wanted with Some f => rule_ARN ident r ∈ f | None => True end
      else out = []
  end.

Lemma bus_deliveries_spec db bus wanted event : events_ok db -> no_nul bus = true ->
  delivers db bus wanted event (bus_deliveries ident event wanted (Rules bus "" db)).
Proof.
  intros Hok Hnul. unfold delivers, bus_deliveries, decode_event. destruct (json_parse event) as [doc|]; [|done]. unfold decode_any.
  destruct (numbers_ok doc); [|done]. intros Hstars. destruct (Rules_spec _ _ Hok Hnul) as [Hsorted Hrules].
  exists (List.filter (selectsb doc wanted) (Rules bus "" db)). split; [|split; [by apply sorted_filter|]].
  - by rewrite selected_deliveries.
  - intros r. rewrite elem_of_filter_bool, Hrules. split.
    + intros ((Hb & Hr) & Hsel). apply selectsb_spec in Hsel as [Hsel Hw]; [exact (conj Hr (conj Hb (conj Hsel Hw)))| |exact Hstars].
      apply (ro_rule _ _ (proj1 Hok) _ _ Hr).
    + intros (Hr & Hb & Hsel & Hw). split; [exact (conj Hb Hr)|]. apply selectsb_spec; [|exact Hstars|exact (conj Hsel Hw)].
      apply (ro_rule _ _ (proj1 Hok) _ _ Hr).
Qed.

(** C19: An event is delivered to the targets of exactly the rules it is for.  On any state the
    handlers lead to, an entry of PutEvents with a source, a detail type and a valid detail,
    whose text reads back as its fields, is answered with its identifier.  If no text of
    the event has a star in it, and its numbers are in the range of a float64, what it
    delivers is, rule by rule in the order of their names, what the targets of each enabled
    rule of its bus ask for, if the event is one the rule's pattern means.  An event with a
    number past that range is answered all the same and delivered to nobody; with a star in
    a text, a rule with a wildcard may miss it, which is not described here.  The name of the bus has
    no NUL byte in it.  The cache of compiled patterns plays no part. *)
Theorem events_delivered now id entry detail s :
  reached ident s ->
  let fields := event_fields ident now id entry in
  let event := event_text fields (entry_detail entry) in
  let doc := JObj (<["detail" := detail]> fields) in
  str_of entry "Source" <> "" -> str_of entry "DetailType" <> "" -> no_nul (entry_bus entry) = true ->
  json_parse (entry_detail entry) = Some detail -> json_parse event = Some doc ->
  exists out s', putOneEvent ident now id entry s = inr (id, out, s') /\
    (numbers_ok doc = false -> out = []) /\
    (numbers_ok doc = true -> no_stars doc -> exists rs,
      out = concat ((fun r => omap (dispatch ident r event) (ru_Targets r)) <$> rs) /\
      StronglySorted (fun a b => bytes_lt (ru_Name a) (ru_Name b)) rs /\
      forall r, r ∈ rs <-> find_rule (sv_db s) (ru_Bus r) (ru_Name r) = Some r /\ ru_Bus r = entry_bus entry /\ selects doc r).
Proof.
  intros Hs fields event doc Hsrc Hdt Hnul Hd Hdoc. apply reached_ok in Hs as [Hok Hm].
  unfold putOneEvent. rewrite Hd, (proj2 (String.eqb_neq _ _) Hsrc), (proj2 (String.eqb_neq _ _) Hdt). cbn [orb]. fold fields event.
  destruct (matchAndDispatch_spec ident (entry_bus entry) event None s Hm) as (m & -> & _).
  pose proof (bus_deliveries_spec (sv_db s) (entry_bus entry) None event Hok Hnul) as Hdel. unfold delivers in Hdel. rewrite Hdoc in Hdel.
  do 2 eexists. split; [reflexivity|]. split; intros Hnum; rewrite Hnum in Hdel; [exact Hdel|].
  intros Hstars. destruct (Hdel Hstars) as (rs & E & Hsorted & Hrs). exists rs. split; [exact E|]. split; [exact Hsorted|].
  intros r. rewrite Hrs. tauto.
Qed.

(** ** Records *)

(** C22: Records are well-formed in every state the handlers lead to.  Buses, rules and archives
    are stored under their own names; a rule belongs to a bus that exists, has a pattern or
    a schedule that parses, a schedule only on the default bus, and targets with names of
    which no two are equal; an archive counts the events and the bytes of its log, and a
    logged event belongs to an archive. *)
Theorem records_well_formed s : reached ident s ->
  (forall name b, find_bus (sv_db s) name = Some b -> bu_Name b = name) /\
  (forall k r, get (e_rules (sv_db s)) k = Some r ->
    k = ruleKey (ru_Bus r) (ru_Name r) /\ bus_exists (find_bus (sv_db s)) (ru_Bus r) /\ rule_wf r) /\
  (forall name a, find_archive (sv_db s) name = Some a ->
    let log := archive_log (e_events (sv_db s)) name in
    ar_Name a = name /\ pattern_valid (ar_Pattern a) /\ ar_EventCount a = Z.of_nat (length log) /\ ar_SizeBytes a = total_size log) /\
  (forall k e, get (e_events (sv_db s)) k = Some e -> exists name, is_Some (find_archive (sv_db s) name) /\ e ∈ archive_log (e_events (sv_db s)) name).
Proof.
  intros [[HR HA] _]%reached_ok. split; [intros name b Hb; by apply (ro_bus _ _ HR)|]. split; [apply (ro_rule _ _ HR)|]. split.
  - intros name a Ha. destruct (ao_archive _ _ HA name a Ha) as [[Hn _] Hp Hc Hz]. done.
  - intros k e He. destruct (ao_event _ _ HA k e He) as (name & n & -> & Ha & _). exists name. split; [done|].
    unfold archive_log. apply list_elem_of_fmap. exists (eventKey name n, e). split; [done|].
    rewrite opt_prefixed_default, elem_of_prefixed, <- get_default. split; [apply eventKey_prefix|done].
Qed.

(** ** Replays *)

Lemma replay_events_spec bus wanted es out s : cache_ok (sv_patterns s) ->
  exists m, foldl (replay_event ident bus wanted) (out, s) es =
    (out ++ concat ((fun e => bus_deliveries ident (se_Event e) wanted (Rules bus "" (sv_db s))) <$> es), mkServer _ _ (sv_db s) m) /\ cache_ok m.
Proof.
  revert out s. induction es as [|e es IH]; intros out s Hm; [exists (sv_patterns s); rewrite app_nil_r; by destruct s|]. cbn [foldl].
  unfold replay_event at 2. cbn [fst snd]. destruct (matchAndDispatch_spec ident bus (se_Event e) wanted s Hm) as (m & -> & Hm').
  destruct (IH (out ++ bus_deliveries ident (se_Event e) wanted (Rules bus "" (sv_db s))) (mkServer _ _ (sv_db s) m) Hm') as (m' & -> & Hm'').
  exists m'. by rewrite fmap_cons, concat_cons, app_assoc.
Qed.

(** The window of a replay; a zero end is open. *)
Definition in_time (start stop : Z) (e : storedEvent) : Prop := (start = 0 \/ start <= se_Time e) /\ (stop = 0 \/ se_Time e <= stop).
#[local] Instance in_time_dec start stop e : Decision (in_time start stop e).
Proof using. unfold in_time. apply _. Defined.

Lemma window_filter start stop l : List.filter (in_window start stop) l = filter (in_time start stop) l.
Proof using.
  induction l as [|e l IH]; [done|]. rewrite filter_cons_bool, filter_cons, IH. unfold in_window, in_time.
  destruct (Z.eqb_spec start 0), (Z.ltb_spec (se_Time e) start), (Z.eqb_spec stop 0), (Z.ltb_spec stop (se_Time e)); case_decide; try done; exfalso; lia.
Qed.

Lemma PutReplay_same r db : let db' := (PutReplay r db).2 in
  e_buses db' = e_buses db /\ e_rules db' = e_rules db /\ e_archives db' = e_archives db /\ e_events db' = e_events db.
Proof using. cbn zeta. unfold PutReplay, run_update. run_tx. repeat case_match; simplify_eq; done. Qed.

(** C21: An archive is a log, and a replay delivers a window of it again.  In any state the
    handlers lead to, capturing an event in an archive appends it to the log of that
    archive and leaves the other logs alone, as long as it is numbered below 2^64; a replay
    that has a name and a destination, a bus without a NUL byte in its name, goes over the logged events whose time
    is in its window, oldest first, and delivers each that is JSON, has numbers in the range
    of a float64 and no star in its texts, to the rules of the destination that are wanted
    and that the event is for.  An event that is no JSON, or has a number past that range,
    is delivered to nobody; of one with a star in a text nothing is claimed.  It does so
    whatever becomes of the record of the replay: one that is refused, because its name is
    taken, has been delivered all the same. *)
Theorem archive_replays s name a :
  reached ident s -> find_archive (sv_db s) name = Some a ->
  (forall t event u db', AppendArchiveEvent name t event (sv_db s) = (Ok u, db') -> event_room db' ->
    archive_log (e_events db') name = archive_log (e_events (sv_db s)) name ++ [mkStored t event] /\
    forall name', no_nul name' = true -> name' <> name -> archive_log (e_events db') name' = archive_log (e_events (sv_db s)) name') /\
  (forall now p dest, archiveFromArn (str_of p "EventSourceArn") = name -> str_of p "ReplayName" <> "" -> p !! "Destination" = Some (JObj dest) ->
    let bus := busFromArn (str_of dest "Arn") in
    let window := in_time (default 0 (pnum p "EventStartTime")) (default 0 (pnum p "EventEndTime")) in
    no_nul bus = true ->
    exists r outs s', startReplay ident now p s = (r, concat outs, s') /\
      Forall2 (fun e out => delivers (sv_db s) bus (filter_arns dest) (se_Event e) out)
        (filter window (archive_log (e_events (sv_db s)) name)) outs /\
      e_rules (sv_db s') = e_rules (sv_db s) /\ e_archives (sv_db s') = e_archives (sv_db s) /\ e_events (sv_db s') = e_events (sv_db s)).
Proof.
  intros [Hok Hm]%reached_ok Ha. split.
  - intros t event u db' E Hroom. destruct (AppendArchiveEvent_spec _ _ _ _ _ _ _ (proj2 Hok) Ha Hroom E) as (H1 & H2 & _). done.
  - intros now p dest <- Hname Hdest bus window Hnul. unfold startReplay, GetArchive. rewrite (proj2 (String.eqb_neq _ _) Hname), Ha, Hdest. fold bus.
    destruct (replay_events_spec bus (filter_arns dest)
      (ReplayEvents (archiveFromArn (str_of p "EventSourceArn")) (default 0 (pnum p "EventStartTime")) (default 0 (pnum p "EventEndTime")) (sv_db s)) [] s Hm) as (m & -> & _).
    match goal with |- context [PutReplay ?r] => pose proof (PutReplay_same r (sv_db s)) as (_ & E2 & E3 & E4) end.
    unfold on_db. cbn [sv_db]. destruct (PutReplay _ (sv_db s)) as [r db']. cbn [snd] in *.
    do 3 eexists. split; [reflexivity|]. split; [|done]. unfold window. rewrite <- window_filter, Forall2_fmap_r. apply Forall_Forall2_diag, Forall_forall.
    intros e _. by apply bus_deliveries_spec.
Qed.
End spec.

(** ** A shop *)

Definition shop_ident : Identity := mkIdentity "" "".
Definition shop_entry : gmap string json := {[ "Source" := JStr "shop"; "DetailType" := JStr "order" ]}.

(** The three texts of the example, written P, E and an empty object. *)
#[local] Instance shop_text : EventText := {|
  event_text _ _ := "E"; any_text _ := ""; iso8601 _ := "2026-01-01T00:00:00Z"; number_int64 s := default 0 (parse_int s)
|}.
#[local] Instance shop_json : JsonText := {|
  json_parse s :=
    if String.eqb s "P" then Some (JObj {[ "source" := JArr [JStr "shop"] ]})
    else if String.eqb s "E" then Some (JObj (<["detail" := JObj ∅]> (event_fields shop_ident 0 "e1" shop_entry)))
    else if String.eqb s "{}" then Some (JObj ∅) else None;
  json_marshal _ := "";
  float_text s := s;
  redrive_fields _ := None
|}.

Definition shop_rule : gmap string json := {[ "Name" := JStr "orders"; "EventPattern" := JStr "P" ]}.
Definition shop_targets : gmap string json :=
  {[ "Rule" := JStr "orders"; "Targets" := JArr [JObj {[ "Id" := JStr "q"; "Arn" := JStr "arn:aws:sqs:us-east-1:000000000000:jobs" ]}] ]}.
Definition shop_archive : gmap string json :=
  {[ "ArchiveName" := JStr "all"; "EventSourceArn" := JStr (busARN shop_ident DefaultBus) ]}.
Definition shop_replay : gmap string json :=
  {[ "ReplayName" := JStr "again"; "EventSourceArn" := JStr "all"; "Destination" := JObj {[ "Arn" := JStr "default" ]} ]}.

Definition shop_ops : list eop :=
  [EPutRule shop_rule; EPutTargets shop_targets; ECreateArchive shop_archive; EPutEvents ["e1"] {[ "Entries" := JArr [JObj shop_entry] ]}].
Definition shop : server := foldl (fun s o => estep shop_ident 0 o s) empty_server shop_ops.

Lemma shop_reached : reached shop_ident shop.
Proof.
  unfold shop, shop_ops. cbn [foldl].
  repeat (apply reached_step; [|exact I || (vm_compute; reflexivity)|vm_compute; reflexivity]). apply reached_start.
Qed.

Definition stored_rule : rule :=
  mkRule "default" "orders" "P" "" "ENABLED" "" "" [mkTarget "q" "arn:aws:sqs:us-east-1:000000000000:jobs" "" "" None None] ∅.

Lemma shop_rules : find_rule (sv_db shop) "default" "orders" = Some stored_rule.
Proof. vm_compute. reflexivity. Qed.

Lemma records_well_formed_witness :
  bus_exists (find_bus (sv_db shop)) "default" /\ exists a, find_archive (sv_db shop) "all" = Some a /\ ar_EventCount a = 1.
Proof.
  destruct (records_well_formed shop_ident shop shop_reached) as (_ & Hr & Ha & _). split.
  - destruct (Hr (ruleKey "default" "orders") stored_rule shop_rules) as (_ & Hb & _). exact Hb.
  - destruct (find_archive (sv_db shop) "all") as [a|] eqn:E; [|vm_compute in E; discriminate]. exists a. split; [reflexivity|].
    destruct (Ha "all" a E) as (_ & _ & Hc & _). rewrite Hc. vm_compute. reflexivity.
Defined.

Lemma shop_matches : matches (JObj {[ "source" := JArr [JStr "shop"] ]}) (JObj (<["detail" := JObj ∅]> (event_fields shop_ident 0 "e1" shop_entry))).
Proof.
  constructor.
  - intros l Hl. rewrite lookup_singleton_ne in Hl by done. discriminate.
  - intros key sub _ Hs. apply lookup_singleton_Some in Hs as [_ [=]].
  - intros key conds _ Hs. apply lookup_singleton_Some in Hs as [<- [= <-]]. exists (JStr "shop"). split; [by left|].
    change ((<["detail":=JObj ∅]> (event_fields shop_ident 0 "e1" shop_entry)) !! "source") with (Some (JStr "shop")).
    apply (lm_value _ _ (JStr "shop")); [by left|]. apply cm_exact; [intros []|constructor].
Qed.

Lemma events_delivered_witness : exists rs s',
  putOneEvent shop_ident 0 "e1" shop_entry shop = inr ("e1", concat ((fun r => omap (dispatch shop_ident r "E") (ru_Targets r)) <$> rs), s') /\
  stored_rule ∈ rs /\
  omap (dispatch shop_ident stored_rule "E") (ru_Targets stored_rule) = [mkDelivery "arn:aws:events:us-east-1:000000000000:rule/orders" (SQSSend "jobs" "E")].
Proof.
  destruct (events_delivered shop_ident 0 "e1" shop_entry (JObj ∅) shop shop_reached) as (out & s' & E & _ & Hout);
    [vm_compute; discriminate|vm_compute; discriminate|vm_compute; reflexivity|vm_compute; reflexivity|reflexivity|].
  destruct Hout as (rs & -> & _ & Hrs); [vm_compute; reflexivity|vm_compute; repeat split|].
  exists rs, s'. split; [exact E|]. split; [|vm_compute; reflexivity]. apply Hrs. split; [exact shop_rules|]. split; [vm_compute; reflexivity|].
  split; [reflexivity|]. split; [discriminate|]. eexists. split; [reflexivity|]. exact shop_matches.
Defined.

Lemma archive_replays_witness : exists r outs s',
  startReplay shop_ident 0 shop_replay shop = (r, concat outs, s') /\
  Forall2 (fun e out => delivers shop_ident (sv_db shop) "default" None (se_Event e) out) [mkStored 0 "E"] outs.
Proof.
  destruct (find_archive (sv_db shop) "all") as [a|] eqn:Ea; [|vm_compute in Ea; discriminate].
  destruct (archive_replays shop_ident shop "all" a shop_reached Ea) as [_ Hr].
  destruct (Hr 0 shop_replay {[ "Arn" := JStr "default" ]}) as (r & outs & s' & E & Hf & _);
    [vm_compute; reflexivity|vm_compute; discriminate|vm_compute; reflexivity|vm_compute; reflexivity|].
  exists r, outs, s'. split; [exact E|]. exact Hf.
Defined.
