(* ===== verification/Scheduler.v ===== *)
(** * Scheduler: firing rules on time

    Model of src/eventbridge/scheduler.go: one tick of the scheduler over the rules of every
    bus, with the clocks and the parsed expressions it keeps between ticks.  Instants are
    nanoseconds. *)

From S2P Require Import Prelude Bytes Ident Clock GoText Bolt Tx Star Pattern Cron Events EventApi.

(** When each rule fired last, and the expressions already parsed. *)
Record clocks := mkClocks { lastFired : gmap string Z; compiled_crons : gmap string Expression }.

(** When a schedule fires next after [last]; [None] for never. *)
Definition nextFire (schedule : string) (last : Z) (compiled : gmap string Expression) : outcome (option Z * gmap string Expression) :=
  match parseRate schedule with
  | Some interval => mret (Some (last + interval), compiled)
  | None =>
      match compiled !! schedule with
      | Some e => mret (Next e last, compiled)
      | None =>
          match Cron.Parse schedule with
          | Ret (Ok e) => mret (Next e last, <[schedule := e]> compiled)
          | Ret (Err _) => mret (None, compiled)
          | Panic => Panic
          | OutOfFuel => OutOfFuel
          end
      end
  end.

(** A tick so far: the clocks, the rules seen alive, how many, and the rules fired. *)
Record tick_state := mkTick { tk_clocks : clocks; tk_live : gset string; tk_armed : Z; tk_fired : list rule }.

Section scheduler.
Context `{B : Bolt} `{GT : GoText} `{JT : JsonText} `{ET : EventText} (ident : Identity).

#[local] Abbreviation server := (server (H := B) (H0 := GT)).

(** One rule of a bus: the first sight of it starts its clock. *)
Definition visit_schedule (now : Z) (bus : string) (t : tick_state) (r : rule) : outcome tick_state :=
  if negb (String.eqb (ru_State r) "ENABLED") || String.eqb (ru_Schedule r) "" then mret t
  else
    let key := ruleKey bus (ru_Name r) in
    let live := {[key]} ∪ tk_live t in
    let c := tk_clocks t in
    match lastFired c !! key with
    | None => mret (mkTick (mkClocks (<[key := now]> (lastFired c)) (compiled_crons c)) live (tk_armed t + 1) (tk_fired t))
    | Some last =>
        n ← nextFire (ru_Schedule r) last (compiled_crons c);
        let '(next, compiled) := n in
        if match next with Some next => now <? next | None => true end then
          mret (mkTick (mkClocks (lastFired c) compiled) live (tk_armed t + 1) (tk_fired t))
        else
          mret (mkTick (mkClocks (<[key := now]> (lastFired c)) compiled) live (tk_armed t + 1) (tk_fired t ++ [r]))
    end.

Fixpoint visit_rules (now : Z) (bus : string) (t : tick_state) (rules : list rule) : outcome tick_state :=
  match rules with
  | [] => mret t
  | r :: rules => t ← visit_schedule now bus t r; visit_rules now bus t rules
  end.

Fixpoint visit_buses (now : Z) (db : EventDB) (t : tick_state) (buses : list bus) : outcome tick_state :=
  match buses with
  | [] => mret t
  | b :: buses => t ← visit_rules now (bu_Name b) t (Rules (bu_Name b) "" db); visit_buses now db t buses
  end.

(** The clocks of the rules that are no longer scheduled go. *)
Definition fireDueSchedules (now : Z) (s : server) (c : clocks) : outcome tick_state :=
  t ← visit_buses now (sv_db s) (mkTick c ∅ 0 []) (ListBuses (sv_db s));
  mret (mkTick (mkClocks (filter (fun e => e.1 ∈ tk_live t) (lastFired (tk_clocks t))) (compiled_crons (tk_clocks t)))
    (tk_live t) (tk_armed t) (tk_fired t)).

(** Ticks one after the other, and the rules each of them fired. *)
Fixpoint run_ticks (c : clocks) (ticks : list (Z * server)) : outcome (list (list rule) * clocks) :=
  match ticks with
  | [] => mret ([], c)
  | (now, s) :: ticks =>
      t ← fireDueSchedules now s c;
      rest ← run_ticks (tk_clocks t) ticks;
      mret (tk_fired t :: rest.1, rest.2)
  end.

(** What a rule that fires delivers. *)
Definition scheduled_fields (now : Z) (id : string) (r : rule) : gmap string json :=
  <["version" := JStr "0"]> (<["id" := JStr id]> (<["detail-type" := JStr "Scheduled Event"]>
  (<["source" := JStr "aws.events"]> (<["account" := JStr (account_of (id_Account ident))]>
  (<["time" := JStr (iso8601 now)]> (<["region" := JStr (region_of (id_Region ident))]>
  {[ "resources" := JArr [JStr (ARN ident "events" ("rule/" +:+ ru_Name r))] ]})))))).
Definition fireScheduled (now : Z) (id : string) (r : rule) : list delivery :=
  omap (dispatch ident r (event_text (scheduled_fields now id r) "{}")) (ru_Targets r).

(** The period of the ticker: a second while rules are scheduled, [idleScan] while none is. *)
Definition idleScan : Z := 5 * second.
Definition next_slow (armed : Z) (slow : bool) : bool :=
  if (armed =? 0) && negb slow then true else if (0 <? armed) && slow then false else slow.
Definition period (slow : bool) : Z := if slow then idleScan else second.
End scheduler.
