(* ===== verification/SchedulerSpec.v ===== *)
(** * SchedulerSpec: when scheduled rules fire

    A tick visits every enabled rule with a schedule once; over ticks, a rule with a cron
    expression fires at the first tick after each of its occurrences. *)

From stdpp Require Import sorting.
From S2P Require Import Prelude Bytes Ident Clock GoText Calendar Bolt Cursor Tx Star Pattern Cron CronSpec Events EventApi EventHandlers EventInv EventRun EventSpec Scheduler.

Lemma elem_of_concat {A} (ls : list (list A)) x : x ∈ concat ls <-> exists l, x ∈ l /\ l ∈ ls.
Proof. rewrite list_elem_of_In, in_concat. setoid_rewrite list_elem_of_In. firstorder. Qed.

(** ** One rule *)

Definition scheduled (r : rule) : bool := String.eqb (ru_State r) "ENABLED" && negb (String.eqb (ru_Schedule r) "").

Definition next_time (schedule : string) (last : Z) : option Z :=
  match parseRate schedule with
  | Some interval => Some (last + interval)
  | None => match Cron.Parse schedule with Ret (Ok e) => Next e last | _ => None end
  end.

Definition due (schedule : string) (last now : Z) : bool :=
  match next_time schedule last with Some next => next <=? now | None => false end.

(** Whether a rule fires at a tick, and the clock it is left with. *)
Definition fires_on (now : Z) (clock : option Z) (r : rule) : bool :=
  scheduled r && match clock with Some last => due (ru_Schedule r) last now | None => false end.
Definition new_clock (now : Z) (clock : option Z) (r : rule) : option Z :=
  match clock with Some last => if due (ru_Schedule r) last now then Some now else Some last | None => Some now end.

(** The expressions kept are those the parser answers. *)
Definition crons_ok (m : gmap string Expression) : Prop := forall s e, m !! s = Some e -> Cron.Parse s = Ret (Ok e).

Lemma nextFire_spec schedule last m : schedule_valid schedule -> crons_ok m ->
  exists m', nextFire schedule last m = mret (next_time schedule last, m') /\ crons_ok m'.
Proof.
  intros Hv Hm. unfold nextFire, next_time. destruct (parseRate schedule) as [d|] eqn:Er; [by exists m|].
  destruct (m !! schedule) as [e|] eqn:El; [exists m; by rewrite (Hm _ _ El)|].
  destruct Hv as [[d Hd]|[e He]]; [congruence|]. rewrite He. eexists. split; [done|].
  intros s e'. destruct (decide (s = schedule)) as [->|]; [rewrite lookup_insert_eq; congruence|]. rewrite lookup_insert_ne by done. apply Hm.
Qed.

Definition rule_key (r : rule) : string := ruleKey (ru_Bus r) (ru_Name r).

(** The rules of a tick, one after the other. *)
Fixpoint visit_all (now : Z) (t : tick_state) (rules : list rule) : outcome tick_state :=
  match rules with
  | [] => mret t
  | r :: rules => t ← visit_schedule now (ru_Bus r) t r; visit_all now t rules
  end.

Definition clock_of (t : tick_state) (r : rule) : option Z := lastFired (tk_clocks t) !! rule_key r.

Record visited (now : Z) (rules : list rule) (t t' : tick_state) : Prop := {
  vi_crons : crons_ok (compiled_crons (tk_clocks t'));
  vi_clock : forall r, r ∈ rules -> scheduled r = true -> clock_of t' r = new_clock now (clock_of t r) r;
  vi_other : forall k, k ∉ rule_key <$> List.filter scheduled rules -> lastFired (tk_clocks t') !! k = lastFired (tk_clocks t) !! k;
  vi_live : tk_live t' = list_to_set (rule_key <$> List.filter scheduled rules) ∪ tk_live t;
  vi_armed : tk_armed t' = tk_armed t + Z.of_nat (length (List.filter scheduled rules));
  vi_fired : tk_fired t' = tk_fired t ++ List.filter (fun r => fires_on now (clock_of t r) r) rules
}.

Lemma visit_one now t r : (scheduled r = true -> schedule_valid (ru_Schedule r)) -> crons_ok (compiled_crons (tk_clocks t)) ->
  exists t', visit_schedule now (ru_Bus r) t r = mret t' /\ visited now [r] t t'.
Proof.
  intros Hv Hm. unfold visit_schedule. fold (rule_key r). assert (negb (String.eqb (ru_State r) "ENABLED") || String.eqb (ru_Schedule r) "" = negb (scheduled r)) as ->.
  { unfold scheduled. by destruct (String.eqb (ru_State r) _), (String.eqb (ru_Schedule r) _). }
  destruct (scheduled r) eqn:Es; cbn [negb].
  2:{ exists t. split; [done|]. split; cbn [List.filter]; unfold fires_on; rewrite ?Es; cbn; rewrite ?app_nil_r; try done; [|set_solver|lia].
      intros r' ->%list_elem_of_singleton. by rewrite Es. }
  assert (forall c (m : gmap string Expression) f, crons_ok m -> c = new_clock now (clock_of t r) r -> f = fires_on now (clock_of t r) r ->
    visited now [r] t (mkTick (mkClocks (match c with Some v => <[rule_key r := v]> (lastFired (tk_clocks t)) | None => lastFired (tk_clocks t) end) m)
      ({[rule_key r]} ∪ tk_live t) (tk_armed t + 1) (tk_fired t ++ if f then [r] else []))) as Hvis.
  { intros c m f Hc -> ->. split; cbn [List.filter tk_clocks compiled_crons lastFired tk_live tk_armed tk_fired]; rewrite ?Es; [done| | | |done|done].
    - intros r' ->%list_elem_of_singleton _. unfold clock_of at 1. cbn [tk_clocks lastFired].
      destruct (new_clock _ _ _) eqn:E; [by rewrite lookup_insert_eq|]. unfold new_clock in E. repeat case_match; done.
    - intros k Hk. destruct (new_clock _ _ _); [|done]. rewrite lookup_insert_ne; [done|]. set_solver.
    - cbn. set_solver. }
  fold (clock_of t r). destruct (clock_of t r) as [last|] eqn:Ec.
  - destruct (nextFire_spec (ru_Schedule r) last _ (Hv eq_refl) Hm) as (m' & -> & Hm'). cbn [mbind outcome_mbind outcome_bind mret outcome_ret].
    specialize (Hvis (new_clock now (Some last) r) m' (fires_on now (Some last) r) Hm' eq_refl eq_refl). unfold new_clock, fires_on, due in Hvis. rewrite Es in Hvis.
    destruct (next_time (ru_Schedule r) last) as [n|]; [destruct (Z.leb_spec n now), (Z.ltb_spec now n); try lia|]; cbn [andb] in Hvis;
      eexists; (split; [reflexivity|]); (exact Hvis || (rewrite insert_id, app_nil_r in Hvis by exact Ec; exact Hvis)).
  - eexists. split; [reflexivity|]. specialize (Hvis (Some now) _ false Hm eq_refl). unfold fires_on in Hvis. rewrite andb_false_r, app_nil_r in Hvis.
    by apply Hvis.
Qed.

Lemma visited_app now l l' t t1 t2 : NoDup (rule_key <$> l ++ l') -> visited now l t t1 -> visited now l' t1 t2 -> visited now (l ++ l') t t2.
Proof.
  intros Hnd H1 H2. rewrite fmap_app in Hnd. apply NoDup_app in Hnd as (_ & Hdis & _).
  assert (forall (l0 : list rule) r, r ∈ List.filter scheduled l0 -> rule_key r ∈ rule_key <$> l0) as Hsub.
  { intros l0 r [Hr _]%elem_of_filter_bool. by apply list_elem_of_fmap_2. }
  assert (forall r, r ∈ l' -> clock_of t1 r = clock_of t r) as Hlater.
  { intros r Hr. apply (vi_other _ _ _ _ H1). intros (r' & E & Hr')%list_elem_of_fmap. apply (Hdis (rule_key r)).
    - rewrite E. by apply Hsub.
    - by apply list_elem_of_fmap_2. }
  assert (forall r, r ∈ l -> clock_of t2 r = clock_of t1 r) as Hearlier.
  { intros r Hr. apply (vi_other _ _ _ _ H2). intros (r' & E & Hr')%list_elem_of_fmap. apply (Hdis (rule_key r)).
    - by apply list_elem_of_fmap_2.
    - rewrite E. by apply Hsub. }
  split.
  - apply (vi_crons _ _ _ _ H2).
  - intros r [Hr|Hr]%elem_of_app Hs.
    + rewrite Hearlier by done. by apply (vi_clock _ _ _ _ H1).
    + rewrite (vi_clock _ _ _ _ H2), Hlater by done. done.
  - intros k Hk. rewrite List.filter_app, fmap_app in Hk. rewrite (vi_other _ _ _ _ H2), (vi_other _ _ _ _ H1); [done|set_solver..].
  - rewrite (vi_live _ _ _ _ H2), (vi_live _ _ _ _ H1), List.filter_app, fmap_app, list_to_set_app_L. set_solver.
  - rewrite (vi_armed _ _ _ _ H2), (vi_armed _ _ _ _ H1), List.filter_app, length_app. lia.
  - rewrite (vi_fired _ _ _ _ H2), (vi_fired _ _ _ _ H1), List.filter_app, <- app_assoc. do 2 f_equal.
    apply List.filter_ext_in. intros r Hr%list_elem_of_In. by rewrite Hlater.
Qed.

Lemma visited_nil now t : crons_ok (compiled_crons (tk_clocks t)) -> visited now [] t t.
Proof. intros Hm. split; cbn; rewrite ?app_nil_r; first [done|set_solver|lia]. Qed.

Lemma visit_all_spec now rules t : NoDup (rule_key <$> rules) -> (forall r, r ∈ rules -> scheduled r = true -> schedule_valid (ru_Schedule r)) ->
  crons_ok (compiled_crons (tk_clocks t)) -> exists t', visit_all now t rules = mret t' /\ visited now rules t t'.
Proof.
  revert t. induction rules as [|r rules IH]; intros t Hnd Hv Hm; [exists t; split; [done|by apply visited_nil]|].
  destruct (visit_one now t r) as (t1 & E1 & H1); [apply Hv; by left|done|]. cbn [visit_all]. rewrite E1.
  destruct (IH t1) as (t2 & E2 & H2); [by apply NoDup_cons in Hnd as [_ ?]|intros r' Hr'; apply Hv; by right|apply (vi_crons _ _ _ _ H1)|].
  exists t2. split; [exact E2|]. by apply (visited_app now [r] rules t t1 t2).
Qed.

Section ticks.
Context `{B : Bolt} {BL : BoltLaws B} `{GT : GoText} `{JT : JsonText} `{ET : EventText} (ident : Identity).
#[local] Set Default Proof Using "BL".

#[local] Abbreviation server := (server (H := B) (H0 := GT)).

(** ** The rules of a tick *)

Lemma list_bus_spec l d rest : bu_Name d = DefaultBus ->
  exists d', foldl list_bus (d, rest) l = (d', rest ++ List.filter (fun b => negb (String.eqb (bu_Name b) DefaultBus)) l) /\ bu_Name d' = DefaultBus.
Proof using.
  revert d rest. induction l as [|b l IH]; intros d rest Hd; [exists d; by rewrite app_nil_r|]. cbn [foldl]. unfold list_bus at 2. cbn [fst snd List.filter].
  destruct (String.eqb_spec (bu_Name b) DefaultBus) as [E|]; cbn [negb]; [by apply IH|].
  destruct (IH d (rest ++ [b]) Hd) as (d' & -> & Hd'). exists d'. by rewrite <- app_assoc.
Qed.

Lemma bus_names db : events_ok db -> NoDup (bu_Name <$> (opt_entries (e_buses db)).*2) /\
  forall name, name ∈ bu_Name <$> (opt_entries (e_buses db)).*2 <-> is_Some (find_bus db name).
Proof.
  intros [HR _]. assert (bu_Name <$> (opt_entries (e_buses db)).*2 = (opt_entries (e_buses db)).*1) as ->.
  { pose proof (ro_bus _ _ HR) as Hb. unfold find_bus in Hb. destruct (e_buses db) as [b|]; [|done]. cbn. rewrite <- list_fmap_compose. apply list_fmap_ext.
    intros i [k v] Hi%list_elem_of_lookup_2. apply bentries_bget in Hi. cbn. by apply (Hb k v). }
  unfold find_bus. destruct (e_buses db) as [b|]; cbn; split; [apply bentries_keys_NoDup| |constructor|].
  - intros name. rewrite list_elem_of_fmap. split.
    + intros ([k v] & -> & Hv%bentries_bget). by exists v.
    + intros [v Hv%bentries_bget]. by exists (name, v).
  - intros name. split; [intros Hin; by apply elem_of_nil in Hin|by intros [? ?]].
Qed.

Lemma ListBuses_spec db : events_ok db ->
  NoDup (bu_Name <$> ListBuses db) /\ forall name, name ∈ bu_Name <$> ListBuses db <-> bus_exists (find_bus db) name.
Proof.
  intros Hok. destruct (bus_names db Hok) as [Hnd Hin]. unfold ListBuses, bus_exists.
  destruct (list_bus_spec (opt_entries (e_buses db)).*2 (new_bus DefaultBus ∅) [] eq_refl) as (d & -> & Hd). rewrite app_nil_l.
  set (rest := List.filter _ _).
  assert (forall name, name ∈ bu_Name <$> rest <-> name <> DefaultBus /\ is_Some (find_bus db name)) as Hrest.
  { intros name. rewrite <- Hin. unfold rest. rewrite !list_elem_of_fmap. split.
    - intros (b & -> & [Hb Hne%negb_true_iff%String.eqb_neq]%elem_of_filter_bool). split; [done|by exists b].
    - intros (Hne & b & -> & Hb). exists b. split; [done|]. apply elem_of_filter_bool. split; [done|]. by apply negb_true_iff, String.eqb_neq. }
  split.
  - rewrite merge_sort_Permutation, fmap_cons, Hd. apply NoDup_cons. split; [by intros [? _]%Hrest|]. unfold rest. clear -Hnd. induction (opt_entries (e_buses db)).*2 as [|b l IH]; [done|].
    rewrite fmap_cons in Hnd. apply NoDup_cons in Hnd as [Hb Hnd]. cbn [List.filter]. destruct (negb _); [|by apply IH]. rewrite fmap_cons.
    apply NoDup_cons. split; [|by apply IH]. intros (b' & E & [Hb' _]%elem_of_filter_bool)%list_elem_of_fmap. apply Hb. rewrite E. by apply list_elem_of_fmap_2.
  - intros name. rewrite merge_sort_Permutation, fmap_cons, Hd, elem_of_cons, Hrest. destruct (decide (name = DefaultBus)); tauto.
Qed.

Definition tick_rules (db : EventDB) : list rule := concat ((fun b => Rules (bu_Name b) "" db) <$> ListBuses db).

Lemma visit_buses_all now db t buses : (forall b r, b ∈ buses -> r ∈ Rules (bu_Name b) "" db -> ru_Bus r = bu_Name b) ->
  visit_buses now db t buses = visit_all now t (concat ((fun b => Rules (bu_Name b) "" db) <$> buses)).
Proof using.
  assert (forall t rs rs', (forall r, r ∈ rs -> True) -> visit_all now t (rs ++ rs') = (visit_all now t rs ≫= fun t => visit_all now t rs')) as Happ.
  { clear. intros t rs rs' _. revert t. induction rs as [|r rs IH]; intros t; [done|]. cbn [app visit_all].
    destruct (visit_schedule now (ru_Bus r) t r) as [[t'|]| |]; [|done..]. apply IH. }
  revert t. induction buses as [|b buses IH]; intros t Hb; [done|]. cbn [visit_buses]. rewrite fmap_cons, concat_cons, Happ by done.
  assert (visit_rules now (bu_Name b) t (Rules (bu_Name b) "" db) = visit_all now t (Rules (bu_Name b) "" db)) as ->.
  { assert (forall r, r ∈ Rules (bu_Name b) "" db -> ru_Bus r = bu_Name b) as Hr by (intros r; apply Hb; by left). clear -Hr. revert t.
    induction (Rules (bu_Name b) "" db) as [|r rs IH]; intros t; [done|]. cbn [visit_rules visit_all]. rewrite Hr by by left.
    destruct (visit_schedule now (bu_Name b) t r) as [[t'|]| |]; [|done..]. apply IH. intros r' Hr'. apply Hr. by right. }
  destruct (visit_all now t (Rules (bu_Name b) "" db)) as [[t'|]| |]; [|done..]. cbn [mbind outcome_mbind outcome_bind]. apply IH.
  intros b' r Hb'. apply Hb. by right.
Qed.

Lemma listed_no_nul db b : events_ok db -> b ∈ ListBuses db -> no_nul (bu_Name b) = true.
Proof.
  intros Hok Hb. apply (exists_no_nul db _ (proj1 Hok)). apply (proj2 (ListBuses_spec db Hok)). by apply list_elem_of_fmap_2.
Qed.

Lemma tick_rules_in db r : events_ok db -> r ∈ tick_rules db <-> find_rule db (ru_Bus r) (ru_Name r) = Some r.
Proof.
  intros Hok. unfold tick_rules. rewrite elem_of_concat. split.
  - intros (l & Hr & (b & -> & Hb)%list_elem_of_fmap). by apply (Rules_spec db (bu_Name b) Hok (listed_no_nul db b Hok Hb)).
  - intros Hr. destruct (ro_rule _ _ (proj1 Hok) _ r Hr) as (_ & Hb & _). apply (proj2 (ListBuses_spec db Hok)) in Hb as (b & E & Hb)%list_elem_of_fmap.
    exists (Rules (bu_Name b) "" db). split; [|by apply (list_elem_of_fmap_2 (fun b => Rules (bu_Name b) "" db))]. apply (Rules_spec db (bu_Name b) Hok (listed_no_nul db b Hok Hb)). by rewrite E at 1.
Qed.

Lemma tick_rules_keys db : events_ok db -> NoDup (rule_key <$> tick_rules db).
Proof.
  intros Hok. unfold tick_rules. pose proof (proj1 (ListBuses_spec db Hok)) as Hnd. pose proof (fun b Hb => Rules_spec db (bu_Name b) Hok (listed_no_nul db b Hok Hb)) as Hrules.
  induction (ListBuses db) as [|b l IH]; [constructor|]. rewrite fmap_cons, concat_cons, fmap_app. rewrite fmap_cons in Hnd. apply NoDup_cons in Hnd as [Hb Hnd].
  destruct (Hrules b ltac:(by left)) as [Hsorted Hin]. apply NoDup_app. split; [|split; [|apply IH; [done|intros b' Hb'; apply Hrules; by right]]].
  - assert (forall r, r ∈ Rules (bu_Name b) "" db -> rule_key r = ruleKey (bu_Name b) (ru_Name r)) as Hk by (intros r [<- _]%Hin; done).
    clear -Hsorted Hk. induction Hsorted as [|r rs _ IH Hr]; [constructor|]. rewrite fmap_cons. apply NoDup_cons. split; [|apply IH; intros r' Hr'; apply Hk; by right].
    intros (r' & E & Hr')%list_elem_of_fmap. rewrite !Hk in E by (by left || by right). unfold ruleKey in E. apply sapp_inj_l, sapp_inj_l in E.
    rewrite Forall_forall in Hr. specialize (Hr r' Hr'). rewrite E in Hr. by apply bytes_lt_irrefl in Hr.
  - intros k (r & -> & [Er Hr]%Hin)%list_elem_of_fmap (r' & E & (l' & Hr' & (b' & -> & Hb')%list_elem_of_fmap)%elem_of_concat)%list_elem_of_fmap.
    destruct (Hrules b' ltac:(by right)) as [_ Hin']. apply Hin' in Hr' as [Er' Hr']. apply Hb, list_elem_of_fmap. exists b'. split; [|done].
    unfold rule_key, ruleKey in E. apply nul_inj in E as [E _]; [congruence|..]; apply (exists_no_nul db _ (proj1 Hok)).
    + by apply (ro_rule _ _ (proj1 Hok) _ r Hr).
    + by apply (ro_rule _ _ (proj1 Hok) _ r' Hr').
Qed.

(** ** One tick *)

Record ticked (now : Z) (db : EventDB) (c : clocks) (t : tick_state) : Prop := {
  ti_crons : crons_ok (compiled_crons (tk_clocks t));
  ti_clock : forall r, find_rule db (ru_Bus r) (ru_Name r) = Some r -> scheduled r = true ->
    clock_of t r = new_clock now (lastFired c !! rule_key r) r;
  ti_gone : forall k, (forall r, find_rule db (ru_Bus r) (ru_Name r) = Some r -> scheduled r = true -> rule_key r <> k) -> lastFired (tk_clocks t) !! k = None;
  ti_fired : forall r, r ∈ tk_fired t <-> find_rule db (ru_Bus r) (ru_Name r) = Some r /\ fires_on now (lastFired c !! rule_key r) r = true;
  ti_once : NoDup (rule_key <$> tk_fired t);
  ti_armed : tk_armed t = 0 <-> forall r, find_rule db (ru_Bus r) (ru_Name r) = Some r -> scheduled r = false
}.

Lemma filter_keys p (l : list rule) : NoDup (rule_key <$> l) -> NoDup (rule_key <$> List.filter p l).
Proof using.
  induction l as [|r l IH]; [done|]. rewrite fmap_cons. intros [Hr Hd]%NoDup_cons. cbn [List.filter]. destruct (p r); [|by apply IH].
  rewrite fmap_cons. apply NoDup_cons. split; [|by apply IH]. intros (r' & E & [Hr' _]%elem_of_filter_bool)%list_elem_of_fmap.
  apply Hr. rewrite E. by apply list_elem_of_fmap_2.
Qed.

Lemma tick_spec now s c : events_ok (sv_db s) -> crons_ok (compiled_crons c) -> exists t, fireDueSchedules now s c = mret t /\ ticked now (sv_db s) c t.
Proof.
  intros Hok Hm. set (db := sv_db s) in *. pose proof (tick_rules_in db) as Hin. pose proof (tick_rules_keys db Hok) as Hkeys.
  unfold fireDueSchedules. rewrite visit_buses_all. 2:{ intros b r Hb Hr. by apply (Rules_spec db (bu_Name b) Hok (listed_no_nul db b Hok Hb)). }
  fold db. fold (tick_rules db). destruct (visit_all_spec now (tick_rules db) (mkTick c ∅ 0 [])) as (t & -> & [V1 V2 V3 V4 V5 V6]); [done| |done|].
  { intros r Hr%Hin Hs; [|done]. unfold scheduled in Hs. destruct (rw_schedule r) as [E|[_ Hv]]; [by apply (ro_rule _ _ (proj1 Hok) _ r Hr)| |done].
    rewrite E in Hs. by rewrite andb_false_r in Hs. }
  eexists. split; [reflexivity|]. cbn [tk_live] in V4. rewrite (right_id_L ∅ (∪)) in V4.
  assert (forall r, r ∈ List.filter scheduled (tick_rules db) <-> find_rule db (ru_Bus r) (ru_Name r) = Some r /\ scheduled r = true) as Hs.
  { intros r. by rewrite elem_of_filter_bool, Hin. }
  assert (forall k, k ∈ tk_live t <-> exists r, rule_key r = k /\ find_rule db (ru_Bus r) (ru_Name r) = Some r /\ scheduled r = true) as Hlive.
  { intros k. rewrite V4, elem_of_list_to_set, list_elem_of_fmap. setoid_rewrite Hs. naive_solver. }
  split; cbn [tk_clocks compiled_crons lastFired tk_fired tk_armed].
  - done.
  - intros r Hr Hsch. unfold clock_of. cbn [tk_clocks lastFired]. rewrite map_lookup_filter.
    specialize (V2 r (proj2 (Hin r Hok) Hr) Hsch). unfold clock_of in V2. cbn [tk_clocks] in V2. rewrite V2.
    destruct (new_clock _ _ _); [|done]. cbn. rewrite option_guard_True; [done|]. cbn. apply Hlive. by exists r.
  - intros k Hk. apply map_lookup_filter_None. right. intros v _. cbn. intros (r & E & Hr & Hsch)%Hlive. by apply (Hk r).
  - intros r. rewrite V6. cbn [tk_fired app]. by rewrite elem_of_filter_bool, Hin.
  - rewrite V6. by apply filter_keys.
  - rewrite V5. cbn [tk_armed]. split.
    + intros E r Hr. destruct (scheduled r) eqn:Hsch; [|done]. assert (r ∈ List.filter scheduled (tick_rules db)) as Hf by by apply Hs.
      destruct (List.filter scheduled (tick_rules db)); [by apply elem_of_nil in Hf|cbn in E; lia].
    + intros Hno. replace (List.filter scheduled (tick_rules db)) with (@nil rule); [done|]. symmetry. apply elem_of_nil_inv.
      intros r [Hr Hsch]%Hs. by rewrite Hno in Hsch.
Qed.

(** ** Occurrences *)

(** A minute at which the schedule fires lies after one instant and not after another. *)
Definition occurs (e : Expression) (a b : Z) : Prop := exists m, fires e m = true /\ a < instant m <= b.

Lemma Next_due e last now : year_of (minute_of now / 1440) <= 2200 ->
  match Next e last with Some next => next <=? now | None => false end = true <-> occurs e last now.
Proof using.
  intros Hyear. unfold Next, occurs. destruct (next_loop_spec e (minute_of last + 1)) as (r & -> & Hr). destruct r as [t|]; cbn.
  - destruct Hr as [[Hle Hq] Hf]. rewrite Z.leb_le. split; [intros Hnow; exists t; split; [done|split; [by apply instant_minute|done]]|].
    intros (m & Hm & Ha%instant_minute & Hb). destruct (Z.lt_ge_cases m t) as [|Hge]; [by rewrite Hq in Hm by lia|]. unfold instant, second in *. lia.
  - destruct Hr as (t' & Hq & Hy). split; [done|]. intros (m & Hm & Ha%instant_minute & Hb).
    destruct (search_end _ _ _ m Hq Hy Ha Hm) as [_ Hlate]. exfalso.
    assert (m <= minute_of now) as Hmn by (destruct (Z.lt_ge_cases (minute_of now) m) as [Hlt|]; [apply Z.le_succ_l in Hlt; unfold Z.succ in Hlt; apply instant_minute in Hlt; lia|done]).
    pose proof (year_of_le (m / 1440) (minute_of now / 1440)). assert (m / 1440 <= minute_of now / 1440) by zdiv. lia.
Qed.

Definition fires_rule (name : string) (rs : list rule) : Prop := exists r, r ∈ rs /\ ru_Bus r = DefaultBus /\ ru_Name r = name.

(** The rule is there, enabled, with the expression. *)
Definition on_schedule (expr name : string) (s : server) : Prop :=
  exists r, find_rule (sv_db s) DefaultBus name = Some r /\ ru_State r = "ENABLED" /\ ru_Schedule r = expr.

Lemma parsed_some expr e : Cron.Parse expr = Ret (Ok e) -> expr <> "".
Proof using. intros Hp ->. vm_compute in Hp. discriminate. Qed.

Section cron.
Context (expr name : string) (e : Expression) (Hrate : parseRate expr = None) (Hparse : Cron.Parse expr = Ret (Ok e)).
#[local] Set Default Proof Using "BL Hrate Hparse".

(** A tick, seen from the rule. *)
Lemma rule_ticked now s c t : events_ok (sv_db s) -> ticked now (sv_db s) c t -> on_schedule expr name s -> exists r,
  rule_key r = ruleKey DefaultBus name /\ ru_Schedule r = expr /\ clock_of t r = new_clock now (lastFired c !! rule_key r) r /\
  (fires_rule name (tk_fired t) <-> match lastFired c !! rule_key r with Some last => due expr last now = true | None => False end).
Proof.
  intros Hok [_ Hclock _ Hfired _ _] (r & Hr & He & Hs). exists r. destruct (ro_rule _ _ (proj1 Hok) _ r Hr) as (Ek & _ & _).
  assert (ru_Bus r = DefaultBus /\ ru_Name r = name) as [Eb En].
  { unfold ruleKey in Ek. apply nul_inj in Ek as [-> ->]; [done|done|]. apply (exists_no_nul _ _ (proj1 Hok)). by apply (ro_rule _ _ (proj1 Hok) _ r Hr). }
  assert (scheduled r = true) as Hsch by (unfold scheduled; rewrite He, Hs, (proj2 (String.eqb_neq _ _) (parsed_some _ _ Hparse)); done).
  assert (find_rule (sv_db s) (ru_Bus r) (ru_Name r) = Some r) as Hr' by by rewrite Eb, En.
  split; [done|]. split; [done|]. split; [by apply Hclock|].
  assert (fires_rule name (tk_fired t) <-> fires_on now (lastFired c !! rule_key r) r = true) as ->.
  { split; [|intros Hf; exists r; split; [by apply Hfired|done]]. intros (r' & [Hr1 Hf]%Hfired & Eb' & En'). rewrite Eb', En' in Hr1.
    rewrite Hr1 in Hr. injection Hr as <-. done. }
  unfold fires_on. rewrite Hsch, Hs. by destruct (lastFired c !! rule_key r).
Qed.

Lemma due_occurs last now : year_of (minute_of now / 1440) <= 2200 -> due expr last now = true <-> occurs e last now.
Proof. intros Hy. unfold due, next_time. rewrite Hrate, Hparse. by apply Next_due. Qed.

Lemma cron_run ticks c last prev :
  crons_ok (compiled_crons c) -> lastFired c !! ruleKey DefaultBus name = Some last -> last <= prev -> ~ occurs e last prev ->
  Forall (fun t => events_ok (sv_db t.2) /\ on_schedule expr name t.2 /\ year_of (minute_of t.1 / 1440) <= 2200) ticks ->
  StronglySorted Z.le (prev :: ticks.*1) ->
  exists fired c', run_ticks c ticks = mret (fired, c') /\
    Forall2 (fun rs ab => fires_rule name rs <-> occurs e ab.1 ab.2) fired (zip (prev :: ticks.*1) ticks.*1).
Proof.
  intros Hm Hl Hle Hno Hticks Hsorted. revert c last prev Hm Hl Hle Hno Hsorted.
  induction Hticks as [|[now s] ticks (Hok & Hon & Hy) _ IH]; intros c last prev Hm Hl Hle Hno Hsorted; [exists [], c; by split|].
  cbn [fst snd] in *. rewrite fmap_cons in *. cbn [fst] in *. apply StronglySorted_inv in Hsorted as [Hsorted Hprev]. apply Forall_inv in Hprev.
  destruct (tick_spec now s c Hok Hm) as (t & Et & Ht). destruct (rule_ticked now s c t Hok Ht Hon) as (r & Ek & Es & Ec & Hf).
  rewrite Ek, Hl in *. unfold clock_of in Ec. rewrite Ek in Ec. cbn [run_ticks]. rewrite Et. cbn [mbind outcome_mbind outcome_bind mret outcome_ret].
  assert (occurs e last now <-> occurs e prev now) as Hocc.
  { split; intros (m & Hfm & Ha & Hb); exists m; (split; [done|]); [|lia]. split; [|done].
    destruct (Z.lt_ge_cases prev (instant m)); [done|]. exfalso. apply Hno. by exists m. }
  unfold new_clock in Ec. rewrite Es in Ec. pose proof (due_occurs last now Hy) as Hdue.
  assert (exists last', lastFired (tk_clocks t) !! ruleKey DefaultBus name = Some last' /\ last' <= now /\ ~ occurs e last' now) as (last' & Hl' & Hle' & Hno').
  { destruct (due expr last now) eqn:Ed; rewrite Ec; eexists; (split; [reflexivity|]).
    - split; [lia|]. intros (m & _ & Hm'). lia.
    - split; [lia|]. intros Ho%Hdue. discriminate. }
  destruct (IH (tk_clocks t) last' now (ti_crons _ _ _ _ Ht) Hl' Hle' Hno' Hsorted) as (fired & c' & E & HF). rewrite E.
  exists (tk_fired t :: fired), c'. split; [done|]. cbn [zip zip_with]. constructor; [|exact HF]. cbn [fst snd]. by rewrite Hf, Hdue, Hocc.
Qed.
End cron.

(** C20: A cron rule fires at the first tick after each occurrence of its expression, and at no
    other.  Over any ticks in the order of time, with the state of the service as the
    handlers left it at each, a rule that is there and enabled with the expression
    throughout is armed by the first tick and does not fire at it; at each later tick it
    fires exactly if a minute of the expression lies after the tick before and not after
    this one. *)
Theorem cron_rule_fires expr name e now s ticks c :
  parseRate expr = None -> Cron.Parse expr = Ret (Ok e) ->
  crons_ok (compiled_crons c) -> lastFired c !! ruleKey DefaultBus name = None ->
  Forall (fun t => reached ident t.2 /\ on_schedule expr name t.2 /\ year_of (minute_of t.1 / 1440) <= 2200) ((now, s) :: ticks) ->
  StronglySorted Z.le (now :: ticks.*1) ->
  exists first fired c', run_ticks c ((now, s) :: ticks) = Ret (Ok (first :: fired, c')) /\ ~ fires_rule name first /\
    Forall2 (fun rs ab => fires_rule name rs <-> occurs e ab.1 ab.2) fired (zip (now :: ticks.*1) ticks.*1).
Proof.
  intros Hrate Hparse Hm Hl Hticks Hsorted. apply Forall_cons in Hticks as ((Hs & Hon & Hy) & Hticks). apply reached_ok in Hs as [Hok _].
  cbn [fst snd] in *. destruct (tick_spec now s c Hok Hm) as (t & Et & Ht).
  destruct (rule_ticked expr name e Hrate Hparse now s c t Hok Ht Hon) as (r & Ek & Es & Ec & Hf). rewrite Ek, Hl in *.
  unfold clock_of in Ec. rewrite Ek in Ec. cbn [new_clock] in Ec.
  destruct (cron_run expr name e Hrate Hparse ticks (tk_clocks t) now now (ti_crons _ _ _ _ Ht) Ec) as (fired & c' & E & HF); [lia| | |done|].
  { intros (m & _ & Hm'). lia. }
  { eapply Forall_impl; [exact Hticks|]. intros [t0 s0] (Hr%reached_ok & H1 & H2). split; [apply Hr|done]. }
  exists (tk_fired t), fired, c'. cbn [run_ticks]. rewrite Et. cbn [mbind outcome_mbind outcome_bind mret outcome_ret]. rewrite E. split; [done|]. split; [|exact HF]. by intros []%Hf.
Qed.
End ticks.

(** ** Every day at noon *)

#[local] Existing Instance shop_json.
#[local] Existing Instance shop_text.

Definition noon_rule : gmap string json := {[ "Name" := JStr "noon"; "ScheduleExpression" := JStr "cron(0 12 * * ? *)" ]}.
Definition noon_state : server := estep shop_ident 0 (EPutRule noon_rule) empty_server.
Definition at_noon : Expression :=
  match Cron.Parse "cron(0 12 * * ? *)" with Ret (Ok e) => e | _ => mkExpression ∅ ∅ ∅ ∅ false false ∅ false [] false ∅ 0 [] end.

(** Ticks of one day, at eleven, some milliseconds past twelve, and a second later. *)
Definition day_ticks : list Z := [11 * 3600 * second; 12 * 3600 * second + 4000000; (12 * 3600 + 1) * second + 4000000].

Lemma noon_reached : reached shop_ident noon_state.
Proof. apply (reached_step shop_ident 0 (EPutRule noon_rule)); [apply reached_start|exact I|vm_compute; reflexivity]. Qed.

Lemma cron_rule_fires_witness : exists first f1 f2 c',
  run_ticks (mkClocks ∅ ∅) ((fun now => (now, noon_state)) <$> day_ticks) = Ret (Ok ([first; f1; f2], c')) /\
  ~ fires_rule "noon" first /\ fires_rule "noon" f1.
Proof.
  destruct (cron_rule_fires shop_ident "cron(0 12 * * ? *)" "noon" at_noon (11 * 3600 * second) noon_state
    ((fun now => (now, noon_state)) <$> tail day_ticks) (mkClocks ∅ ∅)) as (first & fired & c' & E & Hfirst & Hf).
  - vm_compute. reflexivity.
  - vm_compute. reflexivity.
  - intros s e Hs. cbn in Hs. rewrite lookup_empty in Hs. discriminate.
  - apply lookup_empty.
  - assert (forall now, year_of (minute_of now / 1440) <= 2200 -> reached shop_ident noon_state /\ on_schedule "cron(0 12 * * ? *)" "noon" noon_state /\
      year_of (minute_of now / 1440) <= 2200) as Hnow.
    { intros now Hy. split; [exact noon_reached|]. split; [|exact Hy]. exists (rule_of noon_rule). split; [vm_compute; reflexivity|]. split; vm_compute; reflexivity. }
    repeat (constructor; [apply Hnow; vm_compute; discriminate|]). constructor.
  - repeat constructor; vm_compute; discriminate.
  - apply Forall2_cons_inv_r in Hf as (f1 & rest & H1 & Hf & ->). apply Forall2_cons_inv_r in Hf as (f2 & rest' & _ & Hf & ->).
    apply Forall2_nil_inv_r in Hf as ->. exists first, f1, f2, c'. split; [exact E|]. split; [exact Hfirst|]. apply H1. clear.
    exists (unix_epoch + 720). split; [vm_compute; reflexivity|]. split; [vm_compute; reflexivity|vm_compute; discriminate].
Defined.
