(* ===== verification/Chunk.v ===== *)
(** * Chunk: the aws-chunked content encoding (src/internal/awschunk)

    The streaming reader of uploads: chunk headers, payload, terminators and trailers, over
    a byte stream that is its bytes and the error it ends with.  [frame] is the grammar the
    reader means to accept: that of the encoding, and of bodies that stop before the blank
    line that ends their trailers, in the midst of a line even; [Read_exact] says the reader accepts it and
    nothing else, however the caller sizes its buffers. *)

From S2P Require Import Prelude Bytes.

(** ** Headers of net/http *)

(** The bytes of a header name: the token characters of RFC 7230. *)
Definition token_char (c : ascii) : bool :=
  let b := byte_of c in
  ((48 <=? b) && (b <=? 57)) || ((65 <=? b) && (b <=? 90)) || ((97 <=? b) && (b <=? 122))
  || has_char c "!#$%&'*+-.^_`|~".

(** [textproto.CanonicalMIMEHeaderKey]: a capital after each dash, unless a byte of the
    name is none a header may have. *)
Fixpoint canonical_from (up : bool) (s : string) : string :=
  match s with
  | "" => ""
  | String c s' =>
      String (if up then upper_byte c else lower_byte c) (canonical_from (Ascii.eqb c "-") s')
  end.
Fixpoint all_chars (f : ascii -> bool) (s : string) : bool :=
  match s with "" => true | String c s' => f c && all_chars f s' end.
Definition canonical_key (s : string) : string :=
  if all_chars token_char s then canonical_from true s else s.

(** [http.Header], its [Add] and its [Get]. *)
Definition header := gmap string (list string).
Definition header_add (name value : string) (h : header) : header :=
  <[canonical_key name := default [] (h !! canonical_key name) ++ [value]]> h.
Definition header_get (h : header) (name : string) : string :=
  match default [] (h !! canonical_key name) with v :: _ => v | [] => "" end.
Definition header_set (name value : string) (h : header) : header := <[canonical_key name := [value]]> h.

(** ** Chunked bodies *)

(** ** What the code uses of io, bufio, strconv and net/http *)

(** An error: those of [io], the stream's own, and the package's, which may wrap one. *)
Inductive io_error :=
| EOF
| ErrUnexpectedEOF
| StreamError (msg : string)
| Errorf (format : string) (wrapped : option io_error).

(** [errors.Is(err, io.EOF) || errors.Is(err, io.ErrUnexpectedEOF)]. *)
Fixpoint is_eof (e : io_error) : bool :=
  match e with
  | EOF | ErrUnexpectedEOF => true
  | StreamError _ | Errorf _ None => false
  | Errorf _ (Some e') => is_eof e'
  end.

(** A stream: the bytes it still holds, and what it answers when they are gone. *)
Record stream := mkStream { bytes : string; ends : io_error }.

Definition LF : ascii := "010".
Definition CR : ascii := "013".
Definition CRLF : string := String CR (String LF "").
Definition is_crlf (c : ascii) : bool := Ascii.eqb c CR || Ascii.eqb c LF.

(** The digits [strconv.ParseInt] reads in base 16. *)
Definition hex_digit (c : ascii) : option Z :=
  let b := byte_of c in
  if (48 <=? b) && (b <=? 57) then Some (b - 48)
  else if (97 <=? b) && (b <=? 102) then Some (b - 87)
  else if (65 <=? b) && (b <=? 70) then Some (b - 55)
  else None.
Fixpoint hex_digits (acc : Z) (s : string) : option Z :=
  match s with
  | "" => Some acc
  | String c s' => d ← hex_digit c; hex_digits (16 * acc + d) s'
  end.

(** [strconv.ParseInt(s, 16, 64)]. *)
Definition parse_hex (s : string) : option Z :=
  let '(neg, ds) := match s with
    | String c ds => if Ascii.eqb c "-" then (true, ds) else if Ascii.eqb c "+" then (false, ds) else (false, s)
    | "" => (false, s)
    end in
  if String.eqb ds "" then None
  else n ← hex_digits 0 ds;
    let z := if neg : bool then - n else n in
    if (- 2 ^ 63 <=? z) && (z <? 2 ^ 63) then Some z else None.

(** ** The reader *)

(** [IsChunked]. *)
Definition IsChunked (h : header) : bool :=
  contains (header_get h "Content-Encoding") "aws-chunked"
  || has_prefix (header_get h "X-Amz-Content-Sha256") "STREAMING-".

Definition maxChunkSize : Z := Z.shiftl 64 20.
Definition maxHeaderLine : Z := Z.shiftl 16 10.

Record Reader := mkReader {
  br : stream;
  remain : Z;
  started : bool;
  finished : bool;
  trailers : header;
  err : option io_error
}.

Definition NewReader (s : stream) : Reader := mkReader s 0 false false ∅ None.

Definition with_bytes (s : string) (r : Reader) : Reader :=
  mkReader (mkStream s (ends (br r))) (remain r) (started r) (finished r) (trailers r) (err r).
Definition with_remain (n : Z) (r : Reader) : Reader :=
  mkReader (br r) n (started r) (finished r) (trailers r) (err r).
Definition with_started (r : Reader) : Reader :=
  mkReader (br r) (remain r) true (finished r) (trailers r) (err r).
Definition with_finished (r : Reader) : Reader :=
  mkReader (br r) (remain r) (started r) true (trailers r) (err r).
Definition with_trailers (h : header) (r : Reader) : Reader :=
  mkReader (br r) (remain r) (started r) (finished r) h (err r).
Definition with_err (e : io_error) (r : Reader) : Reader :=
  mkReader (br r) (remain r) (started r) (finished r) (trailers r) (Some e).

(** Code that reads: an answer or an error, and the reader it leaves; [None] is a loop
    that was cut short. *)
Definition M (A : Type) : Type := Reader -> option ((io_error + A) * Reader).
Definition ret {A} (a : A) : M A := fun r => Some (inr a, r).
Definition throw {A} (e : io_error) : M A := fun r => Some (inl e, r).
Definition bind {A B} (m : M A) (f : A -> M B) : M B := fun r =>
  match m r with
  | None => None
  | Some (inl e, r') => Some (inl e, r')
  | Some (inr a, r') => f a r'
  end.
Definition modify (f : Reader -> Reader) : M unit := fun r => Some (inr tt, f r).
(** [fmt.Errorf("...: %w", err)] of the error of [m]. *)
Definition wrap {A} (format : string) (m : M A) : M A := fun r =>
  match m r with
  | Some (inl e, r') => Some (inl (Errorf format (Some e)), r')
  | o => o
  end.

Declare Scope read_scope.
Notation "x <- m ; k" := (bind m (fun x => k)) (at level 100, m at next level, right associativity) : read_scope.
Notation "m ;; k" := (bind m (fun _ => k)) (at level 100, right associativity) : read_scope.
#[local] Open Scope read_scope.

(** [br.ReadString('\n')] and what [readLine] makes of it. *)
Definition readLine : M string := fun r =>
  match cut_on LF (bytes (br r)) with
  | None =>
      let e := ends (br r) in
      let e := match e with EOF => if String.eqb (bytes (br r)) "" then EOF else ErrUnexpectedEOF | _ => e end in
      Some (inl e, with_bytes "" r)
  | Some (line, rest) =>
      if maxHeaderLine <? slen line + 1
      then Some (inl (Errorf "aws-chunked: header line too long" None), with_bytes rest r)
      else Some (inr (trim_right is_crlf line), with_bytes rest r)
  end.

(** [io.ReadFull(r.br, p)]: what it read into a buffer of [n] bytes, and its error. *)
Definition ReadFull (n : Z) (r : Reader) : string * option io_error * Reader :=
  let s := bytes (br r) in
  let p := take_bytes (Z.to_nat n) s in
  let r' := with_bytes (drop_bytes (Z.to_nat n) s) r in
  if slen p =? n then (p, None, r')
  else (p, Some (match ends (br r) with
                 | EOF => if String.eqb p "" then EOF else ErrUnexpectedEOF
                 | e => e
                 end), r').

Definition expectCRLF : M unit := fun r =>
  let '(b, e, r') := ReadFull 2 r in
  match e with
  | Some e => Some (inl (Errorf "aws-chunked: missing chunk terminator: %w" (Some e)), r')
  | None =>
      if String.eqb b CRLF then Some (inr tt, r')
      else Some (inl (Errorf "aws-chunked: bad chunk terminator %q" None), r')
  end.

(** [readTrailers]: every line it keeps consumes a byte, so the bytes left bound the loop. *)
Fixpoint trailer_loop (fuel : nat) : M unit := fun r =>
  match fuel with
  | O => None
  | Datatypes.S k =>
      match readLine r with
      | None => None
      | Some (inl e, r') =>
          if is_eof e then Some (inr tt, r')
          else Some (inl (Errorf "aws-chunked: reading trailers: %w" (Some e)), r')
      | Some (inr line, r') =>
          if String.eqb line "" then Some (inr tt, r')
          else match cut_on ":" line with
          | None => Some (inl (Errorf "aws-chunked: malformed trailer line %q" None), r')
          | Some (name, value) =>
              let name := trim_space name in
              if equal_fold name "x-amz-trailer-signature" then trailer_loop k r'
              else trailer_loop k (with_trailers (header_add name (trim_space value) (trailers r')) r')
          end
      end
  end.
Definition readTrailers : M unit := fun r =>
  trailer_loop (Datatypes.S (String.length (bytes (br r)))) r.

(** The size a chunk header declares: what precedes its first semicolon. *)
Definition sizeHex (line : string) : string :=
  trim_space (match cut_on ";" line with Some (a, _) => a | None => line end).

(** What [nextChunk] does with the header it read. *)
Definition startChunk (line : string) : M unit :=
  if String.eqb (sizeHex line) "" then throw (Errorf "aws-chunked: empty chunk-size line" None)
  else match parse_hex (sizeHex line) with
  | None => throw (Errorf "aws-chunked: malformed chunk size %q" None)
  | Some size =>
      if size <? 0 then throw (Errorf "aws-chunked: malformed chunk size %q" None)
      else if maxChunkSize <? size then throw (Errorf "aws-chunked: chunk size %d exceeds limit" None)
      else if size =? 0 then (modify with_finished;; readTrailers)
      else modify (with_remain size)
  end.

Definition nextChunk : M unit :=
  line <- wrap "aws-chunked: reading chunk header: %w" readLine;
  line <- (fun r => if String.eqb line "" && negb (started r)
                    then wrap "aws-chunked: reading chunk header: %w" readLine r
                    else ret line r);
  modify with_started;;
  startChunk line.

(** The loop [Read] opens with: the next chunk, until one has bytes left.  [inl] is what
    [Read] returns at once. *)
Fixpoint fill (fuel : nat) : M unit := fun r =>
  if negb (remain r =? 0) then Some (inr tt, r)
  else match fuel with
  | O => None
  | Datatypes.S k =>
      if finished r then Some (inl EOF, r)
      else match nextChunk r with
      | None => None
      | Some (inl e, r') => Some (inl e, with_err e r')
      | Some (inr _, r') => if finished r' then Some (inl EOF, r') else fill k r'
      end
  end.

(** [Read] into a buffer of [n] bytes: the bytes, the error, and the reader after. *)
Definition Read (n : Z) (r : Reader) : option (string * option io_error * Reader) :=
  match err r with
  | Some e => Some ("", Some e, r)
  | None =>
      match fill 2 r with
      | None => None
      | Some (inl e, r) => Some ("", Some e, r)
      | Some (inr _, r) =>
          let n := if remain r <? n then remain r else n in
          let '(p, e, r) := ReadFull n r in
          let r := with_remain (remain r - slen p) r in
          match e with
          | Some e =>
              let e := Errorf "aws-chunked: truncated chunk payload: %w" (Some e) in
              Some (p, Some e, with_err e r)
          | None =>
              if remain r =? 0 then
                match expectCRLF r with
                | None => None
                | Some (inl e, r) => Some (p, Some e, with_err e r)
                | Some (inr _, r) => Some (p, None, r)
                end
              else Some (p, None, r)
          end
      end
  end.

(** A caller that reads with buffers of the given sizes until an error: all it was given,
    and the error if there was one. *)
Fixpoint drain (sizes : list Z) (r : Reader) : option (string * option io_error * Reader) :=
  match sizes with
  | [] => Some ("", None, r)
  | n :: sizes' =>
      match Read n r with
      | None => None
      | Some (p, Some e, r') => Some (p, Some e, r')
      | Some (p, None, r') =>
          match drain sizes' r' with
          | None => None
          | Some (q, e, r'') => Some (p +:+ q, e, r'')
          end
      end
  end.

(** ** The grammar of the encoding *)

(** [s] opens with a terminated line, which says [l]. *)
Definition Line (s l rest : string) : Prop :=
  exists raw, s = raw +:+ String LF rest /\ has_char LF raw = false /\
    slen raw < maxHeaderLine /\ l = trim_right is_crlf raw.

(** The size of a chunk header. *)
Definition Size (l : string) (n : Z) : Prop := parse_hex (sizeHex l) = Some n /\ 0 <= n <= maxChunkSize.

(** The trailers of [s], added to [h].  The stream may end before the blank line; a last line
    without its line feed counts for nothing. *)
Inductive Trailers : header -> string -> header -> Prop :=
| Trailers_cut h s : has_char LF s = false -> Trailers h s h
| Trailers_end h s rest : Line s "" rest -> Trailers h s h
| Trailers_signature h s l name value rest h' :
    Line s l rest -> l <> "" -> cut_on ":" l = Some (name, value) ->
    equal_fold (trim_space name) "x-amz-trailer-signature" = true ->
    Trailers h rest h' -> Trailers h s h'
| Trailers_add h s l name value rest h' :
    Line s l rest -> l <> "" -> cut_on ":" l = Some (name, value) ->
    equal_fold (trim_space name) "x-amz-trailer-signature" = false ->
    Trailers (header_add (trim_space name) (trim_space value) h) rest h' -> Trailers h s h'.

Inductive Chunks : string -> string -> header -> Prop :=
| Chunks_last s l rest h : Line s l rest -> Size l 0 -> Trailers ∅ rest h -> Chunks s "" h
| Chunks_data s l n d rest p h :
    Line s l (d +:+ CRLF +:+ rest) -> Size l n -> 0 < n -> slen d = n ->
    Chunks rest p h -> Chunks s (d +:+ p) h.

(** A whole body: chunks, after a blank line or none. *)
Definition frame (s payload : string) (h : header) : Prop :=
  Chunks s payload h \/ exists s', Line s "" s' /\ Chunks s' payload h.

(** ** Lines *)

Lemma Line_fun s l rest l' rest' : Line s l rest -> Line s l' rest' -> l = l' /\ rest = rest'.
Proof.
  intros (raw & -> & H1 & _ & ->) (raw' & E & H2 & _ & ->).
  pose proof (cut_on_app LF raw rest H1) as C. rewrite E, cut_on_app in C by done. by simplify_eq.
Qed.

Lemma Line_shorter s l rest : Line s l rest -> (String.length rest < String.length s)%nat.
Proof. intros (raw & -> & _). rewrite string_length_app. cbn. lia. Qed.

(** What [readLine] does: it takes a line off, or leaves nothing and says the stream ended,
    or gives up on a line that is too long. *)
Lemma readLine_spec r : ends (br r) = EOF ->
  (exists l rest, Line (bytes (br r)) l rest /\ readLine r = Some (inr l, with_bytes rest r)) \/
  (exists e, readLine r = Some (inl e, with_bytes "" r) /\ is_eof e = true /\ has_char LF (bytes (br r)) = false) \/
  (exists msg rest, readLine r = Some (inl (Errorf msg None), with_bytes rest r) /\
     (String.length rest < String.length (bytes (br r)))%nat /\ has_char LF (bytes (br r)) = true /\
     forall l rest, ~ Line (bytes (br r)) l rest).
Proof.
  intros En. unfold readLine. rewrite En.
  destruct (cut_on LF (bytes (br r))) as [[raw rest]|] eqn:C.
  - apply cut_on_some in C as [N ->]. case_match eqn:L; zbool.
    + right; right. eexists _, rest. split; [done|]. split; [rewrite string_length_app; cbn; lia|].
      split; [rewrite has_char_app; cbn; by rewrite orb_true_r|].
      intros l rest' (raw' & E & N' & L' & _).
      pose proof (cut_on_app LF raw rest N) as C. rewrite E, cut_on_app in C by done. simplify_eq. lia.
    + left. exists (trim_right is_crlf raw), rest. split; [|done]. exists raw. repeat split; try done. lia.
  - right; left. apply cut_on_none in C. destruct (String.eqb _ ""); eauto.
Qed.

Lemma no_Line s l rest : has_char LF s = false -> ~ Line s l rest.
Proof. intros N (raw & -> & _). rewrite has_char_app in N. cbn in N. by rewrite orb_true_r in N. Qed.

(** ** Trailers *)

(** The rules for trailers that can apply where the stream opens with a given line. *)
Ltac trailers_at HT Ln :=
  inversion HT; subst;
  [ match goal with N : has_char LF _ = false |- _ => destruct (no_Line _ _ _ N Ln) end
  | match goal with H : Line _ _ _ |- _ => destruct (Line_fun _ _ _ _ _ Ln H) as [? ?] end; subst; first [congruence|by simplify_eq] ..].

(** The loop over the trailers ends, touches nothing but the bytes and the trailers, and
    succeeds exactly where the grammar does. *)
Lemma trailer_loop_spec fuel r : ends (br r) = EOF -> (String.length (bytes (br r)) < fuel)%nat ->
  exists res s h, trailer_loop fuel r = Some (res, with_trailers h (with_bytes s r)) /\
    (String.length s <= String.length (bytes (br r)))%nat /\
    match res with
    | inr _ => forall h', Trailers (trailers r) (bytes (br r)) h' <-> h' = h
    | inl e => (exists msg w, e = Errorf msg w) /\ forall h', ~ Trailers (trailers r) (bytes (br r)) h'
    end.
Proof.
  revert r; induction fuel as [|k IH]; intros r En L; [lia|]. cbn [trailer_loop].
  destruct (readLine_spec r En) as [(l & rest & Ln & ->)|[(e & -> & Is & N)|(msg & rest & -> & Lt & Has & No)]].
  - pose proof (Line_shorter _ _ _ Ln) as Sh. case_match eqn:El.
    { apply String.eqb_eq in El as ->. eexists _, rest, (trailers r). split; [by destruct r|]. split; [lia|].
      intros h'. split; [|intros ->; by eapply Trailers_end]. intros HT; trailers_at HT Ln. }
    apply String.eqb_neq in El. destruct (cut_on ":" l) as [[name value]|] eqn:Cut.
    2:{ eexists _, rest, (trailers r). split; [by destruct r|]. split; [lia|]. split; [eauto|].
      intros h' HT; trailers_at HT Ln. }
    assert (forall h0, (forall h', Trailers (trailers r) (bytes (br r)) h' <-> Trailers h0 rest h') ->
       exists res s h, trailer_loop k (with_trailers h0 (with_bytes rest r)) = Some (res, with_trailers h (with_bytes s r)) /\
       (String.length s <= String.length (bytes (br r)))%nat /\
       match res with
       | inr _ => forall h', Trailers (trailers r) (bytes (br r)) h' <-> h' = h
       | inl e => (exists msg w, e = Errorf msg w) /\ forall h', ~ Trailers (trailers r) (bytes (br r)) h'
       end) as Go.
    { intros h0 Eq. destruct (IH (with_trailers h0 (with_bytes rest r))) as (res & s & h & -> & Ls & Sp); [done|cbn in *; lia|].
      cbn in Ls, Sp. exists res, s, h. split; [by destruct r|]. split; [lia|].
      destruct res; [destruct Sp as [? Sp]; split; [done|]|]; setoid_rewrite Eq; exact Sp. }
    destruct (equal_fold (trim_space name) "x-amz-trailer-signature") eqn:F.
    + specialize (Go (trailers r)). destruct r as [[b0 en] rm st fi tr er]; cbn in *. apply Go.
      intros h'. split; [|intros; by eapply Trailers_signature]. intros HT; trailers_at HT Ln.
    + apply Go. intros h'. split; [|intros; by eapply Trailers_add]. intros HT; trailers_at HT Ln.
  - rewrite Is. eexists _, "", (trailers r). split; [by destruct r|]. cbn. split; [lia|].
    intros h'. split; [|intros ->; by apply Trailers_cut].
    inversion 1; subst; try done; match goal with HL : Line _ _ _ |- _ => by destruct (no_Line _ _ _ N HL) end.
  - cbn. eexists _, rest, (trailers r). split; [by destruct r|]. split; [lia|]. split; [eauto|].
    intros h'. inversion 1; subst; first [congruence|match goal with HL : Line _ _ _ |- _ => by destruct (No _ _ HL) end].
Qed.

(** ** What a reader still owes its caller *)

(** The payload and the trailers that are still to come out of a reader. *)
Definition owes (r : Reader) (p : string) (h : header) : Prop :=
  if finished r then p = "" /\ h = trailers r
  else if remain r =? 0 then (if started r then Chunks (bytes (br r)) p h else frame (bytes (br r)) p h)
  else exists d rest p', bytes (br r) = d +:+ CRLF +:+ rest /\ slen d = remain r /\ Chunks rest p' h /\ p = d +:+ p'.

(** A reader that met no error. *)
Record ready (r : Reader) : Prop := {
  ready_ends : ends (br r) = EOF;
  ready_err : err r = None;
  ready_remain : 0 <= remain r;
  ready_finished : finished r = true -> remain r = 0;
  ready_trailers : finished r = false -> trailers r = ∅;
  ready_started : remain r <> 0 -> started r = true
}.

(** How far the bytes of a reader went. *)
Definition left (r : Reader) : nat := String.length (bytes (br r)).

Lemma Size_fun l m n : Size l m -> Size l n -> m = n.
Proof. intros [E _] [E' _]. congruence. Qed.

Lemma startChunk_spec s l r : ready r -> remain r = 0 -> finished r = false -> started r = true ->
  Line s l (bytes (br r)) ->
  exists res r', startChunk l r = Some (res, r') /\ (left r' <= left r)%nat /\
    match res with
    | inl e => e <> EOF /\ forall p h, ~ Chunks s p h
    | inr _ => ready r' /\ (finished r' = true \/ 0 < remain r') /\ forall p h, Chunks s p h <-> owes r' p h
    end.
Proof.
  intros R Rem Fin St Ln. destruct R as [En Er _ _ Tr _].
  assert (forall e, (forall n, ~ Size l n) -> e <> EOF ->
     exists res r', Some (@inl io_error unit e, r) = Some (res, r') /\ (left r' <= left r)%nat /\
       match res with
       | inl e => e <> EOF /\ forall p h, ~ Chunks s p h
       | inr _ => ready r' /\ (finished r' = true \/ 0 < remain r') /\ forall p h, Chunks s p h <-> owes r' p h
       end) as Bad.
  { intros e No Ne. exists (inl e), r. split; [done|]. split; [done|]. split; [done|]. intros p h HC.
    inversion HC; subst; match goal with HL : Line _ _ _ |- _ => destruct (Line_fun _ _ _ _ _ Ln HL) as [-> _] end; naive_solver. }
  unfold startChunk, throw. destruct (String.eqb (sizeHex l) "") eqn:E0.
  { apply Bad; [|done]. intros n [H _]. apply String.eqb_eq in E0. by rewrite E0 in H. }
  destruct (parse_hex (sizeHex l)) as [size|] eqn:P; [|apply Bad; [|done]; intros n [H _]; congruence].
  case_match eqn:Neg; zbool; [apply Bad; [|done]; intros n [H ?]; simplify_eq; lia|].
  case_match eqn:Big; zbool; [apply Bad; [|done]; intros n [H ?]; simplify_eq; lia|].
  assert (Size l size) as Sz by (split; [done|lia]).
  case_match eqn:Z0; zbool.
  - subst size. unfold bind, modify, readTrailers.
    destruct (trailer_loop_spec (Datatypes.S (String.length (bytes (br (with_finished r))))) (with_finished r)) as (res & s' & h & -> & Ls & Sp);
      [done|lia|]. cbn in Ls, Sp. rewrite (Tr Fin) in Sp. eexists res, _. split; [done|]. split; [done|].
    assert (forall p h', Chunks s p h' <-> p = "" /\ Trailers ∅ (bytes (br r)) h') as Eq.
    { intros p h'. split.
      - inversion 1; subst; match goal with HL : Line _ _ _ |- _ => destruct (Line_fun _ _ _ _ _ Ln HL) as [-> ->] end; [done|].
        match goal with HS : Size _ ?n |- _ => rewrite (Size_fun _ _ _ Sz HS) in * end; lia.
      - intros [-> HT]. by econstructor. }
    destruct res as [e|[]].
    + destruct Sp as [(msg & w & ->) Sp]. split; [done|]. setoid_rewrite Eq. naive_solver.
    + split; [split; cbn; try done; by rewrite Rem|]. split; [by left|]. intros p h'. unfold owes; cbn. by rewrite Eq, Sp.
  - eexists _, _. split; [done|]. split; [done|]. cbn. split; [split; cbn; try done; try lia; congruence|]. split; [right; lia|].
    intros p h. unfold owes. cbn. rewrite Fin. replace (size =? 0) with false by lia. split.
    + inversion 1; subst; match goal with HL : Line _ _ _ |- _ => destruct (Line_fun _ _ _ _ _ Ln HL) as [-> EB] end.
      * match goal with HS : Size _ 0 |- _ => pose proof (Size_fun _ _ _ Sz HS) end; lia.
      * match goal with HS : Size _ (slen _) |- _ => pose proof (Size_fun _ _ _ Sz HS) end. naive_solver.
    + intros (d & rest & p' & EB & Ld & HC & ->). rewrite EB in Ln. by apply (Chunks_data s l size d rest); [done|done|lia|..].
Qed.

(** No chunk starts with a blank line, nor where no line is. *)
Lemma Chunks_line s p h : Chunks s p h -> exists l rest, Line s l rest /\ l <> "".
Proof.
  assert (forall n, ~ Size "" n) as N by (by intros n [? _]).
  destruct 1 as [s l rest h Ln Sz _|s l n d rest p h Ln Sz _ _ _]; eexists l, _; (split; [done|]); intros ->; by eapply N.
Qed.

Lemma frame_line s p h : frame s p h -> exists l rest, Line s l rest.
Proof. intros [HC|(s' & Ln & _)]; [destruct (Chunks_line _ _ _ HC) as (? & ? & ? & _)|]; eauto. Qed.

Lemma frame_blank s rest p h : Line s "" rest -> frame s p h <-> Chunks rest p h.
Proof.
  intros Ln. split; [|intros; right; eauto]. intros [HC|(s' & Ln' & HC)].
  - destruct (Chunks_line _ _ _ HC) as (l & r & Ln' & Ne). by destruct (Line_fun _ _ _ _ _ Ln Ln') as [<- _].
  - by destruct (Line_fun _ _ _ _ _ Ln Ln') as [_ <-].
Qed.

Lemma frame_line_ne s l rest p h : Line s l rest -> l <> "" -> frame s p h <-> Chunks s p h.
Proof.
  intros Ln Ne. split; [|by left]. intros [HC|(s' & Ln' & _)]; [done|]. by destruct (Line_fun _ _ _ _ _ Ln Ln') as [-> _].
Qed.

(** What a step that reads the next chunk must establish. *)
Definition progress (r : Reader) (res : io_error + unit) (r' : Reader) : Prop :=
  (left r' < left r)%nat /\ ready r' /\ (finished r' = true \/ 0 < remain r') /\ (forall p h, owes r p h <-> owes r' p h) /\ res = inr tt \/
  (left r' <= left r)%nat /\ (exists e, res = inl e /\ e <> EOF) /\ forall p h, ~ owes r p h.

Lemma with_bytes_same r : with_bytes (bytes (br r)) r = r.
Proof. by destruct r as [[]]. Qed.

Lemma ready_line r rest : ready r -> ready (with_bytes rest r).
Proof. by intros [? ? ? ? ? ?]. Qed.

(** After the header line: [startChunk] from where the line left the stream. *)
Lemma startChunk_progress r l rest : ready r -> remain r = 0 -> finished r = false ->
  forall s, Line s l rest ->
  s = bytes (br r) /\ (l <> "" \/ started r = true) \/ started r = false /\ Line (bytes (br r)) "" s ->
  exists res r', startChunk l (with_started (with_bytes rest r)) = Some (res, r') /\ progress r res r'.
Proof.
  intros R Rem Fin s Ln Cases.
  assert (ready (with_started (with_bytes rest r))) as R' by (destruct R; by split).
  destruct (startChunk_spec s l (with_started (with_bytes rest r)) R' Rem Fin eq_refl Ln) as (res & r' & -> & Lf & Sp).
  assert (forall p h, owes r p h <-> Chunks s p h) as Eq.
  { intros p h. unfold owes. rewrite Fin, Rem. cbn.
    destruct Cases as [[-> [Ne| ->]]|[-> Bl]]; [|done|by apply frame_blank].
    destruct (started r); [done|]. by eapply frame_line_ne. }
  assert (String.length rest < left r)%nat as Sh.
  { pose proof (Line_shorter _ _ _ Ln). unfold left. destruct Cases as [[-> _]|[_ Bl]]; [done|].
    pose proof (Line_shorter _ _ _ Bl). lia. }
  unfold left in Lf; cbn in Lf. exists res, r'. split; [done|]. destruct res as [e|[]].
  - right. destruct Sp as [Ne Sp]. split; [unfold left in *; lia|]. split; [eauto|]. by setoid_rewrite Eq.
  - left. destruct Sp as (R'' & Or & Sp). split; [unfold left in *; lia|]. split; [done|]. split; [done|].
    split; [|done]. intros p h. by rewrite Eq.
Qed.

Lemma nextChunk_spec r : ready r -> remain r = 0 -> finished r = false ->
  exists res r', nextChunk r = Some (res, r') /\ progress r res r'.
Proof.
  intros R Rem Fin. unfold nextChunk, bind at 1, wrap.
  assert (forall e s, e <> EOF -> (String.length s <= left r)%nat -> (forall p h, ~ owes r p h) ->
    exists res r', Some (@inl io_error unit e, with_bytes s r) = Some (res, r') /\ progress r res r') as Bad.
  { intros e s Ne Ls No. eexists _, _. split; [done|]. right. split; [done|]. eauto. }
  assert (forall p h, owes r p h -> exists l rest, Line (bytes (br r)) l rest) as Some_line.
  { intros p h. unfold owes. rewrite Fin, Rem. cbn. destruct (started r); [|apply frame_line].
    intros HC%Chunks_line. naive_solver. }
  destruct (readLine_spec r (ready_ends _ R)) as [(l & rest & Ln & ->)|[(e & -> & _ & N)|(msg & rest & -> & Lt & _ & No)]].
  2:{ apply Bad; [done|cbn; lia|]. intros p h (l & rest & Ln)%Some_line. by eapply no_Line. }
  2:{ apply Bad; [done|unfold left in *; lia|]. intros p h (l & rest' & Ln)%Some_line. by eapply No. }
  unfold bind at 1. destruct (String.eqb l "" && negb (started r)) eqn:Bl; cycle 1.
  { cbn [with_bytes started]. rewrite Bl. cbv [ret bind modify].
    apply (startChunk_progress r l rest R Rem Fin (bytes (br r)) Ln).
    left. split; [done|]. apply andb_false_iff in Bl as [Bl%String.eqb_neq|Bl%negb_false_iff]; auto. }
  cbn [with_bytes started]. rewrite Bl. apply andb_true_iff in Bl as [->%String.eqb_eq St%negb_true_iff].
  pose proof (Line_shorter _ _ _ Ln) as Sh.
  destruct (readLine_spec (with_bytes rest r) (ready_ends _ R)) as [(l2 & rest2 & Ln2 & ->)|[(e & -> & _ & N)|(msg & rest2 & -> & Lt & _ & No)]];
    cbn in *.
  - cbv [bind modify]. change (with_bytes rest2 _) with (with_bytes rest2 r).
    apply (startChunk_progress r l2 rest2 R Rem Fin rest Ln2). by right.
  - apply Bad; [done|cbn; lia|]. intros p h. unfold owes. rewrite Fin, Rem, St. cbn. rewrite (frame_blank _ _ _ _ Ln).
    intros (l & rest' & Ln' & _)%Chunks_line. by eapply no_Line.
  - apply Bad; [done|unfold left in *; lia|]. intros p h. unfold owes. rewrite Fin, Rem, St. cbn. rewrite (frame_blank _ _ _ _ Ln).
    intros (l & rest' & Ln' & _)%Chunks_line. by eapply No.
Qed.

(** How a read can end, and what the reader owes then. *)
Definition ended (r : Reader) (e : io_error) (r' : Reader) : Prop :=
  match e with
  | EOF => forall p h, owes r p h <-> p = "" /\ h = trailers r'
  | _ => forall p h, ~ owes r p h
  end.

Lemma ended_err r e r' : e <> EOF -> (forall p h, ~ owes r p h) -> ended r e r'.
Proof. by destruct e. Qed.

Lemma ready_finished_owes r p h : ready r -> finished r = true -> owes r p h <-> p = "" /\ h = trailers r.
Proof. intros R Fin. unfold owes. by rewrite Fin. Qed.

Lemma fill_spec r : ready r -> exists res r', fill 2 r = Some (res, r') /\ (left r' <= left r)%nat /\
  match res with
  | inl e => ended r e r'
  | inr _ => ready r' /\ 0 < remain r' /\ forall p h, owes r p h <-> owes r' p h
  end.
Proof.
  intros R. cbn [fill]. destruct (remain r =? 0) eqn:Rem; cbn [negb]; zbool.
  2:{ eexists _, _. split; [done|]. destruct R. split; [done|]. split; [done|]. split; [lia|done]. }
  destruct (finished r) eqn:Fin.
  { eexists _, _. split; [done|]. split; [done|]. intros p h. by apply ready_finished_owes. }
  destruct (nextChunk_spec r R Rem Fin) as (res & r' & -> & [(Lf & R' & Or & Eq & ->)|(Lf & (e & -> & Ne) & No)]).
  - destruct (finished r') eqn:Fin'.
    + eexists _, _. split; [done|]. split; [lia|]. intros p h. rewrite Eq. by apply ready_finished_owes.
    + destruct Or as [?|Or]; [done|]. replace (remain r' =? 0) with false by lia.
      eexists _, _. split; [done|]. split; [lia|]. done.
  - eexists _, _. split; [done|]. split; [done|]. by apply ended_err.
Qed.

Lemma ReadFull_spec n r : 0 <= n ->
  let '(p, e, r') := ReadFull n r in
  bytes (br r) = p +:+ bytes (br r') /\ r' = with_bytes (bytes (br r')) r /\
  match e with None => slen p = n | Some _ => slen (bytes (br r)) < n end.
Proof.
  intros Hn. unfold ReadFull. pose proof (take_bytes_drop (Z.to_nat n) (bytes (br r))) as E.
  pose proof (slen_take (Z.to_nat n) (bytes (br r))) as L. 
  destruct (slen (take_bytes _ _) =? n) eqn:C; zbool; repeat split; try done; lia.
Qed.

Lemma expectCRLF_spec r : exists res r', expectCRLF r = Some (res, r') /\
  match res with
  | inl e => e <> EOF /\ (left r' <= left r)%nat /\ forall rest, bytes (br r) <> CRLF +:+ rest
  | inr _ => bytes (br r) = CRLF +:+ bytes (br r') /\ r' = with_bytes (bytes (br r')) r
  end.
Proof.
  unfold expectCRLF. pose proof (ReadFull_spec 2 r) as F. destruct (ReadFull 2 r) as [[b e] r']. destruct F as (EB & E' & F); [lia|].
  assert (left r' <= left r)%nat as Lf by (unfold left; rewrite EB, string_length_app; lia).
  destruct e as [e|]; [|destruct (String.eqb b CRLF) eqn:C].
  - eexists _, _. split; [done|]. split; [done|]. split; [done|]. intros rest E. rewrite E, slen_app in F.
    pose proof (slen_nonneg rest). change (slen CRLF) with 2 in F. lia.
  - apply String.eqb_eq in C as ->. by eexists _, _.
  - eexists _, _. split; [done|]. split; [done|]. split; [done|]. intros rest E. rewrite EB in E. apply String.eqb_neq in C.
    apply sapp_split in E as (d & Ed & _); [|by rewrite F]. apply C.
    assert (slen d = 0) as D0 by (apply (f_equal slen) in Ed; rewrite slen_app in Ed; change (slen CRLF) with 2 in Ed; lia).
    destruct d; [by rewrite Ed, sapp_nil_r|]. unfold slen in D0. cbn in D0. lia.
Qed.

Definition in_chunk (s : string) (n : Z) (q : string) (h : header) : Prop :=
  exists d rest p, s = d +:+ CRLF +:+ rest /\ slen d = n /\ Chunks rest p h /\ q = d +:+ p.

Lemma owes_chunk r q h : ready r -> 0 < remain r -> owes r q h <-> in_chunk (bytes (br r)) (remain r) q h.
Proof.
  intros R Pos. unfold owes. destruct (finished r) eqn:Fin; [by rewrite (ready_finished _ R Fin) in Pos|].
  by replace (remain r =? 0) with false by lia.
Qed.

(** What is owed once [p], a part of the chunk, was read. *)
Lemma in_chunk_after p s n q h : slen p <= n ->
  in_chunk (p +:+ s) n q h <-> exists q', q = p +:+ q' /\ in_chunk s (n - slen p) q' h.
Proof.
  intros Ln. unfold in_chunk. split.
  - intros (d & rest & p' & E & Ld & HC & ->). apply sapp_split in E as (d' & -> & E); [|lia].
    rewrite slen_app in Ld. exists (d' +:+ p'). rewrite sapp_assoc. split; [done|]. exists d', rest, p'.
    repeat split; try done; lia.
  - intros (q' & -> & d & rest & p' & -> & Ld & HC & ->). exists (p +:+ d), rest, p'. rewrite slen_app, !sapp_assoc.
    repeat split; try done; lia.
Qed.

Lemma in_chunk_short s n q h : slen s < n -> ~ in_chunk s n q h.
Proof.
  intros Ls (d & rest & p & -> & Ld & _). rewrite !slen_app in Ls. pose proof (slen_nonneg (CRLF +:+ rest)) as N.
  rewrite slen_app in N. lia.
Qed.

Lemma in_chunk_end s q h : in_chunk s 0 q h <-> exists rest, s = CRLF +:+ rest /\ Chunks rest q h.
Proof.
  split; [|intros (rest & -> & HC); by exists "", rest, q].
  intros (d & rest & p & -> & Ld & HC & ->). destruct d; [eauto|]. unfold slen in Ld. cbn in Ld. lia.
Qed.

(** One read of a buffer that is not empty. *)
Lemma Read_step n r : ready r -> 0 < n ->
  exists p e r', Read n r = Some (p, e, r') /\ (String.length p + left r' <= left r)%nat /\
    match e with
    | Some e => (e = EOF -> p = "") /\ ended r e r'
    | None => p <> "" /\ ready r' /\ forall q h, owes r q h <-> exists q', q = p +:+ q' /\ owes r' q' h
    end.
Proof.
  intros R Hn. unfold Read. rewrite (ready_err _ R).
  destruct (fill_spec r R) as (res & r1 & -> & Lf & Sp). destruct res as [e|[]].
  { eexists _, _, _. split; [done|]. done. }
  destruct Sp as (R1 & Pos & Eq). setoid_rewrite (owes_chunk r1 _ _ R1 Pos) in Eq.
  set (m := if remain r1 <? n then remain r1 else n).
  assert (0 < m <= remain r1) as Hm by (subst m; destruct (Z.ltb_spec (remain r1) n); lia).
  pose proof (ReadFull_spec m r1) as F. destruct (ReadFull m r1) as [[p e] r2]. destruct F as (EB & E2 & F); [lia|].
  assert (String.length p + left r2 <= left r)%nat as Ll.
  { unfold left in *. rewrite EB, string_length_app in Lf. lia. }
  destruct e as [e|].
  { eexists _, _, _. split; [done|]. split; [done|]. split; [done|]. apply ended_err; [done|].
    intros q h. rewrite Eq. apply in_chunk_short. lia. }
  assert (finished r2 = false /\ started r2 = true /\ trailers r2 = ∅ /\ remain r2 = remain r1 /\ err r2 = None /\ ends (br r2) = EOF) as (Fi & St & Tr & Re & Er & En).
  { assert (finished r1 = false) as Fin by (destruct (finished r1) eqn:Fin; [by rewrite (ready_finished _ R1 Fin) in Pos|done]).
    rewrite E2. destruct R1. cbn. repeat split; auto. apply ready_started0. lia. }
  assert (p <> "") as Ne by (intros ->; change (slen "") with 0 in F; lia).
  setoid_rewrite EB in Eq. setoid_rewrite in_chunk_after in Eq; [|lia]. rewrite F in Eq.
  cbn [remain with_remain]. rewrite Re, F. destruct (remain r1 - m =? 0) eqn:End; zbool.
  2:{ eexists _, _, _. split; [done|]. split; [done|]. split; [done|].
    assert (ready (with_remain (remain r1 - m) r2)) as R2 by (split; cbn; try done; try lia; congruence).
    split; [done|]. intros q h. rewrite Eq. setoid_rewrite owes_chunk; [done|done|cbn; lia]. }
  rewrite End in *. setoid_rewrite in_chunk_end in Eq.
  destruct (expectCRLF_spec (with_remain 0 r2)) as (res & r3 & -> & C3). destruct res as [e|[]].
  - destruct C3 as (Ne3 & L3 & No). eexists _, _, _. split; [done|]. split; [unfold left in *; cbn in *; lia|].
    split; [done|]. apply ended_err; [done|]. intros q h (q' & -> & rest & E & _)%Eq. by destruct (No _ E).
  - destruct C3 as (EB3 & E3). eexists _, _, _. split; [done|]. change (bytes (br r2) = CRLF +:+ bytes (br r3)) in EB3.
    split; [unfold left in *; rewrite EB3, string_length_app in Ll; lia|]. split; [done|]. rewrite E3.
    split; [split; cbn; try done; congruence|]. intros q h. rewrite Eq. unfold owes. cbn. rewrite Fi, St.
    split; intros (q' & -> & HC); exists q'; (split; [done|]); [|rewrite EB3; eauto].
    destruct HC as (rest & E & HC). rewrite EB3 in E. injection E as <-. done.
Qed.

(** Reading to the end. *)
Lemma drain_spec sizes r : ready r -> Forall (fun n => 0 < n) sizes -> (left r < length sizes)%nat ->
  exists p e r', drain sizes r = Some (p, Some e, r') /\ (String.length p <= left r)%nat /\
    forall q h, owes r q h <-> e = EOF /\ q = p /\ h = trailers r'.
Proof.
  revert r; induction sizes as [|n sizes IH]; intros r R Pos L; [cbn in L; lia|].
  inversion Pos as [|? ? Hn Pos']; subst. cbn [drain].
  destruct (Read_step n r R Hn) as (p & e & r' & -> & Lf & Sp). destruct e as [e|].
  - eexists _, _, _. split; [done|]. split; [lia|]. destruct Sp as [Em Sp]. intros q h. destruct e; cbn in Sp; [|by split; [intros HO; destruct (Sp q h HO)|intros [? _]]..].
    rewrite (Em eq_refl), Sp. naive_solver.
  - destruct Sp as (Ne & R' & Eq).
    assert (0 < String.length p)%nat by (destruct p; [done|cbn; lia]).
    destruct (IH r' R' Pos') as (p' & e & r'' & -> & Lp & Sp); [cbn in L; lia|].
    eexists _, _, _. split; [done|]. rewrite string_length_app. split; [lia|].
    intros q h. rewrite Eq. setoid_rewrite Sp. naive_solver.
Qed.

(** C33: a reader of an aws-chunked body is exact, whatever buffers its caller brings: given
    as many reads as the body has bytes and one more, it comes to an end, has handed over no
    more bytes than the body has, and the end is [io.EOF] just when the body is a frame —
    whose payload and trailers are then what was read; any other body ends in another error.
    The buffers hold at least a byte each.  A frame is chunks up to one of size zero and
    then trailers up to a blank line, after which nothing is read; or, and this the reader
    cannot tell apart, the same stopped anywhere behind the line of the chunk of size zero:
    of a body cut in the midst of a line there, whatever the line says, the trailers before
    it are kept, that one is dropped, and the end is [io.EOF] too.  A body cut anywhere
    before ends in an error. *)
Theorem Read_exact body sizes :
  Forall (fun n => 0 < n) sizes -> (String.length body < length sizes)%nat ->
  exists p e r, drain sizes (NewReader (mkStream body EOF)) = Some (p, Some e, r) /\
    (String.length p <= String.length body)%nat /\
    forall payload h, frame body payload h <-> e = EOF /\ payload = p /\ h = trailers r.
Proof.
  intros Pos L. assert (ready (NewReader (mkStream body EOF))) as R by (by split).
  exact (drain_spec sizes _ R Pos L).
Qed.

Definition body_of (lines : list string) : string := foldr (fun l s => l +:+ CRLF +:+ s) "" lines.

Lemma Read_exact_witness :
  exists h, header_get h "x-amz-checksum-crc32" = "qwe=" /\
  frame (body_of ["5;chunk-signature=aa"; "hello"; "6;chunk-signature=bb"; " world"; "0;chunk-signature=cc"; "x-amz-checksum-crc32: qwe="; "x-amz-trailer-signature: dd"; ""]) "hello world" h.
Proof.
  set (body := body_of _). set (sizes := repeat 3 200).
  destruct (Read_exact body sizes) as (p & e & r & D & _ & Sp);
    [by apply (proj1 (bool_decide_eq_true _)); vm_compute|by apply Nat.ltb_lt; vm_compute|].
  assert ((match drain sizes (NewReader (mkStream body EOF)) with
           | Some (p, Some EOF, r) => String.eqb p "hello world" && String.eqb (header_get (trailers r) "x-amz-checksum-crc32") "qwe="
           | _ => false end) = true) as C by (vm_compute; reflexivity).
  rewrite D in C. destruct e; try discriminate C. apply andb_true_iff in C as [->%String.eqb_eq E%String.eqb_eq].
  exists (trailers r). split; [exact E|]. exact (proj2 (Sp _ _) (conj eq_refl (conj eq_refl eq_refl))).
Defined.

(** A trailer cut short is dropped, and the end is that of a whole body. *)
Example trailer_cut :
  match drain [9; 9; 9] (NewReader (mkStream ("0" +:+ CRLF +:+ "x-amz-checksum-crc32: qw") EOF)) with
  | Some (p, e, r) => Some (p, e, header_get (trailers r) "x-amz-checksum-crc32") | None => None end = Some ("", Some EOF, "").
Proof. vm_compute. reflexivity. Qed.
(** Cut before, the body is refused. *)
Example payload_cut :
  match drain [9; 9; 9] (NewReader (mkStream ("5" +:+ CRLF +:+ "hel") EOF)) with
  | Some (_, Some e, _) => Some e | _ => None end =
  Some (Errorf "aws-chunked: truncated chunk payload: %w" (Some ErrUnexpectedEOF)).
Proof. vm_compute. reflexivity. Qed.

(** The blank line is tolerated before the first chunk, and only there. *)
Example blank_line_first : drain [9; 9; 9] (NewReader (mkStream (body_of [""; "1"; "x"; "0"; ""]) EOF)) ≫= (fun '(p, e, _) => Some (p, e)) = Some ("x", Some EOF).
Proof. vm_compute. reflexivity. Qed.
Example blank_line_between : drain [9; 9; 9] (NewReader (mkStream (body_of ["1"; "x"; ""; "0"; ""]) EOF)) ≫= (fun '(p, e, _) => Some (p, e)) =
  Some ("x", Some (Errorf "aws-chunked: empty chunk-size line" None)).
Proof. vm_compute. reflexivity. Qed.
