(* ===== verification/Float64.v ===== *)
(** * Float64: the float64 of the language

    A number is a [spec_float] of binary64 (the Standard Library's, which has one NaN),
    with its 64 bits, the conversions of integers, and the functions of the math package
    the program calls.  The lemmas say that bits round-trip and that integers up to 2^53
    are exact. *)

From Stdlib Require Import SpecFloat.
From S2P Require Import Prelude Clock.

Abbreviation float64 := spec_float.
Definition is_float64 : float64 -> bool := valid_binary 53 1024.
Definition of_parts (m e : Z) (s : bool) : float64 := binary_normalize 53 1024 m e s.
Definition fadd : float64 -> float64 -> float64 := SFadd 53 1024.
Definition fsub : float64 -> float64 -> float64 := SFsub 53 1024.
Definition fmul : float64 -> float64 -> float64 := SFmul 53 1024.
Definition fdiv : float64 -> float64 -> float64 := SFdiv 53 1024.

(** [float64(n)] of an integer: to the nearest, ties to even. *)
Definition of_Z (n : Z) : float64 := of_parts n 0 false.

(** ** Bits *)

(** The number with a sign, an exponent field and a fraction: [math.Float64frombits]. *)
Definition finite (s : bool) (m e : Z) : float64 :=
  match m with Z.pos p => S754_finite s p e | _ => S754_zero s end.

Definition of_bits (b : Z) : float64 :=
  let s := Z.testbit b 63 in
  let e := Z.land (Z.shiftr b 52) 2047 in
  let m := Z.land b (2 ^ 52 - 1) in
  if e =? 0 then finite s m (-1074)
  else if e =? 2047 then (if m =? 0 then S754_infinity s else S754_nan)
  else finite s (m + 2 ^ 52) (e - 1075).

(** [math.Float64bits]; the NaN is the one [math.NaN] answers. *)
Definition sign_bit (s : bool) : Z := if s then 2 ^ 63 else 0.
Definition to_bits (f : float64) : Z :=
  match f with
  | S754_zero s => sign_bit s
  | S754_infinity s => sign_bit s + 2047 * 2 ^ 52
  | S754_nan => 0x7FF8000000000001
  | S754_finite s m e =>
      if Z.pos m <? 2 ^ 52 then sign_bit s + Z.pos m
      else sign_bit s + (e + 1075) * 2 ^ 52 + (Z.pos m - 2 ^ 52)
  end.

(** [float64(math.Float32frombits(b))]. *)
Definition of_bits32 (b : Z) : float64 :=
  let s := Z.testbit b 31 in
  let e := Z.land (Z.shiftr b 23) 255 in
  let m := Z.land b (2 ^ 23 - 1) in
  let signed m := if s then - m else m in
  if e =? 0 then of_parts (signed m) (-149) s
  else if e =? 255 then (if m =? 0 then S754_infinity s else S754_nan)
  else of_parts (signed (m + 2 ^ 23)) (e - 150) s.

(** ** Whole numbers *)

(** The digits before the point, and those after it in units of [2^e]. *)
Definition trunc (f : float64) : option Z :=
  match f with
  | S754_zero _ => Some 0
  | S754_finite s m e =>
      let n := if 0 <=? e then Z.pos m * 2 ^ e else Z.pos m / 2 ^ (- e) in
      Some (if s then - n else n)
  | _ => None
  end.

(** [math.Modf]. *)
Definition modf (f : float64) : float64 * float64 :=
  match f with
  | S754_zero s => (f, f)
  | S754_infinity s => (f, S754_nan)
  | S754_nan => (f, f)
  | S754_finite s m e =>
      let signed n := if s then - n else n in
      if 0 <=? e then (f, S754_zero s)
      else (of_parts (signed (Z.pos m / 2 ^ (- e))) 0 s, of_parts (signed (Z.pos m mod 2 ^ (- e))) e s)
  end.

(** [math.Round], away from zero on ties, as the integer it is. *)
Definition round (f : float64) : option Z :=
  match f with
  | S754_zero _ => Some 0
  | S754_finite s m e =>
      let n := if 0 <=? e then Z.pos m * 2 ^ e else (Z.pos m + 2 ^ (- e - 1)) / 2 ^ (- e) in
      Some (if s then - n else n)
  | _ => None
  end.

(** [math.Floor] and [math.Ceil], as the integers they are. *)
Definition floor (f : float64) : option Z :=
  match f with
  | S754_zero _ => Some 0
  | S754_finite s m e =>
      let n := if s then Z.neg m else Z.pos m in
      Some (if 0 <=? e then n * 2 ^ e else n / 2 ^ (- e))
  | _ => None
  end.
Definition ceil (f : float64) : option Z := Z.opp <$> floor (SFopp f).

Definition is_nan (f : float64) : bool := match f with S754_nan => true | _ => false end.
Definition fltb : float64 -> float64 -> bool := SFltb.
Definition fleb : float64 -> float64 -> bool := SFleb.
Definition feqb : float64 -> float64 -> bool := SFeqb.

(** [math.Min] and [math.Max]. *)
Definition fmin (x y : float64) : float64 :=
  match x, y with
  | S754_infinity true, _ | _, S754_infinity true => S754_infinity true
  | S754_nan, _ | _, S754_nan => S754_nan
  | S754_zero true, S754_zero _ => x
  | S754_zero _, S754_zero _ => y
  | _, _ => if fltb x y then x else y
  end.
Definition fmax (x y : float64) : float64 :=
  match x, y with
  | S754_infinity false, _ | _, S754_infinity false => S754_infinity false
  | S754_nan, _ | _, S754_nan => S754_nan
  | S754_zero true, S754_zero _ => y
  | S754_zero _, S754_zero _ => x
  | _, _ => if fltb y x then x else y
  end.

(** The order of [sort.Float64s]: NaNs first. *)
Definition float_le (x y : float64) : Prop := is_nan x = true \/ fleb x y = true.
#[global] Instance float_le_dec : RelDecision float_le.
Proof. intros x y. unfold float_le. apply or_dec; apply bool_eq_dec. Defined.

(** What a conversion to int64 gives for a number that has no such value, which the
    language leaves to the machine. *)
Class GoConvert := { int64_other : float64 -> Z }.

(** [int64(f)], given the integer that [f] is. *)
Definition to_int64 `{GoConvert} (whole : option Z) (f : float64) : Z :=
  match whole with
  | Some n => if (- 2 ^ 63 <=? n) && (n <? 2 ^ 63) then n else wrap64 (int64_other f)
  | None => wrap64 (int64_other f)
  end.

(** amd64: the least integer. *)
#[global] Instance amd64 : GoConvert := {| int64_other _ := - 2 ^ 63 |}.

(** ** Bits round-trip *)

Lemma digits2_pos_bounds m : 2 ^ (Z.pos (digits2_pos m) - 1) <= Z.pos m < 2 ^ Z.pos (digits2_pos m).
Proof.
  induction m as [m IH|m IH|]; cbn [digits2_pos]; [| |lia].
  all: rewrite Pos2Z.inj_succ, Z.pow_succ_r by lia;
    replace (Z.succ (Z.pos (digits2_pos m)) - 1) with (Z.succ (Z.pos (digits2_pos m) - 1)) by lia;
    rewrite Z.pow_succ_r by lia; lia.
Qed.

(** The mantissas and exponents of binary64. *)
Lemma bounded_spec m e : bounded 53 1024 m e = true <->
  e <= 971 /\ (2 ^ 52 <= Z.pos m < 2 ^ 53 /\ -1074 <= e \/ Z.pos m < 2 ^ 52 /\ e = -1074).
Proof.
  unfold bounded, canonical_mantissa, fexp, emin. rewrite andb_true_iff, Z.eqb_eq, Z.leb_le.
  pose proof (digits2_pos_bounds m) as [Lo Hi]. set (d := Z.pos (digits2_pos m)) in *. assert (0 < d) by done.
  assert (forall k, 0 <= k -> k <= d -> 2 ^ k <= 2 ^ d) as Up by (intros; apply Z.pow_le_mono_r; lia).
  assert (d <= 52 <-> Z.pos m < 2 ^ 52) as D52.
  { split; intros Hd.
    - pose proof (Z.pow_le_mono_r 2 d 52). lia.
    - destruct (Z.le_gt_cases d 52); [done|]. pose proof (Z.pow_le_mono_r 2 52 (d - 1)). lia. }
  assert (d <= 53 <-> Z.pos m < 2 ^ 53) as D53.
  { split; intros Hd.
    - pose proof (Z.pow_le_mono_r 2 d 53). lia.
    - destruct (Z.le_gt_cases d 53); [done|]. pose proof (Z.pow_le_mono_r 2 53 (d - 1)). lia. }
  lia.
Qed.

(** The fields of a word: its sign, the eleven bits of the exponent, the fraction. *)
Lemma fields_of_bits (s : bool) e m : 0 <= e < 2048 -> 0 <= m < 2 ^ 52 ->
  let b := sign_bit s + e * 2 ^ 52 + m in
  Z.testbit b 63 = s /\ Z.land (Z.shiftr b 52) 2047 = e /\ Z.land b (2 ^ 52 - 1) = m.
Proof.
  intros He Hm b. assert (b / 2 ^ 52 = (if s then 2048 else 0) + e) as Q.
  { subst b. unfold sign_bit. symmetry. apply (Z.div_unique_pos _ _ _ m); [done|]. destruct s; lia. }
  repeat split.
  - assert (Z.b2z (Z.testbit b 63) = Z.b2z s) as E.
    { rewrite Z.testbit_spec' by lia. change (2 ^ 63) with (2 ^ 52 * 2 ^ 11). rewrite <- Z.div_div, Q by lia.
      destruct s; cbn [Z.b2z]; zdiv. }
    by destruct s, (Z.testbit b 63).
  - change 2047 with (Z.ones 11). rewrite Z.land_ones, Z.shiftr_div_pow2, Q by lia. destruct s; zdiv.
  - change (2 ^ 52 - 1) with (Z.ones 52). rewrite Z.land_ones by lia. subst b. symmetry.
    apply (Z.mod_unique_pos _ _ ((if s then 2048 else 0) + e)); [done|]. unfold sign_bit. destruct s; lia.
Qed.

Lemma of_bits_to_bits f : is_float64 f = true -> of_bits (to_bits f) = f.
Proof.
  destruct f as [s|s| |s m e]; intros V.
  - by destruct s.
  - by destruct s.
  - done.
  - apply bounded_spec in V as [E C]. unfold to_bits, of_bits. destruct C as [[Hm He]|[Hm ->]].
    + replace (Z.pos m <? 2 ^ 52) with false by lia.
      destruct (fields_of_bits s (e + 1075) (Z.pos m - 2 ^ 52)) as (-> & -> & ->); [lia|lia|].
      replace (e + 1075 =? 0) with false by lia. replace (e + 1075 =? 2047) with false by lia.
      replace (Z.pos m - 2 ^ 52 + 2 ^ 52) with (Z.pos m) by lia. cbn. f_equal. lia.
    + replace (Z.pos m <? 2 ^ 52) with true by lia.
      replace (sign_bit s + Z.pos m) with (sign_bit s + 0 * 2 ^ 52 + Z.pos m) by lia.
      by destruct (fields_of_bits s 0 (Z.pos m)) as (-> & -> & ->); [lia|lia|].
Qed.

Lemma to_bits_range f : is_float64 f = true -> 0 <= to_bits f < 2 ^ 64.
Proof.
  destruct f as [s|s| |s m e]; intros V; [by destruct s|by destruct s|done|].
  apply bounded_spec in V as [E C]. unfold to_bits, sign_bit.
  destruct (Z.pos m <? 2 ^ 52) eqn:L; zbool; destruct s; lia.
Qed.

(** ** Small integers are exact *)

Lemma iter_xO m d : Z.pos (Pos.iter xO m d) = Z.pos m * 2 ^ Z.pos d.
Proof.
  induction d as [|d IH] using Pos.peano_ind; [cbn; lia|].
  rewrite Pos.iter_succ, Pos2Z.inj_succ, Z.pow_succ_r by lia. lia.
Qed.

(** Digits that are zero are shifted out without a trace. *)
Lemma shr_exact p n : 0 <= n ->
  SpecFloat.iter_pos shr_1 p (Build_shr_record (n * 2 ^ Z.pos p) false false) = Build_shr_record n false false.
Proof.
  assert (forall n, 0 <= n -> shr_1 (Build_shr_record (n * 2) false false) = Build_shr_record n false false) as One.
  { intros [|q|q] Hq; [done| |lia]. by rewrite Z.mul_comm. }
  revert n; induction p as [p IH|p IH|]; intros n Hn; cbn [SpecFloat.iter_pos].
  - replace (2 ^ Z.pos p~1) with (2 ^ Z.pos p * 2 ^ Z.pos p * 2).
    2:{ rewrite <- Z.pow_add_r, Z.mul_comm, <- Z.pow_succ_r by lia. f_equal. lia. }
    rewrite !Z.mul_assoc, One, !IH by nia. done.
  - replace (2 ^ Z.pos p~0) with (2 ^ Z.pos p * 2 ^ Z.pos p) by (rewrite <- Z.pow_add_r by lia; f_equal; lia).
    rewrite !Z.mul_assoc, !IH by nia. done.
  - rewrite Z.pow_1_r. by apply One.
Qed.

(** The integer [n], written with [k] places after the point, is rounded to itself: a
    mantissa of 53 digits. *)
Lemma binary_round_exact s m n k : 0 <= k <= 1000 -> Z.pos n < 2 ^ 53 -> Z.pos m = Z.pos n * 2 ^ k ->
  let d := Z.pos (digits2_pos n) in
  exists m', binary_round 53 1024 s m (- k) = S754_finite s m' (d - 53) /\ Z.pos m' = Z.pos n * 2 ^ (53 - d) /\
    1 <= d <= 53 /\ bounded 53 1024 m' (d - 53) = true.
Proof.
  intros Hk Hn Hm d. pose proof (digits2_pos_bounds n) as [Lo Hi]. fold d in Lo, Hi. assert (0 < d) by done.
  assert (d <= 53). { destruct (Z.le_gt_cases d 53); [done|]. pose proof (Z.pow_le_mono_r 2 53 (d - 1)). lia. }
  assert (Z.pos (digits2_pos m) = d + k) as Dm.
  { pose proof (digits2_pos_bounds m) as [Lm Um]. rewrite Hm in Lm, Um. set (e := Z.pos (digits2_pos m)) in *.
    pose proof (Z.pow_pos_nonneg 2 k). assert (0 < e) by done.
    assert (2 ^ (d - 1 + k) <= Z.pos n * 2 ^ k < 2 ^ (d + k)) as [L1 L2] by (rewrite !Z.pow_add_r by lia; nia).
    assert (2 ^ (d - 1 + k) < 2 ^ e) as A1 by lia. assert (2 ^ (e - 1) < 2 ^ (d + k)) as A2 by lia.
    apply Z.pow_lt_mono_r_iff in A1, A2; lia. }
  set (m0 := Z.pos n * 2 ^ (53 - d)). assert (2 ^ 52 <= m0 < 2 ^ 53) as R.
  { subst m0. replace (2 ^ 52) with (2 ^ (d - 1) * 2 ^ (53 - d)) by (rewrite <- Z.pow_add_r by lia; f_equal; lia).
    replace (2 ^ 53) with (2 ^ d * 2 ^ (53 - d)) by (rewrite <- Z.pow_add_r by lia; f_equal; lia).
    pose proof (Z.pow_pos_nonneg 2 (53 - d)). nia. }
  destruct m0 as [|m'|] eqn:Em0; [lia| |lia]. exists m'. rewrite <- Em0 in *. subst m0.
  assert (bounded 53 1024 m' (d - 53) = true) as B by (apply bounded_spec; lia).
  split; [|split; [done|split; [lia|done]]].
  apply andb_true_iff in B as [Cm Em]. apply Z.eqb_eq in Cm.
  assert (forall l, shr_fexp 53 1024 (Z.pos m') (d - 53) l = (shr_record_of_loc (Z.pos m') l, d - 53)) as Fix.
  { intros l. unfold shr_fexp. cbn [Zdigits2]. by rewrite Cm, Z.sub_diag. }
  unfold binary_round. rewrite Dm. replace (d + k + - k) with d by lia.
  assert (fexp 53 1024 d = d - 53) as Fd by (unfold fexp, emin; lia). rewrite Fd.
  destruct (Z.le_gt_cases (d - 53) (- k)) as [Le|Gt].
  - assert (shl_align m (- k) (d - 53) = (m', d - 53)) as ->.
    { unfold shl_align. destruct (d - 53 - - k) as [|p|p] eqn:E; [|lia|].
      - replace (- k) with (d - 53) by lia. f_equal. apply Pos2Z.inj. rewrite Hm, <- Em0. do 2 f_equal. lia.
      - f_equal. apply Pos2Z.inj. rewrite iter_xO, Hm, <- Em0, <- Z.mul_assoc, <- Z.pow_add_r by lia. do 2 f_equal. lia. }
    unfold binary_round_aux. rewrite Fix. cbn. rewrite Fix. cbn. by rewrite Em.
  - assert (shl_align m (- k) (d - 53) = (m, - k)) as ->.
    { unfold shl_align. destruct (d - 53 - - k) as [|p|p] eqn:E; [done|done|lia]. }
    unfold binary_round_aux. assert (shr_fexp 53 1024 (Z.pos m) (- k) loc_Exact = (Build_shr_record (Z.pos m') false false, d - 53)) as ->.
    { unfold shr_fexp. cbn [Zdigits2 shr_record_of_loc]. rewrite Dm. replace (d + k + - k) with d by lia. rewrite Fd.
      unfold shr. destruct (d - 53 - - k) as [|p|p] eqn:E; [lia| |lia]. f_equal; [|lia].
      replace (Z.pos m) with (Z.pos m' * 2 ^ Z.pos p); [by apply shr_exact|].
      rewrite <- Em0, Hm, <- Z.mul_assoc, <- Z.pow_add_r by lia. do 2 f_equal. lia. }
    cbn. rewrite Fix. cbn. by rewrite Em.
Qed.

Lemma of_parts_exact n k s : 0 <= k <= 1000 -> - 2 ^ 53 < n < 2 ^ 53 -> n <> 0 ->
  of_parts (n * 2 ^ k) (- k) s = of_Z n.
Proof.
  intros Hk Hn Ne. assert (0 < 2 ^ k) as Pk by (apply Z.pow_pos_nonneg; lia).
  assert (forall sg p m, Z.pos p < 2 ^ 53 -> Z.pos m = Z.pos p * 2 ^ k -> binary_round 53 1024 sg m (- k) = binary_round 53 1024 sg p 0) as Eq.
  { intros sg p m Hp Hm. destruct (binary_round_exact sg m p k) as (m1 & -> & E1 & _); [done..|].
    destruct (binary_round_exact sg p p 0) as (m2 & E & E2 & _); [lia|done|lia|]. change (- 0) with 0 in E. rewrite E.
    do 2 f_equal. apply Pos2Z.inj. lia. }
  unfold of_Z, of_parts, binary_normalize. destruct n as [|p|p]; [done|..].
  - destruct (Z.pos p * 2 ^ k) as [|m|m] eqn:Em; [lia| |lia]. apply Eq; [lia|done].
  - destruct (Z.neg p * 2 ^ k) as [|m|m] eqn:Em; [lia|lia|]. apply Eq; lia.
Qed.

(** What [of_Z] makes of a small integer. *)
Lemma of_Z_parts n : - 2 ^ 53 < n < 2 ^ 53 -> n <> 0 -> exists m k, of_Z n = S754_finite (n <? 0) m (- k) /\
  0 <= k <= 52 /\ (if n <? 0 then - Z.pos m else Z.pos m) = n * 2 ^ k /\ is_float64 (of_Z n) = true.
Proof.
  intros Hn Ne. unfold of_Z, of_parts, binary_normalize. destruct n as [|p|p]; [done|..].
  all: match goal with |- context [binary_round _ _ ?s ?p _] => destruct (binary_round_exact s p p 0) as (m & E & Em & Hd & B); [lia|lia|lia|] end.
  all: change (- 0) with 0 in E; rewrite E; exists m, (53 - Z.pos (digits2_pos p)).
  all: split; [cbn; f_equal; lia|]; split; [lia|]; split; [cbn; lia|exact B].
Qed.

Lemma of_Z_valid n : - 2 ^ 53 < n < 2 ^ 53 -> is_float64 (of_Z n) = true.
Proof. intros Hn. destruct (decide (n = 0)) as [->|Ne]; [done|]. by destruct (of_Z_parts n Hn Ne) as (? & ? & _ & _ & _ & B). Qed.

(** Small integers are whole: nothing follows the point. *)
Lemma trunc_of_Z n : - 2 ^ 53 < n < 2 ^ 53 -> trunc (of_Z n) = Some n /\ modf (of_Z n) = (of_Z n, S754_zero (n <? 0)).
Proof.
  intros Hn. destruct (decide (n = 0)) as [->|Ne]; [done|].
  destruct (of_Z_parts n Hn Ne) as (m & k & E & Hk & Em & _). rewrite E. cbn [trunc modf].
  assert (0 < 2 ^ k) as Pk by (apply Z.pow_pos_nonneg; lia). rewrite Z.opp_involutive.
  destruct (0 <=? - k) eqn:K; zbool.
  - assert (k = 0) as -> by lia. split; [|done]. f_equal. change (2 ^ (- 0)) with 1. destruct (n <? 0); lia.
  - assert (Z.pos m = Z.abs n * 2 ^ k) as Ea by (destruct (Z.ltb_spec n 0); lia).
    rewrite Ea, Z.div_mul, Z.mod_mul by lia. replace (if n <? 0 then - Z.abs n else Z.abs n) with n by (destruct (Z.ltb_spec n 0); lia).
    split; [done|]. replace (if n <? 0 then - 0 else 0) with 0 by (by destruct (n <? 0)). rewrite <- E.
    unfold of_parts at 2. cbn. f_equal. unfold of_Z, of_parts, binary_normalize. by destruct n.
Qed.

(** [-1 - float64(arg)] of a small argument. *)
Lemma fsub_minus_one a : 0 <= a < 2 ^ 53 - 1 -> fsub (of_Z (-1)) (of_Z a) = of_Z (-1 - a).
Proof.
  intros Ha. destruct (decide (a = 0)) as [->|Ne]; [done|].
  destruct (of_Z_parts a) as (m & k & E & Hk & Em & _); [lia|done|]. rewrite E.
  replace (a <? 0) with false in * by lia.
  change (of_Z (-1)) with (S754_finite true 4503599627370496 (-52)). unfold fsub, SFsub.
  assert (Z.min (-52) (- k) = -52) as -> by lia.
  assert (Z.pos (shl_align m (- k) (-52)).1 = a * 2 ^ 52) as Es.
  { unfold shl_align. destruct (-52 - - k) as [|p|p] eqn:P; [|lia|]; cbn [fst].
    - rewrite Em. do 2 f_equal. lia.
    - rewrite iter_xO, Em, <- Z.mul_assoc, <- Z.pow_add_r by lia. do 2 f_equal. lia. }
  change (shl_align 4503599627370496 (-52) (-52)) with (4503599627370496%positive, -52). cbn [fst cond_Zopp]. rewrite Es.
  replace (- (4503599627370496) - a * 2 ^ 52) with ((-1 - a) * 2 ^ 52) by lia.
  apply (of_parts_exact (-1 - a) 52); lia.
Qed.
