(* ===== verification/Cbor.v ===== *)
(** * Cbor: the RPC v2 CBOR codec (src/internal/rpcv2cbor: cbor.go, encode.go)

    The decoder reads a buffer at a position, checked as the code checks it, into the
    values a JSON decoder would give; the encoder writes Go values, seen as reflection
    sees them.  A number is a [float64]; decompression is a parameter. *)

From Stdlib Require Import SpecFloat.
From S2P Require Import Prelude Bytes Clock Wire Float64.

(** ** Values *)

(** What decoding produces: [nil], [bool], [float64], [string], [[]any],
    [map[string]any] and [time.Time], in seconds and nanoseconds. *)
Inductive cval : Type :=
| CNil
| CBool (b : bool)
| CNum (f : float64)
| CStr (s : string)
| CArr (l : list cval)
| CMap (m : gmap string cval)
| CTime (sec ns : Z).

(** [compress/gzip]: what a gzipped text unpacks to. *)
Class Gzip := { gunzip : string -> result string }.

Definition MaxDepth : Z := 64.
Definition MaxDecompressed : Z := Z.shiftl 32 20.
Definition ErrTrailing : APIError := plain_error "rpcv2cbor: trailing bytes after the top-level value".
Definition ErrUnexpectedEOF : APIError := plain_error "unexpected EOF".

(** ** The decoder *)

(** [decoder]: the position, and the bytes of the buffer from there on; those before it
    are not read again. *)
Record decoder := mkDecoder { pos : Z; rest : string }.
Definition buf_len (d : decoder) : Z := pos d + slen (rest d).

Definition D (A : Type) : Type := decoder -> outcome (A * decoder).
Definition dret {A} (a : A) : D A := fun d => Ret (Ok (a, d)).
Definition dbind {A B} (m : D A) (f : A -> D B) : D B := fun d => m d ≫= fun r => f r.1 r.2.
Definition dthrow {A} (format : string) : D A := fun _ => Ret (Err (plain_error format)).

Declare Scope dec_scope.
Delimit Scope dec_scope with dec.
Notation "x <- m ; k" := (dbind m (fun x => k)) (at level 100, m at next level, right associativity) : dec_scope.
Notation "'let*' p := m 'in' k" := (dbind m (fun x => match x with p => k end))
  (at level 100, p pattern, m at next level, right associativity) : dec_scope.
Notation "m ;; k" := (dbind m (fun _ => k)) (at level 100, right associativity) : dec_scope.
#[local] Open Scope dec_scope.

(** [more]: the sum is an [int], and wraps. *)
Definition more (n : Z) : D unit := fun d =>
  if buf_len d <? wrap64 (pos d + n) then Ret (Err ErrUnexpectedEOF) else Ret (Ok (tt, d)).

(** [d.buf[d.pos : d.pos+n]] and the step past it: a bound below the position panics. *)
Definition take_slice (n : Z) : D string := fun d =>
  if wrap64 (pos d + n) <? pos d then Panic
  else Ret (Ok (take_bytes (Z.to_nat n) (rest d), mkDecoder (pos d + n) (drop_bytes (Z.to_nat n) (rest d)))).

(** [d.buf[d.pos]], once [more(1)] has passed. *)
Definition peek_byte : D Z := fun d =>
  match rest d with
  | String c _ => Ret (Ok (byte_of c, d))
  | EmptyString => Panic
  end.

Definition byteAt : D Z :=
  more 1;;
  b <- peek_byte;
  take_slice 1;;
  dret b.

(** The bytes of an argument, most significant first. *)
Definition read_arg (n : Z) : D Z :=
  more n;;
  s <- take_slice n;
  dret (be_value 0 s).

(** The argument that the additional information announces. *)
Definition head_arg (major low : Z) : D (Z * Z * Z * bool) :=
  if low <? 24 then dret (major, low, low, false)
  else if low =? 24 then (b <- byteAt; dret (major, low, b, false))
  else if low =? 25 then (arg <- read_arg 2; dret (major, low, arg, false))
  else if low =? 26 then (arg <- read_arg 4; dret (major, low, arg, false))
  else if low =? 27 then (arg <- read_arg 8; dret (major, low, arg, false))
  else if low =? 31 then dret (major, low, 0, true)
  else dthrow "rpcv2cbor: reserved additional-information %d".

(** [head]: the major type, the additional information, the argument, and whether it is
    indefinite. *)
Definition head : D (Z * Z * Z * bool) :=
  ib <- byteAt;
  head_arg (Z.shiftr ib 5) (Z.land ib 31).

(** A definite run of bytes.  [n := int(arg)] is negative when the argument is too large. *)
Definition definite_string (arg : Z) : D string :=
  let n := wrap64 arg in
  if (n <? 0) || negb (n mod 2 ^ 64 =? arg) then dthrow "rpcv2cbor: string length out of range"
  else (more n;; take_slice n).

(** Whether the next byte ends an indefinite run, which is then passed over. *)
Definition at_break : D bool :=
  more 1;;
  b <- peek_byte;
  if b =? 255 then (take_slice 1;; dret true) else dret false.

(** The loop over the chunks of an indefinite string. *)
Fixpoint chunks (fuel : nat) (major : Z) (out : string) : D string :=
  match fuel with
  | O => fun _ => OutOfFuel
  | Datatypes.S k =>
      stop <- at_break;
      if stop : bool then dret out
      else
        let* (cMajor, _, cArg, cIndef) := head in
        if negb (cMajor =? major) || cIndef then dthrow "rpcv2cbor: mismatched chunk in an indefinite string"
        else (chunk <- definite_string cArg; chunks k major (out +:+ chunk))
  end.

Definition byteString (fuel : nat) (major arg : Z) (indef : bool) : D string :=
  if indef then chunks fuel major "" else definite_string arg.

(** [float16], through the bits it assembles; the exponents are [int64]s, and are shifted
    as [uint64]s. *)
Fixpoint normalise (fuel : nat) (mant e : Z) : Z * Z :=
  match fuel with
  | O => (mant, e)
  | Datatypes.S k => if Z.testbit mant 10 then (mant, e) else normalise k (Z.shiftl mant 1) (e - 1)
  end.
Definition float16 (h : Z) : float64 :=
  let sign := Z.shiftl (Z.shiftr h 15) 63 in
  let exp := Z.land (Z.shiftr h 10) 31 in
  let mant := Z.land h 1023 in
  if exp =? 0 then
    if mant =? 0 then of_bits sign
    else let '(mant, e) := normalise 10 mant (-14) in
      of_bits (Z.lor (Z.lor sign (Z.shiftl (e + 1023) 52)) (Z.shiftl (Z.land mant 1023) 42))
  else if exp =? 31 then
    if mant =? 0 then of_bits (Z.lor sign (Z.shiftl 2047 52)) else S754_nan
  else of_bits (Z.lor (Z.lor sign (Z.shiftl (exp - 15 + 1023) 52)) (Z.shiftl mant 42)).

(** [simple]: major type 7. *)
Definition simple (low arg : Z) (indef : bool) : D cval :=
  if indef then dthrow "rpcv2cbor: unexpected break"
  else if low =? 20 then dret (CBool false)
  else if low =? 21 then dret (CBool true)
  else if (low =? 22) || (low =? 23) then dret CNil
  else if low =? 25 then dret (CNum (float16 arg))
  else if low =? 26 then dret (CNum (of_bits32 arg))
  else if low =? 27 then dret (CNum (of_bits arg))
  else dthrow "rpcv2cbor: unsupported simple value %d".

(** [time.Unix]: the nanoseconds are carried into the seconds. *)
Definition Unix (sec nsec : Z) : cval := CTime (wrap64 (sec + nsec / 1000000000)) (nsec mod 1000000000).

Section WithConvert.
Context `{GoConvert}.

(** The date a number of seconds is. *)
Definition epoch (f : float64) : cval :=
  let '(sec, frac) := modf f in
  let nanos := fmul frac (of_Z 1000000000) in
  Unix (to_int64 (trunc sec) sec) (to_int64 (round nanos) nanos).

(** What a tag makes of the value under it. *)
Definition tag_value (tag : Z) (inner : cval) : D cval :=
  if tag =? 1 then
    match inner with
    | CNum f => dret (epoch f)
    | _ => dthrow "rpcv2cbor: tag 1 wraps %T, want a number"
    end
  else dthrow "rpcv2cbor: unsupported tag %d".

(** [value], with the loops of [array] and [mapValue]; [left] is the number of elements
    to come, unless a break ends them. *)
Fixpoint value (fuel : nat) (depth : Z) : D cval :=
  match fuel with
  | O => fun _ => OutOfFuel
  | Datatypes.S k =>
      if MaxDepth <? depth then dthrow "rpcv2cbor: nesting deeper than %d"
      else
        let* (major, low, arg, indef) := head in
        if major =? 0 then dret (CNum (of_Z arg))
        else if major =? 1 then dret (CNum (fsub (of_Z (-1)) (of_Z arg)))
        else if major =? 2 then (raw <- byteString k major arg indef; dret (CStr (base64_encode raw)))
        else if major =? 3 then (raw <- byteString k major arg indef; dret (CStr raw))
        else if major =? 4 then (out <- array_loop k depth (if indef : bool then None else Some arg) []; dret (CArr out))
        else if major =? 5 then (out <- map_loop k depth (if indef : bool then None else Some arg) ∅; dret (CMap out))
        else if major =? 6 then
          if indef : bool then dthrow "rpcv2cbor: a tag cannot be indefinite"
          else (inner <- value k (depth + 1); tag_value arg inner)
        else simple low arg indef
  end
with array_loop (fuel : nat) (depth : Z) (left : option Z) (out : list cval) : D (list cval) :=
  match fuel with
  | O => fun _ => OutOfFuel
  | Datatypes.S k =>
      stop <- match left with None => at_break | Some n => dret (n =? 0) end;
      if stop : bool then dret out
      else (el <- value k (depth + 1); array_loop k depth (Z.pred <$> left) (out ++ [el]))
  end
with map_loop (fuel : nat) (depth : Z) (left : option Z) (out : gmap string cval) : D (gmap string cval) :=
  match fuel with
  | O => fun _ => OutOfFuel
  | Datatypes.S k =>
      stop <- match left with None => at_break | Some n => dret (n =? 0) end;
      if stop : bool then dret out
      else
        key <- value k (depth + 1);
        match key with
        | CStr ks => v <- value k (depth + 1); map_loop k depth (Z.pred <$> left) (<[ks := v]> out)
        | _ => dthrow "rpcv2cbor: map key is %T, want a string"
        end
  end.

(** Enough steps for a buffer: a value and an element each read a byte. *)
Definition fuel_for (body : string) : nat := 2 * String.length body + 1.

Definition decode_raw (raw : string) : outcome cval :=
  value (fuel_for raw) 0 (mkDecoder 0 raw) ≫= fun '(v, d) =>
    if pos d =? buf_len d then Ret (Ok v) else Ret (Err ErrTrailing).

Context `{Gzip}.

Definition Gunzip (body : string) : result string :=
  match body with
  | String a (String b _) =>
      if (byte_of a =? 31) && (byte_of b =? 139) then
        out ← gunzip body;
        if MaxDecompressed <? slen out then Err (plain_error "rpcv2cbor: gzipped body expands past %d bytes") else Ok out
      else Ok body
  | _ => Ok body
  end.

Definition Decode (body : string) : outcome cval :=
  match Gunzip body with Ok raw => decode_raw raw | Err e => Ret (Err e) end.

Definition DecodeMap (body : string) : outcome (gmap string cval) :=
  v ← Decode body;
  match v with
  | CNil => Ret (Ok ∅)
  | CMap m => Ret (Ok m)
  | _ => Ret (Err (plain_error "rpcv2cbor: body is %T, want a map"))
  end.

End WithConvert.

(** ** The encoder *)

(** A struct field as reflection shows it: its name, whether it is exported, its json tag. *)
Record fieldType := mkFieldType { ft_Name : string; ft_exported : bool; ft_json : string }.

(** A Go value by its kind.  A pointer or interface may be nil; so may a slice or map, and
    a map of keys that are no strings is told apart.  [GOther] is a kind that cannot be
    encoded: a channel, a function, a complex number. *)
Inductive gval : Type :=
| GInvalid
| GTime (sec ns : Z)
| GPtr (v : option gval)
| GBool (b : bool)
| GInt (i : Z)
| GUint (u : Z)
| GFloat (f : float64)
| GString (s : string)
| GBytes (b : option string)
| GSlice (l : option (list gval))
| GArray (l : list gval)
| GMap (string_keys : bool) (m : option (gmap string gval))
| GStruct (fs : list (fieldType * gval))
| GOther.

(** [encoder.head]: the smallest form that holds the argument. *)
Definition enc_head (major arg : Z) : string :=
  let m := Z.shiftl major 5 in
  if arg <? 24 then String (chr (Z.lor m arg)) ""
  else if arg <=? 0xff then String (chr (Z.lor m 24)) (String (chr arg) "")
  else if arg <=? 0xffff then String (chr (Z.lor m 25)) (String (chr (Z.shiftr arg 8)) (String (chr arg) ""))
  else if arg <=? 0xffffffff then String (chr (Z.lor m 26)) (be32 arg)
  else String (chr (Z.lor m 27)) (be64 arg).

Definition enc_text (s : string) : string := enc_head 3 (slen s) +:+ s.
Definition enc_bytes (s : string) : string := enc_head 2 (slen s) +:+ s.
Definition enc_null : string := String (chr 0xf6) "".
Definition enc_bool (b : bool) : string := String (chr (if b then 0xf5 else 0xf4)) "".
Definition enc_float (f : float64) : string := String (chr 0xfb) (be64 (to_bits f)).
Definition enc_integer (i : Z) : string := if i <? 0 then enc_head 1 (-1 - i) else enc_head 0 i.
Definition enc_timestamp (sec ns : Z) : string :=
  enc_head 6 1 +:+
  if negb (ns =? 0) then enc_float (fadd (of_Z sec) (fdiv (of_Z ns) (of_Z 1000000000))) else enc_integer sec.

(** [isEmpty]. *)
Definition isEmpty (v : gval) : bool :=
  match v with
  | GArray l => match l with [] => true | _ => false end
  | GSlice l => match l with Some (_ :: _) => false | _ => true end
  | GBytes b => match b with Some (String _ _) => false | _ => true end
  | GMap _ m => match m with Some m => bool_decide (map_to_list m = []) | None => true end
  | GString s => String.eqb s ""
  | GBool b => negb b
  | GInt i => i =? 0
  | GUint u => u =? 0
  | GFloat f => SFeqb f (S754_zero false)
  | GPtr v => match v with None => true | Some _ => false end
  | _ => false
  end.

(** [fieldsOf]: the name a field is written under, if it is, and whether it may be left out. *)
Definition field_of (f : fieldType) : option (string * bool) :=
  if negb (ft_exported f) then None
  else
    let '(name, rest) := default (ft_json f, "") (cut_on "," (ft_json f)) in
    if String.eqb name "-" && String.eqb rest "" then None
    else Some (if String.eqb name "" then ft_Name f else name, contains rest "omitempty").

(** The members [structValue] writes. *)
Definition live_fields {A} (empty : gval -> bool) (fs : list (fieldType * gval * A)) : list (string * A) :=
  omap (fun '(f, v, a) =>
    '(name, omit) ← field_of f; if (omit : bool) && empty v then None else Some (name, a)) fs.

(** The members of a map in the order of their keys. *)
Definition sorted_members {A} (m : gmap string A) : list (string * A) :=
  omap (fun k => (fun a => (k, a)) <$> m !! k) (sort_strings (elements (dom m))).

(** Keys and values one after the other, up to the first that fails. *)
Definition enc_members (l : list (string * result string)) : result string :=
  parts ← mapR (fun '(k, r) => s ← (r : result string); Ok (enc_text k +:+ s)) l;
  Ok (foldr String.append "" parts).

Fixpoint enc_value (v : gval) (depth : Z) : result string :=
  if MaxDepth <? depth then Err (plain_error "rpcv2cbor: encoding nested deeper than %d")
  else match v with
  | GInvalid => Ok enc_null
  | GTime sec ns => Ok (enc_timestamp sec ns)
  | GPtr None => Ok enc_null
  | GPtr (Some v) => enc_value v depth
  | GBool b => Ok (enc_bool b)
  | GInt i => Ok (enc_integer i)
  | GUint u => Ok (enc_head 0 u)
  | GFloat f => Ok (enc_float f)
  | GString s => Ok (enc_text s)
  | GBytes None => Ok enc_null
  | GBytes (Some b) => Ok (enc_bytes b)
  | GSlice None => Ok enc_null
  | GSlice (Some l) | GArray l =>
      parts ← mapR id (map (fun x => enc_value x (depth + 1)) l);
      Ok (enc_head 4 (Z.of_nat (length l)) +:+ foldr String.append "" parts)
  | GMap _ None => Ok enc_null
  | GMap false (Some _) => Err (plain_error "rpcv2cbor: map key is %s, want a string")
  | GMap true (Some m) =>
      let members := sorted_members ((fun x => enc_value x (depth + 1)) <$> m) in
      body ← enc_members members;
      Ok (enc_head 5 (Z.of_nat (length members)) +:+ body)
  | GStruct fs =>
      let members := live_fields isEmpty (map (fun '(f, x) => (f, x, enc_value x (depth + 1))) fs) in
      body ← enc_members members;
      Ok (enc_head 5 (Z.of_nat (length members)) +:+ body)
  | GOther => Err (plain_error "rpcv2cbor: cannot encode %s")
  end.

Definition Marshal (v : gval) : result string := enc_value v 0.
