(* ===== verification/CborSpec.v ===== *)
(** * CborSpec: what the CBOR codec promises

    [Marshal_Decode]: what is encoded decodes to the value it stands for.  [Decode_total]:
    every body is decoded or refused, but for one kind of body that makes the decoder
    panic. *)

From Stdlib Require Import SpecFloat Wf_nat.
From stdpp Require Import sorting.
From S2P Require Import Prelude Bytes Clock Wire Float64 Cbor.
#[local] Open Scope dec_scope.

(** ** Readers that take a text off the buffer *)

(** [m] takes [s] off, whatever follows, and answers [a]. *)
Definition yields {A} (m : D A) (s : string) (a : A) : Prop :=
  forall p t, 0 <= p -> p + slen s + slen t < 2 ^ 63 ->
    m (mkDecoder p (s +:+ t)) = Ret (Ok (a, mkDecoder (p + slen s) t)).

Lemma yields_ret {A} (a : A) : yields (dret a) "" a.
Proof. intros p t _ _. unfold dret. cbn. by rewrite Z.add_0_r. Qed.

Lemma yields_bind {A B} (m : D A) (f : A -> D B) s s' a b :
  yields m s a -> yields (f a) s' b -> yields (dbind m f) (s +:+ s') b.
Proof.
  intros Hm Hf p t Hp Hl. rewrite slen_app in *. unfold dbind. rewrite sapp_assoc, Hm by (rewrite ?slen_app; lia). cbn [mbind outcome_mbind outcome_bind fst snd].
  rewrite Hf; [|pose proof (slen_nonneg s); lia|lia]. do 4 f_equal. lia.
Qed.

Lemma take_bytes_slen s t : take_bytes (Z.to_nat (slen s)) (s +:+ t) = s.
Proof. unfold slen. rewrite Nat2Z.id. apply take_bytes_app. Qed.
Lemma drop_bytes_slen s t : drop_bytes (Z.to_nat (slen s)) (s +:+ t) = t.
Proof. unfold slen. rewrite Nat2Z.id. apply drop_bytes_app. Qed.

Lemma more_ok n p s : 0 <= p -> 0 <= n <= slen s -> p + slen s < 2 ^ 63 ->
  more n (mkDecoder p s) = Ret (Ok (tt, mkDecoder p s)).
Proof.
  intros Hp Hn Hl. unfold more, buf_len. cbn. rewrite wrap64_small by lia. by replace (p + slen s <? p + n) with false by lia.
Qed.

Lemma take_slice_ok s p t : 0 <= p -> p + slen s < 2 ^ 63 ->
  take_slice (slen s) (mkDecoder p (s +:+ t)) = Ret (Ok (s, mkDecoder (p + slen s) t)).
Proof.
  intros Hp Hl. pose proof (slen_nonneg s). unfold take_slice. cbn [pos rest]. rewrite wrap64_small by lia.
  replace (p + slen s <? p) with false by lia. by rewrite take_bytes_slen, drop_bytes_slen.
Qed.

Lemma yields_slice s : yields (more (slen s);; take_slice (slen s)) s s.
Proof.
  intros p t Hp Hl. pose proof (slen_nonneg s). pose proof (slen_nonneg t). unfold dbind.
  rewrite more_ok by (rewrite ?slen_app; lia). cbn [mbind outcome_mbind outcome_bind fst snd]. apply take_slice_ok; lia.
Qed.

Lemma yields_byteAt c : yields byteAt (String c "") (byte_of c).
Proof.
  intros p t Hp Hl. pose proof (slen_nonneg t). unfold byteAt, dbind. change 1 with (slen (String c "")) at 1 2.
  rewrite more_ok by (rewrite ?slen_app; change (slen (String c "")) with 1 in *; lia). cbn [mbind outcome_mbind outcome_bind fst snd peek_byte rest String.append].
  change (String c t) with (String c "" +:+ t). rewrite take_slice_ok by (change (slen (String c "")) with 1 in *; lia). done.
Qed.

Lemma yields_read_arg s : yields (read_arg (slen s)) s (be_value 0 s).
Proof.
  intros p t Hp Hl. pose proof (slen_nonneg s). pose proof (slen_nonneg t). unfold read_arg, dbind.
  rewrite more_ok by (rewrite ?slen_app; lia). cbn [mbind outcome_mbind outcome_bind fst snd]. rewrite take_slice_ok by lia. done.
Qed.

(** ** Heads *)

Lemma be_value_be32 n : 0 <= n < 2 ^ 32 -> be_value 0 (be32 n) = n.
Proof. intros Hn. unfold be32. cbn [be_value]. rewrite !byte_mod. zdiv. Qed.

(** The initial byte of a head. *)
Lemma initial_byte major x : 0 <= major < 8 -> 0 <= x < 32 ->
  let b := byte_of (chr (Z.lor (Z.shiftl major 5) x)) in Z.shiftr b 5 = major /\ Z.land b 31 = x.
Proof.
  intros Hm Hx.
  assert (forallb (fun m => forallb (fun x => let b := byte_of (chr (Z.lor (Z.shiftl m 5) x)) in
    (Z.shiftr b 5 =? m) && (Z.land b 31 =? x)) (seqZ 0 32)) (seqZ 0 8) = true) as All by (vm_compute; reflexivity).
  rewrite forallb_forall in All. specialize (All major). rewrite forallb_forall in All.
  assert (In major (seqZ 0 8)) as I1 by (apply list_elem_of_In, elem_of_seqZ; lia).
  assert (In x (seqZ 0 32)) as I2 by (apply list_elem_of_In, elem_of_seqZ; lia).
  specialize (All I1 x I2). apply andb_true_iff in All as [?%Z.eqb_eq ?%Z.eqb_eq]. done.
Qed.

(** An argument of [n] bytes. *)
Lemma yields_arg (major low : Z) s v : be_value 0 s = v ->
  yields (arg <- read_arg (slen s); dret (major, low, arg, false)) s (major, low, v, false).
Proof. intros <-. rewrite <- (sapp_nil_r s) at 2. eapply yields_bind; [apply yields_read_arg|apply yields_ret]. Qed.

(** [head] reads what [enc_head] wrote, in each of its five forms. *)
Lemma yields_head major arg : 0 <= major < 8 -> 0 <= arg < 2 ^ 64 ->
  exists low, yields head (enc_head major arg) (major, low, arg, false).
Proof.
  intros Hm Ha. unfold enc_head.
  assert (forall x s v, 0 <= x < 32 -> yields (head_arg major x) s v ->
    yields head (String (chr (Z.lor (Z.shiftl major 5) x)) s) v) as Step.
  { intros x s v Hx Hk. change (String ?c s) with (String c "" +:+ s). unfold head.
    eapply yields_bind; [apply yields_byteAt|]. cbv beta. by destruct (initial_byte major x Hm Hx) as [-> ->]. }
  repeat (case_match; zbool).
  - exists arg. apply Step; [lia|]. unfold head_arg. replace (arg <? 24) with true by lia. apply yields_ret.
  - exists 24. apply Step; [lia|]. change (String ?c "") with (String c "" +:+ ""). eapply yields_bind; [apply yields_byteAt|].
    rewrite byte_of_chr_small by lia. apply yields_ret.
  - exists 25. apply Step; [lia|]. apply (yields_arg major 25 (String _ (String _ ""))). cbn [be_value].
    rewrite !byte_of_chr, Z.shiftr_div_pow2 by lia. zdiv.
  - exists 26. apply Step; [lia|]. apply (yields_arg major 26 (be32 arg)), be_value_be32. lia.
  - exists 27. apply Step; [lia|]. apply (yields_arg major 27 (be64 arg)), be64_value. lia.
Qed.

Lemma slen_enc_head major arg : 1 <= slen (enc_head major arg).
Proof. unfold enc_head. repeat case_match; unfold slen; cbn; lia. Qed.

(** ** The values that are encoded *)

(** Induction over a Go value and all the values inside it. *)
Fixpoint gnodes (v : gval) : nat :=
  match v with
  | GPtr (Some v) => S (gnodes v)
  | GSlice (Some l) | GArray l => foldr (fun x acc => gnodes x + acc) 1 l
  | GMap _ (Some m) => map_fold (fun _ x acc => gnodes x + acc) 1 m
  | GStruct fs => foldr (fun fx acc => gnodes fx.2 + acc) 1 fs
  | _ => 1
  end%nat.

(** What a value stands for in the decoder's terms. *)
Fixpoint view `{GoConvert} (v : gval) : cval :=
  match v with
  | GTime sec ns => CTime sec ns
  | GPtr (Some v) => view v
  | GBool b => CBool b
  | GInt i => CNum (of_Z i)
  | GUint u => CNum (of_Z u)
  | GFloat f => CNum f
  | GString s => CStr s
  | GBytes (Some b) => CStr (base64_encode b)
  | GSlice (Some l) | GArray l => CArr (map view l)
  | GMap _ (Some m) => CMap (view <$> m)
  | GStruct fs => CMap (foldl (fun m kx => <[kx.1 := kx.2]> m) ∅ (live_fields isEmpty (map (fun '(f, x) => (f, x, view x)) fs)))
  | _ => CNil
  end.

(** The values that can be encoded and that decoding does not round: integers of their
    width, negative ones within 2^53; float64s; dates of whole seconds; no map keyed by
    other than strings and no channel or function, in the members that are written. *)
Fixpoint encodable (v : gval) : bool :=
  match v with
  | GTime sec ns => (- 2 ^ 53 <? sec) && (sec <? 2 ^ 53) && (ns =? 0)
  | GInt i => (- 2 ^ 53 <? i) && (i <? 2 ^ 63)
  | GUint u => (0 <=? u) && (u <? 2 ^ 64)
  | GFloat f => is_float64 f
  | GPtr (Some v) => encodable v
  | GSlice (Some l) | GArray l => forallb encodable l
  | GMap false (Some _) | GOther => false
  | GMap true (Some m) => map_fold (fun _ x acc => encodable x && acc) true m
  | GStruct fs => forallb snd (live_fields isEmpty (map (fun '(f, x) => (f, x, encodable x)) fs))
  | _ => true
  end.

(** How deep a value nests; a date is a tag over its number. *)
Fixpoint nesting (v : gval) : Z :=
  match v with
  | GTime _ _ => 1
  | GPtr (Some v) => nesting v
  | GSlice (Some l) | GArray l => foldr (fun x acc => Z.max (1 + nesting x) acc) 0 l
  | GMap _ (Some m) => map_fold (fun _ x acc => Z.max (1 + nesting x) acc) 0 m
  | GStruct fs => foldr (fun kn acc => Z.max (1 + kn.2) acc) 0 (live_fields isEmpty (map (fun '(f, x) => (f, x, nesting x)) fs))
  | _ => 0
  end.

(** ** One value at a time *)

Section Roundtrip.
Context `{GoConvert}.

(** What [value] does after the head. *)
Definition branch (k : nat) (depth major low arg : Z) (indef : bool) : D cval :=
  if major =? 0 then dret (CNum (of_Z arg))
  else if major =? 1 then dret (CNum (fsub (of_Z (-1)) (of_Z arg)))
  else if major =? 2 then (raw <- byteString k major arg indef; dret (CStr (base64_encode raw)))
  else if major =? 3 then (raw <- byteString k major arg indef; dret (CStr raw))
  else if major =? 4 then (out <- array_loop k depth (if indef : bool then None else Some arg) []; dret (CArr out))
  else if major =? 5 then (out <- map_loop k depth (if indef : bool then None else Some arg) ∅; dret (CMap out))
  else if major =? 6 then
    if indef : bool then dthrow "rpcv2cbor: a tag cannot be indefinite"
    else (inner <- value k (depth + 1); tag_value arg inner)
  else simple low arg indef.

Lemma value_S k depth : value (S k) depth =
  if MaxDepth <? depth then dthrow "rpcv2cbor: nesting deeper than %d"
  else let* (major, low, arg, indef) := head in branch k depth major low arg indef.
Proof. reflexivity. Qed.

(** A value whose head is [enc_head major arg] and whose body is [s]. *)
Lemma yields_value k depth major arg s v : depth <= MaxDepth -> 0 <= major < 8 -> 0 <= arg < 2 ^ 64 ->
  (forall low, yields (branch k depth major low arg false) s v) ->
  yields (value (S k) depth) (enc_head major arg +:+ s) v.
Proof.
  intros Hd Hm Ha Hb. rewrite value_S. replace (MaxDepth <? depth) with false by lia.
  destruct (yields_head major arg Hm Ha) as [low Hl]. eapply yields_bind; [exact Hl|]. apply Hb.
Qed.

Lemma yields_value_nil k depth major arg v : depth <= MaxDepth -> 0 <= major < 8 -> 0 <= arg < 2 ^ 64 ->
  (forall low, branch k depth major low arg false = dret v) -> yields (value (S k) depth) (enc_head major arg) v.
Proof.
  intros Hd Hm Ha Hb. rewrite <- (sapp_nil_r (enc_head major arg)). apply yields_value; [done..|].
  intros low. rewrite Hb. apply yields_ret.
Qed.

(** The length of the text may be assumed. *)
Lemma yields_bounded {A} (m : D A) s a : (slen s < 2 ^ 63 -> yields m s a) -> yields m s a.
Proof. intros Hm p t Hp Hl. apply Hm; [pose proof (slen_nonneg t); lia|done..]. Qed.

Lemma yields_definite s : slen s < 2 ^ 63 -> yields (definite_string (slen s)) s s.
Proof.
  intros Hl. pose proof (slen_nonneg s). unfold definite_string. rewrite wrap64_small by lia.
  replace (slen s <? 0) with false by lia. rewrite Z.mod_small, Z.eqb_refl by lia. apply yields_slice.
Qed.

(** A text or a byte string. *)
Lemma yields_string k depth major s v : depth <= MaxDepth -> (major = 2 /\ v = CStr (base64_encode s) \/ major = 3 /\ v = CStr s) ->
  yields (value (S k) depth) (enc_head major (slen s) +:+ s) v.
Proof.
  intros Hd Hm. apply yields_bounded. intros Hl. rewrite slen_app in Hl. pose proof (slen_nonneg s).
  pose proof (slen_enc_head major (slen s)).
  apply yields_value; [done|lia|lia|]. intros low. rewrite <- (sapp_nil_r s) at 2.
  destruct Hm as [[-> ->]|[-> ->]]; (eapply yields_bind; [apply yields_definite; lia|apply yields_ret]).
Qed.

Lemma yields_integer k depth i : depth <= MaxDepth -> - 2 ^ 53 < i < 2 ^ 63 ->
  yields (value (S k) depth) (enc_integer i) (CNum (of_Z i)).
Proof.
  intros Hd Hi. unfold enc_integer. destruct (Z.ltb_spec i 0).
  - apply yields_value_nil; [done|lia|lia|]. intros low. unfold branch. cbn [Z.eqb]. rewrite fsub_minus_one by lia. do 3 f_equal. lia.
  - by apply yields_value_nil; [|lia|lia|].
Qed.

(** A value of major type 7: its initial byte, and the bytes of a float64. *)
Lemma yields_simple k depth x v : depth <= MaxDepth -> 0 <= x < 24 -> simple x x false = dret v ->
  yields (value (S k) depth) (String (chr (Z.lor (Z.shiftl 7 5) x)) "") v.
Proof.
  intros Hd Hx Hs. assert (enc_head 7 x = String (chr (Z.lor (Z.shiftl 7 5) x)) "") as E.
  { unfold enc_head. by replace (x <? 24) with true by lia. }
  rewrite value_S. replace (MaxDepth <? depth) with false by lia.
  change (String ?c "") with (String c "" +:+ ""). eapply yields_bind.
  - unfold head. change (String ?c "") with (String c "" +:+ "") at 1. eapply yields_bind; [apply yields_byteAt|]. cbv beta.
    destruct (initial_byte 7 x) as [-> ->]; [lia|lia|]. unfold head_arg. replace (x <? 24) with true by lia. apply yields_ret.
  - cbv beta iota. change (branch k depth 7 x x false) with (simple x x false). rewrite Hs. apply yields_ret.
Qed.

Lemma yields_float k depth f : depth <= MaxDepth -> is_float64 f = true -> yields (value (S k) depth) (enc_float f) (CNum f).
Proof.
  intros Hd Hf. pose proof (to_bits_range f Hf) as R. rewrite value_S. replace (MaxDepth <? depth) with false by lia.
  unfold enc_float. rewrite <- (sapp_nil_r (String _ _)). eapply yields_bind.
  - unfold head. change (String ?c ?s) with (String c "" +:+ s). eapply yields_bind; [apply yields_byteAt|]. cbv beta.
    destruct (initial_byte 7 27) as [E1 E2]; [lia|lia|]. change (Z.lor (Z.shiftl 7 5) 27) with 0xfb in E1, E2. rewrite E1, E2.
    apply (yields_arg 7 27 (be64 (to_bits f))). by apply be64_value.
  - cbv beta iota. change (branch k depth 7 27 ?a false) with (dret (CNum (of_bits a))). rewrite of_bits_to_bits by done. apply yields_ret.
Qed.

(** A date of whole seconds. *)
Lemma epoch_seconds sec : - 2 ^ 53 < sec < 2 ^ 53 -> epoch (of_Z sec) = CTime sec 0.
Proof.
  intros Hs. unfold epoch. destruct (trunc_of_Z sec Hs) as [Et ->].
  replace (fmul (S754_zero (sec <? 0)) (of_Z 1000000000)) with (S754_zero (sec <? 0)) by (by destruct (sec <? 0)).
  assert (forall n f, - 2 ^ 63 <= n < 2 ^ 63 -> to_int64 (Some n) f = n) as I64.
  { intros n f Hn. unfold to_int64. by replace ((- 2 ^ 63 <=? n) && (n <? 2 ^ 63)) with true by lia. }
  cbn [round]. rewrite Et, !I64 by lia. unfold Unix. change (0 / 1000000000) with 0. by rewrite Z.add_0_r, wrap64_small by lia.
Qed.

Lemma yields_timestamp k depth sec : depth + 1 <= MaxDepth -> - 2 ^ 53 < sec < 2 ^ 53 ->
  yields (value (S (S k)) depth) (enc_timestamp sec 0) (CTime sec 0).
Proof.
  intros Hd Hs. unfold enc_timestamp. cbn [Z.eqb negb]. apply yields_value; [lia|lia|lia|]. intros low. rewrite <- (sapp_nil_r (enc_integer sec)).
  eapply yields_bind; [apply yields_integer; lia|]. cbv beta. unfold tag_value. cbn [Z.eqb Pos.eqb]. rewrite epoch_seconds by done. apply yields_ret.
Qed.

(** ** Lists and maps *)

(** A text that [value] reads as [v], given steps enough. *)
Definition reads (depth : Z) (s : string) (v : cval) : Prop :=
  1 <= slen s /\ forall k, (2 * String.length s + 1 <= k)%nat -> yields (value k depth) s v.

Lemma reads_intro_long depth s v : (forall k, (2 * String.length s <= k)%nat -> yields (value (S k) depth) s v) -> reads depth s v.
Proof.
  intros Hv. split; [|intros [|k] Hk; [lia|apply Hv; lia]].
  destruct s as [|c s]; [|unfold slen; cbn; lia].
  specialize (Hv 0%nat (le_n _) 0 "" ltac:(lia) ltac:(done)). rewrite value_S in Hv. by destruct (MaxDepth <? depth).
Qed.

Lemma reads_intro depth s v : (forall k, yields (value (S k) depth) s v) -> reads depth s v.
Proof. intros Hv. by apply reads_intro_long. Qed.

Lemma reads_length depth s v : reads depth s v -> (1 <= String.length s)%nat.
Proof. unfold reads, slen. lia. Qed.

Lemma yields_array k depth parts vs out : Forall2 (reads (depth + 1)) parts vs ->
  (2 * String.length (foldr String.append "" parts) + 2 <= k)%nat ->
  yields (array_loop k depth (Some (Z.of_nat (length vs))) out) (foldr String.append "" parts) (out ++ vs).
Proof.
  intros F. revert k out. induction F as [|s v parts vs R F IH]; intros k out Hk; (destruct k as [|k]; [lia|]); cbn [array_loop].
  - rewrite app_nil_r. apply yields_ret.
  - cbn [foldr] in *. rewrite string_length_app in Hk. pose proof (reads_length _ _ _ R) as Ls. destruct R as [_ R].
    change (s +:+ ?t) with ("" +:+ (s +:+ t)). eapply yields_bind; [apply yields_ret|]. cbv beta.
    replace (Z.of_nat (length (v :: vs)) =? 0) with false by (symmetry; apply Z.eqb_neq; cbn [length]; lia).
    eapply yields_bind; [apply R; lia|]. cbv beta. replace (out ++ v :: vs) with ((out ++ [v]) ++ vs) by (by rewrite <- app_assoc).
    replace (Z.pred <$> Some (Z.of_nat (length (v :: vs)))) with (Some (Z.of_nat (length vs))) by (cbn [fmap option_fmap option_map length]; f_equal; lia).
    apply IH. lia.
Qed.

(** Keys and values in turn. *)
Lemma yields_map k depth kss vs out : Forall2 (fun ks v => reads (depth + 1) ks.2 v) kss vs -> depth + 1 <= MaxDepth ->
  (2 * String.length (foldr String.append "" (map (fun ks => enc_text ks.1 +:+ ks.2) kss)) + 2 <= k)%nat ->
  yields (map_loop k depth (Some (Z.of_nat (length vs))) out) (foldr String.append "" (map (fun ks => enc_text ks.1 +:+ ks.2) kss))
    (foldl (fun m kx => <[kx.1 := kx.2]> m) out (zip kss.*1 vs)).
Proof.
  intros F Hd. revert k out. induction F as [|[key s] v kss vs R F IH]; intros k out Hk; (destruct k as [|k]; [lia|]); cbn [map_loop].
  - apply yields_ret.
  - cbn [foldr map fst snd] in *. rewrite !string_length_app in Hk. pose proof (reads_length _ _ _ R) as Ls. destruct R as [_ R].
    assert (1 <= String.length (enc_text key))%nat as Lk.
    { unfold enc_text. rewrite string_length_app. pose proof (slen_enc_head 3 (slen key)). unfold slen in *. lia. }
    rewrite sapp_assoc. change (enc_text key +:+ ?t) with ("" +:+ (enc_text key +:+ t)). eapply yields_bind; [apply yields_ret|]. cbv beta.
    replace (Z.of_nat (length (v :: vs)) =? 0) with false by (symmetry; apply Z.eqb_neq; cbn [length]; lia).
    destruct k as [|k]; [lia|].
    eapply yields_bind; [apply (yields_string k _ 3 key (CStr key)); [lia|by right]|]. cbv beta iota.
    eapply yields_bind; [apply R; lia|]. cbv beta.
    replace (Z.pred <$> Some (Z.of_nat (length (v :: vs)))) with (Some (Z.of_nat (length vs))) by (cbn [fmap option_fmap option_map length]; f_equal; lia).
    apply (IH (S k)). lia.
Qed.

(** ** Members *)

(** The members of a struct that are written, with their values. *)
Definition live (fs : list (fieldType * gval)) : list (string * gval) :=
  live_fields isEmpty (map (fun '(f, x) => (f, x, x)) fs).

Lemma live_map {B} (g : gval -> B) fs :
  live_fields isEmpty (map (fun '(f, x) => (f, x, g x)) fs) = map (fun kx => (kx.1, g kx.2)) (live fs).
Proof.
  unfold live, live_fields. induction fs as [|[f x] fs IH]; [done|]. cbn [map omap list_omap].
  destruct (field_of f) as [[name omit]|]; cbn; [|exact IH]. destruct (omit && isEmpty x); cbn; [exact IH|]. by rewrite IH.
Qed.

Lemma live_elem fs k x : (k, x) ∈ live fs -> exists f, (f, x) ∈ fs.
Proof.
  unfold live, live_fields. intros ([[f y] z] & Hy & E)%list_elem_of_omap.
  apply list_elem_of_fmap in Hy as ([f' x'] & [= -> -> ->] & Hx). exists f'.
  destruct (field_of f') as [[name omit]|]; cbn in E; [|done]. destruct (omit && isEmpty x'); cbn in E; by simplify_eq.
Qed.

Lemma sorted_map {A B} (g : A -> B) (m : gmap string A) :
  sorted_members (g <$> m) = map (fun kx => (kx.1, g kx.2)) (sorted_members m).
Proof.
  unfold sorted_members. rewrite dom_fmap_L. induction (sort_strings _) as [|k ks IH]; [done|]. cbn.
  rewrite lookup_fmap. destruct (m !! k); cbn; [by rewrite IH|done].
Qed.

Lemma sorted_elem {A} (m : gmap string A) k x : (k, x) ∈ sorted_members m <-> m !! k = Some x.
Proof.
  unfold sorted_members. rewrite list_elem_of_omap. split.
  - intros (k' & _ & E). destruct (m !! k') eqn:L; cbn in E; by simplify_eq.
  - intros L. exists k. rewrite L. split; [|done]. unfold sort_strings. rewrite merge_sort_Permutation, elem_of_elements, elem_of_dom. by exists x.
Qed.

Lemma sorted_keys {A} (m : gmap string A) : NoDup (sorted_members m).*1.
Proof.
  unfold sorted_members. assert (NoDup (sort_strings (elements (dom m)))) as N.
  { unfold sort_strings. rewrite merge_sort_Permutation. apply NoDup_elements. }
  induction N as [|k ks Hk N IH]; cbn; [constructor|]. destruct (m !! k); cbn; [|done]. constructor; [|done].
  intros ([k' x] & -> & Hx)%list_elem_of_fmap. apply list_elem_of_omap in Hx as (k'' & Hk'' & E).
  destruct (m !! k''); cbn in E; by simplify_eq.
Qed.

(** Inserting the members one by one gives the map. *)
Lemma foldl_insert {A} (l : list (string * A)) (m : gmap string A) :
  NoDup l.*1 -> foldl (fun m kx => <[kx.1 := kx.2]> m) m l = list_to_map l ∪ m.
Proof.
  revert m; induction l as [|[k x] l IH]; intros m N; cbn; [by rewrite (left_id_L ∅ (∪))|].
  inversion N as [|? ? Nk N']; subst. rewrite IH by done. rewrite <- insert_union_l, insert_union_r; [done|].
  by apply not_elem_of_list_to_map.
Qed.

Lemma sorted_insert {A} (m : gmap string A) : foldl (fun m kx => <[kx.1 := kx.2]> m) ∅ (sorted_members m) = m.
Proof.
  rewrite foldl_insert, (right_id_L ∅ (∪)) by apply sorted_keys. apply map_eq. intros k. apply option_eq. intros x.
  by rewrite <- elem_of_list_to_map, sorted_elem by apply sorted_keys.
Qed.

Lemma enc_members_ok l ss : Forall2 (fun kr s => kr.2 = Ok s) l ss ->
  enc_members l = Ok (foldr String.append "" (map (fun ks => enc_text ks.1 +:+ ks.2) (zip l.*1 ss))).
Proof.
  intros F. unfold enc_members. assert (mapR (fun '(k, r) => s ← (r : result string); Ok (enc_text k +:+ s)) l =
    Ok (map (fun ks => enc_text ks.1 +:+ ks.2) (zip l.*1 ss))) as ->; [|done].
  induction F as [|[k r] s l ss E F IH]; [done|]. cbn in E. subst r. cbn. by rewrite IH.
Qed.

(** ** The round trip *)

Definition decodes_back (v : gval) : Prop := forall depth, 0 <= depth -> encodable v = true -> nesting v + depth <= MaxDepth ->
  exists s, enc_value v depth = Ok s /\ reads depth s (view v).

Lemma parts_exist depth (l : list gval) : 0 <= depth -> (forall x, x ∈ l -> decodes_back x) ->
  (forall x, x ∈ l -> encodable x = true /\ 1 + nesting x + depth <= MaxDepth) ->
  exists parts, Forall2 (fun x s => enc_value x (depth + 1) = Ok s /\ reads (depth + 1) s (view x)) l parts.
Proof.
  intros Hd IH All. induction l as [|x l IHl]; [by exists []|].
  destruct IHl as [parts F]; [intros; apply IH; by right|intros; apply All; by right|].
  destruct (All x) as [Ex Nx]; [by left|]. destruct (IH x (list_elem_of_here _ _) (depth + 1)) as (s & E & R); [lia|done|lia|].
  exists (s :: parts). by constructor.
Qed.

Lemma concat_long {A} (g : A -> string) l : (forall x, x ∈ l -> 1 <= slen (g x)) ->
  Z.of_nat (length l) <= slen (foldr String.append "" (map g l)).
Proof.
  intros All. induction l as [|x l IH]; [done|]. cbn [length map foldr]. rewrite slen_app.
  pose proof (All x (list_elem_of_here _ _)). assert (Z.of_nat (length l) <= slen (foldr String.append "" (map g l))) by (apply IH; intros; apply All; by right).
  lia.
Qed.

Lemma foldr_max_ge {A} (f : A -> Z) l : 0 <= foldr (fun x acc => Z.max (f x) acc) 0 l /\
  forall x, x ∈ l -> f x <= foldr (fun x acc => Z.max (f x) acc) 0 l.
Proof.
  induction l as [|y l [IH0 IH]]; cbn; [split; [done|by intros x ?%elem_of_nil]|].
  split; [lia|]. intros x [->|Hx]%elem_of_cons; [lia|]. specialize (IH x Hx). lia.
Qed.

Lemma map_fold_max_ge {A} (f : A -> Z) (m : gmap string A) : 0 <= map_fold (fun _ x acc => Z.max (f x) acc) 0 m /\
  forall k x, m !! k = Some x -> f x <= map_fold (fun _ x acc => Z.max (f x) acc) 0 m.
Proof.
  induction m as [|k y m Hk Hfst [IH0 IH]] using map_first_key_ind; [by rewrite map_fold_empty|].
  rewrite map_fold_insert_first_key by done. split; [lia|]. intros k' x.
  destruct (decide (k' = k)) as [->|Ne]; [rewrite lookup_insert_eq; intros [= ->]; lia|].
  rewrite lookup_insert_ne by done. intros Hx. specialize (IH _ _ Hx). lia.
Qed.

Lemma nesting_nonneg v : 0 <= nesting v.
Proof.
  induction v as [v IH] using (induction_ltof1 _ gnodes). unfold ltof in IH.
  destruct v as [| |[v|]| | | | | | |[l|]|l|b [m|]|fs|]; try done.
  - apply (IH v). cbn. lia.
  - apply (foldr_max_ge (fun x => 1 + nesting x)).
  - apply (foldr_max_ge (fun x => 1 + nesting x)).
  - apply (map_fold_max_ge (fun x => 1 + nesting x)).
  - apply (foldr_max_ge (fun kn : string * Z => 1 + kn.2)).
Qed.

(** Elements in their order, as an array of CBOR. *)
Lemma reads_array depth (l : list gval) : 0 <= depth -> depth <= MaxDepth -> (forall x, x ∈ l -> decodes_back x) ->
  (forall x, x ∈ l -> encodable x = true /\ 1 + nesting x + depth <= MaxDepth) ->
  exists parts, mapR id (map (fun x => enc_value x (depth + 1)) l) = Ok parts /\
    reads depth (enc_head 4 (Z.of_nat (length l)) +:+ foldr String.append "" parts) (CArr (map view l)).
Proof.
  intros Hd Dm IH All. destruct (parts_exist depth l Hd IH All) as [parts F].
  exists parts. split.
  { apply mapR_Ok, Forall2_fmap_l. apply (Forall2_impl _ _ _ _ F). by intros x s [E _]. }
  assert (Forall2 (reads (depth + 1)) parts (map view l)) as R.
  { clear -F. induction F as [|x s l parts [_ R] F IH]; cbn; by constructor. }
  apply reads_intro_long. intros k Hk. rewrite string_length_app in Hk. pose proof (slen_enc_head 4 (Z.of_nat (length l))) as Lh. unfold slen in Lh.
  apply yields_bounded. intros Hl. rewrite slen_app in Hl. pose proof (slen_nonneg (enc_head 4 (Z.of_nat (length l)))).
  assert (Z.of_nat (length l) <= slen (foldr String.append "" parts)) as Le.
  { replace (length l) with (length parts) by (by rewrite (Forall2_length _ _ _ F)). rewrite <- (map_id parts) at 2.
    apply (concat_long id). intros s Hs. destruct (proj1 (list_elem_of_lookup _ _) Hs) as [i Hi].
    destruct (Forall2_lookup_l _ _ _ _ _ R Hi) as (v & _ & [Ls _]). done. }
  apply yields_value; [done|lia|lia|]. intros low. rewrite <- (sapp_nil_r (foldr _ _ _)).
  eapply yields_bind; [|apply yields_ret]. replace (length l) with (length (map view l)) by apply length_map.
  apply (yields_array _ _ _ _ []); [done|]. lia.
Qed.

(** Members under their keys, as a map of CBOR. *)
Lemma reads_map depth (es : list (string * gval)) : 0 <= depth -> (forall k x, (k, x) ∈ es -> decodes_back x) ->
  (forall k x, (k, x) ∈ es -> encodable x = true /\ 1 + nesting x + depth <= MaxDepth) -> depth <= MaxDepth ->
  exists body, enc_members (map (fun kx => (kx.1, enc_value kx.2 (depth + 1))) es) = Ok body /\
    reads depth (enc_head 5 (Z.of_nat (length es)) +:+ body)
      (CMap (foldl (fun m kx => <[kx.1 := kx.2]> m) ∅ (map (fun kx => (kx.1, view kx.2)) es))).
Proof.
  intros Hd IH All Dm.
  destruct (parts_exist depth es.*2) as [parts F]; [done|by intros x ([k y] & -> & Hy)%list_elem_of_fmap; eapply IH| |].
  { intros x ([k y] & -> & Hy)%list_elem_of_fmap. by eapply All. }
  eexists. split.
  { apply (enc_members_ok _ parts), Forall2_fmap_l. apply Forall2_fmap_l in F. apply (Forall2_impl _ _ _ _ F). by intros [k x] s [E _]. }
  set (kss := zip es.*1 parts).
  assert ((map (fun kx => (kx.1, enc_value kx.2 (depth + 1))) es).*1 = es.*1) as -> by (change (map fst (map (fun kx => (kx.1, enc_value kx.2 (depth + 1))) es) = map fst es); by rewrite map_map).
  assert (Forall2 (fun ks v => reads (depth + 1) ks.2 v) kss (map (view ∘ snd) es)) as R.
  { subst kss. apply Forall2_fmap_l in F. clear -F. induction F as [|[k x] s es parts [_ R] F IH]; cbn; constructor; done. }
  assert (length parts = length es) as Lp by (apply Forall2_length in F; by rewrite length_fmap in F).
  assert (map (fun kx : string * gval => (kx.1, view kx.2)) es = zip kss.*1 (map (view ∘ snd) es)) as ->.
  { subst kss. rewrite fst_zip by (by rewrite length_fmap, Lp). clear. induction es as [|[k x] es IH]; [done|]. cbn. by rewrite <- IH. }
  fold kss. apply reads_intro_long. intros k Hk. rewrite string_length_app in Hk. pose proof (slen_enc_head 5 (Z.of_nat (length es))) as Lh. unfold slen in Lh.
  apply yields_bounded. intros Hl. rewrite slen_app in Hl.
  assert (Z.of_nat (length es) <= slen (foldr String.append "" (map (fun ks => enc_text ks.1 +:+ ks.2) kss))) as Le.
  { replace (length es) with (length kss) by (subst kss; rewrite length_zip_with, length_fmap; lia).
    apply (concat_long _ kss). intros ks Hks. rewrite slen_app. unfold enc_text. rewrite slen_app.
    pose proof (slen_enc_head 3 (slen ks.1)). pose proof (slen_nonneg ks.1). pose proof (slen_nonneg ks.2). lia. }
  pose proof (slen_nonneg (enc_head 5 (Z.of_nat (length es)))).
  apply yields_value; [done|lia|lia|]. intros low. rewrite <- (sapp_nil_r (foldr _ _ _)).
  destruct (decide (es = [])) as [->|Ne].
  { destruct k as [|k]; [lia|]. exact (yields_ret (CMap ∅)). }
  assert (depth + 1 <= MaxDepth).
  { destruct es as [|[k0 x0] es]; [done|]. destruct (All k0 x0) as [_ Nx]; [by left|]. pose proof (nesting_nonneg x0). lia. }
  eapply yields_bind; [|apply yields_ret]. replace (length es) with (length (map (view ∘ snd) es)) by apply length_map.
  apply yields_map; [done|done|]. lia.
Qed.

Lemma gnodes_elem l x : x ∈ l -> (gnodes x < gnodes (GArray l))%nat.
Proof. intros Hx. cbn [gnodes]. rewrite foldr_add_base. pose proof (foldr_add_ge gnodes 0 l x Hx). lia. Qed.

Lemma gnodes_member b m k x : m !! k = Some x -> (gnodes x < gnodes (GMap b (Some m)))%nat.
Proof. intros Hx. cbn [gnodes]. rewrite map_fold_add_base. pose proof (map_fold_add_ge gnodes 0 m k x Hx). lia. Qed.

Lemma gnodes_field fs f x : (f, x) ∈ fs -> (gnodes x < gnodes (GStruct fs))%nat.
Proof.
  intros Hx. cbn [gnodes]. rewrite (foldr_add_base (fun fx : fieldType * gval => gnodes fx.2)).
  pose proof (foldr_add_ge (fun fx : fieldType * gval => gnodes fx.2) 0 fs (f, x) Hx). cbn in *. lia.
Qed.

Lemma roundtrip_list depth l : 0 <= depth -> depth <= MaxDepth -> forallb encodable l = true ->
  foldr (fun x acc => Z.max (1 + nesting x) acc) 0 l + depth <= MaxDepth -> (forall x, x ∈ l -> decodes_back x) ->
  exists parts, mapR id (map (fun x => enc_value x (depth + 1)) l) = Ok parts /\
    reads depth (enc_head 4 (Z.of_nat (length l)) +:+ foldr String.append "" parts) (CArr (map view l)).
Proof.
  intros Hd Dm Ev Nv IH. apply reads_array; [done..|]. intros x Hx. split.
  - apply list_elem_of_In in Hx. by apply (proj1 (forallb_forall _ _) Ev).
  - pose proof (proj2 (foldr_max_ge (fun x => 1 + nesting x) l) x Hx). cbv beta in *. lia.
Qed.

(** Every value that is encodable and not too deep is encoded, and read back. *)
Lemma roundtrip v : decodes_back v.
Proof.
  induction v as [v IH] using (induction_ltof1 _ gnodes). unfold ltof in IH. intros depth Hd Ev Nv.
  pose proof (nesting_nonneg v) as Nn.
  assert (depth <= MaxDepth) as Dm by lia. assert ((MaxDepth <? depth) = false) as Dn by lia.
  destruct v as [|sec ns|[v|]|b|i|u|f|str|[b|]|[l|]|l|keys [m|]|fs|]; cbn [enc_value encodable nesting view] in *; rewrite Dn; try done; zbool.
  all: try (eexists; split; [reflexivity|]; apply reads_intro; intros k; by apply (yields_simple k depth 22 CNil)).
  - subst ns. eexists; split; [reflexivity|]. apply reads_intro_long. intros [|k] Hk; [exfalso|apply yields_timestamp; lia].
    unfold enc_timestamp in Hk. rewrite string_length_app in Hk. pose proof (slen_enc_head 6 1) as Lh. unfold slen in Lh. lia.
  - apply (IH v); [cbn; lia|done..].
  - eexists; split; [reflexivity|]. apply reads_intro. intros k. destruct b; [apply (yields_simple k depth 21)|apply (yields_simple k depth 20)]; done.
  - eexists; split; [reflexivity|]. apply reads_intro. intros k. apply yields_integer; lia.
  - eexists; split; [reflexivity|]. apply reads_intro. intros k. by apply yields_value_nil.
  - eexists; split; [reflexivity|]. apply reads_intro. intros k. by apply yields_float.
  - eexists; split; [reflexivity|]. apply reads_intro. intros k. apply yields_string; [done|by right].
  - eexists; split; [reflexivity|]. apply reads_intro. intros k. apply yields_string; [done|by left].
  - destruct (roundtrip_list depth l) as (parts & E & R); [done..|by intros x ?; apply IH, gnodes_elem|]. rewrite E. eauto.
  - destruct (roundtrip_list depth l) as (parts & E & R); [done..|by intros x ?; apply IH, gnodes_elem|]. rewrite E. eauto.
  - destruct keys; [|done]. rewrite sorted_map, length_map.
    destruct (reads_map depth (sorted_members m)) as (body & E & R); [done|..|done|].
    + intros k x Hx%sorted_elem. by eapply IH, gnodes_member.
    + intros k x Hx%sorted_elem. apply map_fold_andb in Ev. specialize (Ev k x Hx).
      pose proof (proj2 (map_fold_max_ge (fun x => 1 + nesting x) m) k x Hx). cbv beta in *. split; [done|lia].
    + rewrite E. eexists. split; [reflexivity|]. rewrite <- sorted_map, sorted_insert in R. exact R.
  - eexists; split; [by destruct keys|]. apply reads_intro; intros k; by apply (yields_simple k depth 22 CNil).
  - rewrite (live_map encodable) in Ev. rewrite (live_map nesting) in Nv.
    rewrite (live_map view), (live_map (fun x => enc_value x (depth + 1))), length_map.
    destruct (reads_map depth (live fs)) as (body & E & R); [done|..|done|].
    + intros k x [f Hx]%live_elem. by eapply IH, gnodes_field.
    + intros k x Hx. apply forallb_forall with (x := (k, encodable x)) in Ev.
      * pose proof (proj2 (foldr_max_ge (fun kn : string * Z => 1 + kn.2) (map (fun kx => (kx.1, nesting kx.2)) (live fs))) (k, nesting x)) as G.
        cbn in Ev, G. split; [done|]. assert (1 + nesting x <= foldr (fun kn acc => Z.max (1 + kn.2) acc) 0 (map (fun kx : string * gval => (kx.1, nesting kx.2)) (live fs))); [|lia].
        apply G. apply list_elem_of_fmap. by exists (k, x).
      * apply list_elem_of_In, list_elem_of_fmap. by exists (k, x).
    + rewrite E. eexists. split; [reflexivity|]. exact R.
Qed.

End Roundtrip.

(** ** The decoder never runs away *)

(** The rest of a buffer is a suffix of what it was, at the position that says so. *)
Definition advanced (d d' : decoder) : Prop := exists s, rest d = s +:+ rest d' /\ pos d' = pos d + slen s.

Lemma advanced_refl d : advanced d d.
Proof. exists "". split; [done|change (slen "") with 0; lia]. Qed.

Lemma advanced_trans d1 d2 d3 : advanced d1 d2 -> advanced d2 d3 -> advanced d1 d3.
Proof.
  intros (s & E1 & P1) (t & E2 & P2). exists (s +:+ t). rewrite slen_app, E1, E2, sapp_assoc. split; [done|lia].
Qed.

Definition left (d : decoder) : nat := String.length (rest d).

Lemma advanced_left d d' : advanced d d' -> (left d' <= left d)%nat /\ buf_len d' = buf_len d.
Proof. intros (s & E & P). unfold left, buf_len. rewrite E, P, string_length_app, slen_app. split; lia. Qed.

(** The four bytes a length near 2^63 opens with. *)
Definition huge : string := String "127" (String "255" (String "255" (String "255" ""))).

Lemma contains_suffix s t u : contains t u = true -> contains (s +:+ t) u = true.
Proof. intros (a & b & ->)%contains_spec. apply contains_spec. exists (s +:+ a), b. by rewrite !sapp_assoc. Qed.

Section Total.
(** That the body holds a length near 2^63. *)
Context (danger : Prop).

(** A position in a buffer that fits a slice, of a body that is dangerous if the rest is. *)
Definition sane (d : decoder) : Prop := 0 <= pos d /\ buf_len d < 2 ^ 31 /\ (contains (rest d) huge = true -> danger).

(** [m] ends: with a value further on in the buffer, of which [P] holds; with an error; or
    with a panic, if the body is dangerous. *)
Definition ends {A} (d : decoder) (P : A -> decoder -> Prop) (o : outcome (A * decoder)) : Prop :=
  match o with
  | Ret (Ok (a, d')) => advanced d d' /\ P a d'
  | Ret (Err _) => True
  | Panic => danger
  | OutOfFuel => False
  end.

Lemma ends_bind {A B} (m : D A) (f : A -> D B) d P Q :
  ends d P (m d) -> (forall a d', advanced d d' -> P a d' -> ends d' Q (f a d')) -> ends d Q (dbind m f d).
Proof.
  intros Hm Hf. unfold dbind. destruct (m d) as [[[a d']|e]| |]; cbn in *; try done.
  destruct Hm as [Ad Pa]. specialize (Hf a d' Ad Pa). destruct (f a d') as [[[b d'']|e]| |]; cbn in *; try done.
  destruct Hf as [Ad' Qb]. split; [by eapply advanced_trans|done].
Qed.

Lemma ends_impl {A} (d : decoder) (P Q : A -> decoder -> Prop) o :
  (forall a d', advanced d d' -> P a d' -> Q a d') -> ends d P o -> ends d Q o.
Proof. intros HPQ. destruct o as [[[a d']|e]| |]; cbn; try done. intros [Ad Pa]. auto. Qed.

Lemma sane_advanced d d' : sane d -> advanced d d' -> sane d'.
Proof.
  intros (P & B & Da) Ad. destruct (advanced_left _ _ Ad) as [_ E]. destruct Ad as (s & Es & E'). pose proof (slen_nonneg s).
  split; [lia|]. split; [lia|]. intros C. apply Da. rewrite Es. by apply contains_suffix.
Qed.

Lemma ends_ret {A} (a : A) d (P : A -> decoder -> Prop) : P a d -> ends d P (dret a d).
Proof. intros Pa. split; [apply advanced_refl|done]. Qed.

(** [more] and the slice after it, of a length that fits an int. *)
Lemma more_spec n d : sane d -> 0 <= n < 2 ^ 62 -> ends d (fun _ d' => d' = d /\ n <= slen (rest d)) (more n d).
Proof.
  intros (Hp & Hb & _) Hn. unfold more. pose proof (slen_nonneg (rest d)). unfold buf_len in *.
  rewrite wrap64_small by lia. destruct (Z.ltb_spec (pos d + slen (rest d)) (pos d + n)); [done|].
  split; [apply advanced_refl|]. split; [done|lia].
Qed.

Lemma slice_spec n d : sane d -> 0 <= n <= slen (rest d) ->
  ends d (fun s d' => rest d = s +:+ rest d' /\ slen s = n) (take_slice n d).
Proof.
  intros (Hp & Hb & _) Hn. unfold buf_len in Hb. pose proof (slen_nonneg (rest d)). unfold take_slice. rewrite wrap64_small by lia.
  replace (pos d + n <? pos d) with false by lia.
  pose proof (take_bytes_drop (Z.to_nat n) (rest d)) as E. pose proof (slen_take (Z.to_nat n) (rest d)) as L.
  assert (slen (take_bytes (Z.to_nat n) (rest d)) = n) as Ln by lia.
  split; [exists (take_bytes (Z.to_nat n) (rest d)); split; [done|by rewrite Ln]|]. done.
Qed.

Lemma peek_spec d : 1 <= slen (rest d) -> ends d (fun b d' => d' = d /\ 0 <= b < 256) (peek_byte d).
Proof.
  intros Hn. unfold peek_byte. destruct (rest d) as [|c s] eqn:E; [by cbn in Hn|]. split; [apply advanced_refl|].
  split; [done|apply byte_of_range].
Qed.

Lemma byteAt_spec d : sane d -> ends d (fun b d' => (left d' < left d)%nat /\ 0 <= b < 256) (byteAt d).
Proof.
  intros Sd. unfold byteAt. eapply ends_bind; [by apply more_spec|]. intros [] d1 _ [-> Hn].
  eapply ends_bind; [by apply peek_spec|]. intros b d2 _ [-> Hb].
  eapply ends_bind; [by apply slice_spec|]. intros s d3 _ [E Ls]. apply ends_ret. split; [|done].
  unfold left. rewrite E, string_length_app. unfold slen in Ls. lia.
Qed.

Lemma be_value_range s acc : 0 <= acc -> 0 <= be_value acc s < (acc + 1) * 256 ^ slen s.
Proof.
  revert acc; induction s as [|c s IH]; intros acc Ha; [change (slen "") with 0; cbn [be_value]; lia|].
  cbn [be_value]. pose proof (byte_of_range c). destruct (IH (acc * 256 + byte_of c)) as [L U]; [lia|]. split; [done|].
  replace (slen (String c s)) with (Z.succ (slen s)) by (unfold slen; cbn [String.length]; lia).
  pose proof (slen_nonneg s). rewrite Z.pow_succ_r by lia. pose proof (Z.pow_pos_nonneg 256 (slen s)). nia.
Qed.

(** An argument so large opens with the four bytes. *)
Lemma huge_arg s : slen s = 8 -> 2 ^ 63 - 2 ^ 31 <= be_value 0 s < 2 ^ 63 -> contains s huge = true.
Proof.
  intros Ls Hv. destruct s as [|a [|b [|c [|e [|f [|g [|h [|i [|j s]]]]]]]]]; try by (unfold slen in Ls; cbn in Ls; lia).
  cbn [be_value] in Hv.
  pose proof (byte_of_range a); pose proof (byte_of_range b); pose proof (byte_of_range c); pose proof (byte_of_range e);
  pose proof (byte_of_range f); pose proof (byte_of_range g); pose proof (byte_of_range h); pose proof (byte_of_range i).
  assert (byte_of a = 127 /\ byte_of b = 255 /\ byte_of c = 255 /\ byte_of e = 255) as (Ea & Eb & Ec & Ee) by lia.
  rewrite <- (chr_byte_of a), <- (chr_byte_of b), <- (chr_byte_of c), <- (chr_byte_of e), Ea, Eb, Ec, Ee.
  apply contains_spec. by eexists "", _.
Qed.

(** An argument that would overflow an index shows in the buffer. *)
Definition tame (arg : Z) : Prop := 0 <= arg < 2 ^ 64 /\ (2 ^ 63 - 2 ^ 31 <= arg < 2 ^ 63 -> danger).

Lemma tame_small arg : 0 <= arg < 2 ^ 62 -> tame arg.
Proof. intros Ha. split; [lia|]. intros Hb. exfalso. lia. Qed.

Lemma read_arg_spec n d : sane d -> 0 <= n <= 8 -> ends d (fun v _ => tame v) (read_arg n d).
Proof.
  intros Sd Hn. unfold read_arg. eapply ends_bind; [apply more_spec; [done|lia]|]. intros [] d1 _ [-> Hl].
  eapply ends_bind; [apply slice_spec; [done|lia]|]. intros s d2 _ [E Ls]. apply ends_ret.
  pose proof (be_value_range s 0 ltac:(lia)) as R. rewrite Ls in R.
  destruct (decide (n = 8)) as [->|N8].
  - split; [done|]. intros Hv. apply (proj2 (proj2 Sd)). rewrite E. pose proof (huge_arg s Ls Hv) as C. apply contains_spec in C as (a & b & ->). apply contains_spec.
    exists a, (b +:+ rest d2). by rewrite !sapp_assoc.
  - apply tame_small. pose proof (Z.pow_le_mono_r 256 n 7). lia.
Qed.

(** What [head] promises: it moved on, and its argument is tame. *)
Definition head_ok (d : decoder) (r : Z * Z * Z * bool) (d' : decoder) : Prop := (left d' < left d)%nat /\ tame r.1.2.

Lemma head_spec d : sane d -> ends d (head_ok d) (head d).
Proof.
  intros Sd. unfold head. eapply ends_bind; [by apply byteAt_spec|]. intros ib d1 A1 [L1 Hib].
  pose proof (sane_advanced _ _ Sd A1) as S1.
  assert (0 <= Z.land ib 31 < 32) as Lo.
  { change 31 with (Z.ones 5). rewrite Z.land_ones by lia. apply Z.mod_pos_bound. lia. }
  assert (forall n (low : Z), 0 <= n <= 8 -> ends d1 (head_ok d) ((arg <- read_arg n; dret (Z.shiftr ib 5, low, arg, false)) d1)) as Arg.
  { intros n low Hn. eapply ends_bind; [by apply read_arg_spec|]. intros v d2 A2 Hv. apply ends_ret.
    destruct (advanced_left _ _ A2). split; [lia|done]. }
  unfold head_arg. repeat (case_match; zbool); try (apply Arg; lia); try done.
  - apply ends_ret. split; [done|]. apply tame_small. cbn. lia.
  - eapply ends_bind; [by apply byteAt_spec|]. intros b d2 A2 [L2 Hb]. apply ends_ret. split; [lia|]. apply tame_small. cbn. lia.
  - apply ends_ret. split; [done|]. by apply tame_small.
Qed.

(** A definite string: the panic is a length near 2^63, which wraps past the check. *)
Lemma definite_spec arg d : sane d -> tame arg -> ends d (fun _ _ => True) (definite_string arg d).
Proof.
  intros Sd [Ha Hh]. unfold definite_string. set (n := wrap64 arg).
  destruct ((n <? 0) || negb (n mod 2 ^ 64 =? arg)) eqn:C; [done|]. zbool.
  match goal with H : negb _ = false |- _ => apply negb_false_iff, Z.eqb_eq in H; rename H into Em end.
  assert (0 <= n < 2 ^ 63 /\ n = arg) as [Hn ->].
  { pose proof (wrap64_range arg). subst n. split; [lia|]. rewrite Z.mod_small in Em by lia. done. }
  pose proof Sd as (Hp & Hb & _). pose proof (slen_nonneg (rest d)). unfold buf_len in Hb.
  destruct (Z.le_gt_cases (2 ^ 63) (pos d + arg)) as [Ov|No].
  - unfold dbind, more, take_slice, buf_len. destruct (_ <? wrap64 (pos d + arg)); [done|]. cbn [mbind outcome_mbind outcome_bind fst snd].
    replace (wrap64 (pos d + arg) <? pos d) with true.
    { cbn. apply Hh. lia. }
    symmetry. apply Z.ltb_lt. unfold wrap64. replace (pos d + arg + 2 ^ 63) with (pos d + arg - 2 ^ 63 + 1 * 2 ^ 64) by lia.
    rewrite Z.mod_add, Z.mod_small by lia. lia.
  - unfold dbind, more, buf_len. rewrite wrap64_small by lia. destruct (Z.ltb_spec (pos d + slen (rest d)) (pos d + arg)); [done|].
    cbn [mbind outcome_mbind outcome_bind fst snd]. eapply ends_impl; [|apply slice_spec; [done|lia]]. done.
Qed.

Lemma at_break_spec d : sane d -> ends d (fun (stop : bool) d' => stop = false -> d' = d) (at_break d).
Proof.
  intros Sd. unfold at_break. eapply ends_bind; [by apply more_spec|]. intros [] d1 _ [-> Hn].
  eapply ends_bind; [by apply peek_spec|]. intros b d2 _ [-> _]. destruct (b =? 255); [|by apply ends_ret].
  eapply ends_bind; [by apply slice_spec|]. intros s d3 _ _. by apply ends_ret.
Qed.

Lemma chunks_spec fuel major out d : sane d -> (left d < fuel)%nat -> ends d (fun _ _ => True) (chunks fuel major out d).
Proof.
  revert out d; induction fuel as [|k IH]; intros out d Sd Lf; [lia|]. cbn [chunks].
  eapply ends_bind; [by apply at_break_spec|]. intros stop d1 _ Hs. destruct stop; [by apply ends_ret|]. rewrite Hs by done.
  eapply ends_bind; [by apply head_spec|]. intros [[[m lo] arg] ind] d2 A2 [L2 T2]. cbn in T2.
  pose proof (sane_advanced _ _ Sd A2) as S2.
  destruct (negb (m =? major) || ind); [done|].
  eapply ends_bind; [by apply definite_spec|]. intros chunk d3 A3 _. destruct (advanced_left _ _ A3).
  apply IH; [by eapply sane_advanced|lia].
Qed.

Lemma byteString_spec fuel major arg indef d : sane d -> tame arg -> (left d < fuel)%nat ->
  ends d (fun _ _ => True) (byteString fuel major arg indef d).
Proof. intros Sd Ta Lf. unfold byteString. destruct indef; [by apply chunks_spec|by apply definite_spec]. Qed.

Context `{GoConvert}.

Lemma value_spec fuel depth d : sane d -> (2 * left d + 1 <= fuel)%nat -> ends d (fun _ d' => (left d' < left d)%nat) (value fuel depth d)
with array_spec fuel depth n out d : sane d -> (2 * left d + 2 <= fuel)%nat -> ends d (fun _ _ => True) (array_loop fuel depth n out d)
with map_spec fuel depth n out d : sane d -> (2 * left d + 2 <= fuel)%nat -> ends d (fun _ _ => True) (map_loop fuel depth n out d).
Proof.
  all: intros Sd Lf; (destruct fuel as [|k]; [lia|]).
  - rewrite value_S. case_match; [done|]. eapply ends_bind; [by apply head_spec|].
    intros [[[major low] arg] indef] d1 A1 [L1 T1]. cbn in T1. pose proof (sane_advanced _ _ Sd A1) as S1.
    assert (forall {A B} (m : D A) (f : A -> B), ends d1 (fun _ _ => True) (m d1) -> ends d1 (fun _ d' => (left d' < left d)%nat) ((x <- m; dret (f x)) d1)) as Go.
    { intros A B m f Hm. eapply ends_bind; [exact Hm|]. intros a d2 A2 _. apply ends_ret. destruct (advanced_left _ _ A2). lia. }
    unfold branch. repeat (case_match; zbool); try (by apply ends_ret); try done.
    + apply Go, byteString_spec; [done|done|lia].
    + apply Go, byteString_spec; [done|done|lia].
    + apply Go, array_spec; [done|lia].
    + apply Go, array_spec; [done|lia].
    + apply Go, map_spec; [done|lia].
    + apply Go, map_spec; [done|lia].
    + eapply ends_bind; [apply value_spec; [done|lia]|]. intros v d2 A2 L2. cbv beta in L2. unfold tag_value.
      repeat case_match; try done. apply ends_ret. lia.
    + unfold simple. repeat case_match; try done; by apply ends_ret.
  - cbn [array_loop]. eapply ends_bind.
    { instantiate (1 := fun (stop : bool) d' => stop = false -> d' = d). destruct n; [by apply ends_ret|by apply at_break_spec]. }
    intros stop d1 A1 Hs. destruct stop; [by apply ends_ret|]. rewrite Hs by done.
    eapply ends_bind; [apply value_spec; [done|lia]|]. intros v d2 A2 L2. cbv beta in L2. apply array_spec; [by eapply sane_advanced|lia].
  - cbn [map_loop]. eapply ends_bind.
    { instantiate (1 := fun (stop : bool) d' => stop = false -> d' = d). destruct n; [by apply ends_ret|by apply at_break_spec]. }
    intros stop d1 A1 Hs. destruct stop; [by apply ends_ret|]. rewrite Hs by done.
    eapply ends_bind; [apply value_spec; [done|lia]|]. intros key d2 A2 L2. cbv beta in L2. pose proof (sane_advanced _ _ Sd A2) as S2. case_match; try done.
    eapply ends_bind; [apply value_spec; [done|lia]|]. intros v d3 A3 L3. cbv beta in L3. apply map_spec; [by eapply sane_advanced|lia].
Qed.

End Total.

(** ** The theorems *)

(** What is encoded does not look compressed. *)
Lemma not_gzipped `{GoConvert} `{Gzip} s v : slen s < 2 ^ 63 -> reads 0 s v -> Gunzip s = Ok s.
Proof.
  intros Ls [_ R]. destruct s as [|a [|b s]]; [done|done|]. unfold Gunzip.
  destruct ((byte_of a =? 31) && (byte_of b =? 139)) eqn:C; [|done]. exfalso. zbool.
  assert (slen (String a "") + slen (String b s) < 2 ^ 63) as La by (rewrite <- slen_app; exact Ls).
  pose proof (yields_byteAt a 0 (String b s) ltac:(lia) ltac:(lia)) as B.
  specialize (R (S (2 * String.length (String a (String b s)) + 1)) ltac:(lia) 0 "" ltac:(lia) ltac:(change (slen "") with 0; lia)).
  rewrite value_S, sapp_nil_r in R. change (MaxDepth <? 0) with false in R. unfold dbind at 1, head, dbind in R.
  change (String a "" +:+ String b s) with (String a (String b s)) in B. rewrite B in R.
  cbn [mbind outcome_mbind outcome_bind fst snd] in R. match goal with H : byte_of a = 31 |- _ => rewrite H in R end. discriminate R.
Qed.

Definition crash : string := String "091" (be64 (2 ^ 63 - 1)).

(** C32: a body of less than 2^31 bytes is decoded to a value or refused with an error, in a
    bounded number of steps and without a read past its end, unless a string head in the
    body announces a length near 2^63: the bound check overflows and the decoder panics, as
    it does on nine bytes. *)
Theorem Decode_total `{GoConvert} `{Gzip} body : slen body < 2 ^ 31 ->
  ((exists r, Decode body = Ret r) \/
   (Decode body = Panic /\ exists raw, Gunzip body = Ok raw /\ contains raw huge = true)) /\
  Decode crash = Panic.
Proof.
  intros Lb. split; [|vm_compute; reflexivity]. unfold Decode.
  assert (forall raw, Gunzip body = Ok raw -> slen raw < 2 ^ 31) as Lr.
  { intros raw. unfold Gunzip. destruct body as [|a [|b s]]; [intros [= <-]; exact Lb..|].
    destruct ((byte_of a =? 31) && (byte_of b =? 139)); [|intros [= <-]; exact Lb].
    intros HG. inv_bind. case_hyp HG. zbool. change MaxDecompressed with 33554432 in *. injection HG as <-. lia. }
  destruct (Gunzip body) as [raw|e]; [|left; by eexists]. specialize (Lr raw eq_refl).
  unfold decode_raw. set (d := mkDecoder 0 raw).
  assert (sane (contains raw huge = true) d) as Sd by exact (conj (Z.le_refl 0) (conj Lr (fun C => C))).
  pose proof (value_spec _ (fuel_for raw) 0 d Sd (le_n _)) as E.
  destruct (value (fuel_for raw) 0 d) as [[[v d']|e]| |]; cbn in *.
  - left. destruct (pos d' =? buf_len d'); by eexists.
  - left. by eexists.
  - right. split; [done|]. by exists raw.
  - done.
Qed.

#[local] Instance no_gzip : Gzip := {| gunzip _ := Err (plain_error "gzip: invalid header") |}.

Lemma Decode_total_witness : Decode (String (chr 0x82) (String (chr 1) (String (chr 0xf5) ""))) = Ret (Ok (CArr [CNum (of_Z 1); CBool true])).
Proof.
  destruct (Decode_total (String (chr 0x82) (String (chr 1) (String (chr 0xf5) "")))) as [[[r E]|[E _]] _];
    [vm_compute; reflexivity|rewrite E..]; vm_compute in E; [by symmetry|discriminate E].
Defined.

(** C31: a Go value that nests at most sixty-four levels and holds only what the protocol
    can carry exactly — integers of their width (negative ones within 2^53), float64s,
    texts, byte strings, dates of whole seconds, and nil, slices, maps keyed by strings and
    structs of these — is encoded, and decoding the body gives it back: lists and maps
    member by member, structs under the names of their json tags without the members
    omitempty drops, byte strings in base64. *)
Theorem Marshal_Decode `{GoConvert} `{Gzip} v : encodable v = true -> nesting v <= MaxDepth ->
  exists body, Marshal v = Ok body /\ (slen body < 2 ^ 63 -> Decode body = Ret (Ok (view v))).
Proof.
  intros Ev Nv. destruct (roundtrip v 0) as (body & E & R); [lia|done|lia|]. exists body. split; [done|].
  intros Lb. unfold Decode. rewrite (not_gzipped body (view v) Lb R). unfold decode_raw.
  destruct R as [_ R]. specialize (R (fuel_for body) (le_n _) 0 "" ltac:(lia) ltac:(change (slen "") with 0; lia)).
  rewrite sapp_nil_r in R. rewrite R. cbn [mbind outcome_mbind outcome_bind pos buf_len rest].
  unfold buf_len. cbn [pos rest]. change (slen "") with 0. by rewrite Z.add_0_r, Z.eqb_refl.
Qed.

Definition a_datum : gval := GStruct [
  (mkFieldType "MetricName" true "MetricName", GString "Latency");
  (mkFieldType "Value" true "Value,omitempty", GFloat (of_Z 0));
  (mkFieldType "Counts" true "Counts", GSlice (Some [GInt (-3); GUint 70000]));
  (mkFieldType "at" false "", GOther);
  (mkFieldType "Timestamp" true "", GPtr (Some (GTime 1700000000 0)))].

Lemma Marshal_Decode_witness : exists body, Marshal a_datum = Ok body /\
  Decode body = Ret (Ok (CMap (<["Timestamp" := CTime 1700000000 0]> (<["Counts" := CArr [CNum (of_Z (-3)); CNum (of_Z 70000)]]> {["MetricName" := CStr "Latency"]})))).
Proof.
  destruct (Marshal_Decode a_datum) as (body & E & R); [vm_compute; reflexivity|vm_compute; discriminate|].
  exists body. split; [exact E|]. apply R. vm_compute in E. injection E as <-. vm_compute. reflexivity.
Defined.

(** The indefinite form of an integer, which the encoding does not have, is read as zero. *)
Example indefinite_integer : decode_raw (String (chr 0x1f) "") = Ret (Ok (CNum (of_Z 0))).
Proof. vm_compute. reflexivity. Qed.
(** The milliseconds of a date are a fraction that binary64 rounds. *)
Example millisecond_lost : (s ← Marshal (GTime 1700000000 1000000); Ok (decode_raw s)) = Ok (Ret (Ok (CTime 1700000000 999928))).
Proof. vm_compute. reflexivity. Qed.
