(* ===== verification/Rpc.v ===== *)
(** * Rpc: the HTTP framing of RPC v2 CBOR (src/internal/rpcv2cbor/framing.go)

    Finding the operation in a path, telling such requests apart, and the responses that
    are written: a status, headers and a body. *)

From S2P Require Import Prelude Bytes Chunk Cbor.

Definition ContentType : string := "application/cbor".
Definition ProtocolHeader : string := "Smithy-Protocol".
Definition ProtocolID : string := "rpc-v2-cbor".
Definition QueryModeHeader : string := "X-Amzn-Query-Mode".
Definition QueryErrorHeader : string := "X-Amzn-Query-Error".

Definition is_slash (c : ascii) : bool := Ascii.eqb c "/".

(** The loop of [ParsePath]: the first service and operation pair of the segments decides. *)
Fixpoint find_pair (segs : list string) : option (string * string) :=
  match segs with
  | a :: ((service :: b :: operation :: _) as segs') =>
      if negb (String.eqb a "service") || negb (String.eqb b "operation") then find_pair segs'
      else if String.eqb service "" || String.eqb operation "" || has_char "#" service || has_char "#" operation then None
      else Some (service, operation)
  | _ => None
  end.

Definition ParsePath (path : string) : option (string * string) := find_pair (split_on "/" (trim is_slash path)).

Definition IsRequest (path : string) (h : header) : bool :=
  match ParsePath path with
  | None => false
  | Some _ =>
      let p := header_get h ProtocolHeader in
      if negb (String.eqb p "") && negb (String.eqb p ProtocolID) then false
      else has_prefix (header_get h "Content-Type") ContentType || String.eqb (header_get h "Content-Type") ""
  end.

Definition WantsQueryErrors (h : header) : bool := equal_fold (header_get h QueryModeHeader) "true".

Record response := mkResponse { r_Status : Z; r_Header : header; r_Body : string }.

Definition empty_map : string := String (chr 0xa0) "".

(** [WriteError], over a response whose request has the identifier [id]. *)
Definition WriteError (id : string) (h : header) (e : APIError) (queryCode : string) (wantsQuery : bool) : response :=
  let fault := if SenderFault e then "Sender" else "Receiver" in
  let body := match Marshal (GMap true (Some (<["__type" := GString (Code e)]> {["message" := GString (Message e)]}))) with
              | Ok b => b | Err _ => empty_map end in
  let h := header_set "x-amzn-RequestId" id (header_set ProtocolHeader ProtocolID (header_set "Content-Type" ContentType h)) in
  let h := if wantsQuery && negb (String.eqb queryCode "") then header_set QueryErrorHeader (queryCode +:+ ";" +:+ fault) h else h in
  mkResponse (Status e) h body.

(** [Write]; an error of [Marshal] is no [APIError], and goes out as an internal one. *)
Definition Write (id : string) (h : header) (v : option gval) : response :=
  let ok body := mkResponse 200 (header_set "x-amzn-RequestId" id (header_set ProtocolHeader ProtocolID (header_set "Content-Type" ContentType h))) body in
  match v with
  | None => ok empty_map
  | Some v =>
      match Marshal v with
      | Ok body => ok body
      | Err _ => WriteError id h (mkAPIError "InternalFailure" 500 "internal error" false None) "" false
      end
  end.

(** ** The framing finds what it writes *)

Fixpoint join_slash (segs : list string) : string :=
  match segs with
  | [] => ""
  | [s] => s
  | s :: segs' => s +:+ String "/" (join_slash segs')
  end.

Lemma split_join segs : segs <> [] -> Forall (fun s => has_char "/" s = false) segs -> split_on "/" (join_slash segs) = segs.
Proof.
  induction segs as [|s segs IH]; [done|]. intros _ F. inversion F as [|? ? Hs F']; subst.
  destruct segs as [|s' segs]; [by apply split_on_none|].
  change (join_slash (s :: s' :: segs)) with (s +:+ String "/" (join_slash (s' :: segs))). by rewrite split_on_app, IH.
Qed.

(** A pair is found behind any prefix that holds none. *)
Lemma find_pair_prefix pre service operation post :
  "service" ∉ pre -> service <> "" -> operation <> "" -> has_char "#" service = false -> has_char "#" operation = false ->
  find_pair (pre ++ "service" :: service :: "operation" :: operation :: post) = Some (service, operation).
Proof.
  intros Np Ns No Hs Ho. induction pre as [|a pre IH].
  - cbn. by rewrite Hs, Ho, (proj2 (String.eqb_neq service "") Ns), (proj2 (String.eqb_neq operation "") No).
  - apply not_elem_of_cons in Np as [Na Np]. specialize (IH Np).
    assert (String.eqb a "service" = false) as Ea by (apply String.eqb_neq; congruence).
    destruct pre as [|b [|c [|d pre]]]; cbn [app find_pair] in *; rewrite Ea; exact IH.
Qed.

(** The operation of a request is found under any path prefix. *)
Lemma ParsePath_prefix pre service operation path :
  "service" ∉ pre -> Forall (fun s => has_char "/" s = false) (pre ++ ["service"; service; "operation"; operation]) ->
  service <> "" -> operation <> "" -> has_char "#" service = false -> has_char "#" operation = false ->
  trim is_slash path = join_slash (pre ++ ["service"; service; "operation"; operation]) ->
  ParsePath path = Some (service, operation).
Proof.
  intros Np F Ns No Hs Ho E. unfold ParsePath. rewrite E, split_join; [by apply find_pair_prefix|by destruct pre|done].
Qed.

Example ParsePath_example : ParsePath "/cloudwatch/service/GraniteServiceVersion20100801/operation/PutMetricData" =
  Some ("GraniteServiceVersion20100801", "PutMetricData").
Proof. vm_compute. reflexivity. Qed.
