(* ===== verification/Params.v ===== *)
(** * Params: reading a decoded request (src/cloudwatch/params.go)

    The members of a request as its wire decoded them, CBOR into typed values and the query
    protocol into texts, and the accessors that reconcile the two.  An instant is the number
    of nanoseconds since 1970. *)

From Stdlib Require Import SpecFloat.
From S2P Require Import Prelude Bytes Clock Float64 Cbor.

(** Numbers and instants as texts: [strconv] and [time]. *)
Class NumText := {
  parse_float64 : string -> option float64;          (* strconv.ParseFloat(s, 64) *)
  parse_float64_failed : string -> float64;          (* its number when it also answers an error *)
  format_float64 : float64 -> string;                (* strconv.FormatFloat(f, 'f', -1, 64) *)
  parse_stamp : string -> option Z;                  (* time.Parse in the layouts of Time *)
  format_stamp : Z -> string                         (* Format(time.RFC3339) *)
}.

Definition params := gmap string cval.

Definition instant (sec ns : Z) : Z := sec * second + ns.
Definition UnixMilli (t : Z) : Z := wrap64 (t / 1000000).
Definition of_millis (ms : Z) : Z := ms * 1000000.

Section params.
Context `{GoConvert} `{NumText}.

Definition asStr (v : option cval) : string :=
  match v with
  | Some (CStr s) => s
  | Some (CBool b) => if b : bool then "true" else "false"
  | Some (CNum f) => format_float64 f
  | Some (CTime sec ns) => format_stamp (instant sec ns)
  | _ => ""
  end.

Definition asFloat (v : option cval) : option float64 :=
  match v with
  | Some (CNum f) => Some f
  | Some (CStr s) => parse_float64 (trim_space s)
  | _ => None
  end.

(** The number of [asFloat] whether or not it is usable. *)
Definition asFloat_number (v : option cval) : float64 :=
  match v with
  | Some (CNum f) => f
  | Some (CStr s) => default (parse_float64_failed (trim_space s)) (parse_float64 (trim_space s))
  | _ => S754_zero false
  end.

Definition Str (p : params) (name : string) : string := asStr (p !! name).

(** [strconv.ParseBool], false for a text it refuses. *)
Definition parse_bool (s : string) : bool := bool_decide (s ∈ ["1"; "t"; "T"; "TRUE"; "true"; "True"]).
Definition Bool (p : params) (name : string) : bool :=
  match p !! name with
  | Some (CBool b) => b
  | Some (CStr s) => parse_bool s
  | _ => false
  end.

Definition Float (p : params) (name : string) : option float64 := asFloat (p !! name).

Definition Float_number (p : params) (name : string) : float64 := asFloat_number (p !! name).

Definition Int (p : params) (name : string) (def : Z) : Z :=
  match asFloat (p !! name) with Some f => to_int64 (trunc f) f | None => def end.

Definition Time (p : params) (name : string) : option Z :=
  match p !! name with
  | Some (CTime sec ns) => Some (instant sec ns)
  | Some (CNum v) =>
      let sec := to_int64 (trunc v) v in
      let frac := fsub v (of_Z sec) in
      let nanos := fmul frac (of_Z 1000000000) in
      Some (instant sec (to_int64 (trunc nanos) nanos))
  | Some (CStr s) =>
      match parse_stamp s with
      | Some t => Some t
      | None => f ← parse_float64 s; Some (instant (to_int64 (trunc f) f) 0)
      end
  | _ => None
  end.

Definition List (p : params) (name : string) : list params :=
  match p !! name with
  | Some (CArr l) => omap (fun el => match el with CMap m => Some m | _ => None end) l
  | _ => []
  end.

Definition Strs (p : params) (name : string) : list string :=
  match p !! name with Some (CArr l) => map (fun el => asStr (Some el)) l | _ => [] end.

Definition Map (p : params) (name : string) : option params :=
  match p !! name with Some (CMap m) => Some m | _ => None end.

Definition Has (p : params) (name : string) : bool := bool_decide (is_Some (p !! name)).

End params.
