(* ===== verification/ModelCheck.v ===== *)
(** * ModelCheck: the constraint tables of requests (src/internal/modelcheck/modelcheck.go)

    A request body is the map its wire decoded, and a table of constraints is walked over
    it: a path resolves to the places of the body it names, and each place is checked.  A
    compiled regular expression is the predicate it is; one that does not compile matches
    nothing. *)

From stdpp Require Import pretty.
From Stdlib Require Import SpecFloat.
From S2P Require Import Prelude Bytes Float64 Cbor CborSpec Params.

Inductive constraint_kind := KindRequired | KindEnum | KindLength | KindRange | KindPattern.

Record Pat := mkPat { pat_src : string; pat_match : option (string -> bool) }.
Definition MatchString (p : Pat) (s : string) : bool := match pat_match p with Some f => f s | None => false end.

Definition NoMax : float64 := S754_infinity false.

Record Constraint := mkConstraint {
  c_Path : string;
  c_Kind : constraint_kind;
  c_Enum : list string;
  c_Min : float64;
  c_Max : float64;
  c_Pat : Pat
}.

(** ** Paths *)

Inductive marker := ListMarker | MapMarker.
Record segment := mkSegment { seg_name : string; seg_lower : string; seg_markers : list marker }.

Definition alnum (c : ascii) : bool :=
  let b := byte_of c in ((48 <=? b) && (b <=? 57)) || ((65 <=? b) && (b <=? 90)) || ((97 <=? b) && (b <=? 122)).

Fixpoint name_prefix (s : string) : string * string :=
  match s with
  | String c s' => if alnum c then let '(n, rest) := name_prefix s' in (String c n, rest) else ("", s)
  | EmptyString => ("", "")
  end.

Fixpoint read_markers (s : string) : option (list marker) :=
  match s with
  | EmptyString => Some []
  | String c (String d s') =>
      if Ascii.eqb c "[" && Ascii.eqb d "]" then ms ← read_markers s'; Some (ListMarker :: ms)
      else if Ascii.eqb c "{" && Ascii.eqb d "}" then ms ← read_markers s'; Some (MapMarker :: ms)
      else None
  | _ => None
  end.

(** [markerRE]: a name of letters and digits, then markers; anything else is a name. *)
Definition SplitSegment (seg : string) : string * list marker :=
  let '(name, rest) := name_prefix seg in
  match read_markers rest with
  | Some ms => if String.eqb name "" then (seg, []) else (name, ms)
  | None => (seg, [])
  end.

Definition lowerFirst (s : string) : string := match s with String c s' => String (lower_byte c) s' | EmptyString => "" end.

Definition parse_segment (p : string) : segment := let '(name, ms) := SplitSegment p in mkSegment name (lowerFirst name) ms.
Definition parsePath (path : string) : list segment := map parse_segment (split_on "." path).

(** ** Places *)

Record site := mkSite { site_val : option cval; site_disp : string }.   (* None: not present *)
Record element := mkElement { el_v : cval; el_disp : list string }.

(** [strings.Join] with dots. *)
Definition dotted (l : list string) : string := String.concat "." l.

(** One marker: the elements of a list from 1, the values of a map by key. *)
Definition expand_one (mk : marker) (el : element) : list element :=
  match mk, el_v el with
  | ListMarker, CArr l => imap (fun i item => mkElement item (el_disp el ++ [pretty (Z.of_nat i + 1)])) l
  | MapMarker, CMap m => map (fun '(k, v) => mkElement v (el_disp el ++ [k])) (sorted_members m)
  | _, _ => []
  end.

Fixpoint expand_level (level : list element) (markers : list marker) : list element :=
  match markers with
  | [] => level
  | mk :: markers' => expand_level (concat (map (expand_one mk) level)) markers'
  end.
Definition expand (start : element) (markers : list marker) : list element := expand_level [start] markers.

Fixpoint descend (segs : list segment) (cur : gmap string cval) (prefix : list string) : list site :=
  match segs with
  | [] => []
  | seg :: segs' =>
      let here := prefix ++ [seg_lower seg] in
      match segs', cur !! seg_name seg with
      | [], None => [mkSite None (dotted here)]
      | [], Some v =>
          match seg_markers seg with
          | [] => [mkSite (Some v) (dotted here)]
          | markers => map (fun el => mkSite (Some (el_v el)) (dotted (el_disp el))) (expand (mkElement v here) markers)
          end
      | _, None => []
      | _, Some v =>
          concat (map (fun el => match el_v el with CMap m => descend segs' m (el_disp el) | _ => [] end)
                    (expand (mkElement v here) (seg_markers seg)))
      end
  end.

Definition sites (root : gmap string cval) (path : string) : list site := descend (parsePath path) root [].

(** ** Checks *)

Definition CodeJSON : string := "ValidationException".
Definition CodeQuery : string := "ValidationError".

Definition validationErr (code format : string) : APIError :=
  Errf 400 (if String.eqb code "" then CodeJSON else code) ("1 validation error detected: " +:+ format).

Definition lengthOf (v : cval) : option Z :=
  match v with
  | CStr s => Some (slen s)
  | CArr l => Some (Z.of_nat (length l))
  | CMap m => Some (Z.of_nat (size m))
  | _ => None
  end.

Section checks.
Context `{NumText}.

Definition toNumber (v : cval) : option float64 :=
  match v with CNum f => Some f | CStr s => parse_float64 s | _ => None end.

(** The check of a value that is there. *)
Definition check_value (c : Constraint) (v : cval) (code : string) : option APIError :=
  match c_Kind c with
  | KindRequired => None
  | KindEnum =>
      match v with
      | CStr s => if bool_decide (s ∈ c_Enum c) then None
                  else Some (validationErr code "Value '%s' at '%s' failed to satisfy constraint: Member must satisfy enum value set: [%s]")
      | _ => None
      end
  | KindLength =>
      match lengthOf v with
      | None => None
      | Some n =>
          if fltb (of_Z n) (c_Min c) then Some (validationErr code "Value at '%s' failed to satisfy constraint: Member must have length greater than or equal to %d")
          else if fltb (c_Max c) (of_Z n) then Some (validationErr code "Value at '%s' failed to satisfy constraint: Member must have length less than or equal to %d")
          else None
      end
  | KindRange =>
      match toNumber v with
      | None => None
      | Some f =>
          if fltb f (c_Min c) then Some (validationErr code "Value '%s' at '%s' failed to satisfy constraint: Member must have value greater than or equal to %d")
          else if fltb (c_Max c) f then Some (validationErr code "Value '%s' at '%s' failed to satisfy constraint: Member must have value less than or equal to %d")
          else None
      end
  | KindPattern =>
      match v with
      | CStr s => if MatchString (c_Pat c) s then None
                  else Some (validationErr code "Value '%s' at '%s' failed to satisfy constraint: Member must satisfy regular expression pattern: %s")
      | _ => None
      end
  end.

Definition check (c : Constraint) (s : site) (code : string) : option APIError :=
  match site_val s with
  | None | Some CNil =>
      match c_Kind c with
      | KindRequired => Some (validationErr code "Value null at '%s' failed to satisfy constraint: Member must not be null")
      | _ => None
      end
  | Some v => check_value c v code
  end.

Fixpoint first_error {A} (f : A -> option APIError) (l : list A) : option APIError :=
  match l with [] => None | a :: l' => match f a with Some e => Some e | None => first_error f l' end end.

(** [ValidateMapAs]. *)
Definition ValidateMapAs (raw : gmap string cval) (table : list Constraint) (code : string) : option APIError :=
  first_error (fun c => first_error (fun s => check c s code) (sites raw (c_Path c))) table.
Definition ValidateMap (raw : gmap string cval) (table : list Constraint) : option APIError := ValidateMapAs raw table CodeJSON.

End checks.

(** ** What a table checks

    That a request passes a table exactly when every place a path reaches satisfies its
    constraint. *)

(** The values that markers lead to from a value. *)
Inductive marked : list marker -> cval -> cval -> Prop :=
| marked_here v : marked [] v v
| marked_list ms l v w : v ∈ l -> marked ms v w -> marked (ListMarker :: ms) (CArr l) w
| marked_map ms m k v w : m !! k = Some v -> marked ms v w -> marked (MapMarker :: ms) (CMap m) w.

(** The places a path names in a body: a member that is absent is a place too, but nothing
    is named inside a structure that is. *)
Inductive reaches : list segment -> gmap string cval -> option cval -> Prop :=
| reaches_absent seg m : m !! seg_name seg = None -> reaches [seg] m None
| reaches_leaf seg m v w : m !! seg_name seg = Some v -> marked (seg_markers seg) v w -> reaches [seg] m (Some w)
| reaches_inside seg segs m v m' r : segs <> [] -> m !! seg_name seg = Some v -> marked (seg_markers seg) v (CMap m') ->
    reaches segs m' r -> reaches (seg :: segs) m r.

Section spec.
Context `{NumText}.

(** What a constraint asks of a place. *)
Definition satisfies (c : Constraint) (r : option cval) : Prop :=
  match c_Kind c with
  | KindRequired => exists v, r = Some v /\ v <> CNil
  | KindEnum => forall s, r = Some (CStr s) -> s ∈ c_Enum c
  | KindLength => forall v n, r = Some v -> lengthOf v = Some n -> fltb (of_Z n) (c_Min c) = false /\ fltb (c_Max c) (of_Z n) = false
  | KindRange => forall v f, r = Some v -> toNumber v = Some f -> fltb f (c_Min c) = false /\ fltb (c_Max c) f = false
  | KindPattern => forall s, r = Some (CStr s) -> MatchString (c_Pat c) s = true
  end.

Lemma expand_level_concat markers : forall level,
  expand_level level markers = concat (map (fun el => expand_level [el] markers) level).
Proof.
  induction markers as [|mk markers IH]; intros level; cbn [expand_level].
  - induction level as [|el level IHl]; [done|]. cbn. by f_equal.
  - rewrite IH. induction level as [|el level IHl]; [done|]. cbn [map concat]. rewrite map_app, concat_app, IHl. f_equal.
    by rewrite app_nil_r, <- IH.
Qed.

Lemma elem_of_concat_map {A C} (f : A -> list C) l x : x ∈ concat (map f l) <-> exists a, a ∈ l /\ x ∈ f a.
Proof.
  rewrite list_elem_of_In, in_concat. setoid_rewrite in_map_iff. split.
  - intros (? & (a & <- & Ha) & Hx). exists a. by rewrite !list_elem_of_In.
  - intros (a & Ha & Hx). exists (f a). rewrite !list_elem_of_In in *. eauto.
Qed.

Lemma expand_marked markers : forall el w, (exists d, mkElement w d ∈ expand el markers) <-> marked markers (el_v el) w.
Proof.
  unfold expand. induction markers as [|mk markers IH]; intros [v disp] w; cbn [el_v].
  - cbn [expand_level]. setoid_rewrite list_elem_of_singleton. split; [by intros (d & [= -> _]); constructor|].
    inversion 1; subst. by exists disp.
  - cbn [expand_level map concat]. rewrite app_nil_r. setoid_rewrite (expand_level_concat markers (expand_one mk _)).
    setoid_rewrite elem_of_concat_map. split.
    + intros (d & el & Hel & Hw). assert (marked markers (el_v el) w) as Hm by (apply IH; by exists d).
      unfold expand_one in Hel. cbn [el_v el_disp] in Hel. destruct mk, v as [| | | |l|m|]; try (by apply elem_of_nil in Hel).
      * apply elem_of_lookup_imap in Hel as (i & item & -> & Hi). cbn in Hm. eapply marked_list; [by eapply list_elem_of_lookup_2|done].
      * apply list_elem_of_In, in_map_iff in Hel as ([k x] & <- & Hk%list_elem_of_In). cbn in Hm. eapply marked_map; [by apply sorted_elem|done].
    + inversion 1 as [|ms l x w' Hx Hm|ms m k x w' Hx Hm]; subst.
      * apply list_elem_of_lookup in Hx as (i & Hi). destruct (proj2 (IH (mkElement x (disp ++ [pretty (Z.of_nat i + 1)])) w) Hm) as (d & Hd).
        exists d, (mkElement x (disp ++ [pretty (Z.of_nat i + 1)])). split; [|done]. unfold expand_one. cbn [el_v el_disp].
        apply elem_of_lookup_imap. by exists i, x.
      * destruct (proj2 (IH (mkElement x (disp ++ [k])) w) Hm) as (d & Hd). exists d, (mkElement x (disp ++ [k])). split; [|done].
        unfold expand_one. cbn [el_v el_disp]. apply list_elem_of_In, in_map_iff. exists (k, x). split; [done|]. by apply list_elem_of_In, sorted_elem.
Qed.

(** The walk visits exactly the places a path names. *)
Lemma descend_reaches segs : forall m prefix r, (exists d, mkSite r d ∈ descend segs m prefix) <-> reaches segs m r.
Proof.
  induction segs as [|seg segs IH]; intros m prefix r; [split; [by intros (d & Hd%elem_of_nil)|by inversion 1]|].
  cbn [descend]. set (here := prefix ++ [seg_lower seg]). destruct segs as [|seg' segs].
  - clear IH. destruct (m !! seg_name seg) as [v|] eqn:E.
    + assert ((exists d, mkSite r d ∈ map (fun el => mkSite (Some (el_v el)) (dotted (el_disp el))) (expand (mkElement v here) (seg_markers seg))) <->
              exists w, r = Some w /\ marked (seg_markers seg) v w) as K.
      { split.
        - intros (d & Hd). apply list_elem_of_In, in_map_iff in Hd as ([w dw] & [= <- _] & Hw%list_elem_of_In). exists w. split; [done|].
          apply (expand_marked _ (mkElement v here)). by exists dw.
        - intros (w & -> & (d & Hd)%(expand_marked _ (mkElement v here))). exists (dotted d). apply list_elem_of_In, in_map_iff.
          exists (mkElement w d). split; [done|]. by apply list_elem_of_In. }
      assert (reaches [seg] m r <-> exists w, r = Some w /\ marked (seg_markers seg) v w) as ->.
      { split; [inversion 1; subst; [congruence|simplify_eq; eauto|done]|]. intros (w & -> & Hw). by eapply reaches_leaf. }
      rewrite <- K. destruct (seg_markers seg); [|done]. done.
    + split; [|inversion 1; subst; [by exists (dotted here); left|congruence|done]].
      intros (d & [= -> _]%list_elem_of_singleton). by constructor.
  - assert (reaches (seg :: seg' :: segs) m r <-> exists v m', m !! seg_name seg = Some v /\ marked (seg_markers seg) v (CMap m') /\ reaches (seg' :: segs) m' r) as ->.
    { split; [inversion 1; subst; eauto|]. intros (v & m' & ? & ? & ?). by eapply reaches_inside. }
    destruct (m !! seg_name seg) as [v|]; [|by split; [intros (d & Hd%elem_of_nil)|intros (? & ? & [=] & _)]].
    setoid_rewrite elem_of_concat_map. split.
    + intros (d & [w dw] & Hw & Hd). cbn [el_v el_disp] in Hd. destruct w as [| | | | |m'|]; try (by apply elem_of_nil in Hd).
      exists v, m'. split; [done|]. split; [apply (expand_marked _ (mkElement v here)); by exists dw|]. apply (IH m' dw). by exists d.
    + intros (v' & m' & [= <-] & (dw & Hw)%(expand_marked _ (mkElement v here)) & Hr). apply (IH m' dw) in Hr as (d & Hd).
      exists d, (mkElement (CMap m') dw). done.
Qed.

Lemma first_error_none {A} (f : A -> option APIError) l : first_error f l = None <-> forall a, a ∈ l -> f a = None.
Proof.
  induction l as [|a l IH]; [split; [by intros _ a Ha%elem_of_nil|done]|]. cbn [first_error]. destruct (f a) eqn:E.
  - split; [done|]. intros Hf. specialize (Hf a (list_elem_of_here _ _)). congruence.
  - rewrite IH. split; [intros Hl a' [->|Ha]%elem_of_cons; auto|]. intros Hl a' Ha. apply Hl. by right.
Qed.

Lemma first_error_some {A} (f : A -> option APIError) l e : first_error f l = Some e ->
  exists pre a post, l = pre ++ a :: post /\ f a = Some e /\ forall b, b ∈ pre -> f b = None.
Proof.
  induction l as [|a l IH]; [done|]. cbn [first_error]. destruct (f a) eqn:E.
  - intros [= ->]. exists [], a, l. split; [done|]. split; [done|]. by intros b Hb%elem_of_nil.
  - intros (pre & b & post & -> & Hb & Hpre)%IH. exists (a :: pre), b, post. split; [done|]. split; [done|].
    intros x [->|Hx]%elem_of_cons; auto.
Qed.

Lemma bounds_check lo hi f (e1 e2 : APIError) :
  (if fltb f lo then Some e1 else if fltb hi f then Some e2 else None) = None <-> fltb f lo = false /\ fltb hi f = false.
Proof. destruct (fltb f lo), (fltb hi f); split; try done; by intros []. Qed.

Lemma check_satisfies c r d code : check c (mkSite r d) code = None <-> satisfies c r.
Proof.
  unfold check, satisfies, check_value. cbn [site_val]. destruct (c_Kind c).
  - destruct r as [[]|]; split; try discriminate; try (intros _; eexists; split; [reflexivity|discriminate]); try (intros (v & E & Hv); congruence); reflexivity.
  - destruct r as [[| | |s| | |]|]; try done. case_bool_decide as E; [by split; [intros _ s' [= <-]|]|]. split; [done|]. intros Hs. by destruct E; apply Hs.
  - destruct r as [[| | |s|l|m|]|]; cbn [lengthOf]; try (by split; [intros _ v n [= <-] [=]|]); try done.
    all: rewrite bounds_check; split; [by intros Hb v n [= <-] [= <-]|intros Hs; by apply (Hs _ _ eq_refl eq_refl)].
  - destruct r as [[| |f|s| | |]|]; cbn [toNumber]; try (by split; [intros _ v n [= <-] [=]|]); try done.
    + rewrite bounds_check. split; [by intros Hb v f' [= <-] [= <-]|intros Hs; by apply (Hs (CNum f) f)].
    + destruct (parse_float64 s) as [f|] eqn:Ef; [rewrite bounds_check|]; split; try done.
      * intros Hb v f' [= <-]. cbn [toNumber]. rewrite Ef. by intros [= <-].
      * intros Hs. by apply (Hs (CStr s) f).
      * intros _ v f [= <-]. cbn [toNumber]. by rewrite Ef.
  - destruct r as [[| | |s| | |]|]; try done. destruct (MatchString (c_Pat c) s) eqn:E; [by split; [intros _ s' [= <-]|]|]. split; [done|].
    intros Hs. by rewrite (Hs s eq_refl) in E.
Qed.

Lemma sites_satisfied raw c code : first_error (fun s => check c s code) (sites raw (c_Path c)) = None <->
  forall r, reaches (parsePath (c_Path c)) raw r -> satisfies c r.
Proof.
  rewrite first_error_none. unfold sites. split.
  - intros Hs r (d & Hd)%(descend_reaches _ _ []). by eapply check_satisfies, Hs.
  - intros Hr [r d] Hs. apply check_satisfies, Hr. apply (descend_reaches _ _ []). by exists d.
Qed.

(** C38: A request passes a table of constraints exactly when every place that the path of
    a constraint names in its body, every element of every list and every value of every
    map on the way, satisfies it; and one that is refused is refused for a place that
    breaks a constraint, with that constraint's error, all the constraints before it in
    the table being satisfied. *)
Theorem ValidateMapAs_exact raw table code :
  match ValidateMapAs raw table code with
  | None => forall c r, c ∈ table -> reaches (parsePath (c_Path c)) raw r -> satisfies c r
  | Some e => exists pre c post r d, table = pre ++ c :: post /\
      (forall c' r', c' ∈ pre -> reaches (parsePath (c_Path c')) raw r' -> satisfies c' r') /\
      reaches (parsePath (c_Path c)) raw r /\ ~ satisfies c r /\ check c (mkSite r d) code = Some e
  end.
Proof.
  destruct (ValidateMapAs raw table code) as [e|] eqn:E; unfold ValidateMapAs in E.
  - apply first_error_some in E as (pre & c & post & -> & E & Hpre).
    apply first_error_some in E as (spre & [r d] & spost & Es & Hc & _). exists pre, c, post, r, d. split; [done|]. split_and!; [| | |done].
    + intros c' r' Hin. by apply (sites_satisfied raw c' code), Hpre.
    + apply (descend_reaches _ _ []). exists d. change (descend _ _ _) with (sites raw (c_Path c)). rewrite Es. apply elem_of_app. right. by left.
    + intros Hs%(check_satisfies c r d code). congruence.
  - intros c r Hin. by eapply sites_satisfied, (proj1 (first_error_none _ _) E).
Qed.
End spec.
