(* ===== verification/QueryForm.v ===== *)
(** * QueryForm: requests of the Query protocol (src/internal/awsquery)

    A form is a map from keys to their values, and a request is rebuilt from the dotted
    keys of a form.  [range] visits a map in any order. *)

From stdpp Require Import pretty sorting.
From S2P Require Import Prelude Bytes Digits Wire GoText Cursor Cbor.

Definition form : Type := gmap string (list string).

(** [url.Values.Get]. *)
Definition form_get (vals : form) (key : string) : string :=
  match vals !! key with Some (v :: _) => v | _ => "" end.

(** [Params]: the values of the body after those of the query. *)
Definition Params (query post : form) : form := union_with (fun q p => Some (q ++ p)) query post.

(** ** Numbered lists *)

(** The loops stop at the first number that is missing: no list is longer than the form. *)
Definition member_key (prefix : string) (memberless : bool) (i : Z) : string :=
  prefix +:+ (if memberless then "." else ".member.") +:+ pretty i.

(** [v[0]] panics when a key is there with no value, which no parser of forms makes. *)
Fixpoint members_from (fuel : nat) (i : Z) (vals : form) (prefix : string) (memberless : bool) : outcome (list string) :=
  match fuel with
  | O => OutOfFuel
  | Datatypes.S fuel' =>
      match vals !! member_key prefix memberless i with
      | None => mret []
      | Some [] => Panic
      | Some (v :: _) => out ← members_from fuel' (i + 1) vals prefix memberless; mret (v :: out)
      end
  end.
Definition Members (vals : form) (prefix : string) (memberless : bool) : outcome (list string) :=
  members_from (Datatypes.S (size vals)) 1 vals prefix memberless.

Definition numbered (prefix : string) (i : Z) (name : string) : string := prefix +:+ "." +:+ pretty i +:+ "." +:+ name.

Fixpoint pairs_from (fuel : nat) (i : Z) (vals : form) (prefix keyName valName : string) (out : gmap string string) : outcome (gmap string string) :=
  match fuel with
  | O => OutOfFuel
  | Datatypes.S fuel' =>
      let k := form_get vals (numbered prefix i keyName) in
      if String.eqb k "" then mret out
      else pairs_from fuel' (i + 1) vals prefix keyName valName (<[k := form_get vals (numbered prefix i valName)]> out)
  end.
Definition PairMap (vals : form) (prefix keyName valName : string) : outcome (gmap string string) :=
  pairs_from (Datatypes.S (size vals)) 1 vals prefix keyName valName ∅.

Record MessageAttr := mkMessageAttr { ma_DataType : string; ma_StringValue : string; ma_BinaryValue : string }.

(** A binary value that is no base64 reads as its decoder left it. *)
Class LaxBase64 := { lax_base64 : string -> string }.

Fixpoint attrs_from `{LaxBase64} (fuel : nat) (i : Z) (vals : form) (prefix : string) (out : gmap string MessageAttr) : outcome (gmap string MessageAttr) :=
  match fuel with
  | O => OutOfFuel
  | Datatypes.S fuel' =>
      let name := form_get vals (numbered prefix i "Name") in
      if String.eqb name "" then mret out
      else
        let bv := form_get vals (numbered prefix i "Value.BinaryValue") in
        let a := mkMessageAttr (form_get vals (numbered prefix i "Value.DataType")) (form_get vals (numbered prefix i "Value.StringValue"))
                   (if String.eqb bv "" then "" else default (lax_base64 bv) (base64_decode bv)) in
        attrs_from fuel' (i + 1) vals prefix (<[name := a]> out)
  end.
Definition MessageAttrs `{LaxBase64} (vals : form) (prefix : string) : outcome (gmap string MessageAttr) :=
  attrs_from (Datatypes.S (size vals)) 1 vals prefix ∅.

(** ** Un-flattening *)

Inductive qkind := qLeaf | qMap | qList | qEntry.
#[global] Instance qkind_eq_dec : EqDecision qkind.
Proof. solve_decision. Defined.

(** A node under construction; [None] is a map that was not made. *)
Inductive qnode := QNode (kind : qkind) (leaf : string) (members : option (gmap string qnode)) (items : gmap Z qnode).

Definition q_kind (n : qnode) : qkind := let 'QNode k _ _ _ := n in k.
Definition q_members (n : qnode) : option (gmap string qnode) := let 'QNode _ _ ms _ := n in ms.
Definition q_items (n : qnode) : gmap Z qnode := let 'QNode _ _ _ it := n in it.

Definition newQNode (k : qkind) : qnode :=
  QNode k "" (match k with qMap => Some ∅ | _ => None end) ∅.

(** [strconv.Atoi], of an index. *)
Definition index_of (s : string) : option Z := n ← parse_int s; if 1 <=? n then Some n else None.
Definition container_of (s : string) : option qkind :=
  if String.eqb s "member" then Some qList else if String.eqb s "entry" then Some qEntry else None.

(** [child]: the node with its members made, and its member of a name. *)
Definition with_members (n : qnode) : qnode :=
  match n with
  | QNode _ l None it => QNode qMap l (Some ∅) it
  | _ => n
  end.
Definition child (n : qnode) (name : string) (k : qkind) : qnode :=
  match default ∅ (q_members n) !! name with
  | None => newQNode k
  | Some c => if bool_decide (q_kind c = qLeaf) && negb (bool_decide (k = qLeaf)) then newQNode k else c
  end.
Definition put_child (n : qnode) (name : string) (c : qnode) : qnode :=
  let 'QNode k l ms it := with_members n in QNode k l (Some (<[name := c]> (default ∅ ms))) it.
Definition item (c : qnode) (idx : Z) : qnode := default (newQNode qMap) (q_items c !! idx).
Definition put_item (c : qnode) (idx : Z) (e : qnode) : qnode :=
  let 'QNode k l ms it := c in QNode k l ms (<[idx := e]> it).

Definition set_leaf (n : qnode) (val : string) : qnode := let 'QNode _ _ ms it := n in QNode qLeaf val ms it.

(** [insert]. *)
Fixpoint insert (n : qnode) (segs : list string) (val : string) : qnode :=
  match segs with
  | [] => set_leaf n val
  | name :: rest =>
      match rest with
      | [] => put_child n name (set_leaf (child n name qLeaf) val)
      | w :: rest' =>
          match container_of w, rest' with
          | Some k, i :: rest'' =>
              match index_of i with
              | Some idx =>
                  let c := child n name k in
                  put_child n name (put_item c idx (insert (item c idx) rest'' val))
              | None => put_child n name (insert (child n name qMap) rest val)
              end
          | _, _ =>
              match index_of w with
              | Some idx =>
                  let c := child n name qList in
                  put_child n name (put_item c idx (insert (item c idx) rest' val))
              | None => put_child n name (insert (child n name qMap) rest val)
              end
          end
      end
  end.

(** [entryPair]: the pair of a map, in the spellings in use. *)
Definition entry_pair_as (kn vn : string) (el : gmap string cval) : option (string * cval) :=
  match el !! kn, el !! vn with Some (CStr k), Some v => Some (k, v) | _, _ => None end.
Definition entryPair (el : gmap string cval) : string * cval :=
  match entry_pair_as "Name" "Value" el with
  | Some kv => kv
  | None =>
      match entry_pair_as "key" "value" el with
      | Some kv => kv
      | None => default ("", CNil) (entry_pair_as "Key" "Value" el)
      end
  end.

Definition item_le (a b : Z * cval) : Prop := a.1 <= b.1.
#[global] Instance item_le_dec : RelDecision item_le.
Proof. intros a b. unfold item_le. apply Z.le_dec. Defined.
Definition in_order (items : gmap Z cval) : list cval := (merge_sort item_le (map_to_list items)).*2.

Definition collapse (l : list cval) : gmap string cval :=
  foldl (fun out el =>
    match el with
    | CMap m => let '(k, v) := entryPair m in if String.eqb k "" then out else <[k := v]> out
    | _ => out
    end) ∅ l.

(** [value]. *)
Fixpoint node_value (n : qnode) : cval :=
  match n with
  | QNode qLeaf l _ _ => CStr l
  | QNode qMap _ ms _ => CMap (match ms with Some ms => node_value <$> ms | None => ∅ end)
  | QNode qList _ _ it => CArr (in_order (node_value <$> it))
  | QNode qEntry _ _ it => CMap (collapse (in_order (node_value <$> it)))
  end.

(** The loop of [Unflatten] over the keys as they come. *)
Fixpoint insert_all (n : qnode) (l : list (string * list string)) : qnode :=
  match l with
  | [] => n
  | (_, []) :: l' => insert_all n l'
  | (key, v :: _) :: l' => insert_all (insert n (split_on "." key) v) l'
  end.

Definition Unflatten `{GoText} (vals : form) : gmap string cval :=
  match node_value (insert_all (newQNode qMap) (range vals)) with CMap m => m | _ => ∅ end.

(** ** What a form spells

    That un-flattening a form gives the value whose leaves its keys spell, in whatever
    order the keys are visited, and that the loops over numbered keys end. *)

(** ** The keys of a value *)

(** The keys that spell a value, split at their dots, with the texts under them. *)
Inductive spells : cval -> list string -> string -> Prop :=
| spells_text s : spells (CStr s) [] s
| spells_member m k v p s : m !! k = Some v -> spells v p s -> spells (CMap m) (k :: p) s
| spells_item m k l i v p s : m !! k = Some (CArr l) -> l !! i = Some v -> spells v p s ->
    spells (CMap m) (k :: "member" :: pretty (Z.of_nat i + 1) :: p) s.

(** A member name that is no marker, no index and has no dot. *)
Definition good_name (k : string) : Prop := container_of k = None /\ index_of k = None /\ has_char "." k = false.

Definition is_list (v : cval) : bool := match v with CArr _ => true | _ => false end.

(** What the protocol can spell: texts, structures and lists of those that are not empty. *)
Inductive expressible : cval -> Prop :=
| ex_text s : expressible (CStr s)
| ex_struct m : m <> ∅ -> (forall k, is_Some (m !! k) -> good_name k) -> (forall k v, m !! k = Some v -> expressible v) -> expressible (CMap m)
| ex_list l : l <> [] -> Z.of_nat (length l) < 2 ^ 63 -> (forall i v, l !! i = Some v -> is_list v = false) ->
    (forall i v, l !! i = Some v -> expressible v) -> expressible (CArr l).

Lemma expressible_member m k v : expressible (CMap m) -> m !! k = Some v -> good_name k /\ expressible v.
Proof. inversion 1; subst; eauto. Qed.

Lemma expressible_item l i v : expressible (CArr l) -> l !! i = Some v -> is_list v = false /\ expressible v /\ Z.of_nat i + 1 < 2 ^ 63.
Proof. inversion 1 as [| |? ? Hlen Hl He]; subst. intros E. split_and!; [eauto..|]. apply lookup_lt_Some in E. lia. Qed.

Lemma index_of_pretty i : Z.of_nat i + 1 < 2 ^ 63 -> index_of (pretty (Z.of_nat i + 1)) = Some (Z.of_nat i + 1).
Proof. intros H. unfold index_of. rewrite parse_int_pretty by lia. cbn [mbind option_bind]. by rewrite (proj2 (Z.leb_le 1 _)) by lia. Qed.

(** A value is spelled by at least one key. *)
Lemma expressible_spelled v : expressible v ->
  match v with
  | CArr l => exists w p s, l !! 0%nat = Some w /\ spells w p s
  | _ => exists p s, spells v p s
  end.
Proof.
  induction 1 as [s|m Hne Hk Hv IH|l Hne Hlen Hl He IH]; [by exists [], s; constructor| |].
  - destruct (map_choose m Hne) as (k & v & E). specialize (IH k v E).
    destruct v as [|b|f|s0|l|m0|x y];
      try (destruct IH as (p & s & Hs); exists (k :: p), s; by eapply spells_member).
    destruct IH as (w & p & s & Hw & Hs). exists (k :: "member" :: pretty 1 :: p), s. by apply (spells_item m k l 0 w).
  - destruct l as [|w l]; [done|]. specialize (Hl 0%nat w eq_refl). specialize (IH 0%nat w eq_refl).
    destruct w; try done; destruct IH as (p & t & Hs); by eexists _, p, t.
Qed.

(** ** Trees under construction *)

(** A tree holds part of a value. *)
Inductive part : qnode -> cval -> Prop :=
| part_text s ms it : part (QNode qLeaf s ms it) (CStr s)
| part_struct lf ms it m : (forall k, is_Some (ms !! k) -> is_Some (m !! k)) -> (forall k c v, ms !! k = Some c -> m !! k = Some v -> part c v) ->
    part (QNode qMap lf (Some ms) it) (CMap m)
| part_items lf ms it l : (forall i c, it !! i = Some c -> 1 <= i <= Z.of_nat (length l)) ->
    (forall i c v, it !! (Z.of_nat i + 1) = Some c -> l !! i = Some v -> part c v) -> part (QNode qList lf ms it) (CArr l).

(** A leaf takes any text. *)
Definition fits (n : qnode) (v : cval) : Prop := match v with CStr _ => True | _ => part n v end.

Lemma part_fits n v : part n v -> fits n v.
Proof. by destruct v. Qed.

(** The kind of the node of a value. *)
Definition kind_of (v : cval) : qkind := match v with CStr _ => qLeaf | CArr _ => qList | _ => qMap end.

(** A tree has a leaf at a key. *)
Fixpoint holds (n : qnode) (p : list string) : Prop :=
  match p with
  | [] => q_kind n = qLeaf
  | k :: p' =>
      match default ∅ (q_members n) !! k with
      | None => False
      | Some c =>
          match p' with
          | w :: i :: p'' =>
              match container_of w, index_of i with
              | Some _, Some idx => match q_items c !! idx with Some e => holds e p'' | None => False end
              | _, _ => holds c p'
              end
          | _ => holds c p'
          end
      end
  end.

(** What [holds] asks of a member. *)
Definition under (c : qnode) (p : list string) : Prop :=
  match p with
  | w :: i :: p'' =>
      match container_of w, index_of i with
      | Some _, Some idx => match q_items c !! idx with Some e => holds e p'' | None => False end
      | _, _ => holds c p
      end
  | _ => holds c p
  end.

Lemma holds_cons n k p : holds n (k :: p) <-> exists c, default ∅ (q_members n) !! k = Some c /\ under c p.
Proof.
  cbn [holds]. destruct (default ∅ (q_members n) !! k) as [c|]; [|by split; [|intros (? & [=] & _)]].
  split; [intros H; exists c; split; [done|]; by destruct p as [|w [|i p]]|]. intros (? & [= <-] & H). by destruct p as [|w [|i p]].
Qed.

(** A key of a member goes on with no marker. *)
Lemma under_member m k v c p s : expressible (CMap m) -> m !! k = Some v -> spells v p s -> under c p <-> holds c p.
Proof.
  intros Hm Hk Hs. destruct (expressible_member m k v Hm Hk) as [_ Hv].
  assert (Hp : forall m' k' p', v = CMap m' -> p = k' :: p' -> is_Some (m' !! k') -> under c p <-> holds c p).
  { intros m' k' p' -> -> [v' E]. destruct (expressible_member m' k' v' Hv E) as [(Hc & _) _]. unfold under. destruct p'; [done|]. by rewrite Hc. }
  destruct Hs; [done|eauto..].
Qed.

Lemma under_item c i p : Z.of_nat i + 1 < 2 ^ 63 ->
  under c ("member" :: pretty (Z.of_nat i + 1) :: p) <-> exists e, q_items c !! (Z.of_nat i + 1) = Some e /\ holds e p.
Proof.
  intros H. unfold under. change (container_of "member") with (Some qList). rewrite index_of_pretty by done.
  destruct (q_items c !! (Z.of_nat i + 1)) as [e|]; split; [by exists e|by intros (? & [= <-] & ?)|done|by intros (? & [=] & _)].
Qed.

(** ** Inserting one key *)

Lemma part_put_child lf ms it m k c v : part (QNode qMap lf (Some ms) it) (CMap m) -> m !! k = Some v -> part c v ->
  part (put_child (QNode qMap lf (Some ms) it) k c) (CMap m).
Proof.
  intros H Hk Hc. inversion H as [|? ? ? ? Hd Hp|]; subst. cbn. constructor.
  - intros k'. destruct (decide (k' = k)) as [->|]; [by rewrite Hk; eauto|]. rewrite lookup_insert_ne by done. apply Hd.
  - intros k' c' v'. destruct (decide (k' = k)) as [->|]; [rewrite lookup_insert_eq; by intros [= <-]; rewrite Hk; intros [= <-]|].
    rewrite lookup_insert_ne by done. apply Hp.
Qed.

Lemma part_put_item c i l e v : part c (CArr l) -> l !! i = Some v -> part e v -> part (put_item c (Z.of_nat i + 1) e) (CArr l).
Proof.
  intros H Hi He. inversion H as [| |? ? ? ? Hd Hp]; subst. cbn. constructor.
  - intros j c'. destruct (decide (j = Z.of_nat i + 1)) as [->|]; [apply lookup_lt_Some in Hi; lia|]. rewrite lookup_insert_ne by done. apply Hd.
  - intros j c' v'. destruct (decide (j = i)) as [->|]; [rewrite lookup_insert_eq; by intros [= <-]; rewrite Hi; intros [= <-]|].
    rewrite lookup_insert_ne by lia. apply Hp.
Qed.

Lemma fits_new v : expressible v -> fits (newQNode (kind_of v)) v.
Proof.
  inversion 1; subst; [done|..]; constructor; [|done|done|done]. by intros ? [? ?].
Qed.

(** The member that an insertion goes into. *)
Lemma child_fits lf ms it m k v : part (QNode qMap lf (Some ms) it) (CMap m) -> m !! k = Some v -> expressible v ->
  let c := child (QNode qMap lf (Some ms) it) k (kind_of v) in fits c v /\ forall c', ms !! k = Some c' -> c = c'.
Proof.
  intros H Hk Hv. inversion H as [|? ? ? ? Hd Hp|]; subst. cbv zeta. unfold child. cbn [q_members default id].
  destruct (ms !! k) as [c|] eqn:E; [|split; [by apply fits_new|done]].
  specialize (Hp k c v E Hk). assert (bool_decide (q_kind c = qLeaf) && negb (bool_decide (kind_of v = qLeaf)) = false) as -> by (by inversion Hp; subst).
  split; [by apply part_fits|congruence].
Qed.

(** The item that an insertion goes into. *)
Lemma item_fits c i l v : part c (CArr l) -> l !! i = Some v -> expressible v -> is_list v = false ->
  fits (item c (Z.of_nat i + 1)) v /\ forall e, q_items c !! (Z.of_nat i + 1) = Some e -> item c (Z.of_nat i + 1) = e.
Proof.
  intros H Hi He Hl. inversion H as [| |? ? ? ? Hd Hp]; subst. unfold item. cbn [q_items].
  destruct (it !! (Z.of_nat i + 1)) as [e|] eqn:E; [split; [apply part_fits; eauto|by intros ? [= ->]]|].
  split; [|done]. destruct v; inversion He; subst; try done. by apply (fits_new (CMap m)).
Qed.

(** Where an insertion goes. *)
Lemma insert_member n m k v p s : expressible (CMap m) -> m !! k = Some v -> spells v p s ->
  insert n (k :: p) s = put_child n k (insert (child n k (kind_of v)) p s).
Proof.
  intros Hm Hk Hs. destruct (expressible_member m k v Hm Hk) as [_ Hv].
  assert (Hp : forall m' k' p', v = CMap m' -> p = k' :: p' -> is_Some (m' !! k') -> insert n (k :: p) s = put_child n k (insert (child n k (kind_of v)) p s)).
  { intros m' k' p' -> -> [v' E]. destruct (expressible_member m' k' v' Hv E) as [(Hc & Hi & _) _].
    cbn [insert kind_of]. rewrite Hc, Hi. by destruct p'. }
  destruct Hs; [done|eauto..].
Qed.

Lemma insert_item n k i p s : Z.of_nat i + 1 < 2 ^ 63 ->
  insert n (k :: "member" :: pretty (Z.of_nat i + 1) :: p) s =
  (let c := child n k qList in put_child n k (put_item c (Z.of_nat i + 1) (insert (item c (Z.of_nat i + 1)) p s))).
Proof. intros H. cbn [insert]. change (container_of "member") with (Some qList). by rewrite index_of_pretty. Qed.

(** What a key asks of a structure after one of its members is put. *)
Lemma holds_put_child n k c k' p : holds (put_child n k c) (k' :: p) <-> if decide (k' = k) then under c p else holds n (k' :: p).
Proof.
  destruct n as [kd lf [ms|] it]; destruct (decide (k' = k)) as [->|]; rewrite !holds_cons; cbn [put_child with_members q_members default id].
  1, 3: rewrite lookup_insert_eq; split; [by intros (? & [= <-] & ?)|by exists c].
  all: rewrite lookup_insert_ne by congruence; done.
Qed.

Lemma q_items_put_item c i e j : q_items (put_item c i e) !! j = if decide (j = i) then Some e else q_items c !! j.
Proof. destruct c. cbn. destruct (decide (j = i)) as [->|]; [by rewrite lookup_insert_eq|rewrite lookup_insert_ne by congruence; done]. Qed.

(** Inserting a key of a value keeps the tree a part of it, makes it hold that key, and
    keeps the others it held. *)
Definition inserts (v : cval) (p : list string) (s : string) : Prop :=
  forall n, fits n v ->
    part (insert n p s) v /\ holds (insert n p s) p /\ forall q t, spells v q t -> holds n q -> holds (insert n p s) q.

(** The keys of a structure under one of its members. *)
Lemma spells_under m k q t : spells (CMap m) (k :: q) t ->
  exists v, m !! k = Some v /\
    (spells v q t \/ exists l i w q', v = CArr l /\ l !! i = Some w /\ q = "member" :: pretty (Z.of_nat i + 1) :: q' /\ spells w q' t).
Proof. inversion 1; subst; [by eexists; split; [done|]; left|]. eexists; split; [done|]. right. by eexists _, _, _, _. Qed.

Lemma inserts_member m k v p s : expressible (CMap m) -> m !! k = Some v -> spells v p s -> inserts v p s -> inserts (CMap m) (k :: p) s.
Proof.
  intros Hm Hk Hs IH n Hn. inversion Hn as [|lf ms it ? Hd Hp|]; subst. destruct (expressible_member m k v Hm Hk) as [_ Hv].
  destruct (child_fits lf ms it m k v Hn Hk Hv) as [Hc Heq]. destruct (IH _ Hc) as (Hpart & Hheld & Hkeep).
  rewrite (insert_member _ m k v) by done. split_and!; [by eapply part_put_child| |].
  - rewrite holds_put_child, decide_True by done. by eapply under_member.
  - intros q t Hq Hold. destruct q as [|k' q]; [inversion Hq|]. rewrite holds_put_child. destruct (decide (k' = k)) as [->|]; [|done].
    apply holds_cons in Hold as (c & Ec & Hold). rewrite (Heq c Ec) in *.
    destruct (spells_under m k q t Hq) as (v' & E & [Hq'|(l & i & w & q' & -> & _)]); simplify_eq; [|inversion Hs].
    eapply under_member; [done..|]. apply (Hkeep q t Hq'). by eapply under_member.
Qed.

Lemma inserts_item m k l i v p s : expressible (CMap m) -> m !! k = Some (CArr l) -> l !! i = Some v -> inserts v p s ->
  inserts (CMap m) (k :: "member" :: pretty (Z.of_nat i + 1) :: p) s.
Proof.
  intros Hm Hk Hi IH n Hn. inversion Hn as [|lf ms it ? Hd Hp|]; subst. destruct (expressible_member m k _ Hm Hk) as [_ Hl].
  destruct (expressible_item l i v Hl Hi) as (Hnl & Hv & Hb). destruct (child_fits lf ms it m k _ Hn Hk Hl) as [Hc Heq].
  cbn [fits kind_of] in Hc, Heq. destruct (item_fits _ i l v Hc Hi Hv Hnl) as [He Heqi]. destruct (IH _ He) as (Hpart & Hheld & Hkeep).
  rewrite insert_item by done. cbv zeta. split_and!; [by eapply part_put_child, part_put_item| |].
  - rewrite holds_put_child, decide_True by done. apply under_item; [done|]. eexists. split; [rewrite q_items_put_item; by apply decide_True|done].
  - intros q t Hq Hold. destruct q as [|k' q]; [inversion Hq|]. rewrite holds_put_child. destruct (decide (k' = k)) as [->|]; [|done].
    apply holds_cons in Hold as (c & Ec & Hold). rewrite (Heq c Ec) in *.
    destruct (spells_under m k q t Hq) as (v' & E & [Hq'|(l' & j & w & q' & -> & Hj & -> & Hq')]); simplify_eq; [inversion Hq'|].
    destruct (expressible_item l j w Hl Hj) as (_ & _ & Hbj). apply under_item in Hold as (e & Ee & Hold); [|done].
    apply under_item; [done|]. rewrite q_items_put_item. destruct (decide (Z.of_nat j + 1 = Z.of_nat i + 1)) as [Ej|]; [|by exists e].
    rewrite Ej in Ee. assert (j = i) as -> by lia. rewrite Hi in Hj. injection Hj as <-. eexists. split; [done|].
    rewrite (Heqi e Ee) in *. by apply (Hkeep q' t).
Qed.

Lemma insert_inserts v p s : spells v p s -> expressible v -> inserts v p s.
Proof.
  induction 1 as [s|m k v p s Hk Hs IH|m k l i v p s Hk Hi Hs IH]; intros Hv.
  - intros n _. destruct n as [kd lf ms it]. cbn. split_and!; [constructor|done|]. intros q t Hq _. by inversion Hq.
  - destruct (expressible_member m k v Hv Hk). by eapply inserts_member; eauto.
  - destruct (expressible_member m k _ Hv Hk) as [_ Hl]. destruct (expressible_item l i v Hl Hi) as (_ & He & _). eapply inserts_item; eauto.
Qed.

(** ** The items in order *)

Lemma item_le_trans : Transitive item_le.
Proof. intros a b c. unfold item_le. lia. Qed.
Lemma item_le_total : Total item_le.
Proof. intros a b. unfold item_le. lia. Qed.
#[local] Existing Instances item_le_trans item_le_total.

(** The items of a list, numbered from one. *)
Fixpoint numbered_from (i : Z) (l : list cval) : list (Z * cval) :=
  match l with [] => [] | v :: l' => (i, v) :: numbered_from (i + 1) l' end.

Lemma elem_of_numbered i l j v : (j, v) ∈ numbered_from i l <-> i <= j /\ l !! Z.to_nat (j - i) = Some v.
Proof.
  revert i. induction l as [|w l IH]; intros i; cbn [numbered_from]; [by rewrite elem_of_nil, lookup_nil; split; [|intros [_ [=]]]|].
  rewrite elem_of_cons, IH. split.
  - intros [[= -> ->]|[Hj E]]; [split; [lia|by rewrite Z.sub_diag]|]. split; [lia|].
    replace (Z.to_nat (j - i)) with (Datatypes.S (Z.to_nat (j - (i + 1)))) by lia. done.
  - intros [Hj E]. destruct (decide (j = i)) as [->|]; [rewrite Z.sub_diag in E; injection E as ->; by left|]. right. split; [lia|].
    replace (Z.to_nat (j - i)) with (Datatypes.S (Z.to_nat (j - (i + 1)))) in E by lia. done.
Qed.

Lemma numbered_sorted i l : StronglySorted item_le (numbered_from i l).
Proof.
  revert i. induction l as [|w l IH]; intros i; cbn [numbered_from]; constructor; [apply IH|]. apply Forall_forall.
  intros [j v] [Hj _]%elem_of_numbered. unfold item_le. cbn. lia.
Qed.

Lemma numbered_NoDup i l : NoDup (numbered_from i l).
Proof.
  revert i. induction l as [|w l IH]; intros i; cbn [numbered_from]; constructor; [|apply IH]. intros [Hj _]%elem_of_numbered. lia.
Qed.

Lemma numbered_values i l : (numbered_from i l).*2 = l.
Proof. revert i. induction l as [|w l IH]; intros i; cbn; [done|]. f_equal. apply IH. Qed.

(** Items numbered from one come out as the list they are of. *)
Lemma in_order_exact items l : (forall j v, items !! j = Some v <-> 1 <= j /\ l !! Z.to_nat (j - 1) = Some v) -> in_order items = l.
Proof.
  intros H. unfold in_order. rewrite <- (numbered_values 1 l). f_equal.
  apply (StronglySorted_unique_strong item_le); [|apply (StronglySorted_merge_sort item_le)|apply numbered_sorted|].
  - intros [j v] [j' v'] Hv Hv' H1 H2. unfold item_le in H1, H2. cbn in H1, H2. assert (j' = j) as -> by lia. f_equal.
    rewrite merge_sort_Permutation, elem_of_map_to_list, H, <- elem_of_numbered in Hv. apply elem_of_numbered in Hv as [_ Hv], Hv' as [_ Hv'].
    congruence.
  - rewrite merge_sort_Permutation. apply NoDup_Permutation; [apply NoDup_map_to_list|apply numbered_NoDup|].
    intros [j v]. by rewrite elem_of_map_to_list, H, elem_of_numbered.
Qed.

(** ** A complete tree *)

(** A tree that holds every key of a value. *)
Definition complete (c : qnode) (v : cval) : Prop :=
  match v with
  | CArr l => forall i w q t, l !! i = Some w -> spells w q t -> exists e, q_items c !! (Z.of_nat i + 1) = Some e /\ holds e q
  | _ => forall q t, spells v q t -> holds c q
  end.

Lemma complete_item c l i w : complete c (CArr l) -> l !! i = Some w -> is_list w = false -> expressible w ->
  exists e, q_items c !! (Z.of_nat i + 1) = Some e /\ complete e w.
Proof.
  intros Hc Hi Hl Hw. assert (exists q t, spells w q t) as (q & t & Hs) by (pose proof (expressible_spelled w Hw); by destruct w).
  destruct (Hc i w q t Hi Hs) as (e & He & _). exists e. split; [done|].
  assert (forall q t, spells w q t -> holds e q) as H; [|by destruct w].
  intros q' t' Hs'. destruct (Hc i w q' t' Hi Hs') as (e' & He' & Hh). congruence.
Qed.

Lemma complete_member c m k v : complete c (CMap m) -> expressible (CMap m) -> m !! k = Some v ->
  exists d, default ∅ (q_members c) !! k = Some d /\ complete d v.
Proof.
  intros Hc Hm Hk. destruct (expressible_member m k v Hm Hk) as [_ Hv]. pose proof (expressible_spelled v Hv) as Hs.
  destruct (is_list v) eqn:Hl.
  - destruct v as [| | | |l| |]; try done. destruct Hs as (w & q & t & Hw & Hs).
    pose proof (Hc _ _ (spells_item m k l 0 w q t Hk Hw Hs)) as Hh. apply holds_cons in Hh as (d & Ed & _). exists d. split; [done|].
    intros i w' q' t' Hi Hs'. destruct (expressible_item l i w' Hv Hi) as (_ & _ & Hb).
    pose proof (Hc _ _ (spells_item m k l i w' q' t' Hk Hi Hs')) as Hh. apply holds_cons in Hh as (d' & Ed' & Hu).
    rewrite Ed in Ed'. injection Ed' as <-. by apply under_item in Hu.
  - assert (exists q t, spells v q t) as (q & t & Hs') by (by destruct v).
    pose proof (Hc _ _ (spells_member m k v q t Hk Hs')) as Hh. apply holds_cons in Hh as (d & Ed & _). exists d. split; [done|].
    assert (forall q t, spells v q t -> holds d q) as H; [|by destruct v]. intros q' t' Hq.
    pose proof (Hc _ _ (spells_member m k v q' t' Hk Hq)) as Hh. apply holds_cons in Hh as (d' & Ed' & Hu).
    rewrite Ed in Ed'. injection Ed' as <-. by eapply under_member.
Qed.

(** A tree that is part of a value and holds all its keys renders as the value. *)
Lemma complete_value v : expressible v -> forall n, part n v -> complete n v -> node_value n = v.
Proof.
  induction 1 as [s|m Hne Hg Hv IH|l Hne Hlen Hl Hv IH]; intros n Hn Hc.
  - by inversion Hn; subst.
  - assert (expressible (CMap m)) as Hm by (by constructor). inversion Hn as [|lf ms it ? Hd Hp|]; subst. cbn [node_value]. f_equal.
    apply map_eq. intros k. rewrite lookup_fmap. destruct (m !! k) as [v|] eqn:E.
    + destruct (complete_member _ m k v Hc Hm E) as (d & Ed & Hd'). cbn in Ed. rewrite Ed. cbn. f_equal. eauto.
    + destruct (ms !! k) as [d|] eqn:Ed; [|done]. destruct (Hd k) as [? ?]; [by exists d|congruence].
  - inversion Hn as [| |lf ms it ? Hd Hp]; subst. cbn [node_value]. f_equal. apply in_order_exact. intros j v. rewrite lookup_fmap.
    assert (forall i w, l !! i = Some w -> exists e, it !! (Z.of_nat i + 1) = Some e /\ node_value e = w) as Hall.
    { intros i w Hi. destruct (complete_item _ l i w Hc Hi (Hl i w Hi) (Hv i w Hi)) as (e & He & Hce). exists e. split; [done|]. eapply IH; eauto. }
    split.
    + intros (c & Ec & ->)%fmap_Some_1. pose proof (Hd j c Ec) as Hj. split; [lia|].
      destruct (lookup_lt_is_Some_2 l (Z.to_nat (j - 1))) as [w Hw]; [lia|]. destruct (Hall _ _ Hw) as (e & He & <-).
      replace (Z.of_nat (Z.to_nat (j - 1)) + 1) with j in He by lia. congruence.
    + intros [Hj Hw]. destruct (Hall _ _ Hw) as (e & He & <-). replace (Z.of_nat (Z.to_nat (j - 1)) + 1) with j in He by lia. by rewrite He.
Qed.

(** ** Un-flattening *)

Lemma insert_all_part m l : expressible (CMap m) ->
  forall n, part n (CMap m) -> (forall key s rest, (key, s :: rest) ∈ l -> spells (CMap m) (split_on "." key) s) ->
    part (insert_all n l) (CMap m) /\ (forall q t, spells (CMap m) q t -> holds n q -> holds (insert_all n l) q) /\
    forall key s rest, (key, s :: rest) ∈ l -> holds (insert_all n l) (split_on "." key).
Proof.
  intros Hm. induction l as [|[key vs] l IH]; intros n Hn Hl; [cbn; split_and!; [done..|]; by intros ? ? ? ?%not_elem_of_nil|].
  assert (forall key s rest, (key, s :: rest) ∈ l -> spells (CMap m) (split_on "." key) s) as Hl' by (intros; eapply Hl; by right).
  destruct vs as [|s rest]; cbn [insert_all].
  - destruct (IH n Hn Hl') as (H1 & H2 & H3). split_and!; [done..|]. intros k t r [?|?]%elem_of_cons; [done|eauto].
  - pose proof (Hl key s rest ltac:(by left)) as Hs. destruct (insert_inserts _ _ _ Hs Hm n (part_fits _ _ Hn)) as (Hi & Hh & Hk).
    destruct (IH _ Hi Hl') as (H1 & H2 & H3). split_and!; [done|eauto|]. intros k t r [[= -> -> ->]|?]%elem_of_cons; eauto.
Qed.

(** No name in a key has a dot. *)
Lemma spells_parts v p s : spells v p s -> expressible v -> Forall (fun k => has_char "." k = false) p.
Proof.
  induction 1 as [s|m k v p s Hk Hs IH|m k l i v p s Hk Hi Hs IH]; intros Hv; [constructor|..]; destruct (expressible_member m k _ Hv Hk) as [(_ & _ & Hd) He].
  - constructor; [done|eauto].
  - destruct (expressible_item l i v He Hi) as (_ & Hw & _). constructor; [done|]. constructor; [done|]. constructor; [|eauto].
    eapply digits_no_char; [by apply parse_digits_pretty; lia|done].
Qed.

(** The fields of a form that have a value are those that spell a structure. *)
Definition spelled_by (vals : form) (m : gmap string cval) : Prop :=
  forall key s, (exists rest, vals !! key = Some (s :: rest)) <-> spells (CMap m) (split_on "." key) s.

(** C39: A form that spells a structure of texts, structures and lists, one field a leaf with
    its path for the key, is un-flattened to that structure, in whatever order the fields
    are visited: every item of every list is there, in the order of the numbers. *)
Theorem Unflatten_spelled `{GT : GoText} vals m : expressible (CMap m) -> spelled_by vals m -> Unflatten vals = m.
Proof.
  intros Hm Hf. unfold Unflatten. assert (part (newQNode qMap) (CMap m)) as Hn by (by apply (fits_new (CMap m))).
  destruct (insert_all_part m (range vals) Hm _ Hn) as (Hpart & _ & Hheld).
  { intros key s rest Hin. rewrite range_permutation, elem_of_map_to_list in Hin. apply Hf. by exists rest. }
  rewrite (complete_value (CMap m) Hm _ Hpart); [done|]. intros q t Hq.
  assert (q <> []) as Hne by (by inversion Hq). pose proof (split_concat "." q Hne (spells_parts _ _ _ Hq Hm)) as Hsplit.
  destruct (proj2 (Hf (String.concat "." q) t)) as [rest Hr]; [by rewrite Hsplit|]. rewrite <- Hsplit. apply (Hheld _ t rest).
  by rewrite range_permutation, elem_of_map_to_list.
Qed.

(** ** An example *)

Definition example_request : gmap string cval :=
  {[ "Action" := CStr "Put"; "Items" := CArr [CMap {[ "Name" := CStr "a" ]}; CStr "b"] ]}.
Definition example_form : form :=
  {[ "Items.member.2" := ["b"]; "Action" := ["Put"; "Get"]; "Marker" := []; "Items.member.1.Name" := ["a"] ]}.

Lemma example_item_expressible : expressible (CMap {[ "Name" := CStr "a" ]}).
Proof.
  constructor; [done| |].
  - intros k [v [<- _]%lookup_singleton_Some]. by vm_compute.
  - intros k v [_ <-]%lookup_singleton_Some. constructor.
Qed.

Lemma example_expressible : expressible (CMap example_request).
Proof.
  constructor; [done|..]; unfold example_request.
  - intros k [v H]. apply lookup_insert_Some in H as [[<- _]|[_ [<- _]%lookup_singleton_Some]]; by vm_compute.
  - intros k v H. apply lookup_insert_Some in H as [[_ <-]|[_ [_ <-]%lookup_singleton_Some]]; [constructor|].
    constructor; [done|done|..]; intros [|[|i]] v H; try done; injection H as <-; [done..|exact example_item_expressible|constructor].
Qed.

Lemma example_spelled : spelled_by example_form example_request.
Proof.
  intros key s. unfold example_form, example_request. split.
  - intros [rest H].
    repeat (apply lookup_insert_Some in H as [[<- [= <- <-]]|[_ H]] || apply lookup_singleton_Some in H as [<- [= <- <-]] || apply lookup_insert_Some in H as [[_ [=]]|[_ H]]).
    + by apply (spells_item _ "Items" [CMap {[ "Name" := CStr "a" ]}; CStr "b"] 1 (CStr "b") []); [..|constructor].
    + by apply (spells_member _ "Action" (CStr "Put") []); [|constructor].
    + apply (spells_item _ "Items" [CMap {[ "Name" := CStr "a" ]}; CStr "b"] 0 (CMap {[ "Name" := CStr "a" ]}) ["Name"]); [done..|].
      by apply (spells_member _ "Name" (CStr "a") []); [|constructor].
  - intros Hs. rewrite <- (concat_split "." key). revert Hs. generalize (split_on "." key). intros p Hs.
    inversion Hs as [|? k v p' ? Hk Hv|? k l i v p' ? Hk Hi Hv]; subst; apply lookup_insert_Some in Hk as [[<- E]|[_ [<- E]%lookup_singleton_Some]].
    + rewrite <- E in Hv. inversion Hv; subst. by eexists.
    + rewrite <- E in Hv. inversion Hv.
    + done.
    + injection E as <-. destruct i as [|[|i]]; [..|done]; injection Hi as <-; inversion Hv as [|? k' v' p'' ? Hk' Hv'|? k' l' i' v' p'' ? Hk' Hi' Hv']; subst.
      * apply lookup_singleton_Some in Hk' as [<- <-]. inversion Hv'; subst. by eexists.
      * by apply lookup_singleton_Some in Hk' as [<- [=]].
      * by eexists.
Qed.

Lemma Unflatten_spelled_witness :
  expressible (CMap example_request) /\ spelled_by example_form example_request /\ Unflatten example_form = example_request.
Proof.
  split; [exact example_expressible|]. split; [exact example_spelled|].
  apply (Unflatten_spelled example_form example_request); [exact example_expressible|exact example_spelled].
Defined.

(** A member spelled both as a text and as a structure is the text or the structure by the
    order in which the two fields are visited. *)
Example unflatten_mixed :
  node_value (insert_all (newQNode qMap) [("A", ["x"]); ("A.B", ["y"])]) = CMap {[ "A" := CMap {[ "B" := CStr "y" ]} ]} /\
  node_value (insert_all (newQNode qMap) [("A.B", ["y"]); ("A", ["x"])]) = CMap {[ "A" := CStr "x" ]}.
Proof. by vm_compute. Qed.

(** ** The numbered lists end *)

(** The keys from a number on are among fewer than [fuel] fields. *)
Definition keys_left (key : Z -> string) (vals : form) (fuel : nat) (i : Z) : Prop :=
  exists V : gmap string (list string), (size V < fuel)%nat /\ forall j, i <= j -> is_Some (vals !! key j) -> is_Some (V !! key j).

Lemma keys_left_all key vals i : keys_left key vals (Datatypes.S (size vals)) i.
Proof. exists vals. split; [apply Nat.lt_succ_diag_r|done]. Qed.

Lemma keys_left_step key vals fuel i : (forall a b, key a = key b -> a = b) -> keys_left key vals (Datatypes.S fuel) i -> is_Some (vals !! key i) ->
  keys_left key vals fuel (i + 1).
Proof.
  intros Hinj (V & Hs & HV) Hi. unfold form in *. exists (delete (key i) V). split.
  - destruct (HV i ltac:(lia) Hi) as [x Hx]. rewrite <- (insert_delete_id V (key i) x Hx) in Hs.
    rewrite map_size_insert_None in Hs by apply lookup_delete_eq. lia.
  - intros j Hj Hk. rewrite lookup_delete_ne; [apply HV; [lia|done]|]. intros E%Hinj. lia.
Qed.

Lemma keys_left_none key vals i : ~ keys_left key vals 0 i.
Proof. intros (V & H & _). lia. Qed.

Lemma sapp_inj_r (s t u : string) : s +:+ u = t +:+ u -> s = t.
Proof.
  revert t. induction s as [|c s IH]; intros [|d t] H; [done|..].
  - apply (f_equal String.length) in H. cbn in H. rewrite string_length_app in H. lia.
  - apply (f_equal String.length) in H. cbn in H. rewrite string_length_app in H. lia.
  - injection H as -> H. f_equal. by apply IH.
Qed.

Lemma member_key_inj prefix ml a b : member_key prefix ml a = member_key prefix ml b -> a = b.
Proof. unfold member_key. intros H%sapp_inj_l%sapp_inj_l. by apply (inj pretty) in H. Qed.

Lemma numbered_inj prefix name a b : numbered prefix a name = numbered prefix b name -> a = b.
Proof. unfold numbered. intros H%sapp_inj_l%sapp_inj_l%sapp_inj_r. by apply (inj pretty) in H. Qed.

Lemma form_get_some vals key : form_get vals key <> "" -> is_Some (vals !! key).
Proof. unfold form_get. by destruct (vals !! key). Qed.

(** The loop over the members of a list comes to its end. *)
Lemma Members_ends vals prefix memberless : Members vals prefix memberless <> OutOfFuel.
Proof.
  unfold Members. pose proof (keys_left_all (member_key prefix memberless) vals 1) as H. revert H. generalize 1 (Datatypes.S (size vals)).
  intros i fuel. revert i. induction fuel as [|fuel IH]; intros i H; [by apply keys_left_none in H|]. cbn [members_from].
  destruct (vals !! member_key prefix memberless i) as [[|v l]|] eqn:E; [done| |done].
  apply keys_left_step in H; [|apply member_key_inj|by rewrite E]. specialize (IH _ H). by destruct (members_from fuel _ _ _ _) as [[]| |].
Qed.

(** The loop over the pairs of a map comes to its end, and returns. *)
Lemma PairMap_returns vals prefix keyName valName : exists out, PairMap vals prefix keyName valName = Ret (Ok out).
Proof.
  unfold PairMap. pose proof (keys_left_all (fun i => numbered prefix i keyName) vals 1) as H. revert H. generalize 1 (Datatypes.S (size vals)) (∅ : gmap string string).
  intros i fuel out. revert i out. induction fuel as [|fuel IH]; intros i out H; [by apply keys_left_none in H|]. cbn [pairs_from].
  destruct (String.eqb_spec (form_get vals (numbered prefix i keyName)) "") as [_|E]; [by eexists|].
  apply IH, keys_left_step; [apply numbered_inj|done|by apply form_get_some].
Qed.

Lemma MessageAttrs_returns `{LaxBase64} vals prefix : exists out, MessageAttrs vals prefix = Ret (Ok out).
Proof.
  unfold MessageAttrs. pose proof (keys_left_all (fun i => numbered prefix i "Name") vals 1) as Hk. revert Hk. generalize 1 (Datatypes.S (size vals)) (∅ : gmap string MessageAttr).
  intros i fuel out. revert i out. induction fuel as [|fuel IH]; intros i out Hk; [by apply keys_left_none in Hk|]. cbn [attrs_from].
  destruct (String.eqb_spec (form_get vals (numbered prefix i "Name")) "") as [_|E]; [by eexists|].
  apply IH, keys_left_step; [intros ? ?; apply numbered_inj|done|by apply form_get_some].
Qed.

(** A list whose members are numbered from one without a gap is read as it is. *)
Lemma Members_exact vals prefix memberless l :
  (forall i v, l !! i = Some v -> exists rest, vals !! member_key prefix memberless (Z.of_nat i + 1) = Some (v :: rest)) ->
  vals !! member_key prefix memberless (Z.of_nat (length l) + 1) = None ->
  Members vals prefix memberless = Ret (Ok l).
Proof.
  intros Hl Hend. pose proof (Members_ends vals prefix memberless) as Hfuel. revert Hfuel. unfold Members. generalize (Datatypes.S (size vals)). intros fuel.
  change 1 with (Z.of_nat 0 + 1). assert (length l = 0 + length l)%nat as Elen by done. rewrite Elen in Hend.
  assert (forall i v, l !! i = Some v -> exists rest, vals !! member_key prefix memberless (Z.of_nat (0 + i) + 1) = Some (v :: rest)) as Hl' by done.
  clear Hl Elen. revert Hl' Hend. generalize 0%nat. revert l. induction fuel as [|fuel IH]; intros l n Hl Hend H; [done|]. cbn [members_from] in *.
  destruct l as [|v l]; [rewrite Nat.add_0_r in Hend; by rewrite Hend|].
  destruct (Hl 0%nat v eq_refl) as [rest Hv]. rewrite Nat.add_0_r in Hv. rewrite Hv in *.
  replace (Z.of_nat n + 1 + 1) with (Z.of_nat (Datatypes.S n) + 1) in * by lia.
  rewrite (IH l (Datatypes.S n)); [done|..].
  - intros i w Hi. destruct (Hl (Datatypes.S i) w Hi) as [r Hr]. exists r. by rewrite <- Hr, Nat.add_succ_comm.
  - by rewrite <- Hend, Nat.add_succ_comm.
  - by destruct (members_from fuel _ _ _ _) as [[]| |].
Qed.
