(* ===== verification/Metrics.v ===== *)
(** * Metrics: the metric store of CloudWatch (src/cloudwatch: store.go, samples.go,
    aggregate.go, actions.go, actions_metrics.go)

    The catalogue of series, the samples under their keys, the buckets that statistics are
    computed over, and the four metric operations.  A bucket of the database that was never
    created reads as an empty one.  Where an index could be out of range the answer is an
    [outcome]. *)

From stdpp Require Import pretty sorting.
From Stdlib Require Import SpecFloat.
From S2P Require Import Prelude Bytes Clock Wire Float64 Bolt Cursor Tx Cbor Params.

(** ** Data *)

Record statisticValues := mkStats { st_SampleCount : float64; st_Sum : float64; st_Minimum : float64; st_Maximum : float64 }.

Record datum := mkDatum {
  d_Namespace : string;
  d_MetricName : string;
  d_Dimensions : gmap string string;
  d_Value : float64;
  d_Unit : string;
  d_Resolution : Z;
  d_Timestamp : Z;
  d_Stats : option statisticValues
}.

(** [time.Time{}], the first instant of the year 1. *)
Definition zero_time : Z := -62135596800 * second.

Record seriesRec := mkSeries {
  se_Namespace : string;
  se_MetricName : string;
  se_Dimensions : gmap string string;
  se_FirstSeen : Z;
  se_LastSeen : Z
}.

Record sample := mkSample { s_Value : float64; s_Count : float64; s_Min : float64; s_Max : float64; s_Unit : string }.
Record tsSample := mkTs { ts_At : Z; ts_sample : sample }.

(** [errf]: the status of a code. *)
Definition errf (code format : string) : APIError :=
  Errf (if String.eqb code "ConcurrentModificationException" then 429
        else if String.eqb code "InternalServiceFault" then 500
        else if bool_decide (code ∈ ["ResourceNotFound"; "ResourceNotFoundException"; "DashboardNotFoundError"]) then 404
        else if String.eqb code "ResourceConflictException" then 409
        else 400) code format.
Definition errInvalidParameter (format : string) : APIError := errf "InvalidParameterValueException" format.
Definition errMissingParameter (format : string) : APIError := errf "MissingRequiredParameterException" format.

(** ** Keys *)

Definition NUL : ascii := chr 0.
Definition US : ascii := chr 31.
Definition RS : ascii := chr 30.

(** [dimensionSignature]: the pairs in the order of their names. *)
Definition sorted_pairs (dims : gmap string string) : list (string * string) :=
  merge_sort entry_le (map_to_list dims).
Fixpoint join_pairs (l : list (string * string)) : string :=
  match l with
  | [] => ""
  | [(n, v)] => n +:+ String RS v
  | (n, v) :: l' => n +:+ String RS v +:+ String US (join_pairs l')
  end.
Definition dimensionSignature (dims : gmap string string) : string := join_pairs (sorted_pairs dims).

Definition seriesKey (namespace metric : string) (dims : gmap string string) : string :=
  namespace +:+ String NUL (metric +:+ String NUL (dimensionSignature dims)).

(** [fmt]'s [%013d]: the width includes a sign. *)
Definition fmt_d13 (n : Z) : string := if n <? 0 then "-" +:+ pad0 12 (pretty (- n)) else pad0 13 (pretty n).

Definition sampleKey (series : string) (ms seq : Z) : string :=
  series +:+ String NUL (fmt_d13 ms +:+ String NUL (pad0 10 (pretty seq))).

Definition seriesRange (series : string) (from to : Z) : string * string :=
  (sampleKey series from 0, sampleKey series to 4294967295).

(** The thirteen digits of an instant in a key. *)
Definition digits13 (s : string) : option Z := if slen s <? 13 then None else parse_digits 0 (take_bytes 13 s).
Definition millisOfKey (key : string) (seriesLen : Z) : option Z := digits13 (drop_bytes (Z.to_nat (seriesLen + 1)) key).

(** [bytes.LastIndexByte] of NUL: what comes before the last one. *)
Definition before_last_nul (s : string) : option string :=
  match after_last NUL s with
  | Some t => Some (take_bytes (String.length s - String.length t - 1) s)
  | None => None
  end.
Definition millisAnywhere (key : string) : option Z :=
  last ← before_last_nul key;
  prev ← before_last_nul last;
  millisOfKey key (slen prev).

(** ** Records *)

Definition encode_sample (s : sample) : string :=
  be64 (to_bits (s_Value s)) +:+ be64 (to_bits (s_Count s)) +:+ be64 (to_bits (s_Min s)) +:+ be64 (to_bits (s_Max s)) +:+ s_Unit s.

Definition float_at (raw : string) (i : nat) : float64 := of_bits (be_value 0 (take_bytes 8 (drop_bytes i raw))).
Definition decodeSample (raw : string) : option sample :=
  if slen raw <? 32 then None
  else Some (mkSample (float_at raw 0) (float_at raw 8) (float_at raw 16) (float_at raw 24) (drop_bytes 32 raw)).

Definition sample_of (d : datum) : sample :=
  match d_Stats d with
  | Some st => mkSample (st_Sum st) (st_SampleCount st) (st_Minimum st) (st_Maximum st) (d_Unit d)
  | None => mkSample (d_Value d) (of_Z 1) (d_Value d) (d_Value d) (d_Unit d)
  end.

Record MetricDB `{Bolt} := mkMetricDB {
  m_series : bucket seriesRec;
  m_samples : bucket string;
  m_meta : bucket string
}.
#[global] Arguments m_series {_} _.
#[global] Arguments m_samples {_} _.
#[global] Arguments m_meta {_} _.

Section store.
Context `{B : Bolt}.

#[local] Abbreviation M := (Tx MetricDB).

Definition empty_MetricDB : MetricDB := mkMetricDB _ bempty bempty bempty.

Definition keySeq : string := "sample_seq".
Definition readSeq (b : bucket string) : Z :=
  match bget keySeq b with Some raw => if slen raw =? 8 then be_value 0 raw else 0 | None => 0 end.

Definition series_of (d : datum) : string := seriesKey (d_Namespace d) (d_MetricName d) (d_Dimensions d).

Definition recordSeries (d : datum) (nowMs : Z) : M unit :=
  db ← tx_read;
  let key := series_of d in
  let first := match bget key (m_series db) with Some prev => se_FirstSeen prev | None => nowMs end in
  let rec := mkSeries (d_Namespace d) (d_MetricName d) (d_Dimensions d) first nowMs in
  b ← tx_lift (bput key rec (m_series db));
  tx_modify (fun db => mkMetricDB _ b (m_samples db) (m_meta db)).

(** When a datum was observed. *)
Definition observed (nowMs : Z) (d : datum) : Z := if d_Timestamp d =? zero_time then nowMs else UnixMilli (d_Timestamp d).

(** The body of the loop of [putSamples]; [seq] is a uint64. *)
Definition put_datum (nowMs seq : Z) (d : datum) : M unit :=
  _ ← recordSeries d nowMs;
  db ← tx_read;
  b ← tx_lift (bput (sampleKey (series_of d) (observed nowMs d) seq) (encode_sample (sample_of d)) (m_samples db));
  tx_modify (fun db => mkMetricDB _ (m_series db) b (m_meta db)).

Fixpoint put_data (nowMs seq : Z) (data : list datum) : M Z :=
  match data with
  | [] => mret seq
  | d :: data' =>
      let seq := (seq + 1) mod 2 ^ 64 in
      _ ← put_datum nowMs seq d;
      put_data nowMs seq data'
  end.

Definition put_samples (nowMs : Z) (data : list datum) : M unit :=
  db ← tx_read;
  seq ← put_data nowMs (readSeq (m_meta db)) data;
  db ← tx_read;
  b ← tx_lift (bput keySeq (be64 seq) (m_meta db));
  tx_modify (fun db => mkMetricDB _ (m_series db) (m_samples db) b).

Definition putSamples (now : Z) (data : list datum) (db : MetricDB) : result unit * MetricDB :=
  run_update (put_samples (UnixMilli now) data) db.

(** [readSamples]: one cursor walk over the keys of a series. *)
Fixpoint below {V} (hi : string) (l : list (string * V)) : list (string * V) :=
  match l with
  | [] => []
  | e :: l' => if bytes_ltb e.1 hi then e :: below hi l' else []
  end.

Definition read_entry (series : string) (e : string * string) : option tsSample :=
  sm ← decodeSample e.2;
  ms ← millisOfKey e.1 (slen series);
  Some (mkTs ms sm).

Definition readSamples (series : string) (from to : Z) (db : MetricDB) : list tsSample :=
  let '(lo, hi) := seriesRange series (UnixMilli from) (UnixMilli to) in
  omap (read_entry series) (below hi (seek lo (bentries (m_samples db)))).

(** [sweep]: the keys past the retention, then the first keys beyond the cap. *)
Definition stale_key (cutoff : Z) (k : string) : bool :=
  match millisAnywhere k with Some ms => ms <? cutoff | None => false end.

Definition sweep (now retention max : Z) (db : MetricDB) : Z * MetricDB :=
  let cutoff := UnixMilli (now - retention) in
  let keys := (bentries (m_samples db)).*1 in
  let stale := List.filter (stale_key cutoff) keys in
  let b := foldl (fun b k => bdelete k b) (m_samples db) stale in
  let over := Z.of_nat (length keys) - Z.of_nat (length stale) - max in
  let excess := if over <=? 0 then [] else take (Z.to_nat over) (bentries b).*1 in
  let b' := foldl (fun b k => bdelete k b) b excess in
  (Z.of_nat (length stale) + Z.of_nat (length excess), mkMetricDB _ (m_series db) b' (m_meta db)).

(** ** The catalogue *)

Record dimensionFilter := mkDimFilter { df_Name : string; df_Value : string; df_HasValue : bool }.
Record seriesFilter := mkSeriesFilter {
  sf_Namespace : string;
  sf_MetricName : string;
  sf_Dimensions : list dimensionFilter;
  sf_SinceMs : Z
}.

Definition dim_matches (rec : seriesRec) (df : dimensionFilter) : bool :=
  match se_Dimensions rec !! df_Name df with
  | None => false
  | Some v => negb (df_HasValue df && negb (String.eqb v (df_Value df)))
  end.

Definition series_matches (f : seriesFilter) (rec : seriesRec) : bool :=
  negb (negb (String.eqb (sf_Namespace f) "") && negb (String.eqb (se_Namespace rec) (sf_Namespace f))) &&
  negb (negb (String.eqb (sf_MetricName f) "") && negb (String.eqb (se_MetricName rec) (sf_MetricName f))) &&
  negb ((0 <? sf_SinceMs f) && (se_LastSeen rec <? sf_SinceMs f)) &&
  forallb (dim_matches rec) (sf_Dimensions f).

(** The walk of [listSeries]: at most [limit] matches, and the key of the one after. *)
Fixpoint list_walk (f : seriesFilter) (limit : nat) (l : list (string * seriesRec)) : list seriesRec * option string :=
  match l with
  | [] => ([], None)
  | (k, rec) :: l' =>
      if negb (series_matches f rec) then list_walk f limit l'
      else match limit with
      | O => ([], Some k)
      | Datatypes.S n => let '(out, next) := list_walk f n l' in (rec :: out, next)
      end
  end.

Definition listSeries (f : seriesFilter) (after : string) (limit : nat) (db : MetricDB) : list seriesRec * option string :=
  let all := bentries (m_series db) in
  let from := if String.eqb after "" then all
              else match seek after all with
                   | (k, v) :: l => if String.eqb k after then l else (k, v) :: l
                   | [] => []
                   end in
  list_walk f limit from.

End store.

(** ** Statistics *)

Record stat := mkStat { stat_Name : string; stat_Pct : float64 }.

Record statBucket := mkBucket {
  b_Start : Z;
  b_values : list float64;
  b_Sum : float64;
  b_Count : float64;
  b_Min : float64;
  b_Max : float64;
  b_Unit : string;
  b_seenAny : bool
}.

Definition zero : float64 := S754_zero false.
Definition new_bucket (start : Z) : statBucket := mkBucket start [] zero zero zero zero "" false.

(** [bucket.add]. *)
Definition add_sample (s : sample) (b : statBucket) : statBucket :=
  let rep := if fltb (of_Z 1) (s_Count s) then fdiv (s_Value s) (s_Count s) else s_Value s in
  mkBucket (b_Start b) (b_values b ++ [rep]) (fadd (b_Sum b) (s_Value s)) (fadd (b_Count b) (s_Count s))
    (if b_seenAny b then fmin (b_Min b) (s_Min s) else s_Min s)
    (if b_seenAny b then fmax (b_Max b) (s_Max s) else s_Max s)
    (if negb (String.eqb (s_Unit s) "") && String.eqb (b_Unit b) "" then s_Unit s else b_Unit b)
    true.

Section statistics.
Context `{GoConvert} `{NumText}.

Definition simple_stats : list string := ["Average"; "Sum"; "Minimum"; "Maximum"; "SampleCount"].

Definition parseStat (s : string) : option stat :=
  if bool_decide (s ∈ simple_stats) then Some (mkStat s (of_Z (-1)))
  else match s with
  | String c ((String _ _) as t) =>
      if Ascii.eqb c "p" || Ascii.eqb c "P" then
        f ← parse_float64 t;
        if fleb zero f && fleb f (of_Z 100) then Some (mkStat ("p" +:+ default t (cut_prefix "+" t)) f) else None
      else None
  | _ => None
  end.

(** An index expression. *)
Definition index {A} (l : list A) (i : Z) : outcome A :=
  if i <? 0 then Panic else match l !! Z.to_nat i with Some x => mret x | None => Panic end.

Definition percentile (values : list float64) (pct : float64) : outcome float64 :=
  match values with
  | [] => mret zero
  | _ =>
      let sorted := merge_sort float_le values in
      let n := Z.of_nat (length sorted) in
      if fleb pct zero then index sorted 0
      else if fleb (of_Z 100) pct then index sorted (n - 1)
      else
        let rank := fmul (fdiv pct (of_Z 100)) (of_Z (n - 1)) in
        let lo := to_int64 (floor rank) rank in
        let hi := to_int64 (ceil rank) rank in
        if lo =? hi then index sorted lo
        else
          let frac := fsub rank (of_Z lo) in
          a ← index sorted lo;
          b ← index sorted hi;
          mret (fadd a (fmul frac (fsub b a)))
  end.

(** [bucket.value]. *)
Definition bucket_value (b : statBucket) (st : stat) : outcome float64 :=
  if String.eqb (stat_Name st) "Sum" then mret (b_Sum b)
  else if String.eqb (stat_Name st) "SampleCount" then mret (b_Count b)
  else if String.eqb (stat_Name st) "Minimum" then mret (b_Min b)
  else if String.eqb (stat_Name st) "Maximum" then mret (b_Max b)
  else if String.eqb (stat_Name st) "Average" then mret (if feqb (b_Count b) zero then zero else fdiv (b_Sum b) (b_Count b))
  else percentile (b_values b) (stat_Pct st).

(** [alignDown]: the quotient of the int64s is cut towards zero. *)
Definition alignDown (t period : Z) : Z :=
  if period <=? 0 then t else wrap64 (Z.quot (wrap64 t) period * period).

(** The loop of [bucketize]: the buckets by their start, and the starts as they came. *)
Definition add_to_buckets (from to period : Z) (acc : gmap Z statBucket * list Z) (s : tsSample) : gmap Z statBucket * list Z :=
  let '(byStart, order) := acc in
  let at_ := of_millis (ts_At s) in
  if (at_ <? from) || negb (at_ <? to) then acc
  else
    let start := alignDown at_ period in
    match byStart !! start with
    | Some b => (<[start := add_sample (ts_sample s) b]> byStart, order)
    | None => (<[start := add_sample (ts_sample s) (new_bucket start)]> byStart, order ++ [start])
    end.

Definition bucketize (samples : list tsSample) (from to period : Z) : list statBucket :=
  if (period <=? 0) || (length samples =? 0)%nat then []
  else
    let '(byStart, order) := foldl (add_to_buckets from to period) (∅, []) samples in
    omap (fun k => byStart !! k) (merge_sort Z.le order).

(** Keeping the samples of a unit. *)
Definition with_unit (unit : string) (samples : list tsSample) : list tsSample :=
  if String.eqb unit "" then samples else List.filter (fun sm => String.eqb (s_Unit (ts_sample sm)) unit) samples.

End statistics.

(** ** Putting metrics *)

Section handlers.
Context `{GoConvert} `{NumText} `{B : Bolt}.

(** The pairs of a list of dimensions, both halves required; a later pair of a name wins. *)
Fixpoint dimensions_from (l : list params) (acc : gmap string string) : result (gmap string string) :=
  match l with
  | [] => mret acc
  | d :: l' =>
      let n := Str d "Name" in
      let v := Str d "Value" in
      if String.eqb n "" || String.eqb v "" then Err (errInvalidParameter "The dimension Name and Value must both be set.")
      else dimensions_from l' (<[n := v]> acc)
  end.
Definition dimensions_of (p : params) : result (gmap string string) := dimensions_from (List p "Dimensions") ∅.

Definition parseStatisticValues (sv : params) : result statisticValues :=
  let sum := Float_number sv "Sum" in
  match Float sv "SampleCount", Float sv "Minimum", Float sv "Maximum" with
  | Some count, Some min, Some max =>
      if fleb count zero then Err (errInvalidParameter "The parameter StatisticValues.SampleCount must be greater than 0.")
      else if fltb max min then Err (errInvalidParameter "The parameter StatisticValues.Minimum must not exceed Maximum.")
      else mret (mkStats count sum min max)
  | _, _, _ => Err (errMissingParameter "StatisticValues requires SampleCount, Sum, Minimum and Maximum.")
  end.

Definition parse_stats (md : params) : result (option statisticValues) :=
  match Map md "StatisticValues", Float md "Value" with
  | Some _, Some _ => Err (errf "InvalidParameterCombinationException" "The parameters MetricData.member.Value and MetricData.member.StatisticValues are mutually exclusive and you have specified both.")
  | Some sv, None => st ← parseStatisticValues sv; mret (Some st)
  | None, None => Err (errMissingParameter "The parameter MetricDatum.Value or MetricDatum.StatisticValues is required.")
  | None, Some _ => mret None
  end.

Definition parseDatum (ns : string) (md : params) : result datum :=
  let name := Str md "MetricName" in
  if String.eqb name "" then Err (errMissingParameter "The parameter MetricName is required.")
  else
    stats ← parse_stats md;
    dims ← dimensions_of md;
    mret (mkDatum ns name dims (Float_number md "Value") (Str md "Unit") (Int md "StorageResolution" 60)
            (default zero_time (Time md "Timestamp")) stats).

Definition parse_metric_data (peer : bool) (p : params) : result (list datum) :=
  let ns := Str p "Namespace" in
  if String.eqb ns "" then Err (errMissingParameter "The parameter Namespace is required.")
  else if has_prefix ns "AWS/" && negb peer then Err (errInvalidParameter "The value AWS/ for parameter Namespace is invalid.")
  else
    match List p "MetricData" with
    | [] => Err (errMissingParameter "The parameter MetricData is required.")
    | data => mapR (parseDatum ns) data
    end.

Definition putMetricData (now : Z) (peer : bool) (p : params) (db : MetricDB) : result unit * MetricDB :=
  match parse_metric_data peer p with
  | Ok data => putSamples now data db
  | Err e => (Err e, db)
  end.

(** ** Listing the catalogue *)

Definition encodeToken (key : option string) : string := match key with Some k => base64_encode k | None => "" end.
Definition decodeToken (tok : string) : result string :=
  if String.eqb tok "" then mret ""
  else match base64_decode tok with Some raw => mret raw | None => Err (errf "InvalidNextToken" "The next token is not valid.") end.

Record metricView := mkMetricView { mv_Namespace : string; mv_MetricName : string; mv_Dimensions : list (string * string) }.
Record listMetricsResult := mkListMetrics { lm_Metrics : list metricView; lm_NextToken : string }.

(** [dimensionViews]: the pairs in the order of their names. *)
Definition dimensionViews (dims : gmap string string) : list (string * string) := sorted_pairs dims.
Definition view_of_series (rec : seriesRec) : metricView :=
  mkMetricView (se_Namespace rec) (se_MetricName rec) (dimensionViews (se_Dimensions rec)).

Definition dimension_filter (df : params) : result dimensionFilter :=
  let name := Str df "Name" in
  if String.eqb name "" then Err (errMissingParameter "The parameter Dimensions.member.N.Name is required.")
  else mret (mkDimFilter name (Str df "Value") (Has df "Value")).

Definition listMetricsPageSize : nat := 500.

Definition listMetrics (now : Z) (p : params) (db : MetricDB) : result listMetricsResult :=
  dims ← mapR dimension_filter (List p "Dimensions");
  let since := if String.eqb (Str p "RecentlyActive") "PT3H" then UnixMilli (now - 3 * 3600 * second) else 0 in
  let f := mkSeriesFilter (Str p "Namespace") (Str p "MetricName") dims since in
  after ← decodeToken (Str p "NextToken");
  let '(found, next) := listSeries f after listMetricsPageSize db in
  mret (mkListMetrics (map view_of_series found) (encodeToken next)).

(** ** Reading statistics *)

Definition maxDatapoints : Z := 1440.

Definition checkPeriod (secs : Z) : result unit :=
  if bool_decide (secs ∈ [1; 5; 10; 20; 30]) then mret tt
  else if Z.rem secs 60 =? 0 then mret tt
  else Err (errInvalidParameter "The parameter Period must be 1, 5, 10, 20, 30, or a multiple of 60.").

(** [requestedStats]: each statistic once, in the order they were asked for. *)
Fixpoint stats_from (names seen : list string) : result (list stat) :=
  match names with
  | [] => mret []
  | name :: names' =>
      match parseStat name with
      | None => Err (errInvalidParameter "The value %s is not a valid statistic.")
      | Some st =>
          if bool_decide (stat_Name st ∈ seen) then stats_from names' seen
          else rest ← stats_from names' (stat_Name st :: seen); mret (st :: rest)
      end
  end.
Definition requestedStats (p : params) : result (list stat) := stats_from (Strs p "Statistics" ++ Strs p "ExtendedStatistics") [].

Record datapointView := mkDatapoint {
  dp_Timestamp : Z;
  dp_SampleCount : option float64;
  dp_Average : option float64;
  dp_Sum : option float64;
  dp_Minimum : option float64;
  dp_Maximum : option float64;
  dp_Unit : string;
  dp_Extended : gmap string float64
}.
Definition new_datapoint (b : statBucket) : datapointView := mkDatapoint (b_Start b) None None None None None (b_Unit b) ∅.

(** [datapointView.set]. *)
Definition set_stat (st : stat) (v : float64) (d : datapointView) : datapointView :=
  let 'mkDatapoint t n a s lo hi u x := d in
  if String.eqb (stat_Name st) "SampleCount" then mkDatapoint t (Some v) a s lo hi u x
  else if String.eqb (stat_Name st) "Average" then mkDatapoint t n (Some v) s lo hi u x
  else if String.eqb (stat_Name st) "Sum" then mkDatapoint t n a (Some v) lo hi u x
  else if String.eqb (stat_Name st) "Minimum" then mkDatapoint t n a s (Some v) hi u x
  else if String.eqb (stat_Name st) "Maximum" then mkDatapoint t n a s lo (Some v) u x
  else mkDatapoint t n a s lo hi u (<[stat_Name st := v]> x).

Fixpoint set_stats (b : statBucket) (stats : list stat) (d : datapointView) : outcome datapointView :=
  match stats with
  | [] => mret d
  | st :: stats' => v ← bucket_value b st; set_stats b stats' (set_stat st v d)
  end.

(** A function over a list whose code may fail. *)
Fixpoint mapO {A C} (f : A -> outcome C) (l : list A) : outcome (list C) :=
  match l with
  | [] => mret []
  | a :: l' => c ← f a; rest ← mapO f l'; mret (c :: rest)
  end.

Definition datapoint_of (stats : list stat) (b : statBucket) : outcome datapointView := set_stats b stats (new_datapoint b).

Definition dp_le (a b : datapointView) : Prop := dp_Timestamp a <= dp_Timestamp b.
#[global] Instance dp_le_dec : RelDecision dp_le.
Proof. intros a b. unfold dp_le. apply Z.le_dec. Defined.

Record getMetricStatisticsResult := mkStatistics { gs_Label : string; gs_Datapoints : list datapointView }.

Definition lift_result {A} (r : result A) : outcome A := Ret r.

(** A window has a start and an end after it. *)
Definition window_of (p : params) : result (Z * Z) :=
  match Time p "StartTime" with
  | None => Err (errMissingParameter "The parameter StartTime is required.")
  | Some from =>
      match Time p "EndTime" with
      | None => Err (errMissingParameter "The parameter EndTime is required.")
      | Some to => if from <? to then mret (from, to) else Err (errInvalidParameter "The parameter StartTime must be less than EndTime.")
      end
  end.

(** The number of datapoints: a division of durations, which panics when the period is 0. *)
Definition datapoints_in (from to period : Z) : outcome Z :=
  if period =? 0 then Panic else mret (wrap64 (Z.quot (sat64 (to - from)) period)).

Definition getMetricStatistics (p : params) (db : MetricDB) : outcome getMetricStatisticsResult :=
  let ns := Str p "Namespace" in
  let name := Str p "MetricName" in
  if String.eqb ns "" || String.eqb name "" then Ret (Err (errMissingParameter "Namespace and MetricName are required."))
  else
    '(from, to) ← lift_result (window_of p);
    let periodSecs := Int p "Period" 0 in
    if periodSecs <=? 0 then Ret (Err (errMissingParameter "The parameter Period is required."))
    else
      _ ← lift_result (checkPeriod periodSecs);
      let period := duration periodSecs in
      n ← datapoints_in from to period;
      if maxDatapoints <? n then Ret (Err (errInvalidParameter "The requested window and period would return %d datapoints; the maximum is %d."))
      else
        stats ← lift_result (requestedStats p);
        match stats with
        | [] => Ret (Err (errMissingParameter "The parameter Statistics or ExtendedStatistics is required."))
        | _ =>
            dims ← lift_result (dimensions_of p);
            let samples := with_unit (Str p "Unit") (readSamples (seriesKey ns name dims) from to db) in
            points ← mapO (datapoint_of stats) (bucketize samples from to period);
            mret (mkStatistics name (merge_sort dp_le points))
        end.

(** ** GetMetricData *)

Record metricDataResultView := mkDataResult {
  md_Id : string;
  md_Label : string;
  md_Timestamps : list Z;
  md_Values : list float64;
  md_StatusCode : string
}.

(** [oneMetricStat]. *)
Definition oneMetricStat (id : string) (q ms : params) (from to : Z) (descending : bool) (db : MetricDB) : outcome metricDataResultView :=
  match Map ms "Metric" with
  | None => Ret (Err (errMissingParameter "The parameter MetricStat.Metric is required for query %s."))
  | Some metric =>
      let ns := Str metric "Namespace" in
      let name := Str metric "MetricName" in
      if String.eqb ns "" || String.eqb name "" then Ret (Err (errMissingParameter "MetricStat.Metric requires Namespace and MetricName for query %s."))
      else
        let periodSecs := Int ms "Period" (Int q "Period" 0) in
        if periodSecs <=? 0 then Ret (Err (errMissingParameter "The parameter MetricStat.Period is required for query %s."))
        else
          _ ← lift_result (checkPeriod periodSecs);
          match parseStat (Str ms "Stat") with
          | None => Ret (Err (errInvalidParameter "The value %s is not a valid statistic for query %s."))
          | Some st =>
              match dimensions_of metric with
              | Err _ => Ret (Err (errInvalidParameter "The dimension Name and Value must both be set for query %s."))
              | Ok dims =>
                  let samples := with_unit (Str ms "Unit") (readSamples (seriesKey ns name dims) from to db) in
                  let label := if String.eqb (Str q "Label") "" then name +:+ " " +:+ stat_Name st else Str q "Label" in
                  let buckets := bucketize samples from to (duration periodSecs) in
                  let buckets := if descending then rev buckets else buckets in
                  values ← mapO (fun b => bucket_value b st) buckets;
                  mret (mkDataResult id label (map b_Start buckets) values "Complete")
              end
          end
  end.

Definition one_query (from to : Z) (descending : bool) (db : MetricDB) (q : params) : outcome metricDataResultView :=
  let id := Str q "Id" in
  if String.eqb id "" then Ret (Err (errMissingParameter "The parameter MetricDataQueries.member.N.Id is required."))
  else if negb (String.eqb (Str q "Expression") "") then
    Ret (Err (errf "InvalidParameterValueException" "doze-aws does not evaluate metric math: query %s carries an Expression. A single MetricStat per query is supported, which is what CDK emits."))
  else
    match Map q "MetricStat" with
    | None => Ret (Err (errMissingParameter "The parameter MetricDataQueries.member.N.MetricStat is required for query %s."))
    | Some ms =>
        res ← oneMetricStat id q ms from to descending db;
        if Has q "ReturnData" && negb (Bool q "ReturnData") then mret (mkDataResult (md_Id res) (md_Label res) [] [] (md_StatusCode res))
        else mret res
    end.

Definition getMetricData (p : params) (db : MetricDB) : outcome (list metricDataResultView) :=
  '(from, to) ← lift_result (window_of p);
  match List p "MetricDataQueries" with
  | [] => Ret (Err (errMissingParameter "The parameter MetricDataQueries is required."))
  | queries =>
      let descending := negb (String.eqb (Str p "ScanBy") "TimestampAscending") in
      mapO (one_query from to descending db) queries
  end.

End handlers.
