(* ===== verification/MetricRun.v ===== *)
(** * MetricRun: runs of the metric store

    The order of the keys of samples, and the operations as the steps of one machine. *)

From stdpp Require Import pretty sorting.
From S2P Require Import Prelude Bytes Clock Digits Float64 Bolt Cursor Tx Params Metrics.

(** ** The keys of series *)

(** A text with no separator. *)
Definition clean (s : string) : bool := negb (has_char NUL s) && negb (has_char US s) && negb (has_char RS s).
Definition clean_dims (dims : gmap string string) : Prop := map_Forall (fun n v => clean n = true /\ clean v = true) dims.

Lemma clean_no c s : c ∈ [NUL; US; RS] -> clean s = true -> has_char c s = false.
Proof.
  unfold clean. rewrite !andb_true_iff, !negb_true_iff. intros Hc [[? ?] ?]. by repeat (apply elem_of_cons in Hc as [->|Hc]; [done|]); inversion Hc.
Qed.

Definition pair_text (p : string * string) : string := p.1 +:+ String RS p.2.

Lemma pair_text_inj p q : clean p.1 = true -> clean q.1 = true -> pair_text p = pair_text q -> p = q.
Proof.
  destruct p as [n v], q as [n' v']. cbn. intros Hp Hq E. apply (f_equal (cut_on RS)) in E. unfold pair_text in E. cbn in E.
  rewrite !cut_on_app in E by (apply clean_no; [set_solver|done]). by simplify_eq.
Qed.

Definition clean_pair (p : string * string) : Prop := clean p.1 = true /\ clean p.2 = true.

Lemma pair_text_no c p : c ∈ [NUL; US] -> clean_pair p -> has_char c (pair_text p) = false.
Proof.
  intros Hc [H1 H2]. unfold pair_text. rewrite has_char_app. cbn [has_char].
  rewrite !(clean_no c) by (done || set_solver). by repeat (apply elem_of_cons in Hc as [->|Hc]; [done|]); inversion Hc.
Qed.

Lemma split_join_pairs p l : Forall clean_pair (p :: l) -> split_on US (join_pairs (p :: l)) = map pair_text (p :: l).
Proof.
  revert p. induction l as [|q l IH]; intros [n v] H; inversion H as [|? ? Hp Hl]; subst.
  - cbn [join_pairs map]. rewrite split_on_none; [done|]. apply (pair_text_no US (n, v)); [set_solver|done].
  - change (join_pairs ((n, v) :: q :: l)) with (n +:+ String RS v +:+ String US (join_pairs (q :: l))).
    change (String RS v +:+ String US (join_pairs (q :: l))) with (String RS (v +:+ String US (join_pairs (q :: l)))).
    assert (n +:+ String RS (v +:+ String US (join_pairs (q :: l))) = pair_text (n, v) +:+ String US (join_pairs (q :: l))) as ->
      by (unfold pair_text; cbn; by rewrite sapp_assoc).
    rewrite split_on_app by (apply pair_text_no; [set_solver|done]). by rewrite IH.
Qed.

Lemma join_pairs_ne p l : join_pairs (p :: l) <> "".
Proof. destruct p as [n v]. destruct l; cbn; by destruct n. Qed.

Lemma join_pairs_inj l l' : Forall clean_pair l -> Forall clean_pair l' -> join_pairs l = join_pairs l' -> l = l'.
Proof.
  intros Hl Hl' E. destruct l as [|p l], l' as [|p' l']; [done|by destruct (join_pairs_ne p' l')|by destruct (join_pairs_ne p l)|].
  apply (f_equal (split_on US)) in E. rewrite !split_join_pairs in E by done.
  revert E Hl Hl'. generalize (p :: l) (p' :: l'). clear. induction l as [|p l IH]; intros [|p' l']; cbn; try done.
  intros [= E El] [[? ?] Hl]%Forall_cons [[? ?] Hl']%Forall_cons. f_equal; [by apply pair_text_inj|by apply IH].
Qed.

Lemma sorted_pairs_clean dims : clean_dims dims -> Forall clean_pair (sorted_pairs dims).
Proof.
  intros H. apply Forall_forall. intros [n v]. unfold sorted_pairs. rewrite merge_sort_Permutation, elem_of_map_to_list.
  apply H.
Qed.

Lemma dimensionSignature_inj dims dims' : clean_dims dims -> clean_dims dims' ->
  dimensionSignature dims = dimensionSignature dims' -> dims = dims'.
Proof.
  intros H H' E. apply join_pairs_inj in E; [|by apply sorted_pairs_clean..].
  apply map_to_list_inj. unfold sorted_pairs in E. by rewrite <- (merge_sort_Permutation entry_le (map_to_list dims)), E, merge_sort_Permutation.
Qed.

Lemma signature_no_NUL dims : clean_dims dims -> has_char NUL (dimensionSignature dims) = false.
Proof.
  intros H. apply sorted_pairs_clean in H. unfold dimensionSignature. induction (sorted_pairs dims) as [|[n v] l IH]; [done|].
  inversion H as [|? ? [Hn Hv] Hl]; subst. destruct l as [|q l].
  - by apply (pair_text_no NUL (n, v)); [set_solver|].
  - change (join_pairs ((n, v) :: q :: l)) with (n +:+ String RS (v +:+ String US (join_pairs (q :: l)))).
    rewrite has_char_app. cbn [has_char]. rewrite has_char_app. cbn [has_char]. rewrite IH by done.
    by rewrite !(clean_no NUL) by (done || set_solver).
Qed.

(** What a series is. *)
Record series_id := mkSeriesId { i_Namespace : string; i_MetricName : string; i_Dimensions : gmap string string }.
Definition clean_id (i : series_id) : Prop :=
  clean (i_Namespace i) = true /\ clean (i_MetricName i) = true /\ clean_dims (i_Dimensions i).
Definition key_of_id (i : series_id) : string := seriesKey (i_Namespace i) (i_MetricName i) (i_Dimensions i).

Lemma split_series i rest : clean_id i ->
  split_on NUL (key_of_id i +:+ String NUL rest) = [i_Namespace i; i_MetricName i; dimensionSignature (i_Dimensions i)] ++ split_on NUL rest.
Proof.
  intros (Hn & Hm & Hd). unfold key_of_id, seriesKey. rewrite !sapp_assoc. cbn [String.append]. rewrite !sapp_assoc. cbn [String.append].
  rewrite !split_on_app; [done|by apply signature_no_NUL|apply clean_no; [set_solver|done]..].
Qed.

(** One key followed by a separator starts another followed by one only when they are of
    the same series. *)
Lemma series_key_inj i i' rest rest' : clean_id i -> clean_id i' -> 
  key_of_id i +:+ String NUL rest = key_of_id i' +:+ String NUL rest' -> i = i'.
Proof.
  intros H H' E. apply (f_equal (split_on NUL)) in E. rewrite !split_series in E by done.
  destruct i as [n m d], i' as [n' m' d'], H as (_ & _ & Hd), H' as (_ & _ & Hd'). cbn in *. injection E as -> -> E _.
  f_equal. by apply dimensionSignature_inj.
Qed.

(** ** The keys of samples *)

Definition instant_ok (ms : Z) : Prop := 0 <= ms < 10 ^ 13.
Definition seq_ok (seq : Z) : Prop := 0 <= seq < 10 ^ 10.

Lemma bytes_cmp_fixed c a b x y : String.length a = String.length b ->
  bytes_cmp (a +:+ String c x) (b +:+ String c y) = lex (bytes_cmp a b) (bytes_cmp x y).
Proof.
  revert b; induction a as [|d a IH]; intros [|e b] L; cbn in L; try lia; cbn [String.append bytes_cmp].
  - by rewrite Z.compare_refl.
  - destruct (byte_of d ?= byte_of e); [apply IH; lia|done|done].
Qed.

Lemma fmt_d13_pad ms : instant_ok ms -> fmt_d13 ms = pad0 13 (pretty ms).
Proof. unfold fmt_d13, instant_ok. destruct (Z.ltb_spec ms 0); [lia|done]. Qed.

Lemma fmt_d13_len ms : instant_ok ms -> String.length (fmt_d13 ms) = 13%nat.
Proof. intros H. rewrite fmt_d13_pad by done. by apply pad0_pretty_len. Qed.

Lemma fmt_d13_digits ms : instant_ok ms -> parse_digits 0 (fmt_d13 ms) = Some ms.
Proof. intros H. rewrite fmt_d13_pad, parse_digits_pad0 by done. unfold instant_ok in H. apply parse_digits_pretty. lia. Qed.

Lemma seq_digits seq : seq_ok seq -> parse_digits 0 (pad0 10 (pretty seq)) = Some seq.
Proof. unfold seq_ok. intros H. rewrite parse_digits_pad0. apply parse_digits_pretty. lia. Qed.

(** In a series, keys are in the order of the instants, then of the sequence. *)
Lemma sampleKey_cmp series m q m' q' : instant_ok m -> instant_ok m' -> seq_ok q -> seq_ok q' ->
  bytes_cmp (sampleKey series m q) (sampleKey series m' q') = lex (m ?= m') (q ?= q').
Proof.
  intros Hm Hm' Hq Hq'. unfold sampleKey. rewrite bytes_cmp_app. cbn [bytes_cmp]. rewrite Z.compare_refl.
  rewrite bytes_cmp_fixed by (by rewrite !fmt_d13_len). rewrite !fmt_d13_pad by done.
  by rewrite (pad0_pretty_cmp 12), (pad0_pretty_cmp 9).
Qed.

Lemma digits13_key m rest : instant_ok m -> digits13 (fmt_d13 m +:+ rest) = Some m.
Proof.
  intros H. unfold digits13. rewrite slen_app. assert (slen (fmt_d13 m) = 13) as L by (unfold slen; by rewrite fmt_d13_len).
  pose proof (slen_nonneg rest). destruct (Z.ltb_spec (slen (fmt_d13 m) + slen rest) 13); [lia|].
  rewrite <- (fmt_d13_len m H) at 1. by rewrite take_bytes_app, fmt_d13_digits.
Qed.

Lemma millisOfKey_key series m rest : instant_ok m ->
  millisOfKey (series +:+ String NUL (fmt_d13 m +:+ rest)) (slen series) = Some m.
Proof.
  intros H. unfold millisOfKey. assert (Z.to_nat (slen series + 1) = String.length (series +:+ String NUL "")) as ->.
  { rewrite string_length_app. unfold slen. cbn. lia. }
  assert (series +:+ String NUL (fmt_d13 m +:+ rest) = (series +:+ String NUL "") +:+ (fmt_d13 m +:+ rest)) as -> by (by rewrite sapp_assoc).
  rewrite drop_bytes_app. by apply digits13_key.
Qed.

Lemma after_last_app c a b : has_char c b = false -> after_last c (a +:+ String c b) = Some b.
Proof.
  intros H. assert (after_last c b = None) as N.
  { clear a. induction b as [|d b IH]; [done|]. cbn in *. apply orb_false_iff in H as [H1 H2]. rewrite IH by done. by rewrite H1. }
  induction a as [|d a IH]; cbn; [by rewrite N, Ascii.eqb_refl|by rewrite IH].
Qed.

Lemma before_last_nul_app a b : has_char NUL b = false -> before_last_nul (a +:+ String NUL b) = Some a.
Proof.
  intros H. unfold before_last_nul. rewrite after_last_app by done. f_equal. rewrite string_length_app. cbn [String.length].
  replace (_ - _ - 1)%nat with (String.length a) by lia. apply take_bytes_app.
Qed.

Lemma millisAnywhere_key series m q : instant_ok m -> seq_ok q -> millisAnywhere (sampleKey series m q) = Some m.
Proof.
  intros Hm Hq. unfold millisAnywhere, sampleKey.
  assert (has_char NUL (fmt_d13 m) = false) as N1 by (eapply digits_no_char; [by apply fmt_d13_digits|done]).
  assert (has_char NUL (pad0 10 (pretty q)) = false) as N2 by (eapply digits_no_char; [by apply seq_digits|done]).
  assert (series +:+ String NUL (fmt_d13 m +:+ String NUL (pad0 10 (pretty q))) =
    (series +:+ String NUL (fmt_d13 m)) +:+ String NUL (pad0 10 (pretty q))) as E by (by rewrite sapp_assoc).
  rewrite E at 1. rewrite before_last_nul_app by done. cbn [mbind option_bind].
  rewrite before_last_nul_app by done. cbn [mbind option_bind]. by apply millisOfKey_key.
Qed.

Lemma sampleKey_inj i i' m m' q q' : clean_id i -> clean_id i' -> instant_ok m -> instant_ok m' -> seq_ok q -> seq_ok q' ->
  sampleKey (key_of_id i) m q = sampleKey (key_of_id i') m' q' -> i = i' /\ m = m' /\ q = q'.
Proof.
  intros Hi Hi' Hm Hm' Hq Hq' E. assert (i = i') as <- by (by eapply series_key_inj). split; [done|].
  assert (bytes_cmp (sampleKey (key_of_id i) m q) (sampleKey (key_of_id i) m' q') = Eq) as C by (rewrite E; apply bytes_cmp_refl).
  rewrite sampleKey_cmp in C by done. unfold lex in C. destruct (Z.compare_spec m m'); [|done..].
  by destruct (Z.compare_spec q q').
Qed.

(** A key between two of a series is of that series. *)
Lemma between_keys i i' m q lo hi a b : clean_id i -> clean_id i' ->
  ~ bytes_lt (sampleKey (key_of_id i') m q) (sampleKey (key_of_id i) lo a) ->
  bytes_lt (sampleKey (key_of_id i') m q) (sampleKey (key_of_id i) hi b) -> i = i'.
Proof.
  intros Hi Hi' Hlo Hhi. set (p := key_of_id i +:+ String NUL "").
  destruct (has_prefix (sampleKey (key_of_id i') m q) p) eqn:P.
  - apply has_prefix_spec in P as (rest & E). unfold p in E. rewrite sapp_assoc in E. symmetry in E. by eapply series_key_inj.
  - assert (forall ms s, sampleKey (key_of_id i) ms s = p +:+ (fmt_d13 ms +:+ String NUL (pad0 10 (pretty s)))) as K
      by (intros; unfold p; by rewrite sapp_assoc). rewrite K in Hlo, Hhi.
    rewrite noprefix_lt in Hlo, Hhi by done. done.
Qed.

Definition sample_ok (s : sample) : Prop :=
  is_float64 (s_Value s) = true /\ is_float64 (s_Count s) = true /\ is_float64 (s_Min s) = true /\ is_float64 (s_Max s) = true.

Lemma decode_encode_sample s : sample_ok s -> decodeSample (encode_sample s) = Some s.
Proof.
  intros (Hv & Hc & Hl & Hh). unfold encode_sample, decodeSample.
  assert (forall n, String.length (be64 n) = 8%nat) as L by done.
  rewrite !slen_app. assert (forall n, slen (be64 n) = 8) as L' by done. rewrite !L'. pose proof (slen_nonneg (s_Unit s)).
  destruct (Z.ltb_spec (8 + (8 + (8 + (8 + slen (s_Unit s))))) 32); [lia|].
  assert (forall n a b, String.length a = n -> drop_bytes n (a +:+ b) = b) as D by (intros n a b <-; apply drop_bytes_app).
  assert (forall s, drop_bytes 0 s = s) as D0 by (intros s'; by apply (D 0%nat "")).
  assert (forall f rest, is_float64 f = true -> of_bits (be_value 0 (take_bytes 8 (be64 (to_bits f) +:+ rest))) = f) as T.
  { intros f rest Hf. change 8%nat with (String.length (be64 (to_bits f))). rewrite take_bytes_app, be64_value by (by apply to_bits_range).
    by apply of_bits_to_bits. }
  destruct s as [v c lo hi u]. cbn [s_Value s_Count s_Min s_Max s_Unit] in *. unfold float_at.
  rewrite (D0 _). rewrite (T v) by done. rewrite (D 8%nat) by apply L. rewrite (T c) by done.
  rewrite <- (sapp_assoc (be64 (to_bits v))), (D 16%nat) by reflexivity. rewrite (T lo) by done.
  rewrite <- (sapp_assoc (be64 (to_bits v) +:+ be64 (to_bits c))), (D 24%nat) by reflexivity. rewrite (T hi) by done.
  rewrite <- (sapp_assoc (_ +:+ be64 (to_bits lo))), (D 32%nat) by reflexivity. reflexivity.
Qed.

(** ** Runs *)

Record observation := mkObs { o_ms : Z; o_seq : Z; o_datum : datum }.

Definition id_of (d : datum) : series_id := mkSeriesId (d_Namespace d) (d_MetricName d) (d_Dimensions d).
Definition obs_id (o : observation) : series_id := id_of (o_datum o).
Definition obs_sample (o : observation) : sample := sample_of (o_datum o).
Definition obs_key (o : observation) : string := sampleKey (key_of_id (obs_id o)) (o_ms o) (o_seq o).
Definition obs_ts (o : observation) : tsSample := mkTs (o_ms o) (obs_sample o).

(** The observations of a call, numbered from the store's counter. *)
Fixpoint stamp (nowMs seq : Z) (data : list datum) : list observation :=
  match data with
  | [] => []
  | d :: data' => mkObs (observed nowMs d) (seq + 1) d :: stamp nowMs (seq + 1) data'
  end.

(** A datum whose names hold no separator, seen after 1970 and before 2286. *)
Definition storable (nowMs : Z) (d : datum) : Prop :=
  clean_id (id_of d) /\ instant_ok (observed nowMs d) /\ sample_ok (sample_of d).

Section run.
Context `{B : Bolt} {BL : BoltLaws B}.
#[local] Set Default Proof Using "BL".

Definition fresh_keys (retention now : Z) (log : list observation) : list observation :=
  List.filter (fun o => negb (o_ms o <? UnixMilli (now - retention))) log.

(** The keys a sweep drops over the cap: the first in byte order of those it left fresh. *)
Definition over_cap (max : Z) (fresh : list observation) : list string :=
  take (Z.to_nat (Z.of_nat (length fresh) - max)) (sort_strings (obs_key <$> fresh)).
Definition surviving (retention now max : Z) (log : list observation) : list observation :=
  let fresh := fresh_keys retention now log in
  List.filter (fun o => negb (bool_decide (obs_key o ∈ over_cap max fresh))) fresh.

(** The log of a store and its counter: calls add to the log, a sweep drops from it what is
    past the retention and what is over the cap. *)
Inductive recorded : list observation -> Z -> MetricDB -> Prop :=
| recorded_none : recorded [] 0 empty_MetricDB
| recorded_put log seq db now data db' :
    recorded log seq db -> Forall (storable (UnixMilli now)) data -> seq + Z.of_nat (length data) < 4294967295 ->
    putSamples now data db = (Ok tt, db') ->
    recorded (log ++ stamp (UnixMilli now) seq data) (seq + Z.of_nat (length data)) db'
| recorded_sweep log seq db now retention max n db' :
    recorded log seq db -> sweep now retention max db = (n, db') ->
    recorded (surviving retention now max log) seq db'.

Definition obs_ok (seq : Z) (o : observation) : Prop :=
  clean_id (obs_id o) /\ instant_ok (o_ms o) /\ 0 < o_seq o <= seq /\ sample_ok (obs_sample o).

(** The samples are those of the log, under their keys. *)
Record holds (log : list observation) (seq : Z) (db : MetricDB) : Prop := {
  holds_seq : 0 <= seq < 4294967295;
  holds_ok : Forall (obs_ok seq) log;
  holds_nodup : NoDup (o_seq <$> log);
  holds_samples k v : bget k (m_samples db) = Some v <-> exists o, o ∈ log /\ k = obs_key o /\ v = encode_sample (obs_sample o)
}.

Lemma obs_key_inj seq o o' : 0 <= seq < 4294967295 -> obs_ok seq o -> obs_ok seq o' -> obs_key o = obs_key o' ->
  obs_id o = obs_id o' /\ o_ms o = o_ms o' /\ o_seq o = o_seq o'.
Proof. intros Hs (Hc & Hm & Hq & _) (Hc' & Hm' & Hq' & _) E. apply sampleKey_inj in E; unfold seq_ok; try done; lia. Qed.

Lemma obs_ok_mono seq seq' o : seq <= seq' -> obs_ok seq o -> obs_ok seq' o.
Proof. intros H (? & ? & ? & ?). unfold obs_ok. split_and!; try done; lia. Qed.

(** ** Putting *)

Lemma put_datum_effect nowMs seq d db db' : put_datum nowMs seq d db = Ok (tt, db') ->
  m_meta db' = m_meta db /\
  bput (sampleKey (key_of_id (id_of d)) (observed nowMs d) seq) (encode_sample (sample_of d)) (m_samples db) = Ok (m_samples db').
Proof.
  intros H. apply bind_ok in H as ([] & db1 & H1 & H). unfold recordSeries in H1.
  apply bind_ok in H1 as (? & ? & [= <- <-] & H1). apply bind_ok in H1 as (b & ? & [_ ->]%lift_ok & [= <-]).
  apply bind_ok in H as (? & ? & [= <- <-] & H). apply bind_ok in H as (b' & ? & [E ->]%lift_ok & [= <-]). cbn in *. done.
Qed.

Lemma holds_put_datum log seq db nowMs d db' : holds log seq db -> storable nowMs d -> seq + 1 < 4294967295 ->
  put_datum nowMs (seq + 1) d db = Ok (tt, db') -> holds (log ++ [mkObs (observed nowMs d) (seq + 1) d]) (seq + 1) db'.
Proof.
  intros [Hs Ho Hn Hb] (Hc & Hm & Hv) Hlt [_ Hp]%put_datum_effect. set (o := mkObs (observed nowMs d) (seq + 1) d).
  assert (obs_ok (seq + 1) o) as Hok by (unfold obs_ok; split_and!; try done; cbn; lia).
  assert (Forall (obs_ok (seq + 1)) log) as Ho' by (eapply Forall_impl; [exact Ho|]; intros x; apply obs_ok_mono; lia).
  assert (forall o', o' ∈ log -> obs_key o' <> obs_key o) as Hne.
  { intros o' Hin E. rewrite Forall_forall in Ho, Ho'. apply (obs_key_inj (seq + 1)) in E as (_ & _ & E); [|lia|by apply Ho'|done].
    destruct (Ho o' Hin) as (_ & _ & Hq & _). cbn in E. lia. }
  split; [lia|apply Forall_app; by split; [|constructor]| |].
  - rewrite fmap_app. apply NoDup_app. split_and!; [done| |apply NoDup_singleton].
    intros q (o' & -> & Hin)%list_elem_of_fmap E%list_elem_of_singleton.
    rewrite Forall_forall in Ho. destruct (Ho o' Hin) as (_ & _ & Hq & _). cbn in E. lia.
  - intros k v. rewrite (bget_bput _ _ _ _ _ _ Hp). setoid_rewrite elem_of_app. setoid_rewrite list_elem_of_singleton.
    change (sampleKey _ _ _) with (obs_key o). case_decide as E.
    + split; [intros [= <-]; exists o; auto|]. intros (o' & [Hin| ->] & -> & ->); [|done]. by destruct (Hne o' Hin).
    + rewrite Hb. split; intros (o' & Hin & -> & ->); exists o'; [auto|]. by destruct Hin as [?| ->].
Qed.

Lemma holds_put_data nowMs data : forall log seq db seq' db', holds log seq db -> Forall (storable nowMs) data ->
  seq + Z.of_nat (length data) < 4294967295 -> put_data nowMs seq data db = Ok (seq', db') ->
  seq' = seq + Z.of_nat (length data) /\ holds (log ++ stamp nowMs seq data) seq' db' /\ m_meta db' = m_meta db.
Proof.
  induction data as [|d data IH]; intros log seq db seq' db' H Hd Hlt E.
  - injection E as <- <-. cbn. rewrite app_nil_r, Z.add_0_r. done.
  - inversion Hd as [|? ? Hd1 Hd2]; subst. pose proof (holds_seq _ _ _ H) as Hs. cbn [length] in Hlt. rewrite Nat2Z.inj_succ in Hlt.
    cbn [put_data] in E. rewrite Z.mod_small in E by lia. apply bind_ok in E as ([] & db1 & E1 & E).
    pose proof (put_datum_effect _ _ _ _ _ E1) as [Em _].
    apply (holds_put_datum log) in E1; [|done..|lia].
    eapply IH in E as (-> & E & Em'); [|done|done|lia]. rewrite <- app_assoc in E. cbn [length stamp].
    rewrite Nat2Z.inj_succ. split; [lia|]. replace (seq + Z.succ (Z.of_nat (length data))) with (seq + 1 + Z.of_nat (length data)) by lia.
    split; [done|congruence].
Qed.

Lemma readSeq_written (b b' : bucket string) seq : 0 <= seq < 4294967295 -> bput keySeq (be64 seq) b = Ok b' -> readSeq b' = seq.
Proof.
  intros Hs E. unfold readSeq. rewrite (bget_bput _ _ _ _ _ _ E), decide_True by done.
  change (slen (be64 seq) =? 8) with true. cbv iota. apply be64_value. lia.
Qed.

(** ** Sweeping *)

Lemma stale_obs seq o cutoff : 0 <= seq < 4294967295 -> obs_ok seq o -> stale_key cutoff (obs_key o) = (o_ms o <? cutoff).
Proof. intros Hs (_ & Hm & Hq & _). unfold stale_key, obs_key. rewrite millisAnywhere_key; unfold seq_ok; try done; lia. Qed.

(** The entries of the bucket are the log in another order. *)
Lemma holds_entries log seq db : holds log seq db ->
  bentries (m_samples db) ≡ₚ (fun o => (obs_key o, encode_sample (obs_sample o))) <$> log.
Proof.
  intros [Hs Ho Hn Hb]. rewrite Forall_forall in Ho. apply NoDup_Permutation.
  - apply bentries_NoDup.
  - apply NoDup_fmap_2_strong; [|by eapply NoDup_fmap_1]. intros o o' Hin Hin' [= E _].
    apply (obs_key_inj seq) in E as (_ & _ & E); [|done|by apply Ho..]. clear -Hn Hin Hin' E.
    apply list_elem_of_lookup in Hin as [i Hi], Hin' as [j Hj].
    assert (i = j) as -> by (eapply (NoDup_lookup (o_seq <$> log)); [done|by rewrite list_lookup_fmap, Hi|by rewrite list_lookup_fmap, Hj, E]). congruence.
  - intros [k v]. rewrite bentries_bget, Hb, list_elem_of_fmap. split; intros (o & H1 & H2); exists o; [destruct H2 as [-> ->]; done|].
    injection H1 as -> ->. done.
Qed.

Lemma length_filter_perm {A} (p : A -> bool) (l l' : list A) : l ≡ₚ l' -> length (List.filter p l) = length (List.filter p l').
Proof.
  induction 1 as [|x l l' _ IH|x y l|l l' l'' _ IH1 _ IH2]; [done|..|congruence]; rewrite ?filter_cons_bool.
  - destruct (p x); cbn; congruence.
  - by destruct (p x), (p y).
Qed.

Lemma length_filter_split {A} (p : A -> bool) (l : list A) :
  (length (List.filter p l) + length (List.filter (fun x => negb (p x)) l) = length l)%nat.
Proof. induction l as [|x l IH]; [done|]. rewrite !filter_cons_bool. destruct (p x); cbn; lia. Qed.

Lemma length_filter_ext {A C} (f : A -> C) (p : C -> bool) (q : A -> bool) (l : list A) :
  (forall x, x ∈ l -> p (f x) = q x) -> length (List.filter p (f <$> l)) = length (List.filter q l).
Proof.
  induction l as [|x l IH]; intros H; [done|]. rewrite fmap_cons, !filter_cons_bool, (H x) by left.
  assert (length (List.filter p (f <$> l)) = length (List.filter q l)) as E by (apply IH; intros y Hy; apply H; by right).
  destruct (q x); cbn; congruence.
Qed.

Lemma stale_count log seq db cutoff : holds log seq db ->
  Z.of_nat (length (bentries (m_samples db))) - Z.of_nat (length (List.filter (stale_key cutoff) (bentries (m_samples db)).*1)) =
  Z.of_nat (length (List.filter (fun o => negb (o_ms o <? cutoff)) log)).
Proof.
  intros H. pose proof (holds_entries _ _ _ H) as P. destruct H as [Hs Ho _ _].
  rewrite (length_filter_perm _ _ _ (fmap_Permutation fst _ _ P)), P, length_fmap, <- list_fmap_compose.
  rewrite (length_filter_ext _ _ (fun o => o_ms o <? cutoff)).
  - pose proof (length_filter_split (fun o => o_ms o <? cutoff) log). lia.
  - intros o Hin. rewrite Forall_forall in Ho. cbn. by apply (stale_obs seq), Ho.
Qed.

#[local] Instance bytes_le_trans : Transitive bytes_le.
Proof. intros a b c. apply (entry_le_trans (V := unit) (a, tt) (b, tt) (c, tt)). Qed.
#[local] Instance bytes_le_total : Total bytes_le.
Proof. intros a b. apply (entry_le_total (V := unit) (a, tt) (b, tt)). Qed.

Lemma holds_keys log seq db : holds log seq db -> (bentries (m_samples db)).*1 = sort_strings (obs_key <$> log).
Proof.
  intros H. apply (StronglySorted_unique_strong bytes_le).
  - intros a b _ _ Hab Hba. unfold bytes_le in *. rewrite (bytes_cmp_antisym a) in Hba. apply bytes_cmp_eq. by destruct (bytes_cmp a b).
  - pose proof (bentries_sorted _ (m_samples db)) as Hl. clear H. induction Hl as [|k l _ IH Hk]; constructor; [done|].
    eapply Forall_impl; [exact Hk|]. intros k'. unfold bytes_lt, bytes_le. by intros ->.
  - apply (StronglySorted_merge_sort bytes_le).
  - unfold sort_strings. rewrite (merge_sort_Permutation bytes_le), (holds_entries log seq) by done. by rewrite <- list_fmap_compose.
Qed.

(** Deleting keys drops the observations that have them. *)
Lemma holds_kept log seq db db' ks : holds log seq db -> m_samples db' = foldl (fun b k => bdelete k b) (m_samples db) ks ->
  holds (List.filter (fun o => negb (bool_decide (obs_key o ∈ ks))) log) seq db'.
Proof.
  intros [Hs Ho Hn Hb] E. set (p := fun o => negb (bool_decide (obs_key o ∈ ks))). rewrite Forall_forall in Ho.
  assert (forall o, p o = true <-> obs_key o ∉ ks) as Hp by (intros o; unfold p; by rewrite negb_true_iff, bool_decide_eq_false).
  split; [done|..].
  - apply Forall_forall. intros o [Hin _]%elem_of_filter_bool. by apply Ho.
  - clear -Hn. induction log as [|o log IH]; [constructor|]. rewrite filter_cons_bool. apply NoDup_cons in Hn as [Hno Hn].
    destruct (p o); [|by apply IH]. apply NoDup_cons. split; [|by apply IH]. intros (o' & E & [Hin _]%elem_of_filter_bool)%list_elem_of_fmap.
    apply Hno. apply list_elem_of_fmap. by exists o'.
  - intros k v. rewrite E, bget_delete_all. destruct (decide (k ∈ ks)) as [Hk|Hk].
    + split; [done|]. intros (o & [_ Hpo%Hp]%elem_of_filter_bool & -> & _). done.
    + rewrite Hb. split; intros (o & Hin & -> & ->); exists o; (split; [|done]).
      * apply elem_of_filter_bool. split; [done|]. by apply Hp.
      * by apply elem_of_filter_bool in Hin as [Hin _].
Qed.

Lemma holds_sweep log seq db now retention max n db' : holds log seq db -> sweep now retention max db = (n, db') ->
  holds (surviving retention now max log) seq db' /\ m_meta db' = m_meta db.
Proof.
  intros H E. unfold sweep in E. set (cutoff := UnixMilli (now - retention)) in *.
  set (keys := (bentries (m_samples db)).*1) in *. set (stale := List.filter (stale_key cutoff) keys) in *.
  set (b := foldl (fun b k => bdelete k b) (m_samples db) stale) in *. set (db1 := mkMetricDB _ (m_series db) b (m_meta db)).
  assert (List.filter (fun o => negb (bool_decide (obs_key o ∈ stale))) log = fresh_keys retention now log) as Efresh.
  { pose proof (holds_ok _ _ _ H) as Ho. rewrite Forall_forall in Ho. apply List.filter_ext_in. intros o Hin%list_elem_of_In. f_equal.
    rewrite <- (stale_obs seq) by (apply H || by apply Ho). destruct (stale_key _ (obs_key o)) eqn:Es.
    - apply bool_decide_eq_true, elem_of_filter_bool. split; [|done]. apply list_elem_of_fmap.
      exists (obs_key o, encode_sample (obs_sample o)). split; [done|]. apply bentries_bget, (holds_samples _ _ _ H). by exists o.
    - apply bool_decide_eq_false. intros [_ Hs]%elem_of_filter_bool. unfold cutoff in Hs. congruence. }
  pose proof (holds_kept log seq db db1 stale H eq_refl) as H1. rewrite Efresh in H1. set (fresh := fresh_keys retention now log) in *.
  assert ((bentries b).*1 = sort_strings (obs_key <$> fresh)) as Ekeys by apply (holds_keys _ _ _ H1).
  assert (Z.of_nat (length keys) - Z.of_nat (length stale) = Z.of_nat (length fresh)) as Ecount.
  { unfold keys, stale. rewrite length_fmap. by rewrite (stale_count log seq). }
  rewrite Ecount in E. injection E as <- <-. split; [|done].
  unfold surviving. fold fresh. unfold over_cap. rewrite <- Ekeys.
  apply (holds_kept fresh seq db1); [exact H1|]. cbn. destruct (Z.leb_spec (Z.of_nat (length fresh) - max) 0); [|done].
  by rewrite Z2Nat.nonpos by lia.
Qed.

(** What every reachable store satisfies. *)
Lemma recorded_holds log seq db : recorded log seq db -> holds log seq db /\ readSeq (m_meta db) = seq.
Proof.
  induction 1 as [|log seq db now data db' _ [IH Hq] Hd Hlt E|log seq db now retention max n db' _ [IH Hq] E].
  - split; [split; [lia|constructor..|]|].
    + intros k v. cbn. rewrite bget_bempty. split; [done|]. by intros (o & Ho%elem_of_nil & _).
    + cbn. unfold readSeq. by rewrite bget_bempty.
  - apply update_ok in E as [([] & _ & E)|(e & [=] & _)]. unfold put_samples in E. apply bind_ok in E as (db0 & db1 & [= <- <-] & E).
    rewrite Hq in E. apply bind_ok in E as (seq' & db1 & E1 & E). apply (holds_put_data _ _ log) in E1 as (-> & H & Em); [|done..].
    apply bind_ok in E as (? & ? & [= <- <-] & E). apply bind_ok in E as (b & ? & [Ep ->]%lift_ok & [= <-]). cbn.
    split; [by destruct H as [Hs Ho Hn Hb]; split|]. apply (readSeq_written (m_meta db1)); [|done]. apply (holds_seq _ _ _ H).
  - eapply holds_sweep in E as [E ->]; [|done..]. done.
Qed.
End run.

(** ** Reading *)

(** The order of observations in a series: by instant, then by arrival. *)
Definition obs_le (a b : observation) : Prop := o_ms a < o_ms b \/ (o_ms a = o_ms b /\ o_seq a <= o_seq b).
#[global] Instance obs_le_dec : RelDecision obs_le.
Proof. intros a b. unfold obs_le. apply _. Defined.
#[global] Instance obs_le_total : Total obs_le.
Proof. intros a b. unfold obs_le. lia. Qed.
#[global] Instance obs_le_trans : Transitive obs_le.
Proof. intros a b c. unfold obs_le. lia. Qed.

#[global] Instance series_id_eq_dec : EqDecision series_id.
Proof. solve_decision. Defined.

(** The observations of a series in a window of milliseconds, in order. *)
Definition in_window (i : series_id) (lo hi : Z) (o : observation) : bool :=
  bool_decide (obs_id o = i) && (lo <=? o_ms o) && (o_ms o <=? hi).
Definition window (i : series_id) (lo hi : Z) (log : list observation) : list observation :=
  merge_sort obs_le (List.filter (in_window i lo hi) log).

Lemma elem_of_window i lo hi log o : o ∈ window i lo hi log <-> o ∈ log /\ obs_id o = i /\ lo <= o_ms o <= hi.
Proof.
  unfold window, in_window. rewrite merge_sort_Permutation, elem_of_filter_bool, !andb_true_iff, bool_decide_eq_true, !Z.leb_le. tauto.
Qed.

Section reading.
Context `{B : Bolt} {BL : BoltLaws B}.
#[local] Set Default Proof Using "BL".

Lemma below_filter {V} hi (l : list (string * V)) :
  StronglySorted key_lt l -> below hi l = List.filter (fun e => bytes_ltb e.1 hi) l.
Proof.
  induction 1 as [|e l Hl IH He]; [done|]. cbn [below]. rewrite filter_cons_bool. destruct (bytes_ltb e.1 hi) eqn:E; [by rewrite IH|].
  symmetry. apply filter_none. intros x Hx. rewrite Forall_forall in He. specialize (He x Hx). apply bytes_ltb_lt. apply bytes_ltb_lt in E.
  intros Hlt. apply E. unfold key_lt in He. by etrans.
Qed.

Definition obs_entry (o : observation) : string * string := (obs_key o, encode_sample (obs_sample o)).

Lemma window_sorted log seq db i lo hi : holds log seq db -> StronglySorted key_lt (obs_entry <$> window i lo hi log).
Proof.
  intros [Hs Ho Hn _]. assert (Forall (obs_ok seq) (window i lo hi log)) as Hw.
  { apply Forall_forall. rewrite Forall_forall in Ho. intros o [Hin _]%elem_of_window. by apply Ho. }
  assert (Forall (fun o => obs_id o = i) (window i lo hi log)) as Hi by (apply Forall_forall; intros o (_ & ? & _)%elem_of_window; done).
  assert (NoDup (o_seq <$> window i lo hi log)) as Hnw.
  { unfold window. rewrite merge_sort_Permutation. clear -Hn. induction log as [|o log IH]; [constructor|].
    apply NoDup_cons in Hn as [Hno Hn]. rewrite filter_cons_bool. destruct (in_window i lo hi o); [|by apply IH]. apply NoDup_cons.
    split; [|by apply IH]. intros (o' & E & [Hin _]%elem_of_filter_bool)%list_elem_of_fmap. apply Hno, list_elem_of_fmap. by exists o'. }
  assert (StronglySorted obs_le (window i lo hi log)) as S by (apply StronglySorted_merge_sort; apply _).
  induction S as [|o l Hl IH Hle]; [constructor|]. inversion Hw as [|? ? Hok Hw']; inversion Hi as [|? ? Ei Hi']; subst.
  rewrite fmap_cons in Hnw. apply NoDup_cons in Hnw as [Hno Hnw]. rewrite fmap_cons. constructor; [by apply IH|]. apply Forall_fmap.
  rewrite !Forall_forall in *. intros o' Hin. unfold compose, key_lt, obs_entry, bytes_lt. cbn [fst]. unfold obs_key. rewrite (Hi' o' Hin).
  destruct Hok as (_ & Hm & Hq & _), (Hw' o' Hin) as (_ & Hm' & Hq' & _). rewrite sampleKey_cmp by (unfold seq_ok; done || lia).
  assert (o_seq o <> o_seq o') as Hneq by (intros E; apply Hno; rewrite E; by apply list_elem_of_fmap_2).
  specialize (Hle o' Hin). unfold obs_le in Hle. unfold lex.
  destruct (Z.compare_spec (o_ms o) (o_ms o')); [|done|lia]. apply Z.compare_lt_iff. lia.
Qed.

(** A window reads the observations of its series, in order. *)
Lemma readSamples_window log seq db i from to : holds log seq db -> clean_id i ->
  instant_ok (UnixMilli from) -> instant_ok (UnixMilli to) ->
  readSamples (key_of_id i) from to db = obs_ts <$> window i (UnixMilli from) (UnixMilli to) log.
Proof.
  intros H Hi Hf Ht. set (lo := UnixMilli from) in *. set (hi := UnixMilli to) in *.
  pose proof (window_sorted log seq db i lo hi H) as Sw. destruct H as [Hs Ho Hn Hb]. rewrite Forall_forall in Ho.
  assert (StronglySorted key_lt (bentries (m_samples db))) as Se by (apply sorted_entries, bentries_sorted).
  unfold readSamples, seriesRange. fold lo hi. rewrite seek_filter by done. rewrite below_filter by (by apply sorted_filter).
  assert (seq_ok 0 /\ seq_ok 4294967295) as [Hz Hm] by (unfold seq_ok; lia).
  assert (List.filter (fun e : string * string => bytes_ltb e.1 (sampleKey (key_of_id i) hi 4294967295))
            (List.filter (fun e => negb (bytes_ltb e.1 (sampleKey (key_of_id i) lo 0))) (bentries (m_samples db))) =
          obs_entry <$> window i lo hi log) as ->.
  - apply sorted_unique; [by do 2 apply sorted_filter|done|]. intros [k v].
    rewrite !elem_of_filter_bool, bentries_bget, Hb, list_elem_of_fmap, negb_true_iff, bytes_ltb_lt, bytes_ltb_spec. cbn [fst].
    split.
    + intros [[(o & Hin & -> & ->) Hl] Hh]. exists o. split; [done|]. apply elem_of_window. split; [done|].
      destruct (Ho o Hin) as (Hc & Hmo & Hqo & _). assert (i = obs_id o) as Ei by (by eapply between_keys). split; [done|].
      unfold obs_key in Hl, Hh. rewrite <- Ei in Hl, Hh. unfold bytes_lt in Hl, Hh. rewrite sampleKey_cmp in Hl, Hh by (done || unfold seq_ok; lia).
      unfold lex in Hl, Hh. destruct (Z.compare_spec (o_ms o) lo), (Z.compare_spec (o_ms o) hi); try done; try lia.
    + intros (o & [= -> ->] & (Hin & Ei & Hw)%elem_of_window). split; [split; [by exists o|]|].
      all: destruct (Ho o Hin) as (Hc & Hmo & Hqo & _); unfold obs_key; rewrite Ei; unfold bytes_lt; rewrite sampleKey_cmp by (done || unfold seq_ok; lia); unfold lex.
      * destruct (Z.compare_spec (o_ms o) lo); [|lia|done]. destruct (Z.compare_spec (o_seq o) 0); [done|lia|done].
      * destruct (Z.compare_spec (o_ms o) hi); [|done|lia]. apply Z.compare_lt_iff. lia.
  - assert (Forall (obs_ok seq) (window i lo hi log)) as Hw by (apply Forall_forall; intros o [Hin _]%elem_of_window; by apply Ho).
    assert (Forall (fun o => obs_id o = i) (window i lo hi log)) as Hid by (apply Forall_forall; intros o (_ & ? & _)%elem_of_window; done).
    induction (window i lo hi log) as [|o l IH]; [done|]. inversion Hw as [|? ? (_ & Hmo & _ & Hv) Hw']; inversion Hid as [|? ? Ei Hid']; subst.
    rewrite !fmap_cons. inversion Sw; subst. unfold read_entry at 1. cbn [omap list_omap obs_entry fst snd].
    rewrite decode_encode_sample by done. cbn [mbind option_bind]. unfold obs_key at 1. unfold sampleKey at 1. rewrite millisOfKey_key by done.
    cbn [mbind option_bind]. f_equal. by apply IH.
Qed.
End reading.
