(* ===== verification/MetricsSpec.v ===== *)
(** * MetricsSpec: the statistics of a metric

    That the buckets a statistics request is answered from are, period by period, the
    statistics of exactly the observations of that metric, and what the handlers do. *)

From stdpp Require Import pretty sorting.
From Stdlib Require Import SpecFloat.
From S2P Require Import Prelude Bytes Clock Digits Float64 Cbor Bolt Cursor Tx Params Metrics MetricRun.

(** ** Buckets *)

(** The value a sample stands for among percentiles. *)
Definition representative (s : sample) : float64 := if fltb (of_Z 1) (s_Count s) then fdiv (s_Value s) (s_Count s) else s_Value s.

Definition extreme (f : float64 -> float64 -> float64) (l : list float64) : float64 :=
  match l with [] => zero | x :: l' => foldl f x l' end.

Fixpoint first_unit (l : list string) : string :=
  match l with [] => "" | u :: l' => if String.eqb u "" then first_unit l' else u end.

(** The statistics of the samples of a period: sums are left to right. *)
Definition statistics (start : Z) (l : list sample) : statBucket :=
  mkBucket start (map representative l) (foldl fadd zero (map s_Value l)) (foldl fadd zero (map s_Count l))
    (extreme fmin (map s_Min l)) (extreme fmax (map s_Max l)) (first_unit (map s_Unit l)) (negb (length l =? 0)%nat).

Lemma extreme_snoc f l x : extreme f (l ++ [x]) = match l with [] => x | _ => f (extreme f l) x end.
Proof. destruct l as [|y l]; [done|]. cbn. by rewrite foldl_app. Qed.

Lemma first_unit_snoc l u : first_unit (l ++ [u]) = if negb (String.eqb u "") && String.eqb (first_unit l) "" then u else first_unit l.
Proof.
  induction l as [|v l IH]; cbn [app first_unit].
  - destruct (String.eqb_spec u ""); cbn; congruence.
  - destruct (String.eqb_spec v "") as [->|Hv]; [done|]. destruct (String.eqb_spec v ""); [done|]. by rewrite andb_false_r.
Qed.

Lemma add_sample_statistics start l s : add_sample s (statistics start l) = statistics start (l ++ [s]).
Proof.
  unfold statistics, add_sample. cbn [b_Start b_values b_Sum b_Count b_Min b_Max b_Unit b_seenAny].
  rewrite !map_app, !foldl_app. cbn [map foldl]. rewrite !extreme_snoc, first_unit_snoc, length_app.
  assert ((length l + length [s] =? 0)%nat = false) as -> by (apply Nat.eqb_neq; cbn; lia).
  f_equal; destruct l; done.
Qed.

(** The start of a period, and the samples of a window that lie in it. *)
Definition start_of (period : Z) (s : tsSample) : Z := alignDown (of_millis (ts_At s)) period.
Definition within (from to : Z) (s : tsSample) : bool := (from <=? of_millis (ts_At s)) && (of_millis (ts_At s) <? to).
Definition in_period (period t : Z) (l : list tsSample) : list sample :=
  map ts_sample (List.filter (fun s => start_of period s =? t) l).
Definition starts (period : Z) (l : list tsSample) : list Z := merge_sort Z.le (remove_dups (map (start_of period) l)).
Definition periods (period : Z) (l : list tsSample) : list statBucket :=
  map (fun t => statistics t (in_period period t l)) (starts period l).

Definition fold_ok (period : Z) (l : list tsSample) (acc : gmap Z statBucket * list Z) : Prop :=
  NoDup acc.2 /\ (forall t, t ∈ acc.2 <-> t ∈ map (start_of period) l) /\
  forall t, acc.1 !! t = if bool_decide (t ∈ acc.2) then Some (statistics t (in_period period t l)) else None.

Lemma in_period_snoc period t l s :
  in_period period t (l ++ [s]) = in_period period t l ++ (if start_of period s =? t then [ts_sample s] else []).
Proof. unfold in_period. rewrite List.filter_app, map_app, filter_cons_bool. by destruct (start_of period s =? t). Qed.

Lemma in_period_none period t l : t ∉ map (start_of period) l -> in_period period t l = [].
Proof.
  intros H. unfold in_period. rewrite filter_none; [done|]. intros s Hs. apply Z.eqb_neq. intros <-. apply H.
  apply list_elem_of_In, in_map. by apply list_elem_of_In.
Qed.

Lemma fold_step from to period l acc s : fold_ok period (List.filter (within from to) l) acc ->
  fold_ok period (List.filter (within from to) (l ++ [s])) (add_to_buckets from to period acc s).
Proof.
  intros (Hn & Ho & Hb). destruct acc as [by_start order]. cbn [fst snd] in *. rewrite List.filter_app, filter_cons_bool. cbn [List.filter].
  unfold add_to_buckets. replace (_ || _) with (negb (within from to s)) by (unfold within; destruct (Z.ltb_spec (of_millis (ts_At s)) from), (Z.leb_spec from (of_millis (ts_At s))); try lia; done).
  destruct (within from to s) eqn:W; cbn [negb]; [|by rewrite app_nil_r]. fold (start_of period s).
  set (t := start_of period s) in *. set (l' := List.filter (within from to) l) in *. set (f := map (start_of period) l').
  assert (forall u, u ∈ map (start_of period) (l' ++ [s]) <-> u ∈ f \/ u = t) as Hu by (intros u; rewrite map_app, elem_of_app; fold f; cbn; by rewrite list_elem_of_singleton).
  assert (forall u, in_period period u (l' ++ [s]) = in_period period u l' ++ (if t =? u then [ts_sample s] else [])) as Hp by (intros u; apply in_period_snoc).
  pose proof (Hb t) as Ht. destruct (bool_decide_reflect (t ∈ order)) as [Hin|Hin]; rewrite Ht; cbn [fst snd]; unfold fold_ok; cbn [fst snd].
  - split; [done|]. split; [intros u; rewrite Hu, Ho; fold f; split; [auto|intros [?| ->]; [done|by apply Ho]]|].
    intros u. rewrite Hp. destruct (decide (u = t)) as [->|Hne].
    + rewrite lookup_insert_eq, bool_decide_true, Z.eqb_refl by done. by rewrite add_sample_statistics.
    + rewrite lookup_insert_ne, Hb by done. rewrite (proj2 (Z.eqb_neq t u)), app_nil_r by done. done.
  - assert (t ∉ f) as Hf by (unfold f; by rewrite <- Ho). split; [|split].
    + apply NoDup_app. split; [done|]. split; [|apply NoDup_singleton]. intros u Hu1 ->%list_elem_of_singleton. done.
    + intros u. rewrite elem_of_app, list_elem_of_singleton, Ho, Hu. done.
    + intros u. rewrite Hp. destruct (decide (u = t)) as [->|Hne].
      * rewrite lookup_insert_eq, bool_decide_true, Z.eqb_refl by (apply elem_of_app; right; by apply list_elem_of_singleton).
        rewrite in_period_none by done. by rewrite <- (add_sample_statistics t []).
      * rewrite lookup_insert_ne, Hb by done. rewrite (proj2 (Z.eqb_neq t u)), app_nil_r by done.
        assert (bool_decide (u ∈ order ++ [t]) = bool_decide (u ∈ order)) as ->; [|done].
        apply bool_decide_ext. rewrite elem_of_app, list_elem_of_singleton. naive_solver.
Qed.

Lemma fold_buckets from to period l : fold_ok period (List.filter (within from to) l) (foldl (add_to_buckets from to period) (∅, []) l).
Proof.
  induction l as [|s l IH] using rev_ind; [|rewrite foldl_app; by apply fold_step].
  split; [constructor|]. split; [done|]. intros t. cbn. by rewrite lookup_empty.
Qed.

(** A loop over the samples groups the ones in the window by period. *)
Lemma bucketize_periods l from to period : 0 < period -> bucketize l from to period = periods period (List.filter (within from to) l).
Proof.
  intros Hp. unfold bucketize. rewrite (proj2 (Z.leb_gt _ _)) by done. destruct l as [|s l]; [done|]. cbn [orb length Nat.eqb].
  pose proof (fold_buckets from to period (s :: l)) as H. destruct (foldl _ _ _) as [m order]. destruct H as (Hn & Ho & Hb). cbn [fst snd] in *.
  unfold periods. set (l' := List.filter (within from to) (s :: l)) in *.
  assert (merge_sort Z.le order = starts period l') as ->.
  { unfold starts. apply (StronglySorted_unique Z.le); [apply StronglySorted_merge_sort; apply _..|].
    rewrite !merge_sort_Permutation. apply NoDup_Permutation; [done|apply NoDup_remove_dups|]. intros t. by rewrite elem_of_remove_dups, Ho. }
  assert (forall t, t ∈ starts period l' -> m !! t = Some (statistics t (in_period period t l'))) as Hs.
  { intros t. unfold starts. rewrite merge_sort_Permutation, elem_of_remove_dups, <- Ho. intros Hin. by rewrite Hb, bool_decide_true. }
  induction (starts period l') as [|t ts IH]; [done|]. cbn [omap list_omap map]. rewrite Hs by left. f_equal. apply IH.
  intros u Hu. apply Hs. by right.
Qed.

(** ** What a window reads *)

(** The observations a request asks for: of the series, of the unit, in the window. *)
Definition wanted (i : series_id) (unit : string) (from to : Z) (o : observation) : bool :=
  bool_decide (obs_id o = i) && (String.eqb unit "" || String.eqb (d_Unit (o_datum o)) unit) &&
  ((from <=? of_millis (o_ms o)) && (of_millis (o_ms o) <? to)).
Definition observations (i : series_id) (unit : string) (from to : Z) (log : list observation) : list observation :=
  merge_sort obs_le (List.filter (wanted i unit from to) log).

(** A sorted list is determined by its members when no two are interchangeable. *)
Lemma filter_merge_sort (p q : observation -> bool) log : NoDup (o_seq <$> log) ->
  List.filter p (merge_sort obs_le (List.filter q log)) = merge_sort obs_le (List.filter (fun o => q o && p o) log).
Proof.
  intros Hn. apply (StronglySorted_unique_strong obs_le).
  - intros a b Ha Hb Hab Hba. assert (o_seq a = o_seq b) as E by (unfold obs_le in *; lia).
    apply elem_of_filter_bool in Ha as [Ha _]. rewrite merge_sort_Permutation in Ha, Hb.
    apply elem_of_filter_bool in Ha as [Ha _], Hb as [Hb _]. apply list_elem_of_lookup in Ha as [x Hx], Hb as [y Hy].
    assert (x = y) as -> by (eapply (NoDup_lookup (o_seq <$> log)); [done|by rewrite list_lookup_fmap, Hx|by rewrite list_lookup_fmap, Hy, E]). congruence.
  - apply sorted_filter, StronglySorted_merge_sort; apply _.
  - apply StronglySorted_merge_sort; apply _.
  - assert (NoDup log) as Hd by (by eapply NoDup_fmap_1). apply NoDup_Permutation.
    + apply NoDup_ListNoDup, List.NoDup_filter, NoDup_ListNoDup. rewrite merge_sort_Permutation. by apply NoDup_ListNoDup, List.NoDup_filter, NoDup_ListNoDup.
    + rewrite merge_sort_Permutation. by apply NoDup_ListNoDup, List.NoDup_filter, NoDup_ListNoDup.
    + intros o. rewrite elem_of_filter_bool, !merge_sort_Permutation, !elem_of_filter_bool, andb_true_iff. tauto.
Qed.

Lemma filter_map {A C} (f : A -> C) (p : C -> bool) l : List.filter p (f <$> l) = f <$> List.filter (fun a => p (f a)) l.
Proof. induction l as [|a l IH]; [done|]. rewrite fmap_cons, !filter_cons_bool. destruct (p (f a)); [by rewrite fmap_cons, IH|done]. Qed.

Lemma filter_ext_bool {A} (p q : A -> bool) l : (forall a, p a = q a) -> List.filter p l = List.filter q l.
Proof. intros H. induction l as [|a l IH]; [done|]. by rewrite !filter_cons_bool, H, IH. Qed.

Lemma UnixMilli_small t : 0 <= t < 2 ^ 63 -> UnixMilli t = t / 1000000 /\ instant_ok (UnixMilli t).
Proof.
  intros H. unfold UnixMilli, instant_ok. rewrite wrap64_small; [split; [done|]|]; zdiv.
Qed.

Section reads.
Context `{B : Bolt} {BL : BoltLaws B}.
#[local] Set Default Proof Using "BL".

Lemma read_within log seq db i unit from to : recorded log seq db -> clean_id i -> 0 <= from -> from < to -> to < 2 ^ 63 ->
  List.filter (within from to) (with_unit unit (readSamples (key_of_id i) from to db)) = obs_ts <$> observations i unit from to log.
Proof.
  intros [H _]%recorded_holds Hi H0 Hft Ht. destruct (UnixMilli_small from) as [Ef If]; [lia|]. destruct (UnixMilli_small to) as [Et It]; [lia|].
  rewrite (readSamples_window log seq) by done.
  assert (forall l, with_unit unit (obs_ts <$> l) = obs_ts <$> List.filter (fun o => String.eqb unit "" || String.eqb (d_Unit (o_datum o)) unit) l) as ->.
  { intros l. unfold with_unit. destruct (String.eqb unit ""); cbn [orb]; [by rewrite filter_all|]. rewrite filter_map. f_equal.
    apply filter_ext_bool. intros o. unfold obs_ts, obs_sample, sample_of. cbn. by destruct (d_Stats (o_datum o)). }
  rewrite filter_map. f_equal.
  unfold window, observations. pose proof (holds_nodup _ _ _ H) as Hn.
  rewrite (filter_merge_sort _ (in_window i _ _)), filter_merge_sort by done. f_equal. apply filter_ext_bool. intros o.
  unfold in_window, wanted, within, obs_ts, of_millis. cbn [ts_At]. rewrite Ef, Et.
  destruct (bool_decide (obs_id o = i)); cbn [andb]; [|done]. destruct (String.eqb unit "" || _); rewrite ?andb_true_r, ?andb_false_r; cbn [andb]; [|done].
  destruct (Z.leb_spec from (o_ms o * 1000000)), (Z.ltb_spec (o_ms o * 1000000) to); rewrite ?andb_true_r, ?andb_false_r; try done.
  apply andb_true_iff; rewrite !Z.leb_le; split; zdiv.
Qed.
End reads.

(** ** Statistics over observations *)

(** A period is the multiple of its length at or before an instant. *)
Definition period_start (period : Z) (o : observation) : Z := of_millis (o_ms o) / period * period.
Definition period_statistics (period : Z) (l : list observation) (t : Z) : statBucket :=
  statistics t (map obs_sample (List.filter (fun o => period_start period o =? t) l)).
Definition observed_periods (period : Z) (l : list observation) : list statBucket :=
  map (period_statistics period l) (merge_sort Z.le (remove_dups (map (period_start period) l))).

Lemma alignDown_floor t period : 0 <= t < 2 ^ 63 -> 0 < period -> alignDown t period = t / period * period.
Proof.
  intros Ht Hp. unfold alignDown. rewrite (proj2 (Z.leb_gt _ _)) by done. rewrite (wrap64_small t) by lia.
  rewrite Z.quot_div_nonneg by lia. apply wrap64_small. assert (0 <= t / period) by (by apply Z.div_pos; lia). zdiv.
Qed.

Definition obs_in (from to : Z) (o : observation) : Prop := from <= of_millis (o_ms o) < to.

Lemma observations_in i unit from to log : Forall (obs_in from to) (observations i unit from to log).
Proof.
  apply Forall_forall. intros o. unfold observations, wanted. rewrite merge_sort_Permutation, elem_of_filter_bool, !andb_true_iff, Z.leb_le, Z.ltb_lt.
  unfold obs_in. tauto.
Qed.

Lemma periods_observed period l : 0 < period -> Forall (obs_in 0 (2 ^ 63)) l ->
  periods period (obs_ts <$> l) = observed_periods period l.
Proof.
  intros Hp Hl. assert (forall o, o ∈ l -> start_of period (obs_ts o) = period_start period o) as S.
  { intros o Ho. rewrite Forall_forall in Hl. unfold start_of, period_start, obs_ts. cbn. apply alignDown_floor; [by apply Hl|done]. }
  unfold periods, observed_periods, starts. assert (map (start_of period) (obs_ts <$> l) = map (period_start period) l) as ->.
  { clear Hl. induction l as [|o l IH]; [done|]. rewrite fmap_cons. cbn [map]. rewrite (S o) by left. f_equal. apply IH. intros o' Ho. apply S. by right. }
  apply map_ext. intros t. unfold period_statistics, in_period. f_equal. clear Hl. induction l as [|o l IH]; [done|].
  rewrite fmap_cons, !filter_cons_bool, (S o) by left. assert (forall o', o' ∈ l -> start_of period (obs_ts o') = period_start period o') as S' by (intros; apply S; by right).
  destruct (_ =? t); cbn [map]; rewrite IH by done; done.
Qed.

Section answers.
Context `{GC : GoConvert} `{NT : NumText} `{B : Bolt} {BL : BoltLaws B}.
#[local] Set Default Proof Using "BL".

(** The buckets of a request. *)
Lemma buckets_observed log seq db i unit from to period : recorded log seq db -> clean_id i -> 0 <= from -> from < to -> to < 2 ^ 63 -> 0 < period ->
  bucketize (with_unit unit (readSamples (key_of_id i) from to db)) from to period = observed_periods period (observations i unit from to log).
Proof.
  intros Hr Hi H0 Hft Ht Hp. rewrite bucketize_periods by done. rewrite (read_within log seq) by done. apply periods_observed; [done|].
  eapply Forall_impl; [apply observations_in|]. unfold obs_in. lia.
Qed.

Lemma set_stat_timestamp st v d : dp_Timestamp (set_stat st v d) = dp_Timestamp d.
Proof. destruct d. unfold set_stat. by repeat case_match. Qed.

Lemma set_stats_timestamp b stats : forall d d', set_stats b stats d = Ret (Ok d') -> dp_Timestamp d' = dp_Timestamp d.
Proof.
  induction stats as [|st stats IH]; intros d d' E; [by injection E as <-|]. cbn [set_stats] in E.
  apply outcome_bind_Ok in E as (v & _ & E%IH). by rewrite E, set_stat_timestamp.
Qed.

Lemma mapO_Ok {A C} (f : A -> outcome C) l ys : mapO f l = Ret (Ok ys) <-> Forall2 (fun a c => f a = Ret (Ok c)) l ys.
Proof.
  revert ys. induction l as [|a l IH]; intros ys; cbn [mapO].
  - split; [intros [= <-]; constructor|]. by inversion 1.
  - rewrite outcome_bind_Ok. split.
    + intros (c & Ec & E). apply outcome_bind_Ok in E as (cs & E & [= <-]). constructor; [done|by apply IH].
    + inversion 1 as [|? c ? cs Ec Ecs]; subst. exists c. split; [done|]. apply IH in Ecs. by rewrite Ecs.
Qed.

Lemma observed_starts_sorted period l : StronglySorted Z.lt (b_Start <$> observed_periods period l).
Proof.
  unfold observed_periods. set (ts := merge_sort Z.le _).
  assert (b_Start <$> map (period_statistics period l) ts = ts) as ->.
  { clearbody ts. induction ts as [|t ts IH]; [done|]. cbn [map]. by rewrite fmap_cons, IH. }
  assert (StronglySorted Z.le ts) as S by (apply StronglySorted_merge_sort; apply _).
  assert (NoDup ts) as N by (unfold ts; rewrite merge_sort_Permutation; apply NoDup_remove_dups). clearbody ts.
  induction S as [|t ts S IH Ht]; [constructor|]. apply NoDup_cons in N as [Nt N]. constructor; [by apply IH|].
  rewrite Forall_forall in *. intros u Hu. specialize (Ht u Hu). assert (t <> u) by (intros ->; done). lia.
Qed.

(** Datapoints come out in the order of their periods: sorting them changes nothing. *)
Lemma sorted_points stats period l points : mapO (datapoint_of stats) (observed_periods period l) = Ret (Ok points) ->
  merge_sort dp_le points = points.
Proof.
  intros E. apply mapO_Ok in E. assert (StronglySorted (fun a b => dp_Timestamp a < dp_Timestamp b) points) as S.
  { pose proof (observed_starts_sorted period l) as S. revert S. assert (Forall2 (fun b d => b_Start b = dp_Timestamp d) (observed_periods period l) points) as F.
    { eapply Forall2_impl; [exact E|]. intros b d Hd%set_stats_timestamp. by rewrite Hd. }
    clear E. induction F as [|b d bs ds Eb F IH]; intros S; [constructor|]. rewrite fmap_cons in S. inversion S as [|? ? S' Hb]; subst.
    constructor; [by apply IH|]. rewrite <- Eb. clear -F Hb. induction F as [|b' d' bs ds E F IH]; [constructor|].
    rewrite fmap_cons in Hb. inversion Hb; subst. constructor; [lia|by apply IH]. }
  apply (StronglySorted_unique_strong dp_le); [| | |apply merge_sort_Permutation].
  - intros a b Ha Hb Hab Hba. rewrite merge_sort_Permutation in Ha. unfold dp_le in *. clear E.
    induction S as [|d ds S IH Hd]; [by apply elem_of_nil in Ha|]. rewrite Forall_forall in Hd.
    apply elem_of_cons in Ha as [->|Ha], Hb as [->|Hb]; [done|specialize (Hd b Hb); lia|specialize (Hd a Ha); lia|by apply IH].
  - apply StronglySorted_merge_sort; [intros a b c; unfold dp_le; lia|intros a b; unfold dp_le; lia].
  - clear E. induction S as [|d ds S IH Hd]; constructor; [done|]. eapply Forall_impl; [exact Hd|]. unfold dp_le. cbn. lia.
Qed.

(** C34: GetMetricStatistics answers one datapoint for every period of the window in which
    the log has an observation of the series, in the unit if one is asked for, oldest first;
    and each holds the asked-for statistics of exactly those observations: sums from the
    oldest to the newest.  The log is that of any run, however interleaved, of sweeps and of
    PutMetricData calls that the store accepted: a call adds its observations, and a sweep,
    of whatever retention and cap, drops those past the retention and then, of those that
    are over the cap, the first in the byte order of their keys, whatever their series.  The
    calls of the run give names, dimensions and values of dimensions without the characters
    0, 30 and 31, which separate the parts of a key, instants from 1970 to 2286, and fewer
    than 2^32 - 1 samples in all.  The request names the metric in the same characters, asks
    for a statistic at least, and has a window from 1970 on that ends before 2^63 ns, of at
    most the datapoints that may be asked for, in periods that are allowed and shorter than
    2^33 seconds.  Where a statistic fails, as a percentile may, the answer is its failure. *)
Theorem GetMetricStatistics_exact log seq db p from to dims stats :
  recorded log seq db ->
  let i := mkSeriesId (Str p "Namespace") (Str p "MetricName") dims in
  let secs := Int p "Period" 0 in
  i_Namespace i <> "" -> i_MetricName i <> "" -> clean_id i ->
  window_of p = Ok (from, to) -> 0 <= from -> to < 2 ^ 63 ->
  0 < secs < 2 ^ 33 -> checkPeriod secs = Ok tt -> (to - from) / (secs * second) <= maxDatapoints ->
  requestedStats p = Ok stats -> stats <> [] -> dimensions_of p = Ok dims ->
  getMetricStatistics p db =
    points ← mapO (datapoint_of stats) (observed_periods (secs * second) (observations i (Str p "Unit") from to log));
    mret (mkStatistics (i_MetricName i) points).
Proof.
  intros Hr i secs Hns Hname Hi Hw H0 Ht Hs Hc Hmax Hst Hne Hd. cbn in Hns, Hname. fold i secs in Hc.
  assert (duration secs = secs * second) as Ed by (unfold duration; apply wrap64_small; unfold second; lia).
  assert (from < to) as Hft.
  { unfold window_of in Hw. destruct (Time p "StartTime"); [|done]. destruct (Time p "EndTime"); [|done].
    case_match eqn:E; [|done]. injection Hw as -> ->. by apply Z.ltb_lt. }
  unfold getMetricStatistics. rewrite (proj2 (String.eqb_neq _ _) Hns), (proj2 (String.eqb_neq _ _) Hname). cbn [orb].
  rewrite Hw. cbn [lift_result mbind outcome_mbind outcome_bind]. fold secs. rewrite (proj2 (Z.leb_gt secs 0)) by lia. rewrite Hc.
  cbn [lift_result mbind outcome_mbind outcome_bind]. rewrite Ed. unfold datapoints_in.
  rewrite (proj2 (Z.eqb_neq _ _)) by (unfold second; lia). cbn [mret outcome_ret mbind outcome_mbind outcome_bind].
  assert (sat64 (to - from) = to - from) as -> by (unfold sat64; lia).
  rewrite Z.quot_div_nonneg by (unfold second; lia). rewrite wrap64_small by (unfold maxDatapoints in Hmax; split; [|lia]; assert (0 <= (to - from) / (secs * second)) by (apply Z.div_pos; unfold second; lia); lia).
  rewrite (proj2 (Z.ltb_ge _ _)) by done. rewrite Hst. cbn [lift_result outcome_bind]. destruct stats as [|st stats]; [done|]. rewrite Hd. cbn [lift_result outcome_bind].
  change (seriesKey _ _ dims) with (key_of_id i). rewrite (buckets_observed log seq) by (done || unfold second; lia).
  destruct (mapO _ _) as [[points|e]| |] eqn:E; [|done..]. cbn [mbind outcome_mbind outcome_bind]. by rewrite (sorted_points _ _ _ _ E).
Qed.
End answers.

(** ** Pages of the catalogue *)

Section catalogue.
Context `{B : Bolt} {BL : BoltLaws B}.
#[local] Set Default Proof Using "BL".

(** The series that a listing matches past a key, in key order. *)
Definition matching (f : seriesFilter) (after : string) (db : MetricDB) : list (string * seriesRec) :=
  List.filter (fun e => series_matches f e.2 && (String.eqb after "" || bytes_ltb after e.1)) (bentries (m_series db)).

Lemma list_walk_take f limit l : list_walk f limit l =
  (let ms := List.filter (fun e => series_matches f e.2) l in ((take limit ms).*2, fst <$> ms !! limit)).
Proof.
  revert limit. induction l as [|[k rec] l IH]; intros limit; [by destruct limit|]. cbn [list_walk]. cbv zeta. rewrite filter_cons_bool. cbn [snd].
  destruct (series_matches f rec); cbn [negb]; [|apply IH]. destruct limit as [|n]; [done|]. by rewrite IH.
Qed.

(** A page is the first matches past its token, and its next token is the key of the first
    match that is not on it. *)
Lemma listSeries_page f after limit db :
  listSeries f after limit db = (let ms := matching f after db in ((take limit ms).*2, fst <$> ms !! limit)).
Proof.
  unfold listSeries. set (all := bentries (m_series db)). assert (StronglySorted key_lt all) as S by apply sorted_entries, bentries_sorted.
  set (from := if String.eqb after "" then all else _).
  assert (from = List.filter (fun e => String.eqb after "" || bytes_ltb after e.1) all) as ->.
  { unfold from. destruct (String.eqb_spec after "") as [E|E]; [by rewrite filter_all|]. cbn [orb]. rewrite <- seek_after_filter by done.
    unfold seek_after. destruct (seek after all) as [|[k v] l]; done. }
  rewrite list_walk_take. cbv zeta. unfold matching. fold all.
  assert (List.filter (fun e => series_matches f e.2) (List.filter (fun e => String.eqb after "" || bytes_ltb after e.1) all) =
          List.filter (fun e => series_matches f e.2 && (String.eqb after "" || bytes_ltb after e.1)) all) as ->; [|done].
  clear. induction all as [|e l IH]; [done|]. rewrite !filter_cons_bool. destruct (_ || _); rewrite ?filter_cons_bool; destruct (series_matches f e.2); cbn [andb]; by rewrite IH.
Qed.

(** The match that a token names is on neither page. *)
Lemma page_boundary_lost f limit db found k : k <> "" -> listSeries f "" limit db = (found, Some k) ->
  exists rec, (k, rec) ∈ matching f "" db /\ (take limit (matching f "" db)).*2 = found /\
    ~ (k, rec) ∈ take limit (matching f "" db) /\ ~ (k, rec) ∈ matching f k db.
Proof.
  intros Hne. rewrite listSeries_page. cbv zeta. set (ms := matching f "" db). intros [= Ef Ek].
  destruct (ms !! limit) as [[k' rec]|] eqn:E; [|done]. cbn in Ek. injection Ek as ->. exists rec.
  assert (NoDup ms) as N by (apply NoDup_ListNoDup, List.NoDup_filter, NoDup_ListNoDup, bentries_NoDup).
  split; [by eapply list_elem_of_lookup_2|]. split; [done|]. split.
  - intros (i & Hi)%list_elem_of_lookup. apply lookup_take_Some in Hi as [Hi Hlt]. assert (i = limit) by (by eapply NoDup_lookup). lia.
  - unfold matching. rewrite elem_of_filter_bool. intros [_ H]. apply andb_true_iff in H as [_ H]. cbn [fst] in H.
    rewrite (proj2 (String.eqb_neq _ _) Hne) in H. apply bytes_ltb_spec in H. by destruct (bytes_lt_irrefl k).
Qed.
End catalogue.

(** ** Examples *)

(** Texts read as whole numbers, instants as seconds. *)
#[local] Instance plain_numbers : NumText := {|
  parse_float64 s := of_Z <$> parse_int s;
  parse_float64_failed _ := zero;
  format_float64 f := match trunc f with Some n => pretty n | None => "" end;
  parse_stamp s := (fun n => instant n 0) <$> parse_int s;
  format_stamp t := pretty (t / second)
|}.

Section examples.
#[local] Existing Instance mem_bolt.

Definition example_dims : gmap string string := {["Stage" := "prod"]}.
Definition example_datum (name : string) (at_s v : Z) : datum := mkDatum "App" name example_dims (of_Z v) "Count" 60 (at_s * second) None.
Definition example_data : list datum :=
  [example_datum "Requests" 130 5; example_datum "Errors" 61 7; example_datum "Requests" 61 2; example_datum "Requests" 60 3].
Definition example_db : MetricDB := (putSamples (200 * second) example_data empty_MetricDB).2.
Definition example_log : list observation := [] ++ stamp (UnixMilli (200 * second)) 0 example_data.
Definition example_request (period : Z) : params :=
  {["Namespace" := CStr "App"; "MetricName" := CStr "Requests"; "StartTime" := CTime 60 0; "EndTime" := CTime 180 0;
    "Period" := CNum (of_Z period); "Statistics" := CArr [CStr "Sum"; CStr "SampleCount"];
    "Dimensions" := CArr [CMap {["Name" := CStr "Stage"; "Value" := CStr "prod"]}]]}.

Definition clean_idb (i : series_id) : bool :=
  clean (i_Namespace i) && clean (i_MetricName i) &&
  bool_decide (map_Forall (fun n v => clean n = true /\ clean v = true) (i_Dimensions i)).
Definition storableb (nowMs : Z) (d : datum) : bool :=
  let s := sample_of d in
  clean_idb (id_of d) && (0 <=? observed nowMs d) && (observed nowMs d <? 10 ^ 13) &&
  is_float64 (s_Value s) && is_float64 (s_Count s) && is_float64 (s_Min s) && is_float64 (s_Max s).

Lemma clean_id_bool i : clean_idb i = true -> clean_id i.
Proof. unfold clean_idb. rewrite !andb_true_iff, bool_decide_eq_true. by intros [[? ?] ?]. Qed.

Lemma storable_bool nowMs data : forallb (storableb nowMs) data = true -> Forall (storable nowMs) data.
Proof.
  rewrite forallb_forall, Forall_forall. intros H d Hd%list_elem_of_In. specialize (H d Hd). unfold storableb in H.
  rewrite !andb_true_iff, Z.leb_le, Z.ltb_lt in H. destruct H as [[[[[[Hc ?] ?] ?] ?] ?] ?]. apply clean_id_bool in Hc. done.
Qed.

Lemma put_ok now data db : is_ok (putSamples now data db).1 = true -> putSamples now data db = (Ok tt, (putSamples now data db).2).
Proof. by destruct (putSamples now data db) as [[[]|e] db']. Qed.

Lemma example_recorded : recorded example_log (0 + Z.of_nat (length example_data)) example_db.
Proof.
  unfold example_log, example_db. apply recorded_put with (db := empty_MetricDB); [constructor| |done|apply put_ok; by vm_compute].
  apply storable_bool. by vm_compute.
Qed.

Lemma GetMetricStatistics_exact_witness :
  getMetricStatistics (example_request 60) example_db =
    points ← mapO (datapoint_of [mkStat "Sum" (of_Z (-1)); mkStat "SampleCount" (of_Z (-1))])
      (observed_periods (60 * second) (observations (mkSeriesId "App" "Requests" example_dims) "" (60 * second) (180 * second) example_log));
    mret (mkStatistics "Requests" points).
Proof.
  apply (GetMetricStatistics_exact example_log (0 + Z.of_nat (length example_data)) example_db (example_request 60) (60 * second) (180 * second) example_dims).
  - exact example_recorded.
  - discriminate.
  - discriminate.
  - apply clean_id_bool. vm_compute. reflexivity.
  - vm_compute. reflexivity.
  - vm_compute. discriminate.
  - vm_compute. reflexivity.
  - assert ((0 <? Int (example_request 60) "Period" 0) && (Int (example_request 60) "Period" 0 <? 2 ^ 33) = true) as E by (vm_compute; reflexivity).
    apply andb_true_iff in E as [E1%Z.ltb_lt E2%Z.ltb_lt]. exact (conj E1 E2).
  - vm_compute. reflexivity.
  - vm_compute. discriminate.
  - vm_compute. reflexivity.
  - discriminate.
  - vm_compute. reflexivity.
Defined.

(** Two periods: 3 and 2 in the first, 5 in the second. *)
Example two_periods :
  match getMetricStatistics (example_request 60) example_db with
  | Ret (Ok r) => map (fun d => (dp_Timestamp d / second, trunc <$> dp_Sum d, trunc <$> dp_SampleCount d)) (gs_Datapoints r)
  | _ => []
  end = [(60, Some (Some 5), Some (Some 2)); (120, Some (Some 5), Some (Some 1))].
Proof. by vm_compute. Qed.

(** A period of 15 * 2^55 seconds, a multiple of 60, is zero nanoseconds once it is a
    duration, and the division by it panics. *)
Example period_zero : checkPeriod (15 * 2 ^ 55) = Ok tt /\ duration (15 * 2 ^ 55) = 0 /\
  getMetricStatistics (example_request (15 * 2 ^ 55)) example_db = Panic.
Proof. by vm_compute. Qed.

(** A separator in a name makes one key of two metrics. *)
Example forged_key : seriesKey (String "a" (String NUL "b")) "c" ∅ = seriesKey "a" (String "b" (String NUL "c")) ∅ /\
  dimensionSignature {["a" := "x"; "b" := "y"]} = dimensionSignature {["a" := "x" +:+ String US ("b" +:+ String RS "y")]}.
Proof. by vm_compute. Qed.

(** Two series, a page of one: the second is on no page. *)
Example page_skips :
  let f := mkSeriesFilter "" "" [] 0 in
  let '(page1, next) := listSeries f "" 1 example_db in
  let '(page2, next2) := listSeries f (default "" next) 1 example_db in
  map se_MetricName (listSeries f "" 500 example_db).1 = ["Errors"; "Requests"] /\
  map se_MetricName page1 = ["Errors"] /\ page2 = [] /\ next2 = None.
Proof. vm_compute. repeat split. Qed.

(** Under the cap, the series that sort last keep their samples: the first in byte order
    lose theirs, however old the others are. *)
Example cap_evicts_first_series :
  let db := (putSamples (200 * second) (example_datum "Aaa" 190 1 :: example_data) empty_MetricDB).2 in
  let db' := (sweep (200 * second) (3600 * second) 4 db).2 in
  length (readSamples (seriesKey "App" "Aaa" example_dims) 0 (300 * second) db) = 1%nat /\
  readSamples (seriesKey "App" "Aaa" example_dims) 0 (300 * second) db' = [] /\
  length (readSamples (seriesKey "App" "Requests" example_dims) 0 (300 * second) db') = 3%nat.
Proof. by vm_compute. Qed.
End examples.
