(* ===== verification/Alarms.v ===== *)
(** * Alarms: the alarms of CloudWatch (src/cloudwatch: alarms.go, evaluate.go,
    actions_fire.go, actions_alarm.go)

    The stored alarms and their history, the evaluation of an alarm over its window, the
    transitions with the notifications they send, and the alarm operations.  A
    notification is delivered later, on its own; what is sent is part of a step's answer
    and [delivered] is the step of its success.  JSON has no text for a number that is not
    finite: an alarm with such a threshold is not stored. *)

From stdpp Require Import pretty sorting.
From Stdlib Require Import SpecFloat.
From S2P Require Import Prelude Bytes Ident Clock GoText Float64 Bolt Cursor Tx Cbor Params Metrics.

(** Texts of numbers and instants in messages. *)
Class AlarmText := {
  fmt_v : float64 -> string;               (* fmt's %v *)
  json_number : float64 -> string;         (* encoding/json, of a finite number *)
  format_nano : Z -> string;               (* Format(time.RFC3339Nano) *)
  quoted : string -> string;               (* fmt's %q *)
  json_valid : string -> bool              (* json.Valid *)
}.

(** ** Data *)

Record alarm := mkAlarm {
  a_Name : string;
  a_Description : string;
  a_Namespace : string;
  a_MetricName : string;
  a_Dimensions : gmap string string;
  a_Statistic : string;
  a_Unit : string;
  a_Period : Z;
  a_EvaluationPeriods : Z;
  a_DatapointsToAlarm : Z;
  a_DatapointsSet : bool;
  a_ComparisonOp : string;
  a_Threshold : float64;
  a_TreatMissingData : string;
  a_ActionsEnabled : bool;
  a_AlarmActions : list string;
  a_OKActions : list string;
  a_InsufficientData : list string;
  a_State : string;
  a_StateReason : string;
  a_StateReasonData : string;
  a_StateUpdatedMs : Z;
  a_UpdatedMs : Z;
  a_StateSetManually : bool;
  a_Tags : gmap string string
}.

Record historyEntry := mkHistory { h_AlarmName : string; h_Type : string; h_Summary : string; h_Data : string; h_AtMs : Z }.
Record dashboard := mkDashboard { ds_Name : string; ds_Body : string; ds_Tags : gmap string string; ds_UpdatedMs : Z }.

Definition stateOK : string := "OK".
Definition stateAlarm : string := "ALARM".
Definition stateInsufficientData : string := "INSUFFICIENT_DATA".

Definition anomalyOperators : list string :=
  ["LessThanLowerOrGreaterThanUpperThreshold"; "LessThanLowerThreshold"; "GreaterThanUpperThreshold"].
Definition treatMissingValues : list string := ["breaching"; "notBreaching"; "ignore"; "missing"].

(** Replacing the members that steps change. *)
Definition with_state (state reason data : string) (ms : Z) (a : alarm) : alarm :=
  let 'mkAlarm n d ns m dims st u p e k ks op th tr en aa oa ia _ _ _ _ up man tags := a in
  mkAlarm n d ns m dims st u p e k ks op th tr en aa oa ia state reason data ms up man tags.
Definition with_manual (b : bool) (a : alarm) : alarm :=
  let 'mkAlarm n d ns m dims st u p e k ks op th tr en aa oa ia s r sd sm up _ tags := a in
  mkAlarm n d ns m dims st u p e k ks op th tr en aa oa ia s r sd sm up b tags.
Definition with_enabled (b : bool) (ms : Z) (a : alarm) : alarm :=
  let 'mkAlarm n d ns m dims st u p e k ks op th tr _ aa oa ia s r sd sm _ man tags := a in
  mkAlarm n d ns m dims st u p e k ks op th tr b aa oa ia s r sd sm ms man tags.
Definition with_alarm_tags (tags : gmap string string) (a : alarm) : alarm :=
  let 'mkAlarm n d ns m dims st u p e k ks op th tr en aa oa ia s r sd sm up man _ := a in
  mkAlarm n d ns m dims st u p e k ks op th tr en aa oa ia s r sd sm up man tags.

Definition alarm_arn (id : Identity) (a : alarm) : string := ARN id "cloudwatch" ("alarm:" +:+ a_Name a).

(** [actionsFor]. *)
Definition actionsFor (a : alarm) (state : string) : list string :=
  if String.eqb state stateAlarm then a_AlarmActions a
  else if String.eqb state stateOK then a_OKActions a
  else if String.eqb state stateInsufficientData then a_InsufficientData a
  else [].

(** ** The store *)

Definition is_finite (f : float64) : bool :=
  match f with S754_zero _ | S754_finite _ _ _ => true | _ => false end.

(** [pad13] and [pad10]: the low digits; the remainder has the sign of the integer. *)
Fixpoint pad_digits (n : nat) (v : Z) : string :=
  match n with
  | O => ""
  | Datatypes.S n' => pad_digits n' (Z.quot v 10) +:+ String (chr (48 + Z.rem v 10)) ""
  end.
Definition historyKey (atMs : Z) (name : string) (seq : Z) : string :=
  pad_digits 13 atMs +:+ String NUL (name +:+ String NUL (pad_digits 10 seq)).

Record AlarmDB `{Bolt} := mkAlarmDB {
  al_alarms : bucket alarm;
  al_history : bucket historyEntry;
  al_dashboards : bucket dashboard
}.
#[global] Arguments al_alarms {_} _.
#[global] Arguments al_history {_} _.
#[global] Arguments al_dashboards {_} _.

Section store.
Context `{B : Bolt}.
#[local] Abbreviation M := (Tx AlarmDB).

Definition empty_AlarmDB : AlarmDB := mkAlarmDB _ bempty bempty bempty.

Definition no_history : historyEntry := mkHistory "" "" "" "" 0.

Definition appendHistory (h : historyEntry) : M unit :=
  if String.eqb (h_AlarmName h) "" then mret tt
  else
    db ← tx_read;
    let hb := bnext_sequence (al_history db) in
    b ← tx_lift (bput (historyKey (h_AtMs h) (h_AlarmName h) (bsequence hb)) h hb);
    tx_modify (fun db => mkAlarmDB _ (al_alarms db) b (al_dashboards db)).

Definition put_alarm (a : alarm) (h : historyEntry) : M unit :=
  if negb (is_finite (a_Threshold a)) then tx_throw (plain_error "json: unsupported value: %s")
  else
    db ← tx_read;
    b ← tx_lift (bput (a_Name a) a (al_alarms db));
    _ ← tx_modify (fun db => mkAlarmDB _ b (al_history db) (al_dashboards db));
    appendHistory h.
Definition putAlarm (a : alarm) (h : historyEntry) (db : AlarmDB) : result unit * AlarmDB := run_update (put_alarm a h) db.

Definition getAlarm (name : string) (db : AlarmDB) : option alarm := bget name (al_alarms db).

Definition alarm_le (a b : alarm) : Prop := bytes_le (a_Name a) (a_Name b).
#[global] Instance alarm_le_dec : RelDecision alarm_le.
Proof. intros a b. unfold alarm_le. apply _. Defined.
Definition listAlarms (db : AlarmDB) : list alarm := merge_sort alarm_le (bentries (al_alarms db)).*2.

Definition deleteAlarms (names : list string) (db : AlarmDB) : AlarmDB :=
  let gone := List.filter (fun n => bool_decide (is_Some (bget n (al_alarms db)))) names in
  let alarms := foldl (fun b n => bdelete n b) (al_alarms db) names in
  let stale := (List.filter (fun e : string * historyEntry => bool_decide (h_AlarmName e.2 ∈ gone)) (bentries (al_history db))).*1 in
  mkAlarmDB _ alarms (foldl (fun b k => bdelete k b) (al_history db) stale) (al_dashboards db).

(** [readHistory]: newest first. *)
Definition history_matches (name : string) (from to : Z) (typ : string) (h : historyEntry) : bool :=
  negb (negb (String.eqb name "") && negb (String.eqb (h_AlarmName h) name)) &&
  negb (negb (String.eqb typ "") && negb (String.eqb (h_Type h) typ)) &&
  negb (negb (from =? zero_time) && (of_millis (h_AtMs h) <? from)) &&
  negb (negb (to =? zero_time) && negb (of_millis (h_AtMs h) <? to)).

Definition readHistory (name : string) (from to : Z) (typ : string) (limit : Z) (db : AlarmDB) : list historyEntry :=
  let out := rev (List.filter (history_matches name from to typ) (bentries (al_history db)).*2) in
  if (0 <? limit) && (limit <? Z.of_nat (length out)) then take (Z.to_nat limit) out else out.

End store.

(** ** Evaluation *)

Inductive datapointVerdict := verdictGood | verdictBreaching | verdictMissing.
#[global] Instance verdict_eq_dec : EqDecision datapointVerdict.
Proof. solve_decision. Defined.

Definition breaches (op : string) (value threshold : float64) : bool :=
  if String.eqb op "GreaterThanOrEqualToThreshold" then fleb threshold value
  else if String.eqb op "GreaterThanThreshold" then fltb threshold value
  else if String.eqb op "LessThanThreshold" then fltb value threshold
  else if String.eqb op "LessThanOrEqualToThreshold" then fleb value threshold
  else false.

Definition comparisonWords (op : string) : string :=
  if String.eqb op "GreaterThanOrEqualToThreshold" then "were greater than or equal to"
  else if String.eqb op "GreaterThanThreshold" then "were greater than"
  else if String.eqb op "LessThanThreshold" then "were less than"
  else if String.eqb op "LessThanOrEqualToThreshold" then "were less than or equal to"
  else "crossed".
Definition plural (n : Z) : string := if n =? 1 then "" else "s".

(** What a period contributed, with its value if there is one. *)
Definition judged : Type := datapointVerdict * option float64.

Section evaluate.
Context `{GC : GoConvert} `{NT : NumText} `{AT : AlarmText} `{JT : JsonText} `{B : Bolt}.

Definition judge (a : alarm) (st : stat) (b : option statBucket) : outcome judged :=
  match b with
  | None => mret (verdictMissing, None)
  | Some b =>
      v ← bucket_value b st;
      mret (if breaches (a_ComparisonOp a) v (a_Threshold a) then verdictBreaching else verdictGood, Some v)
  end.

Definition bucket_map (buckets : list statBucket) : gmap Z statBucket :=
  foldl (fun m b => <[b_Start b := b]> m) ∅ buckets.

Definition alarm_stat (a : alarm) : stat := default (mkStat (a_Statistic a) (of_Z (-1))) (parseStat (a_Statistic a)).

(** The end and the start of the window: it lags by the period that is still filling. *)
Definition window_end (a : alarm) (now : Z) : Z := alignDown now (duration (a_Period a)).
Definition window_start (a : alarm) (now : Z) : Z :=
  window_end a now + wrap64 (wrap64 (- a_EvaluationPeriods a) * duration (a_Period a)).

Definition period_at (a : alarm) (start i : Z) : Z := wrap64 (start + wrap64 (i * duration (a_Period a))).

(** The verdict on every period of the window, oldest first. *)
Definition judge_periods (a : alarm) (now : Z) (db : MetricDB) : outcome (list judged) :=
  let start := window_start a now in
  let end_ := window_end a now in
  let samples := with_unit (a_Unit a) (readSamples (seriesKey (a_Namespace a) (a_MetricName a) (a_Dimensions a)) start end_ db) in
  let byStart := bucket_map (bucketize samples start end_ (duration (a_Period a))) in
  mapO (fun i => judge a (alarm_stat a) (byStart !! period_at a start i)) (seqZ 0 (a_EvaluationPeriods a)).

Definition is_verdict (v : datapointVerdict) (w : datapointVerdict) : bool := bool_decide (w = v).
Definition count_verdicts (v : datapointVerdict) (l : list datapointVerdict) : Z := Z.of_nat (length (List.filter (is_verdict v) l)).

Definition treatment (a : alarm) : string := if String.eqb (a_TreatMissingData a) "" then "missing" else a_TreatMissingData a.

(** The verdicts that count, and the numbers of the breaching and the missing. *)
Definition counted (treat : string) (vs : list datapointVerdict) : list datapointVerdict :=
  if String.eqb treat "ignore" then List.filter (fun v => negb (is_verdict verdictMissing v)) vs else vs.
Definition breaching_count (treat : string) (vs : list datapointVerdict) : Z :=
  count_verdicts verdictBreaching vs + (if String.eqb treat "breaching" then count_verdicts verdictMissing vs else 0).

Definition wanted_state (a : alarm) (vs : list datapointVerdict) : option string :=
  let treat := treatment a in
  let vs := counted treat vs in
  if String.eqb treat "ignore" && (length vs =? 0)%nat then None
  else
    let breaching := breaching_count treat vs in
    let missing := count_verdicts verdictMissing vs in
    Some (if a_DatapointsToAlarm a <=? breaching then stateAlarm
          else if String.eqb treat "missing" && (missing =? Z.of_nat (length vs)) && negb (length vs =? 0)%nat then stateInsufficientData
          else stateOK).

(** The reason and the JSON of a transition. *)
Definition reason_text (a : alarm) (want : string) (vs : list datapointVerdict) : string :=
  let vs := counted (treatment a) vs in
  let breaching := breaching_count (treatment a) vs in
  let n := Z.of_nat (length vs) in
  let k := a_DatapointsToAlarm a in
  if String.eqb want stateInsufficientData then "Insufficient Data: " +:+ pretty (count_verdicts verdictMissing vs) +:+ " datapoints were unknown."
  else if String.eqb want stateOK then
    "Threshold Crossed: " +:+ pretty (n - breaching) +:+ " out of the last " +:+ pretty n +:+ " datapoints were not " +:+
    comparisonWords (a_ComparisonOp a) +:+ " the threshold (" +:+ fmt_v (a_Threshold a) +:+ ")."
  else
    "Threshold Crossed: " +:+ pretty breaching +:+ " out of the last " +:+ pretty n +:+ " datapoints " +:+
    comparisonWords (a_ComparisonOp a) +:+ " the threshold (" +:+ fmt_v (a_Threshold a) +:+ ") (minimum " +:+ pretty k +:+
    " datapoint" +:+ plural k +:+ " for OK -> ALARM transition).".

(** A marshalling that fails leaves an empty text. *)
Definition reason_data (a : alarm) (now : Z) (values : list float64) (vs : list datapointVerdict) : string :=
  let vs := counted (treatment a) vs in
  if forallb is_finite (a_Threshold a :: values) then
    json_marshal (JObj {[
      "version" := JStr "1.0";
      "queryDate" := JStr (format_nano now);
      "statistic" := JStr (a_Statistic a);
      "period" := JNum (pretty (a_Period a));
      "recentDatapoints" := match values with [] => JNull | _ => JArr (map (fun v => JNum (json_number v)) values) end;
      "threshold" := JNum (json_number (a_Threshold a));
      "evaluatedDatapoints" := JNum (pretty (Z.of_nat (length vs)));
      "breachingDatapoints" := JNum (pretty (breaching_count (treatment a) vs)) ]})
  else "".

(** [evaluate]: nothing when the alarm should not move. *)
Definition evaluate (a : alarm) (now : Z) (db : MetricDB) : outcome (option (string * string * string)) :=
  judgements ← judge_periods a now db;
  let vs := judgements.*1 in
  match wanted_state a vs with
  | None => mret None
  | Some want =>
      if String.eqb want (a_State a) then mret None
      else mret (Some (want, reason_text a want vs, reason_data a now (omap snd judgements) vs))
  end.

(** ** Actions *)

Inductive actionTarget := targetUnknown | targetSNS | targetLambda.

Definition classifyAction (arn : string) : actionTarget * string :=
  if contains arn ":sns:" then (targetSNS, default "" (after_last ":" arn))
  else if contains arn ":lambda:" then
    match split_on ":" arn !! 6%nat with Some name => (targetLambda, name) | None => (targetUnknown, "") end
  else (targetUnknown, "").

(** [alarmPayload]. *)
Definition strings_json (l : list string) : json := JArr (map JStr l).
Definition actions_json (l : list string) : json := match l with [] => JNull | _ => strings_json l end.
Definition alarm_trigger (a : alarm) : json :=
  JObj (list_to_map [
    ("MetricName", JStr (a_MetricName a));
    ("Namespace", JStr (a_Namespace a));
    ("StatisticType", JStr "Statistic");
    ("Statistic", JStr (to_upper (a_Statistic a)));
    ("Unit", JStr (a_Unit a));
    ("Dimensions", JArr (map (fun '(n, v) => JObj {["name" := JStr n; "value" := JStr v]}) (dimensionViews (a_Dimensions a))));
    ("Period", JNum (pretty (a_Period a)));
    ("EvaluationPeriods", JNum (pretty (a_EvaluationPeriods a)));
    ("DatapointsToAlarm", JNum (pretty (a_DatapointsToAlarm a)));
    ("ComparisonOperator", JStr (a_ComparisonOp a));
    ("Threshold", JNum (json_number (a_Threshold a)));
    ("TreatMissingData", JStr (a_TreatMissingData a))]).
Definition alarmPayload (id : Identity) (a : alarm) (prev state reason : string) (at_ : Z) : json :=
  JObj (list_to_map [
    ("AlarmName", JStr (a_Name a));
    ("AlarmDescription", JStr (a_Description a));
    ("AWSAccountId", JStr (account_of (id_Account id)));
    ("AlarmConfigurationUpdatedTimestamp", JStr (format_stamp (of_millis (a_UpdatedMs a))));
    ("NewStateValue", JStr state);
    ("NewStateReason", JStr reason);
    ("StateChangeTime", JStr (format_stamp at_));
    ("Region", JStr (region_of (id_Region id)));
    ("AlarmArn", JStr (alarm_arn id a));
    ("OldStateValue", JStr prev);
    ("OKActions", actions_json (a_OKActions a));
    ("AlarmActions", actions_json (a_AlarmActions a));
    ("InsufficientDataActions", actions_json (a_InsufficientData a));
    ("Trigger", alarm_trigger a)]).

Record notification := mkNotification {
  nt_alarm : string;
  nt_kind : actionTarget;
  nt_arn : string;
  nt_name : string;
  nt_subject : string;
  nt_payload : string
}.

(** [fireActions]: what is sent. *)
Definition fireActions (id : Identity) (a : alarm) (prev state reason : string) (at_ : Z) : list notification :=
  if negb (a_ActionsEnabled a) || negb (is_finite (a_Threshold a)) then []
  else
    let payload := json_marshal (alarmPayload id a prev state reason at_) in
    let subject := state +:+ ": " +:+ quoted (a_Name a) +:+ " in " +:+ region_of (id_Region id) in
    map (fun arn => let '(kind, name) := classifyAction arn in mkNotification (a_Name a) kind arn name subject payload) (actionsFor a state).

(** The step of a notification that its target accepted; one that failed is only logged. *)
Definition delivered (now : Z) (n : notification) (db : AlarmDB) : AlarmDB :=
  match nt_kind n with
  | targetUnknown => db
  | _ => (run_update (appendHistory (mkHistory (nt_alarm n) "Action" ("Successfully executed action " +:+ nt_arn n) "" (UnixMilli now))) db).2
  end.

(** [transition]: the store after, and what is sent.  Nothing is sent when the alarm could
    not be stored. *)
Definition transition (id : Identity) (a : alarm) (want reason data : string) (now : Z) (db : AlarmDB) : AlarmDB * list notification :=
  let prev := a_State a in
  let a' := with_state want reason data (UnixMilli now) a in
  let h := mkHistory (a_Name a) "StateUpdate" ("Alarm updated from " +:+ prev +:+ " to " +:+ want) data (UnixMilli now) in
  match putAlarm a' h db with
  | (Ok _, db') => (db', fireActions id a' prev want reason now)
  | (Err _, db') => (db', [])
  end.

(** [EvaluateNow]: one pass over the alarms as they were listed. *)
Definition evaluate_one (id : Identity) (now : Z) (mdb : MetricDB) (a : alarm) (db : AlarmDB) : outcome (AlarmDB * list notification) :=
  move ← evaluate a now mdb;
  match move with
  | None => mret (db, [])
  | Some (want, reason, data) =>
      if a_StateSetManually a then mret ((putAlarm (with_manual false a) no_history db).2, [])
      else mret (transition id a want reason data now db)
  end.

Fixpoint evaluate_all (id : Identity) (now : Z) (mdb : MetricDB) (l : list alarm) (db : AlarmDB) : outcome (AlarmDB * list notification) :=
  match l with
  | [] => mret (db, [])
  | a :: l' =>
      r ← evaluate_one id now mdb a db;
      rest ← evaluate_all id now mdb l' r.1;
      mret (rest.1, r.2 ++ rest.2)
  end.
Definition EvaluateNow (id : Identity) (now : Z) (mdb : MetricDB) (db : AlarmDB) : outcome (AlarmDB * list notification) :=
  evaluate_all id now mdb (listAlarms db) db.

End evaluate.
