(* ===== verification/AlarmApi.v ===== *)
(** * AlarmApi: the operations on alarms, dashboards and tags (src/cloudwatch:
    actions_alarm.go, dashboards.go, actions_dashboards.go)

    Every handler of the alarm control plane, of the dashboards and of the tags of both,
    from its parameters to its answer and the store it leaves. *)

From stdpp Require Import pretty sorting.
From Stdlib Require Import SpecFloat.
From S2P Require Import Prelude Bytes Ident Clock GoText Float64 Bolt Cursor Tx Cbor Params Metrics Alarms.

Section handlers.
Context `{GC : GoConvert} `{NT : NumText} `{AT : AlarmText} `{JT : JsonText} `{B : Bolt} (id : Identity).

(** ** Creating alarms *)

Definition maxEvaluationWindow : Z := 86400.

Definition checkActions (arns : list string) : result (list string) :=
  if forallb (fun arn => match (classifyAction arn).1 with targetUnknown => false | _ => true end) arns then mret arns
  else Err (errf "InvalidParameterValueException" "doze-aws can notify an SNS topic or invoke a Lambda function; %s is neither, and an action it cannot deliver would be an alarm that looks wired up and does nothing.").

(** [tagsFromParams]. *)
Definition tagsFromParams (p : params) (name : string) : gmap string string :=
  foldl (fun tags e => if String.eqb (Str e "Key") "" then tags else <[Str e "Key" := Str e "Value"]> tags) ∅ (List p name).

Definition reject (b : bool) (e : APIError) : result unit := if b then Err e else mret tt.

(** [Statistic] or [ExtendedStatistic]. *)
Definition alarm_statistic (p : params) : result string :=
  let statistic := Str p "Statistic" in
  let ext := Str p "ExtendedStatistic" in
  statistic ← (if String.eqb ext "" then mret statistic
               else if String.eqb statistic "" then mret ext
               else Err (errf "InvalidParameterCombinationException" "The parameters Statistic and ExtendedStatistic are mutually exclusive and you have specified both."));
  _ ← reject (String.eqb statistic "") (errMissingParameter "The parameter Statistic or ExtendedStatistic is required.");
  match parseStat statistic with
  | Some _ => mret statistic
  | None => Err (errInvalidParameter "The value %s is not a valid statistic.")
  end.

(** The periods of an alarm: their length, their number and how many must breach. *)
Definition alarm_periods (p : params) : result (Z * Z * Z) :=
  let period := Int p "Period" 0 in
  _ ← reject (period <=? 0) (errMissingParameter "The parameter Period is required.");
  _ ← checkPeriod period;
  let evalPeriods := Int p "EvaluationPeriods" 0 in
  _ ← reject (evalPeriods <=? 0) (errMissingParameter "The parameter EvaluationPeriods is required.");
  _ ← reject (maxEvaluationWindow <? wrap64 (period * evalPeriods)) (errInvalidParameter "The evaluation window (Period × EvaluationPeriods = %d seconds) exceeds the maximum of %d.");
  let toAlarm := Int p "DatapointsToAlarm" evalPeriods in
  _ ← reject (evalPeriods <? toAlarm) (errInvalidParameter "DatapointsToAlarm (%d) must not exceed EvaluationPeriods (%d).");
  mret (period, evalPeriods, toAlarm).

(** The alarm that a request describes, as if it were new. *)
Definition parse_alarm (now : Z) (p : params) : result alarm :=
  let name := Str p "AlarmName" in
  _ ← reject (String.eqb name "") (errMissingParameter "The parameter AlarmName is required.");
  _ ← reject (Has p "Metrics") (errf "InvalidParameterValueException" "doze-aws does not evaluate metric math: alarm %s uses Metrics. A single metric with MetricName, Namespace, Statistic and Period is supported, which is what CDK emits for a threshold alarm.");
  _ ← reject (negb (String.eqb (Str p "ThresholdMetricId") "")) (errf "InvalidParameterValueException" "alarm %s is an anomaly-detection alarm (ThresholdMetricId %s); doze-aws has no trained band to compare against.");
  _ ← reject (Has p "WarmUpConfiguration") (errf "InvalidParameterValueException" "alarm %s sets WarmUpConfiguration; doze-aws evaluates every period from the moment the alarm exists and has no warm-up to honour.");
  let op := Str p "ComparisonOperator" in
  _ ← reject (String.eqb op "") (errMissingParameter "The parameter ComparisonOperator is required.");
  _ ← reject (bool_decide (op ∈ anomalyOperators)) (errf "InvalidParameterValueException" "the comparison operator %s belongs to an anomaly-detection alarm, which doze-aws does not evaluate.");
  let ns := Str p "Namespace" in
  let metric := Str p "MetricName" in
  _ ← reject (String.eqb ns "" || String.eqb metric "") (errMissingParameter "An alarm needs Namespace and MetricName; doze-aws does not evaluate Metrics.");
  statistic ← alarm_statistic p;
  '(period, evalPeriods, toAlarm) ← alarm_periods p;
  threshold ← match Float p "Threshold" with Some f => mret f | None => Err (errMissingParameter "The parameter Threshold is required.") end;
  let treat := Str p "TreatMissingData" in
  _ ← reject (negb (String.eqb treat "") && negb (bool_decide (treat ∈ treatMissingValues))) (errInvalidParameter "The value %s is not a valid TreatMissingData; expected one of %s.");
  dims ← dimensions_of p;
  alarmActions ← checkActions (Strs p "AlarmActions");
  okActions ← checkActions (Strs p "OKActions");
  insufficient ← checkActions (Strs p "InsufficientDataActions");
  mret (mkAlarm name (Str p "AlarmDescription") ns metric dims statistic (Str p "Unit") period evalPeriods toAlarm
    (Has p "DatapointsToAlarm") op threshold treat
    (if Has p "ActionsEnabled" then Bool p "ActionsEnabled" else true) alarmActions okActions insufficient
    stateInsufficientData "Unchecked: Initial alarm creation" "" (UnixMilli now) (UnixMilli now) false
    (tagsFromParams p "Tags")).

(** Replacing an alarm keeps its state, and its tags when the request has none. *)
Definition keep_state (prev a : alarm) : alarm :=
  let a := with_state (a_State prev) (a_StateReason prev) (a_StateReasonData prev) (a_StateUpdatedMs prev) a in
  if (size (a_Tags a) =? 0)%nat then with_alarm_tags (a_Tags prev) a else a.

Definition putMetricAlarm (now : Z) (p : params) (db : AlarmDB) : result unit * AlarmDB :=
  match parse_alarm now p with
  | Err e => (Err e, db)
  | Ok a =>
      let '(a, verb) := match getAlarm (a_Name a) db with
                        | Some prev => (keep_state prev a, " updated")
                        | None => (a, " created")
                        end in
      putAlarm a (mkHistory (a_Name a) "ConfigurationUpdate" ("Alarm " +:+ a_Name a +:+ verb) "" (UnixMilli now)) db
  end.

(** ** Reading alarms *)

Record alarmView := mkAlarmView {
  v_alarm : alarm;                         (* the members copied as they are *)
  v_AlarmArn : string;
  v_Dimensions : list (string * string);
  v_DatapointsToAlarm : Z;                 (* omitted when 0 *)
  v_Statistic : string;
  v_ExtendedStatistic : string
}.

(** [viewOf]. *)
Definition viewOf (a : alarm) : alarmView :=
  let ext := has_prefix (a_Statistic a) "p" in
  mkAlarmView a (alarm_arn id a) (dimensionViews (a_Dimensions a))
    (if a_DatapointsSet a then a_DatapointsToAlarm a else 0)
    (if ext then "" else a_Statistic a) (if ext then a_Statistic a else "").

Definition hasActionWithPrefix (a : alarm) (prefix : string) : bool :=
  existsb (existsb (fun arn => has_prefix arn prefix)) [a_AlarmActions a; a_OKActions a; a_InsufficientData a].

(** A filter that is not given selects everything. *)
Definition unless_empty (s : string) (b : bool) : bool := String.eqb s "" || b.

Definition describes (p : params) (a : alarm) : bool :=
  let names := Strs p "AlarmNames" in
  ((length names =? 0)%nat || bool_decide (a_Name a ∈ names)) &&
  unless_empty (Str p "AlarmNamePrefix") (has_prefix (a_Name a) (Str p "AlarmNamePrefix")) &&
  unless_empty (Str p "StateValue") (String.eqb (a_State a) (Str p "StateValue")) &&
  unless_empty (Str p "ActionPrefix") (hasActionWithPrefix a (Str p "ActionPrefix")).

(** Alarm types that leave metric alarms out. *)
Definition other_types (p : params) : bool :=
  negb (length (Strs p "AlarmTypes") =? 0)%nat && negb (bool_decide ("MetricAlarm" ∈ Strs p "AlarmTypes")).

Definition describeAlarms (p : params) (db : AlarmDB) : list alarmView :=
  if negb (String.eqb (Str p "ChildrenOfAlarmName") "") || negb (String.eqb (Str p "ParentsOfAlarmName") "") || other_types p then []
  else map viewOf (List.filter (describes p) (listAlarms db)).

(** Pairs with both halves; the others are passed over. *)
Definition full_pairs (p : params) : gmap string string :=
  foldl (fun dims d => if String.eqb (Str d "Name") "" || String.eqb (Str d "Value") "" then dims else <[Str d "Name" := Str d "Value"]> dims)
    ∅ (List p "Dimensions").

Definition watches (p : params) (a : alarm) : bool :=
  let dims := full_pairs p in
  String.eqb (a_Namespace a) (Str p "Namespace") && String.eqb (a_MetricName a) (Str p "MetricName") &&
  ((size dims =? 0)%nat || String.eqb (dimensionSignature (a_Dimensions a)) (dimensionSignature dims)) &&
  unless_empty (Str p "Statistic") (String.eqb (a_Statistic a) (Str p "Statistic")) &&
  ((Int p "Period" 0 <=? 0) || (a_Period a =? Int p "Period" 0)).

Definition describeAlarmsForMetric (p : params) (db : AlarmDB) : result (list alarmView) :=
  if String.eqb (Str p "Namespace") "" || String.eqb (Str p "MetricName") "" then Err (errMissingParameter "Namespace and MetricName are required.")
  else mret (map viewOf (List.filter (watches p) (listAlarms db))).

Record historyView := mkHistoryView {
  hv_AlarmName : string; hv_AlarmType : string; hv_Timestamp : Z; hv_HistoryItemType : string; hv_HistorySummary : string; hv_HistoryData : string }.
Definition history_view (h : historyEntry) : historyView :=
  mkHistoryView (h_AlarmName h) "MetricAlarm" (of_millis (h_AtMs h)) (h_Type h) (h_Summary h) (h_Data h).

Definition describeAlarmHistory (p : params) (db : AlarmDB) : list historyView :=
  let entries := readHistory (Str p "AlarmName") (default zero_time (Time p "StartDate")) (default zero_time (Time p "EndDate"))
                   (Str p "HistoryItemType") (Int p "MaxRecords" 100) db in
  if negb (String.eqb (Str p "AlarmContributorId") "") || other_types p then []
  else map history_view (if String.eqb (Str p "ScanBy") "TimestampAscending" then rev entries else entries).

(** ** Changing alarms *)

Definition deleteAlarmsAction (p : params) (db : AlarmDB) : result unit * AlarmDB :=
  match Strs p "AlarmNames" with
  | [] => (Err (errMissingParameter "The parameter AlarmNames is required."), db)
  | names =>
      if existsb (fun n => bool_decide (is_Some (getAlarm n db))) names then (mret tt, deleteAlarms names db)
      else (Err (errf "ResourceNotFound" "No alarms matched the names given."), db)
  end.

(** The answer, the store and what is sent. *)
Definition setAlarmState (now : Z) (p : params) (db : AlarmDB) : result unit * AlarmDB * list notification :=
  let name := Str p "AlarmName" in
  let state := Str p "StateValue" in
  let reason := Str p "StateReason" in
  if String.eqb name "" || String.eqb state "" || String.eqb reason "" then
    (Err (errMissingParameter "AlarmName, StateValue and StateReason are required."), db, [])
  else if negb (bool_decide (state ∈ [stateOK; stateAlarm; stateInsufficientData])) then
    (Err (errInvalidParameter "The value %s is not a valid alarm state."), db, [])
  else
    match getAlarm name db with
    | None => (Err (errf "ResourceNotFound" "Alarm %s does not exist."), db, [])
    | Some a =>
        let '(db', sent) := transition id (with_manual true a) state reason (Str p "StateReasonData") now db in
        (mret tt, db', sent)
    end.

(** The loop of [setActionsEnabled], which stops at the first alarm it cannot store. *)
Fixpoint enable_each (enabled : bool) (now : Z) (names : list string) (db : AlarmDB) : result unit * AlarmDB :=
  match names with
  | [] => (mret tt, db)
  | n :: names' =>
      match getAlarm n db with
      | None => enable_each enabled now names' db
      | Some a =>
          if Bool.eqb (a_ActionsEnabled a) enabled then enable_each enabled now names' db
          else
            let h := mkHistory n "ConfigurationUpdate" ("Alarm actions " +:+ (if enabled then "enabled" else "disabled")) "" (UnixMilli now) in
            match putAlarm (with_enabled enabled (UnixMilli now) a) h db with
            | (Ok _, db') => enable_each enabled now names' db'
            | (Err e, db') => (Err e, db')
            end
      end
  end.

Definition setActionsEnabled (enabled : bool) (now : Z) (p : params) (db : AlarmDB) : result unit * AlarmDB :=
  match Strs p "AlarmNames" with
  | [] => (Err (errMissingParameter "The parameter AlarmNames is required."), db)
  | names => enable_each enabled now names db
  end.

(** ** Dashboards *)

Definition dashboardARN (name : string) : string := ARN id "cloudwatch" ("dashboard/" +:+ name).
Definition errNoDashboard : APIError := errf "ResourceNotFound" "Dashboard %s does not exist.".

(** [putDashboard]: tags are kept by a put without any. *)
Definition put_dashboard (d : dashboard) : Tx AlarmDB unit :=
  db ← tx_read;
  let tags := match bget (ds_Name d) (al_dashboards db) with
              | Some old => if (size (ds_Tags d) =? 0)%nat then ds_Tags old else ds_Tags d
              | None => ds_Tags d
              end in
  b ← tx_lift (bput (ds_Name d) (mkDashboard (ds_Name d) (ds_Body d) tags (ds_UpdatedMs d)) (al_dashboards db));
  tx_modify (fun db => mkAlarmDB _ (al_alarms db) (al_history db) b).
Definition putDashboard (d : dashboard) (db : AlarmDB) : result unit * AlarmDB := run_update (put_dashboard d) db.

Definition readDashboard (name : string) (db : AlarmDB) : result dashboard :=
  match bget name (al_dashboards db) with Some d => mret d | None => Err errNoDashboard end.

Definition listDashboards (prefix : string) (db : AlarmDB) : list dashboard :=
  (List.filter (fun e : string * dashboard => unless_empty prefix (has_prefix e.1 prefix)) (bentries (al_dashboards db))).*2.

Definition deleteDashboards (names : list string) (db : AlarmDB) : result unit * AlarmDB :=
  if forallb (fun n => bool_decide (is_Some (bget n (al_dashboards db)))) names then
    (mret tt, mkAlarmDB _ (al_alarms db) (al_history db) (foldl (fun b n => bdelete n b) (al_dashboards db) names))
  else (Err errNoDashboard, db).

Definition putDashboardAction (now : Z) (p : params) (db : AlarmDB) : result unit * AlarmDB :=
  let name := Str p "DashboardName" in
  let body := Str p "DashboardBody" in
  if String.eqb name "" || String.eqb body "" then (Err (errMissingParameter "DashboardName and DashboardBody are required"), db)
  else if negb (json_valid body) then (Err (errf "InvalidParameterInput" "The dashboard body is not valid JSON."), db)
  else putDashboard (mkDashboard name body (tagsFromParams p "Tags") (UnixMilli now)) db.

Record getDashboardResult := mkGetDashboard { gd_DashboardName : string; gd_DashboardArn : string; gd_DashboardBody : string }.
Definition getDashboard (p : params) (db : AlarmDB) : result getDashboardResult :=
  let name := Str p "DashboardName" in
  if String.eqb name "" then Err (errMissingParameter "DashboardName is required")
  else d ← readDashboard name db; mret (mkGetDashboard (ds_Name d) (dashboardARN (ds_Name d)) (ds_Body d)).

Record dashboardEntryView := mkEntryView { de_DashboardName : string; de_DashboardArn : string; de_LastModified : string; de_Size : Z }.
Definition dash_le (a b : dashboard) : Prop := bytes_le (ds_Name a) (ds_Name b).
#[global] Instance dash_le_dec : RelDecision dash_le.
Proof. intros a b. unfold dash_le. apply _. Defined.
Definition msToISO (ms : Z) : string := format_stamp (of_millis ms).
Definition listDashboardsAction (p : params) (db : AlarmDB) : list dashboardEntryView :=
  map (fun d => mkEntryView (ds_Name d) (dashboardARN (ds_Name d)) (msToISO (ds_UpdatedMs d)) (slen (ds_Body d)))
    (merge_sort dash_le (listDashboards (Str p "DashboardNamePrefix") db)).

Definition deleteDashboardsAction (p : params) (db : AlarmDB) : result unit * AlarmDB :=
  match Strs p "DashboardNames" with
  | [] => (Err (errMissingParameter "DashboardNames is required"), db)
  | names => deleteDashboards names db
  end.

(** ** Tags *)

Inductive tagged := on_alarm (a : alarm) | on_dashboard (d : dashboard).

(** [taggable], with what it names. *)
Definition taggable (arn : string) (db : AlarmDB) : result tagged :=
  match after_first ":alarm:" arn with
  | Some name => match getAlarm name db with Some a => mret (on_alarm a) | None => Err (errf "ResourceNotFound" "Alarm %s does not exist.") end
  | None =>
      match after_first ":dashboard/" arn with
      | Some name => match bget name (al_dashboards db) with Some d => mret (on_dashboard d) | None => Err errNoDashboard end
      | None => Err (errInvalidParameter "ResourceARN %q must name a CloudWatch alarm or dashboard")
      end
  end.

Definition withTags (arn : string) (edit : gmap string string -> gmap string string) (db : AlarmDB) : result unit * AlarmDB :=
  match taggable arn db with
  | Err e => (Err e, db)
  | Ok (on_alarm a) => putAlarm (with_alarm_tags (edit (a_Tags a)) a) no_history db
  | Ok (on_dashboard d) => putDashboard (mkDashboard (ds_Name d) (ds_Body d) (edit (ds_Tags d)) (ds_UpdatedMs d)) db
  end.

Definition tagResource (p : params) (db : AlarmDB) : result unit * AlarmDB :=
  let tags := tagsFromParams p "Tags" in
  if (size tags =? 0)%nat then (Err (errMissingParameter "Tags is required"), db)
  else withTags (Str p "ResourceARN") (fun have => tags ∪ have) db.

Definition untagResource (p : params) (db : AlarmDB) : result unit * AlarmDB :=
  match Strs p "TagKeys" with
  | [] => (Err (errMissingParameter "TagKeys is required"), db)
  | keys => withTags (Str p "ResourceARN") (fun have => foldl (fun m k => delete k m) have keys) db
  end.

Definition listTagsForResource (p : params) (db : AlarmDB) : result (list (string * string)) :=
  t ← taggable (Str p "ResourceARN") db;
  mret (sorted_pairs (match t with on_alarm a => a_Tags a | on_dashboard d => ds_Tags d end)).

End handlers.
