(* ===== verification/AlarmSpec.v ===== *)
(** * AlarmSpec: when alarms move

    The state that the observations of a metric put an alarm in, and that a pass of the
    evaluator moves every alarm to it. *)

From stdpp Require Import pretty sorting.
From Stdlib Require Import SpecFloat.
From S2P Require Import Prelude Bytes Ident Clock Digits GoText Float64 Cbor Bolt Cursor Tx Params Metrics MetricRun MetricsSpec Alarms AlarmApi.

(** ** One period *)

Definition alarm_id (a : alarm) : series_id := mkSeriesId (a_Namespace a) (a_MetricName a) (a_Dimensions a).
Definition period_ns (a : alarm) : Z := a_Period a * second.

(** The statistics of the period that starts at an instant, if anything was observed. *)
Definition observed_at (a : alarm) (log : list observation) (t : Z) : option statBucket :=
  match observations (alarm_id a) (a_Unit a) t (t + period_ns a) log with
  | [] => None
  | l => Some (statistics t (map obs_sample l))
  end.

(** The value of a statistic that is not a percentile. *)
Definition named_value (name : string) (b : statBucket) : float64 :=
  if String.eqb name "Sum" then b_Sum b
  else if String.eqb name "SampleCount" then b_Count b
  else if String.eqb name "Minimum" then b_Min b
  else if String.eqb name "Maximum" then b_Max b
  else if feqb (b_Count b) zero then zero else fdiv (b_Sum b) (b_Count b).

Definition verdict_at (a : alarm) (log : list observation) (t : Z) : datapointVerdict :=
  match observed_at a log t with
  | None => verdictMissing
  | Some b => if breaches (a_ComparisonOp a) (named_value (a_Statistic a) b) (a_Threshold a) then verdictBreaching else verdictGood
  end.

(** The periods of the window: the last ones before the one that is still filling. *)
Definition examined (a : alarm) (now : Z) : list Z :=
  map (fun i => now / period_ns a * period_ns a - (a_EvaluationPeriods a - i) * period_ns a) (seqZ 0 (a_EvaluationPeriods a)).

(** The state that verdicts put an alarm in: at least M of the N periods breach. *)
Definition next_state (a : alarm) (vs : list datapointVerdict) : option string :=
  let breaching := count_verdicts verdictBreaching vs in
  let missing := count_verdicts verdictMissing vs in
  let all_missing := missing =? Z.of_nat (length vs) in
  if String.eqb (a_TreatMissingData a) "ignore" && all_missing then None
  else if a_DatapointsToAlarm a <=? breaching + (if String.eqb (a_TreatMissingData a) "breaching" then missing else 0) then Some stateAlarm
  else if all_missing && bool_decide (a_TreatMissingData a ∈ [""; "missing"]) then Some stateInsufficientData
  else Some stateOK.

Lemma count_filter_ne v vs : v <> verdictMissing ->
  count_verdicts v (List.filter (fun w => negb (is_verdict verdictMissing w)) vs) = count_verdicts v vs.
Proof.
  intros Hv. unfold count_verdicts. do 2 f_equal. apply filter_implied. intros w _. unfold is_verdict. intros ->%bool_decide_eq_true.
  by rewrite bool_decide_false.
Qed.

Lemma count_split vs : count_verdicts verdictMissing vs + Z.of_nat (length (List.filter (fun w => negb (is_verdict verdictMissing w)) vs)) = Z.of_nat (length vs).
Proof. unfold count_verdicts. pose proof (length_filter_split (is_verdict verdictMissing) vs). lia. Qed.

Lemma count_length v vs : 0 <= count_verdicts v vs <= Z.of_nat (length vs).
Proof. unfold count_verdicts. pose proof (List.filter_length_le (is_verdict v) vs). lia. Qed.

(** The counts of the code are those counts. *)
Lemma wanted_next_state a vs : vs <> [] -> wanted_state a vs = next_state a vs.
Proof.
  intros Hne. assert (0 < Z.of_nat (length vs)) as Hlen by (destruct vs; [done|cbn; lia]).
  unfold wanted_state, next_state, counted, breaching_count.
  pose proof (count_split vs) as Hs. destruct (String.eqb_spec (a_TreatMissingData a) "ignore") as [Ei|Ei].
  - assert (treatment a = "ignore") as -> by (unfold treatment; by rewrite Ei). rewrite Ei. change (String.eqb "ignore" "ignore") with true.
    change (String.eqb "ignore" "breaching") with false. change (String.eqb "ignore" "missing") with false. cbn [andb].
    rewrite count_filter_ne by done.
    rewrite (bool_decide_false _) by (intros [|[|Hn%elem_of_nil]%elem_of_cons]%elem_of_cons; done). rewrite andb_false_r.
    set (kept := List.filter _ vs) in *. replace (length kept =? 0)%nat with (count_verdicts verdictMissing vs =? Z.of_nat (length vs)) by
      (destruct (Nat.eqb_spec (length kept) 0); [apply Z.eqb_eq|apply Z.eqb_neq]; lia).
    destruct (_ =? _); [done|]. by destruct (_ <=? _).
  - assert (negb (length vs =? 0)%nat = true) as Hl by (apply negb_true_iff, Nat.eqb_neq; lia).
    destruct (String.eqb_spec (a_TreatMissingData a) "") as [Ee|Ee].
    + assert (treatment a = "missing") as -> by (unfold treatment; by rewrite Ee). rewrite Ee. change (String.eqb "missing" "ignore") with false. change (String.eqb "missing" "breaching") with false.
      change (String.eqb "missing" "missing") with true. change (String.eqb "" "breaching") with false. rewrite bool_decide_true by left.
      cbn [andb]. rewrite Hl, !andb_true_r. by destruct (_ <=? _); [|destruct (_ =? _)].
    + assert (treatment a = a_TreatMissingData a) as -> by (unfold treatment; by rewrite (proj2 (String.eqb_neq _ _) Ee)).
      rewrite (proj2 (String.eqb_neq _ _) Ei). cbn [andb]. rewrite Hl, andb_true_r.
      destruct (String.eqb_spec (a_TreatMissingData a) "missing") as [Em|Em].
      * rewrite Em. change (String.eqb "missing" "breaching") with false. rewrite bool_decide_true by (right; left). cbn [andb]. rewrite andb_true_r. by destruct (_ <=? _); [|destruct (_ =? _)].
      * rewrite bool_decide_false by (intros [|[|Hn%elem_of_nil]%elem_of_cons]%elem_of_cons; done). rewrite andb_false_r. cbn [andb].
        by destruct (_ <=? _).
Qed.

(** ** The window *)

(** An alarm as PutMetricAlarm stores it, on a statistic with a name, at an instant from the
    third day of 1970 to 2262. *)
Record judgeable (a : alarm) (now : Z) : Prop := {
  jd_clean : clean_id (alarm_id a);
  jd_stat : a_Statistic a ∈ simple_stats;
  jd_period : 0 < a_Period a;
  jd_number : 0 < a_EvaluationPeriods a;
  jd_window : a_Period a * a_EvaluationPeriods a <= 86400;
  jd_now : 2 * 86400 * second <= now < 2 ^ 63
}.

Section window.
Context (a : alarm) (now : Z) (Ha : judgeable a now).
#[local] Set Default Proof Using "All".

Lemma period_bounds : 0 < period_ns a <= 86400 * second /\ period_ns a * a_EvaluationPeriods a <= 86400 * second.
Proof. destruct Ha. unfold period_ns, second in *. nia. Qed.

Lemma period_duration : duration (a_Period a) = period_ns a.
Proof. pose proof period_bounds. unfold duration, period_ns in *. apply wrap64_small. unfold second in *. lia. Qed.

Lemma window_end_floor : window_end a now = now / period_ns a * period_ns a.
Proof. pose proof period_bounds. unfold window_end. rewrite period_duration. apply alignDown_floor; [|lia]. destruct Ha. unfold second in *. lia. Qed.

Lemma window_start_floor : window_start a now = window_end a now - a_EvaluationPeriods a * period_ns a.
Proof.
  pose proof period_bounds as [Hp Hn]. pose proof (jd_number _ _ Ha). unfold window_start. rewrite period_duration.
  rewrite (wrap64_small (- _)) by (unfold second in *; nia). rewrite wrap64_small by (unfold second in *; nia). lia.
Qed.

Lemma window_bounds : 0 <= window_start a now /\ window_start a now < window_end a now /\ window_end a now <= now.
Proof.
  pose proof period_bounds as [Hp Hn]. pose proof (jd_number _ _ Ha). pose proof (jd_now _ _ Ha). rewrite window_start_floor, window_end_floor.
  pose proof (Z.mul_div_le now (period_ns a)). pose proof (Z.mul_succ_div_gt now (period_ns a)). unfold second in *. nia.
Qed.

Lemma period_at_start i : 0 <= i < a_EvaluationPeriods a -> period_at a (window_start a now) i = window_start a now + i * period_ns a.
Proof.
  intros Hi. pose proof period_bounds as [Hp Hn]. pose proof window_bounds. pose proof (jd_now _ _ Ha). pose proof window_start_floor as Hs.
  unfold period_at. rewrite period_duration. rewrite (wrap64_small (i * _)) by (unfold second in *; nia). apply wrap64_small. nia.
Qed.

Lemma examined_starts : examined a now = map (fun i => window_start a now + i * period_ns a) (seqZ 0 (a_EvaluationPeriods a)).
Proof. unfold examined. apply map_ext. intros i. rewrite window_start_floor, window_end_floor. lia. Qed.

(** The observations of a period, out of those of the window. *)
Lemma period_observations log t : NoDup (o_seq <$> log) ->
  (exists k, t = k * period_ns a) -> window_start a now <= t -> t + period_ns a <= window_end a now ->
  List.filter (fun o => period_start (period_ns a) o =? t) (observations (alarm_id a) (a_Unit a) (window_start a now) (window_end a now) log) =
  observations (alarm_id a) (a_Unit a) t (t + period_ns a) log.
Proof.
  intros Hn [k ->] Hlo Hhi. pose proof period_bounds as [Hp _]. unfold observations. rewrite filter_merge_sort by done. f_equal. apply filter_ext_bool.
  intros o. unfold wanted, period_start. destruct (bool_decide _); cbn [andb]; [|done]. destruct (String.eqb _ "" || _); cbn [andb]; [|done].
  set (x := of_millis (o_ms o)). destruct (Z.eqb_spec (x / period_ns a * period_ns a) (k * period_ns a)) as [E|E].
  - assert (k = x / period_ns a) as -> by nia. pose proof (Z.mul_div_le x (period_ns a)). pose proof (Z.mul_succ_div_gt x (period_ns a)).
    rewrite andb_true_r. rewrite !(proj2 (Z.leb_le _ _)), !(proj2 (Z.ltb_lt _ _)) by nia. done.
  - rewrite andb_false_r. symmetry. apply andb_false_iff. destruct (Z.leb_spec (k * period_ns a) x), (Z.ltb_spec x (k * period_ns a + period_ns a)); auto.
    destruct E. f_equal. symmetry. apply Z.div_unique with (r := x - k * period_ns a); nia.
Qed.
End window.

Lemma bucket_map_lookup f ts t : NoDup ts -> (forall u, b_Start (f u) = u) ->
  bucket_map (map f ts) !! t = if bool_decide (t ∈ ts) then Some (f t) else None.
Proof.
  intros Hn Hf. unfold bucket_map. induction ts as [|u ts IH] using rev_ind; [done|].
  apply NoDup_app in Hn as (Hn & Hu & _). rewrite map_app, foldl_app. cbn [map foldl]. rewrite Hf.
  destruct (decide (t = u)) as [->|Hne].
  - rewrite lookup_insert_eq, bool_decide_true; [done|]. apply elem_of_app. right. by apply list_elem_of_singleton.
  - rewrite lookup_insert_ne, IH by done. assert (bool_decide (t ∈ ts ++ [u]) = bool_decide (t ∈ ts)) as ->; [|done].
    apply bool_decide_ext. rewrite elem_of_app, list_elem_of_singleton. naive_solver.
Qed.

(** The bucket of a period is what was observed in it. *)
Lemma bucket_observed a now log t : judgeable a now -> NoDup (o_seq <$> log) ->
  (exists k, t = k * period_ns a) -> window_start a now <= t -> t + period_ns a <= window_end a now ->
  bucket_map (observed_periods (period_ns a) (observations (alarm_id a) (a_Unit a) (window_start a now) (window_end a now) log)) !! t = observed_at a log t.
Proof.
  intros Ha Hn Hk Hlo Hhi. unfold observed_at, observed_periods. set (l := observations _ _ (window_start a now) _ log).
  rewrite bucket_map_lookup; [|rewrite merge_sort_Permutation; apply NoDup_remove_dups|done].
  rewrite <- (period_observations a now Ha log t) by done. fold l. unfold period_statistics.
  case_bool_decide as Hin; rewrite merge_sort_Permutation, elem_of_remove_dups in Hin.
  - destruct (List.filter _ l) as [|o l'] eqn:E; [|done]. exfalso. apply list_elem_of_In, in_map_iff in Hin as (o & Eo & Hin%list_elem_of_In).
    assert (o ∈ List.filter (fun o => period_start (period_ns a) o =? t) l) as Hf by (apply elem_of_filter_bool; rewrite Z.eqb_eq; done).
    rewrite E in Hf. by apply elem_of_nil in Hf.
  - rewrite filter_none; [done|]. intros o Ho. apply Z.eqb_neq. intros <-. apply Hin, list_elem_of_In, in_map. by apply list_elem_of_In.
Qed.

Section alarms.
Context `{GC : GoConvert} `{NT : NumText} `{AT : AlarmText} `{JT : JsonText} `{B : Bolt} {BL : BoltLaws B} (id : Identity).
#[local] Set Default Proof Using "BL".

Lemma named_value_ok name pct b : name ∈ simple_stats -> bucket_value b (mkStat name pct) = mret (named_value name b).
Proof.
  intros H. unfold bucket_value, named_value. cbn [stat_Name]. repeat (apply elem_of_cons in H as [->|H]; [done|]). by apply elem_of_nil in H.
Qed.

Lemma alarm_stat_named a : a_Statistic a ∈ simple_stats -> alarm_stat a = mkStat (a_Statistic a) (of_Z (-1)).
Proof. intros H. unfold alarm_stat, parseStat. by rewrite bool_decide_true. Qed.

(** What a period contributes. *)
Definition judgement_at (a : alarm) (log : list observation) (t : Z) : judged :=
  (verdict_at a log t, named_value (a_Statistic a) <$> observed_at a log t).

Lemma judge_observed a log t : a_Statistic a ∈ simple_stats -> judge a (alarm_stat a) (observed_at a log t) = mret (judgement_at a log t).
Proof.
  intros H. unfold judge, judgement_at, verdict_at. rewrite alarm_stat_named by done. destruct (observed_at a log t) as [b|]; [|done].
  by rewrite named_value_ok.
Qed.

Lemma mapO_map {A C} (f : A -> outcome C) (g : A -> C) l : (forall x, x ∈ l -> f x = mret (g x)) -> mapO f l = mret (map g l).
Proof.
  intros H. induction l as [|x l IH]; [done|]. cbn [mapO map]. rewrite (H x) by left. cbn [mbind outcome_mbind outcome_bind mret outcome_ret].
  rewrite IH by (intros y Hy; apply H; by right). done.
Qed.

Lemma judge_periods_observed a now log seq mdb : recorded log seq mdb -> judgeable a now ->
  judge_periods a now mdb = mret (map (judgement_at a log) (examined a now)).
Proof.
  intros Hr Ha. pose proof (window_bounds a now Ha) as (H1 & H2 & H3). pose proof (period_bounds a now Ha) as [Hp _].
  pose proof (jd_now _ _ Ha). pose proof (proj1 (recorded_holds _ _ _ Hr)) as Hh. pose proof (holds_nodup _ _ _ Hh) as Hn.
  unfold judge_periods. change (seriesKey _ _ _) with (key_of_id (alarm_id a)). rewrite (period_duration a now Ha).
  rewrite (buckets_observed log seq) by (done || apply Ha || lia). rewrite (examined_starts a now Ha), map_map.
  apply mapO_map. intros i [Hi1 Hi2]%elem_of_seqZ. rewrite (period_at_start a now Ha) by lia.
  pose proof (window_start_floor a now Ha) as Es. pose proof (window_end_floor a now Ha) as Ee.
  rewrite (bucket_observed a now log) by (first [done | by (exists (now / period_ns a - a_EvaluationPeriods a + i); rewrite Es, Ee; lia) | nia]).
  apply judge_observed, Ha.
Qed.

(** C35: An alarm on one of the five named statistics is evaluated over the EvaluationPeriods
    periods that end where the one still filling begins: each breaches, or not, by the
    statistic of exactly what the log has of its metric in it, or is missing; and the alarm
    is to move exactly when the state that the counts of breaching and missing periods call
    for, under its treatment of missing data, is not the one it is in.  With missing data
    ignored that drops the missing periods and lets the others decide: the alarm keeps its
    state for want of data only when every period is missing, not, as the comment on the
    treatment says, when any is.  The log is that of any run of sweeps and accepted
    PutMetricData calls, as for GetMetricStatistics: a sweep of any retention and cap drops
    from it what it drops from the store; names have none of the characters that separate
    the parts of a key, the alarm's as well, instants are from 1970 to 2286, and samples
    fewer than 2^32 - 1.  The alarm's period and number of periods are positive and its window, their product, is
    of at most a day, and the clock is past the second day of 1970 and below 2^63 ns. *)
Theorem evaluate_exact a now log seq mdb : recorded log seq mdb -> judgeable a now ->
  exists reason data,
    evaluate a now mdb = Ret (Ok (
      match next_state a (map (verdict_at a log) (examined a now)) with
      | Some want => if String.eqb want (a_State a) then None else Some (want, reason, data)
      | None => None
      end)).
Proof.
  intros Hr Ha. set (js := map (judgement_at a log) (examined a now)).
  set (vs := map (verdict_at a log) (examined a now)).
  assert (js.*1 = vs) as Ejs by (unfold js, vs; clear; induction (examined a now) as [|t l IH]; [done|]; cbn [map]; by rewrite fmap_cons, IH).
  assert (vs <> []) as Hne.
  { unfold vs, examined. rewrite map_map. pose proof (jd_number _ _ Ha). rewrite seqZ_cons by done. done. }
  unfold evaluate. rewrite (judge_periods_observed a now log seq) by done. fold js. cbn [mbind outcome_mbind outcome_bind mret outcome_ret].
  rewrite Ejs, wanted_next_state by done.
  destruct (next_state a vs) as [want|]; [|by exists "", ""].
  exists (reason_text a want vs), (reason_data a now (omap snd js) vs). by destruct (String.eqb want (a_State a)).
Qed.

(** ** A pass of the evaluator *)

(** A store that takes every key it could hold. *)
Definition accepting : Prop :=
  forall V k (v : V) (b : bucket V), k <> "" -> slen k <= maxKeySize -> is_ok (bput k v b) = true.

(** Alarms under their own names, as handlers store them. *)
Definition storable_alarm (k : string) (a : alarm) : Prop :=
  k = a_Name a /\ a_Name a <> "" /\ slen (a_Name a) <= 255 /\ is_finite (a_Threshold a) = true.
Definition alarms_ok (db : AlarmDB) : Prop := forall k a, getAlarm k db = Some a -> storable_alarm k a.

Lemma pad_digits_len n v : slen (pad_digits n v) = Z.of_nat n.
Proof. revert v; induction n as [|n IH]; intros v; [done|]. cbn [pad_digits]. rewrite slen_app, IH. change (slen (String _ "")) with 1. lia. Qed.

Lemma historyKey_len ms name seq : slen (historyKey ms name seq) = slen name + 25.
Proof.
  assert (forall c s, slen (String c s) = slen s + 1) as C by (intros; unfold slen; cbn [String.length]; lia).
  unfold historyKey. rewrite slen_app, C, slen_app, C, !pad_digits_len. lia.
Qed.

Definition same_rest (db db' : AlarmDB) : Prop := al_dashboards db' = al_dashboards db.

(** Storing an alarm changes that alarm. *)
Lemma putAlarm_ok a h db : accepting -> storable_alarm (a_Name a) a -> h_AlarmName h = a_Name a \/ h_AlarmName h = "" ->
  exists db', putAlarm a h db = (Ok tt, db') /\ same_rest db db' /\
    forall n, getAlarm n db' = if decide (n = a_Name a) then Some a else getAlarm n db.
Proof.
  intros Hacc (_ & Hne & Hl & Hf) Hh. unfold putAlarm, run_update, put_alarm. rewrite Hf. cbn [negb].
  pose proof (Hacc _ (a_Name a) a (al_alarms db) Hne ltac:(unfold maxKeySize; lia)) as Ha.
  run_tx. destruct (bput (a_Name a) a (al_alarms db)) as [b|] eqn:Eb; [|done]. cbn [al_alarms al_history al_dashboards].
  unfold appendHistory. destruct Hh as [Hh|Hh]; rewrite Hh.
  - rewrite (proj2 (String.eqb_neq _ _) Hne). run_tx. cbn [al_alarms al_history al_dashboards].
    set (hb := bnext_sequence (al_history db)). pose proof (Hacc _ (historyKey (h_AtMs h) (a_Name a) (bsequence hb)) h hb) as Hk.
    pose proof (historyKey_len (h_AtMs h) (a_Name a) (bsequence hb)) as Lk. pose proof (slen_nonneg (a_Name a)).
    destruct (bput (historyKey _ _ _) h hb) as [hb'|]; [|exfalso; assert (false = true); [|done]; apply Hk; [intros E; rewrite E in Lk; change (slen "") with 0 in Lk; lia|unfold maxKeySize; lia]].
    eexists. split; [done|]. split; [done|]. intros n. unfold getAlarm. cbn. apply (bget_bput _ _ _ _ _ _ Eb).
  - change (String.eqb "" "") with true. eexists. split; [done|]. split; [done|]. intros n. unfold getAlarm. cbn. apply (bget_bput _ _ _ _ _ _ Eb).
Qed.

Definition move : Type := option (string * string * string).

(** What a pass makes of an alarm, and sends for it, given where it is to move. *)
Definition alarm_after (now : Z) (m : move) (a : alarm) : alarm :=
  match m with
  | None => a
  | Some (want, reason, data) => if a_StateSetManually a then with_manual false a else with_state want reason data (UnixMilli now) a
  end.
Definition alarm_sends (now : Z) (m : move) (a : alarm) : list notification :=
  match m with
  | Some (want, reason, data) =>
      if a_StateSetManually a then [] else fireActions id (with_state want reason data (UnixMilli now) a) (a_State a) want reason now
  | None => []
  end.

Lemma with_state_name s r d ms a : a_Name (with_state s r d ms a) = a_Name a /\ a_Threshold (with_state s r d ms a) = a_Threshold a.
Proof. by destruct a. Qed.
Lemma with_manual_name b a : a_Name (with_manual b a) = a_Name a /\ a_Threshold (with_manual b a) = a_Threshold a.
Proof. by destruct a. Qed.

Lemma storable_same a a' : a_Name a' = a_Name a -> a_Threshold a' = a_Threshold a -> storable_alarm (a_Name a) a -> storable_alarm (a_Name a') a'.
Proof. unfold storable_alarm. intros -> -> (_ & ?). done. Qed.

Lemma evaluate_one_ok now mdb a m db : accepting -> storable_alarm (a_Name a) a -> getAlarm (a_Name a) db = Some a ->
  evaluate a now mdb = Ret (Ok m) ->
  exists db', evaluate_one id now mdb a db = Ret (Ok (db', alarm_sends now m a)) /\ same_rest db db' /\
    forall n, getAlarm n db' = if decide (n = a_Name a) then Some (alarm_after now m a) else getAlarm n db.
Proof.
  intros Hacc Hs Hg He. unfold evaluate_one, alarm_sends, alarm_after. rewrite He. cbn [mbind outcome_mbind outcome_bind].
  destruct m as [[[want reason] data]|].
  - destruct (a_StateSetManually a).
    + destruct (with_manual_name false a) as [En Et]. destruct (putAlarm_ok (with_manual false a) no_history db) as (db' & E & Hr & Hd); [done|by apply (storable_same a)|by right|].
      exists db'. rewrite E. rewrite En in Hd. done.
    + destruct (with_state_name want reason data (UnixMilli now) a) as [En Et].
      destruct (putAlarm_ok (with_state want reason data (UnixMilli now) a)
        (mkHistory (a_Name a) "StateUpdate" ("Alarm updated from " +:+ a_State a +:+ " to " +:+ want) data (UnixMilli now)) db) as (db' & E & Hr & Hd);
        [done|by apply (storable_same a)|by left|].
      exists db'. unfold transition. rewrite E. rewrite En in Hd. done.
  - exists db. split; [done|]. split; [done|]. intros n. case_decide as E; [by rewrite E|done].
Qed.

Lemma evaluate_all_ok now mdb mv l : accepting -> forall db, NoDup (a_Name <$> l) ->
  (forall a, a ∈ l -> getAlarm (a_Name a) db = Some a /\ storable_alarm (a_Name a) a /\ evaluate a now mdb = Ret (Ok (mv a))) ->
  exists db', evaluate_all id now mdb l db = Ret (Ok (db', concat (map (fun a => alarm_sends now (mv a) a) l))) /\ same_rest db db' /\
    forall n, getAlarm n db' = match list_find (fun a => a_Name a = n) l with Some (_, a) => Some (alarm_after now (mv a) a) | None => getAlarm n db end.
Proof.
  intros Hacc. induction l as [|a l IH]; intros db Hn Hl; [by exists db|].
  rewrite fmap_cons in Hn. apply NoDup_cons in Hn as [Hna Hn]. destruct (Hl a) as (Hg & Hs & He); [by left|].
  destruct (evaluate_one_ok now mdb a (mv a) db) as (db1 & E1 & R1 & G1); [done..|].
  destruct (IH db1) as (db2 & E2 & R2 & G2); [done| |].
  { intros a' Ha'. destruct (Hl a') as (Hg' & ? & ?); [by right|]. rewrite G1, decide_False; [done|].
    intros En. apply Hna. rewrite <- En. by apply list_elem_of_fmap_2. }
  exists db2. cbn [evaluate_all map concat]. rewrite E1. cbn [mbind outcome_mbind outcome_bind fst snd]. rewrite E2. split; [done|]. split; [by unfold same_rest in *; congruence|].
  intros n. rewrite G2. cbn [list_find]. destruct (decide (a_Name a = n)) as [En|En].
  - destruct (list_find (fun a0 => a_Name a0 = n) l) as [[i a']|] eqn:Ef.
    + apply list_find_Some in Ef as (Hi & En' & _). exfalso. apply Hna. rewrite En, <- En'. apply list_elem_of_fmap_2. by eapply list_elem_of_lookup_2.
    + cbn. by rewrite G1, decide_True.
  - destruct (list_find (fun a0 => a_Name a0 = n) l) as [[i a']|]; [done|]. cbn. by rewrite G1, decide_False.
Qed.

Lemma elem_of_listAlarms db a : a ∈ listAlarms db <-> exists k, getAlarm k db = Some a.
Proof.
  unfold listAlarms, getAlarm. rewrite merge_sort_Permutation, list_elem_of_fmap. split.
  - intros ([k a'] & -> & H). exists k. by rewrite <- bentries_bget.
  - intros (k & H). exists (k, a). by rewrite bentries_bget.
Qed.

Lemma listAlarms_names db : alarms_ok db -> NoDup (a_Name <$> listAlarms db).
Proof.
  intros Hok. unfold listAlarms. rewrite merge_sort_Permutation. assert (a_Name <$> (bentries (al_alarms db)).*2 = (bentries (al_alarms db)).*1) as ->; [|apply bentries_keys_NoDup].
  assert (forall e, e ∈ bentries (al_alarms db) -> a_Name e.2 = e.1) as H.
  { intros [k a] He%bentries_bget. destruct (Hok k a He) as (-> & _). done. }
  induction (bentries (al_alarms db)) as [|e l IH]; [done|]. rewrite !fmap_cons, (H e) by left. f_equal. apply IH. intros e' He. apply H. by right.
Qed.

(** C36: A pass of the evaluator takes every alarm at once: each is evaluated as it stood
    when the pass began; one that is to move is put in its state with the reason and the
    instant, unless its state was set by hand, which only costs it that mark; the others
    are left as they are; and what is sent is, alarm by alarm, the notifications of the
    actions configured for the states that were entered. *)
Theorem EvaluateNow_exact now mdb db mv : accepting -> alarms_ok db ->
  (forall a, a ∈ listAlarms db -> evaluate a now mdb = Ret (Ok (mv a))) ->
  exists db', EvaluateNow id now mdb db = Ret (Ok (db', concat (map (fun a => alarm_sends now (mv a) a) (listAlarms db)))) /\
    al_dashboards db' = al_dashboards db /\
    forall n, getAlarm n db' = (fun a => alarm_after now (mv a) a) <$> getAlarm n db.
Proof.
  intros Hacc Hok Hmv. destruct (evaluate_all_ok now mdb mv (listAlarms db) Hacc db) as (db' & E & R & G).
  - by apply listAlarms_names.
  - intros a Ha. pose proof (proj1 (elem_of_listAlarms db a) Ha) as (k & Hk). destruct (Hok k a Hk) as (-> & Hs). by auto using conj.
  - exists db'. split; [done|]. split; [done|]. intros n. rewrite G.
    destruct (list_find (fun a => a_Name a = n) (listAlarms db)) as [[i a]|] eqn:Ef.
    + apply list_find_Some in Ef as (Hi & <- & _). apply list_elem_of_lookup_2, elem_of_listAlarms in Hi as (k & Hk).
      destruct (Hok k a Hk) as (-> & _). by rewrite Hk.
    + destruct (getAlarm n db) as [a|] eqn:Eg; [|done]. exfalso. pose proof (proj1 (list_find_None _ _) Ef) as F. rewrite Forall_forall in F.
      apply (F a); [|by destruct (Hok n a Eg) as (-> & _)]. apply elem_of_listAlarms. by exists n.
Qed.
End alarms.

(** ** Examples *)

(** Texts that say no more than an example needs. *)
#[local] Instance example_numbers : NumText := {|
  parse_float64 s := of_Z <$> parse_int s;
  parse_float64_failed _ := zero;
  format_float64 f := match trunc f with Some n => pretty n | None => "" end;
  parse_stamp s := (fun n => instant n 0) <$> parse_int s;
  format_stamp t := pretty (t / second)
|}.
#[local] Instance example_texts : AlarmText := {|
  fmt_v f := match trunc f with Some n => pretty n | None => "" end;
  json_number f := match trunc f with Some n => pretty n | None => "" end;
  format_nano t := pretty t;
  quoted s := s;
  json_valid _ := true
|}.
#[local] Instance example_json : JsonText := {|
  json_parse _ := None;
  json_marshal j := match j with JObj m => pretty (Z.of_nat (size m)) | _ => "" end;
  float_text s := s;
  redrive_fields _ := None
|}.

Lemma mem_accepting : @accepting mem_bolt.
Proof.
  intros V k v b Hk Hl. cbn [bput mem_bolt]. destruct (String.eqb_spec k ""); [done|].
  destruct (Z.ltb_spec maxKeySize (slen k)); [lia|done].
Qed.

Section examples.
#[local] Existing Instance mem_bolt.
#[local] Existing Instance plain_numbers.

(** Three days after 1970, in minutes. *)
Definition minute (n : Z) : Z := 3 * 86400 + 60 * n.
Definition busy_datum (n v : Z) : datum := mkDatum "App" "Busy" ∅ (of_Z v) "" 60 (minute n * second) None.
Definition busy_data : list datum := [busy_datum 1 9; busy_datum 3 8; busy_datum 3 1; busy_datum 4 2].
Definition busy_db : MetricDB := (putSamples (minute 5 * second) busy_data empty_MetricDB).2.
Definition busy_log : list observation := [] ++ stamp (UnixMilli (minute 5 * second)) 0 busy_data.

Definition busy_request (name treat : string) (periods datapoints : Z) : params :=
  list_to_map [("AlarmName", CStr name); ("ComparisonOperator", CStr "GreaterThanThreshold"); ("Namespace", CStr "App"); ("MetricName", CStr "Busy");
    ("Statistic", CStr "Sum"); ("Period", CNum (of_Z 60)); ("EvaluationPeriods", CNum (of_Z periods)); ("DatapointsToAlarm", CNum (of_Z datapoints));
    ("Threshold", CNum (of_Z 5)); ("TreatMissingData", CStr treat); ("AlarmActions", CArr [CStr "arn:aws:sns:us-east-1:000000000000:ops"])].

Definition no_alarm : alarm := mkAlarm "" "" "" "" ∅ "" "" 0 0 0 false "" zero "" false [] [] [] "" "" "" 0 0 false ∅.
Definition busy_alarm : alarm := match parse_alarm (minute 0 * second) (busy_request "busy" "missing" 4 2) with Ok a => a | Err _ => no_alarm end.

Lemma busy_recorded : recorded busy_log (0 + Z.of_nat (length busy_data)) busy_db.
Proof.
  unfold busy_log, busy_db. apply recorded_put with (db := empty_MetricDB); [constructor| |done|apply put_ok; by vm_compute].
  apply storable_bool. by vm_compute.
Qed.

Lemma busy_judgeable : judgeable busy_alarm (minute 5 * second).
Proof.
  split.
  - apply clean_id_bool. vm_compute. reflexivity.
  - apply (bool_decide_unpack (a_Statistic busy_alarm ∈ simple_stats)). vm_compute. exact I.
  - vm_compute. reflexivity.
  - vm_compute. reflexivity.
  - vm_compute. discriminate.
  - split; [vm_compute; discriminate|vm_compute; reflexivity].
Qed.

(** Two of the last four periods breach. *)
Lemma evaluate_exact_witness :
  map (verdict_at busy_alarm busy_log) (examined busy_alarm (minute 5 * second)) = [verdictBreaching; verdictMissing; verdictBreaching; verdictGood] /\
  exists reason data, evaluate busy_alarm (minute 5 * second) busy_db = Ret (Ok (Some (stateAlarm, reason, data))).
Proof.
  split; [vm_compute; reflexivity|].
  destruct (evaluate_exact busy_alarm (minute 5 * second) busy_log (0 + Z.of_nat (length busy_data)) busy_db busy_recorded busy_judgeable) as (reason & data & E).
  exists reason, data. rewrite E. vm_compute. reflexivity.
Defined.

Definition busy_id : Identity := mkIdentity "" "".
Definition two_alarms : AlarmDB :=
  (putMetricAlarm (minute 0 * second) (busy_request "strict" "missing" 4 3)
    (putMetricAlarm (minute 0 * second) (busy_request "busy" "missing" 4 2) empty_AlarmDB).2).2.
Definition busy_move (a : alarm) : move := match evaluate a (minute 5 * second) busy_db with Ret (Ok m) => m | _ => None end.

Lemma two_alarms_ok : alarms_ok two_alarms.
Proof.
  intros k a. unfold getAlarm. rewrite <- bentries_bget.
  assert (forallb (fun e : string * alarm => String.eqb e.1 (a_Name e.2) && negb (String.eqb (a_Name e.2) "") && (slen (a_Name e.2) <=? 255) && is_finite (a_Threshold e.2)) (bentries (al_alarms two_alarms)) = true) as H by (vm_compute; reflexivity).
  rewrite forallb_forall in H. intros Hin%list_elem_of_In. specialize (H _ Hin). cbn [fst snd] in H.
  apply andb_true_iff in H as [[[H1%String.eqb_eq H2%negb_true_iff]%andb_true_iff H3%Z.leb_le]%andb_true_iff H4]. apply String.eqb_neq in H2. exact (conj H1 (conj H2 (conj H3 H4))).
Qed.

Lemma EvaluateNow_exact_witness : exists db',
  EvaluateNow busy_id (minute 5 * second) busy_db two_alarms =
    Ret (Ok (db', concat (map (fun a => alarm_sends busy_id (minute 5 * second) (busy_move a) a) (listAlarms two_alarms)))) /\
  (a_State <$> getAlarm "busy" db') = Some stateAlarm /\ (a_State <$> getAlarm "strict" db') = Some stateOK.
Proof.
  destruct (EvaluateNow_exact busy_id (minute 5 * second) busy_db two_alarms busy_move mem_accepting two_alarms_ok) as (db' & E & _ & G).
  - assert (forallb (fun a => match evaluate a (minute 5 * second) busy_db with Ret (Ok _) => true | _ => false end) (listAlarms two_alarms) = true) as H by (vm_compute; reflexivity).
    rewrite forallb_forall in H. intros a Hin%list_elem_of_In. specialize (H a Hin). unfold busy_move. revert H.
    generalize (evaluate a (minute 5 * second) busy_db). intros [[m|e]| |] H; [reflexivity|discriminate..].
  - exists db'. split; [exact E|]. rewrite !G. split; vm_compute; reflexivity.
Defined.

(** [ignore] does not keep the state: what is not missing decides. *)
Example ignore_moves :
  next_state (match parse_alarm 0 (busy_request "a" "ignore" 4 2) with Ok a => a | Err _ => no_alarm end)
    [verdictBreaching; verdictMissing; verdictBreaching; verdictGood] = Some stateAlarm.
Proof. vm_compute. reflexivity. Qed.

(** The product of 60 seconds and 2^62 periods is 0, which is under a day. *)
Example window_overflow : alarm_periods (busy_request "a" "missing" (2 ^ 62) 1) = Ok (60, 2 ^ 62, 1).
Proof. vm_compute. reflexivity. Qed.

(** A state set by hand: the first pass that disagrees only takes the mark off, and the
    second moves the alarm; where the metric agrees, the mark stays for the next time. *)
Definition set_request (state : string) : params := {["AlarmName" := CStr "busy"; "StateValue" := CStr state; "StateReason" := CStr "test"]}.
Definition pass (n : Z) (db : AlarmDB) : AlarmDB :=
  match EvaluateNow busy_id (minute n * second) busy_db db with Ret (Ok (db', _)) => db' | _ => db end.
Definition status (db : AlarmDB) : option (string * bool) := (fun a => (a_State a, a_StateSetManually a)) <$> getAlarm "busy" db.

Example set_by_hand :
  let db := (setAlarmState busy_id (minute 5 * second) (set_request stateOK) two_alarms).1.2 in
  status (pass 5 db) = Some (stateOK, false) /\ status (pass 5 (pass 5 db)) = Some (stateAlarm, false).
Proof. vm_compute. split; reflexivity. Qed.

Example mark_outlives_agreement :
  let db := (setAlarmState busy_id (minute 5 * second) (set_request stateAlarm) two_alarms).1.2 in
  status (pass 5 db) = Some (stateAlarm, true) /\
  status (pass 40 (pass 5 db)) = Some (stateAlarm, false).
Proof. vm_compute. split; reflexivity. Qed.

(** The last tags of a dashboard come back: a put without tags keeps the old ones. *)
Definition tagged_dashboard : AlarmDB :=
  (putDashboardAction 0 {["DashboardName" := CStr "d"; "DashboardBody" := CStr "{}"; "Tags" := CArr [CMap {["Key" := CStr "team"; "Value" := CStr "a"]}]]} empty_AlarmDB).2.
Definition dashboard_request : params := {["ResourceARN" := CStr "arn:aws:cloudwatch:us-east-1:000000000000:dashboard/d"; "TagKeys" := CArr [CStr "team"]]}.
Example untag_keeps_last :
  is_ok (untagResource dashboard_request tagged_dashboard).1 = true /\
  listTagsForResource dashboard_request (untagResource dashboard_request tagged_dashboard).2 = Ok [("team", "a")].
Proof. vm_compute. split; reflexivity. Qed.

(** A percentile spelled with a capital is shown as a plain statistic. *)
Example capital_percentile : let v := viewOf busy_id (with_alarm_tags ∅ (mkAlarm "a" "" "App" "Busy" ∅ "P99" "" 60 1 1 true "" zero "" true [] [] [] "" "" "" 0 0 false ∅)) in
  is_Some (parseStat "P99") /\ v_Statistic v = "P99" /\ v_ExtendedStatistic v = "".
Proof. vm_compute. split; [by eexists|split; reflexivity]. Qed.
End examples.

(** ** The alarms a handler stores

    The invariant of the alarms, and that every operation keeps it. *)

Definition known_target (arn : string) : bool := match (classifyAction arn).1 with targetUnknown => false | _ => true end.

(** The configuration of an alarm. *)
Record config_ok `{GoConvert} `{NumText} (a : alarm) : Prop := {
  co_name : a_Name a <> "";
  co_metric : a_Namespace a <> "" /\ a_MetricName a <> "";
  co_statistic : is_Some (parseStat (a_Statistic a));
  co_period : 0 < a_Period a /\ checkPeriod (a_Period a) = Ok tt;
  co_number : 0 < a_EvaluationPeriods a /\ wrap64 (a_Period a * a_EvaluationPeriods a) <= maxEvaluationWindow;
  co_datapoints : a_DatapointsToAlarm a <= a_EvaluationPeriods a;
  co_operator : a_ComparisonOp a <> "" /\ a_ComparisonOp a ∉ anomalyOperators;
  co_treat : a_TreatMissingData a = "" \/ a_TreatMissingData a ∈ treatMissingValues;
  co_actions : forall state arn, arn ∈ actionsFor a state -> known_target arn = true
}.

Definition state_ok (s : string) : Prop := s ∈ [stateOK; stateAlarm; stateInsufficientData].

Record alarm_wf `{GoConvert} `{NumText} (k : string) (a : alarm) : Prop := {
  wf_key : k = a_Name a;
  wf_config : config_ok a;
  wf_threshold : is_finite (a_Threshold a) = true;
  wf_state : state_ok (a_State a)
}.

Section alarms.
Context `{GC : GoConvert} `{NT : NumText} `{AT : AlarmText} `{JT : JsonText} `{B : Bolt} {BL : BoltLaws B} (id : Identity).
#[local] Set Default Proof Using "BL".

Definition db_wf (db : AlarmDB) : Prop := forall k a, getAlarm k db = Some a -> alarm_wf k a.

(** One request, one pass of the evaluator, or one delivery. *)
Inductive alarm_step (db : AlarmDB) : AlarmDB -> list notification -> Prop :=
| step_put now p : alarm_step db (putMetricAlarm now p db).2 []
| step_delete p : alarm_step db (deleteAlarmsAction p db).2 []
| step_set now p : alarm_step db (setAlarmState id now p db).1.2 (setAlarmState id now p db).2
| step_enable b now p : alarm_step db (setActionsEnabled b now p db).2 []
| step_evaluate now mdb db' sent : EvaluateNow id now mdb db = Ret (Ok (db', sent)) -> alarm_step db db' sent
| step_delivered now n : alarm_step db (delivered now n db) []
| step_put_dashboard now p : alarm_step db (putDashboardAction now p db).2 []
| step_delete_dashboards p : alarm_step db (deleteDashboardsAction p db).2 []
| step_tag p : alarm_step db (tagResource p db).2 []
| step_untag p : alarm_step db (untagResource p db).2 [].

Definition target_ok (n : notification) : Prop := nt_kind n <> targetUnknown.

(** ** Members that steps change *)

Lemma config_with_state s r d ms a : config_ok a -> config_ok (with_state s r d ms a).
Proof. destruct a. by intros [? ? ? ? ? ? ? ? ?]; split. Qed.
Lemma config_with_manual b a : config_ok a -> config_ok (with_manual b a).
Proof. destruct a. by intros [? ? ? ? ? ? ? ? ?]; split. Qed.
Lemma config_with_enabled b ms a : config_ok a -> config_ok (with_enabled b ms a).
Proof. destruct a. by intros [? ? ? ? ? ? ? ? ?]; split. Qed.
Lemma config_with_tags t a : config_ok a -> config_ok (with_alarm_tags t a).
Proof. destruct a. by intros [? ? ? ? ? ? ? ? ?]; split. Qed.

(** ** Storing *)

Definition alarm_ready (a : alarm) : Prop := config_ok a /\ state_ok (a_State a).

Lemma append_history_alarms h db db' : appendHistory h db = Ok (tt, db') -> al_alarms db' = al_alarms db.
Proof.
  unfold appendHistory. destruct (String.eqb _ ""); [by intros [= <-]|]. intros E.
  apply bind_ok in E as (? & ? & [= <- <-] & E). apply bind_ok in E as (b & ? & [_ ->]%lift_ok & [= <-]). done.
Qed.

Lemma put_wf a h db : alarm_ready a -> db_wf db -> db_wf (putAlarm a h db).2.
Proof.
  intros [Hc Hs] H. unfold putAlarm. destruct (run_update _ db) as [r db'] eqn:E. apply update_ok in E as [([] & _ & E)|(e & _ & _ & ->)]; [|done].
  unfold put_alarm in E. destruct (is_finite (a_Threshold a)) eqn:Ef; [|done]. cbn [negb] in E.
  apply bind_ok in E as (? & ? & [= <- <-] & E). apply bind_ok in E as (b & ? & [Eb ->]%lift_ok & E).
  apply bind_ok in E as ([] & db1 & [= <-] & E). apply append_history_alarms in E. cbn in E.
  intros k a'. cbn [snd]. unfold getAlarm. rewrite E, (bget_bput _ _ _ _ _ _ Eb). case_decide as Ek; [intros [= <-]; by split|apply H].
Qed.

Lemma stored_ready db k a : db_wf db -> getAlarm k db = Some a -> alarm_ready a.
Proof. intros H E. destruct (H k a E). by split. Qed.

(** ** Notifications *)

Lemma fire_targets a prev state reason now : config_ok a -> Forall target_ok (fireActions id a prev state reason now).
Proof.
  intros Hc. unfold fireActions. destruct (_ || _); [constructor|]. apply Forall_forall. intros n Hn%list_elem_of_In.
  apply in_map_iff in Hn as (arn & <- & Hin%list_elem_of_In). pose proof (co_actions _ Hc state arn Hin) as Hk. unfold known_target in Hk.
  unfold target_ok. destruct (classifyAction arn) as [[] name]; done.
Qed.

Lemma transition_wf a want reason data now db : alarm_ready a -> state_ok want -> db_wf db ->
  db_wf (transition id a want reason data now db).1 /\ Forall target_ok (transition id a want reason data now db).2.
Proof.
  intros [Hc Hs] Hw H. unfold transition. set (a' := with_state want reason data (UnixMilli now) a).
  assert (config_ok a') as Hc' by (by apply config_with_state).
  assert (alarm_ready a') as Hr by (split; [done|by destruct a]).
  destruct (putAlarm a' _ db) as [r db'] eqn:E. pose proof (put_wf a' (mkHistory (a_Name a) "StateUpdate" ("Alarm updated from " +:+ a_State a +:+ " to " +:+ want) data (UnixMilli now)) db Hr H) as Hd.
  rewrite E in Hd. destruct r as [[]|e]; cbn [fst snd]; (split; [done|]); [by apply fire_targets|constructor].
Qed.

Lemma wanted_state_ok a vs want : wanted_state a vs = Some want -> state_ok want.
Proof.
  unfold wanted_state. destruct (_ && _); [done|]. unfold state_ok. destruct (_ <=? _); [intros [= <-]; set_solver|].
  destruct (_ && _); intros [= <-]; set_solver.
Qed.

Lemma evaluate_state a now mdb want reason data : evaluate a now mdb = Ret (Ok (Some (want, reason, data))) -> state_ok want.
Proof.
  unfold evaluate. intros E. apply outcome_bind_Ok in E as (js & _ & E). destruct (wanted_state a js.*1) as [w|] eqn:Ew; [|done].
  destruct (String.eqb w (a_State a)); [done|]. injection E as <- _ _. by eapply wanted_state_ok.
Qed.

Lemma evaluate_all_wf now mdb l : Forall alarm_ready l -> forall db db' sent, db_wf db ->
  evaluate_all id now mdb l db = Ret (Ok (db', sent)) -> db_wf db' /\ Forall target_ok sent.
Proof.
  induction 1 as [|a l Ha Hl IH]; intros db db' sent H E; [by injection E as <- <-|]. cbn [evaluate_all] in E.
  apply outcome_bind_Ok in E as ([db1 sent1] & E1 & E). apply outcome_bind_Ok in E as ([db2 sent2] & E2 & E). cbn [fst snd] in *.
  injection E as <- <-. assert (db_wf db1 /\ Forall target_ok sent1) as [H1 S1].
  { unfold evaluate_one in E1. apply outcome_bind_Ok in E1 as (m & Em & E1). destruct m as [[[want reason] data]|]; [|by injection E1 as <- <-].
    destruct (a_StateSetManually a).
    - injection E1 as <- <-. split; [|constructor]. apply put_wf; [|done]. destruct Ha. split; [by apply config_with_manual|by destruct a].
    - injection E1 as E1. pose proof (transition_wf a want reason data now db Ha (evaluate_state _ _ _ _ _ _ Em) H) as Ht. by rewrite E1 in Ht. }
  destruct (IH db1 db2 sent2 H1 E2) as [H2 S2]. split; [done|]. by apply Forall_app.
Qed.

Lemma list_alarms_ready db : db_wf db -> Forall alarm_ready (listAlarms db).
Proof.
  intros H. apply Forall_forall. intros a. unfold listAlarms. rewrite merge_sort_Permutation. intros ([k a'] & -> & Hin)%list_elem_of_fmap.
  apply bentries_bget in Hin. by eapply stored_ready.
Qed.

(** ** Requests *)

Lemma reject_ok b e : reject b e = Ok tt -> b = false.
Proof. by destruct b. Qed.

Lemma checkActions_known l l' : checkActions l = Ok l' -> l' = l /\ forall arn, arn ∈ l -> known_target arn = true.
Proof.
  unfold checkActions. destruct (forallb _ l) eqn:E; [|done]. intros [= <-]. split; [done|]. rewrite forallb_forall in E.
  intros arn Hin%list_elem_of_In. specialize (E arn Hin). unfold known_target. by destruct ((classifyAction arn).1).
Qed.

Lemma alarm_statistic_known p s : alarm_statistic p = Ok s -> is_Some (parseStat s).
Proof.
  unfold alarm_statistic. intros E. apply result_bind_Ok in E as (st & _ & E). apply result_bind_Ok in E as ([] & _ & E).
  destruct (parseStat st) eqn:Ep; [|done]. injection E as <-. by rewrite Ep.
Qed.

Lemma alarm_periods_ok p period n k : alarm_periods p = Ok (period, n, k) ->
  (0 < period /\ checkPeriod period = Ok tt) /\ (0 < n /\ wrap64 (period * n) <= maxEvaluationWindow) /\ k <= n.
Proof.
  unfold alarm_periods. intros E. apply result_bind_Ok in E as ([] & H1%reject_ok & E). apply result_bind_Ok in E as ([] & H2 & E).
  apply result_bind_Ok in E as ([] & H3%reject_ok & E). apply result_bind_Ok in E as ([] & H4%reject_ok & E).
  apply result_bind_Ok in E as ([] & H5%reject_ok & E). injection E as <- <- <-.
  apply Z.leb_gt in H1, H3. apply Z.ltb_ge in H4, H5. done.
Qed.

Lemma parse_alarm_ready now p a : parse_alarm now p = Ok a -> alarm_ready a.
Proof.
  unfold parse_alarm. intros E.
  apply result_bind_Ok in E as ([] & Hname%reject_ok & E). apply result_bind_Ok in E as ([] & _ & E).
  apply result_bind_Ok in E as ([] & _ & E). apply result_bind_Ok in E as ([] & _ & E).
  apply result_bind_Ok in E as ([] & Hop%reject_ok & E). apply result_bind_Ok in E as ([] & Hanom%reject_ok & E).
  apply result_bind_Ok in E as ([] & Hm%reject_ok & E). apply result_bind_Ok in E as (st & Hst%alarm_statistic_known & E).
  apply result_bind_Ok in E as ([[period n] k] & Hp%alarm_periods_ok & E). apply result_bind_Ok in E as (thr & _ & E).
  apply result_bind_Ok in E as ([] & Ht%reject_ok & E). apply result_bind_Ok in E as (dims & _ & E).
  apply result_bind_Ok in E as (aa & [-> Ha]%checkActions_known & E). apply result_bind_Ok in E as (oa & [-> Ho]%checkActions_known & E).
  apply result_bind_Ok in E as (ia & [-> Hi]%checkActions_known & E). injection E as <-.
  apply orb_false_iff in Hm as [Hns Hmn]. apply String.eqb_neq in Hname, Hop, Hns, Hmn. apply bool_decide_eq_false in Hanom.
  destruct Hp as (H1 & H2 & H3). split; [split; try done|cbn; unfold state_ok; set_solver].
  - cbn. destruct (String.eqb_spec (Str p "TreatMissingData") ""); [by left|]. right. cbn in Ht. by apply negb_false_iff, bool_decide_eq_true in Ht.
  - intros state arn. unfold actionsFor. cbn. repeat case_match; [apply Ha|apply Ho|apply Hi|by intros ?%elem_of_nil].
Qed.

Lemma keep_state_ready prev a : alarm_ready prev -> alarm_ready a -> alarm_ready (keep_state prev a).
Proof.
  intros [_ Hs] [Hc _]. unfold keep_state. set (a' := with_state _ _ _ _ a).
  assert (alarm_ready a') as [Hc' Hs'] by (split; [by apply config_with_state|by destruct a]).
  destruct (_ =? _)%nat; [|done]. split; [by apply config_with_tags|by destruct a].
Qed.

Lemma getAlarm_delete names db n : getAlarm n (deleteAlarms names db) = if decide (n ∈ names) then None else getAlarm n db.
Proof. unfold getAlarm, deleteAlarms. cbn. apply bget_delete_all. Qed.

Lemma enable_each_wf b now names : forall db, db_wf db -> db_wf (enable_each b now names db).2.
Proof.
  induction names as [|n names IH]; intros db H; [done|]. cbn [enable_each]. destruct (getAlarm n db) as [a|] eqn:Eg; [|by apply IH].
  destruct (Bool.eqb _ _); [by apply IH|]. set (h := mkHistory _ _ _ _ _).
  assert (db_wf (putAlarm (with_enabled b (UnixMilli now) a) h db).2) as Hd.
  { apply put_wf; [|done]. destruct (stored_ready _ _ _ H Eg). split; [by apply config_with_enabled|by destruct a]. }
  destruct (putAlarm _ h db) as [[[]|e] db']; [by apply IH|done].
Qed.

Lemma same_alarms_wf db db' : al_alarms db' = al_alarms db -> db_wf db -> db_wf db'.
Proof. intros E H k a. unfold getAlarm. rewrite E. apply H. Qed.

Lemma put_dashboard_alarms d db : al_alarms (putDashboard d db).2 = al_alarms db.
Proof.
  unfold putDashboard. destruct (run_update _ db) as [r db'] eqn:E. apply update_ok in E as [([] & _ & E)|(e & _ & _ & ->)]; [|done].
  unfold put_dashboard in E. apply bind_ok in E as (? & ? & [= <- <-] & E). by apply bind_ok in E as (b & ? & [_ ->]%lift_ok & [= <-]).
Qed.

Lemma withTags_wf arn edit db : db_wf db -> db_wf (withTags arn edit db).2.
Proof.
  intros H. unfold withTags, taggable. destruct (after_first ":alarm:" arn) as [name|].
  - destruct (getAlarm name db) as [a|] eqn:Eg; [|done]. cbn [mret result_ret]. apply put_wf; [|done].
    destruct (stored_ready _ _ _ H Eg). split; [by apply config_with_tags|by destruct a].
  - destruct (after_first ":dashboard/" arn) as [name|]; [|done]. destruct (bget name (al_dashboards db)) as [d|]; [|done].
    cbn [mret result_ret]. eapply same_alarms_wf; [apply put_dashboard_alarms|done].
Qed.

(** A step keeps every stored alarm well formed, and what it sends has a target. *)
Lemma alarm_step_wf db db' sent' : alarm_step db db' sent' -> db_wf db -> db_wf db' /\ Forall target_ok sent'.
Proof.
  intros Hstep H.
  destruct Hstep as [now p|p|now p|b now p|now mdb db' sent' E|now n|now p|p|p|p]; try (split; [|constructor]).
  - unfold putMetricAlarm. destruct (parse_alarm now p) as [a|e] eqn:E; [|done]. apply parse_alarm_ready in E.
    destruct (getAlarm (a_Name a) db) as [prev|] eqn:Eg; apply put_wf; try done. apply keep_state_ready; [by eapply stored_ready|done].
  - unfold deleteAlarmsAction. destruct (Strs p "AlarmNames"); [done|]. destruct (existsb _ _); [|done].
    intros k a. cbn [snd]. rewrite getAlarm_delete. case_decide; [done|apply H].
  - unfold setAlarmState. destruct (_ || _); [done|]. destruct (bool_decide_reflect (Str p "StateValue" ∈ [stateOK; stateAlarm; stateInsufficientData])) as [Hst|]; [|done].
    cbn [negb]. destruct (getAlarm _ db) as [a|] eqn:Eg; [|done].
    pose proof (transition_wf (with_manual true a) (Str p "StateValue") (Str p "StateReason") (Str p "StateReasonData") now db) as Ht.
    destruct (transition _ _ _ _ _ _ _) as [db' sent']. apply Ht; [|done|done].
    destruct (stored_ready _ _ _ H Eg). split; [by apply config_with_manual|by destruct a].
  - unfold setActionsEnabled. destruct (Strs p "AlarmNames") as [|n names]; [done|]. by apply enable_each_wf.
  - by eapply evaluate_all_wf; [apply list_alarms_ready| |].
  - unfold delivered. destruct (nt_kind n); [done|..]; destruct (run_update _ db) as [r db'] eqn:E;
      (apply update_ok in E as [([] & _ & E)|(e & _ & _ & ->)]; [|done]); by eapply same_alarms_wf; [eapply append_history_alarms|].
  - unfold putDashboardAction. destruct (_ || _); [done|]. destruct (negb _); [done|].
    eapply same_alarms_wf; [apply put_dashboard_alarms|done].
  - unfold deleteDashboardsAction. destruct (Strs p "DashboardNames"); [done|]. unfold deleteDashboards. by destruct (forallb _ _).
  - unfold tagResource. destruct (_ =? _)%nat; [done|]. by apply withTags_wf.
  - unfold untagResource. destruct (Strs p "TagKeys"); [done|]. by apply withTags_wf.
Qed.
End alarms.
