(* ===== verification/CloudWatch.v ===== *)
(** * CloudWatch: the service in front of its operations (src/cloudwatch: cloudwatch.go,
    validate.go, errors.go)

    A decoded request is looked up, checked against the table of its operation and handed
    to its handler; errors take the name their wire uses.  The state is the metric store
    and the alarm store, which the program keeps in one file. *)

From stdpp Require Import pretty.
From Stdlib Require Import SpecFloat.
From S2P Require Import Prelude Bytes Ident Clock GoText Float64 Bolt Cursor Tx Cbor CborSpec Params ModelCheck Metrics MetricRun MetricsSpec Alarms AlarmApi AlarmSpec.

(** ** Constraint tables *)

Definition no_pattern : Pat := mkPat "" None.
Definition required (path : string) : Constraint := mkConstraint path KindRequired [] zero zero no_pattern.
Definition one_of (path : string) (values : list string) : Constraint := mkConstraint path KindEnum values zero zero no_pattern.
Definition has_length (path : string) (lo : Z) (hi : float64) : Constraint := mkConstraint path KindLength [] (of_Z lo) hi no_pattern.
Definition in_range (path : string) (lo : Z) (hi : float64) : Constraint := mkConstraint path KindRange [] (of_Z lo) hi no_pattern.
Definition like (path : string) (p : Pat) : Constraint := mkConstraint path KindPattern [] zero zero p.

Definition standardUnits : list string :=
  ["Gigabytes"; "Terabits"; "Gigabytes/Second"; "None"; "Microseconds"; "Milliseconds";
   "Bytes"; "Terabytes"; "Bits"; "Bytes/Second"; "Kilobytes/Second"; "Terabytes/Second";
   "Seconds"; "Kilobits"; "Count"; "Bits/Second"; "Kilobits/Second"; "Megabits/Second";
   "Gigabits/Second"; "Count/Second"; "Gigabits"; "Percent"; "Kilobytes"; "Megabytes";
   "Megabits"; "Megabytes/Second"; "Terabits/Second"].

(** A text that does not begin with a colon, and is not empty. *)
Definition reNamespace : Pat := mkPat "^[^:]" (Some (fun s => match s with String c _ => negb (Ascii.eqb c ":") | EmptyString => false end)).

Definition comparisonOperators : list string :=
  ["GreaterThanOrEqualToThreshold"; "GreaterThanThreshold"; "LessThanThreshold"; "LessThanOrEqualToThreshold";
   "LessThanLowerOrGreaterThanUpperThreshold"; "LessThanLowerThreshold"; "GreaterThanUpperThreshold"].
Definition alarmTypes : list string := ["MetricAlarm"; "CompositeAlarm"; "LogAlarm"].
Definition historyItemTypes : list string :=
  ["ConfigurationUpdate"; "StateUpdate"; "Action"; "AlarmContributorStateUpdate"; "AlarmContributorAction"].
Definition scanByValues : list string := ["TimestampDescending"; "TimestampAscending"].

Definition PutMetricData_table : list Constraint :=
  [required "Namespace";
   has_length "Namespace" 1 (of_Z 255);
   like "Namespace" reNamespace;
   required "MetricData[].MetricName";
   has_length "MetricData[].MetricName" 1 (of_Z 255);
   required "MetricData[].Dimensions[].Name";
   required "MetricData[].Dimensions[].Value";
   in_range "MetricData[].StorageResolution" 1 NoMax;
   one_of "MetricData[].Unit" standardUnits;
   required "MetricData[].StatisticValues.Maximum";
   required "MetricData[].StatisticValues.Minimum";
   required "MetricData[].StatisticValues.SampleCount";
   required "MetricData[].StatisticValues.Sum";
   required "EntityMetricData[].MetricData[].MetricName"].
Definition ListMetrics_table : list Constraint :=
  [has_length "Namespace" 1 (of_Z 255);
   like "Namespace" reNamespace;
   has_length "MetricName" 1 (of_Z 255);
   required "Dimensions[].Name";
   has_length "Dimensions[].Name" 1 (of_Z 255);
   has_length "Dimensions[].Value" 1 (of_Z 1024);
   has_length "OwningAccount" 1 (of_Z 255);
   one_of "RecentlyActive" ["PT3H"]].
Definition GetMetricData_table : list Constraint :=
  [required "StartTime";
   required "EndTime";
   required "MetricDataQueries";
   required "MetricDataQueries[].Id";
   has_length "MetricDataQueries[].Id" 1 (of_Z 255);
   has_length "MetricDataQueries[].Expression" 1 (of_Z 2048);
   has_length "MetricDataQueries[].AccountId" 1 (of_Z 255);
   in_range "MetricDataQueries[].Period" 1 NoMax;
   required "MetricDataQueries[].MetricStat.Metric";
   required "MetricDataQueries[].MetricStat.Period";
   in_range "MetricDataQueries[].MetricStat.Period" 1 NoMax;
   required "MetricDataQueries[].MetricStat.Stat";
   one_of "MetricDataQueries[].MetricStat.Unit" standardUnits;
   one_of "ScanBy" ["TimestampDescending"; "TimestampAscending"]].
Definition GetMetricStatistics_table : list Constraint :=
  [required "Namespace";
   has_length "Namespace" 1 (of_Z 255);
   like "Namespace" reNamespace;
   required "MetricName";
   has_length "MetricName" 1 (of_Z 255);
   required "StartTime";
   required "EndTime";
   required "Period";
   in_range "Period" 1 NoMax;
   required "Dimensions[].Name";
   has_length "Dimensions[].Name" 1 (of_Z 255);
   required "Dimensions[].Value";
   has_length "Dimensions[].Value" 1 (of_Z 1024);
   one_of "Statistics[]" ["Average"; "Sum"; "Minimum"; "Maximum"; "SampleCount"];
   one_of "Unit" standardUnits].
Definition PutMetricAlarm_table : list Constraint :=
  [required "AlarmName";
   has_length "AlarmName" 1 (of_Z 255);
   has_length "AlarmDescription" 0 (of_Z 1024);
   one_of "ComparisonOperator" comparisonOperators;
   in_range "EvaluationPeriods" 1 NoMax;
   in_range "DatapointsToAlarm" 1 NoMax;
   in_range "Period" 1 NoMax;
   has_length "Namespace" 1 (of_Z 255);
   like "Namespace" reNamespace;
   has_length "MetricName" 1 (of_Z 255);
   one_of "Statistic" ["SampleCount"; "Average"; "Sum"; "Minimum"; "Maximum"];
   one_of "Unit" standardUnits;
   has_length "TreatMissingData" 1 (of_Z 255);
   has_length "ThresholdMetricId" 1 (of_Z 255);
   has_length "EvaluateLowSampleCountPercentile" 1 (of_Z 255);
   in_range "EvaluationInterval" 10 (of_Z 3600);
   required "Dimensions[].Name";
   has_length "Dimensions[].Name" 1 (of_Z 255);
   required "Dimensions[].Value";
   has_length "Dimensions[].Value" 1 (of_Z 1024);
   has_length "AlarmActions[]" 1 (of_Z 1024);
   has_length "OKActions[]" 1 (of_Z 1024);
   has_length "InsufficientDataActions[]" 1 (of_Z 1024);
   required "Tags[].Key";
   has_length "Tags[].Key" 1 (of_Z 128);
   required "Tags[].Value";
   has_length "Tags[].Value" 0 (of_Z 256);
   required "Metrics[].Id";
   has_length "Metrics[].Id" 1 (of_Z 255);
   has_length "Metrics[].Expression" 1 (of_Z 2048);
   has_length "Metrics[].AccountId" 1 (of_Z 255);
   in_range "Metrics[].Period" 1 NoMax;
   required "Metrics[].MetricStat.Metric";
   required "Metrics[].MetricStat.Period";
   in_range "Metrics[].MetricStat.Period" 1 NoMax;
   required "Metrics[].MetricStat.Stat";
   one_of "Metrics[].MetricStat.Unit" standardUnits;
   required "WarmUpConfiguration.WarmUpPeriodDurationInMinutes";
   in_range "WarmUpConfiguration.WarmUpPeriodDurationInMinutes" 1 (of_Z 2880)].
Definition DescribeAlarms_table : list Constraint :=
  [has_length "AlarmNames[]" 1 (of_Z 255);
   has_length "AlarmNamePrefix" 1 (of_Z 255);
   has_length "ActionPrefix" 1 (of_Z 1024);
   one_of "AlarmTypes[]" alarmTypes;
   has_length "ChildrenOfAlarmName" 1 (of_Z 255);
   has_length "ParentsOfAlarmName" 1 (of_Z 255);
   one_of "StateValue" [stateOK; stateAlarm; stateInsufficientData];
   in_range "MaxRecords" 1 (of_Z 100)].
Definition DescribeAlarmsForMetric_table : list Constraint :=
  [required "Namespace";
   has_length "Namespace" 1 (of_Z 255);
   like "Namespace" reNamespace;
   required "MetricName";
   has_length "MetricName" 1 (of_Z 255);
   in_range "Period" 1 NoMax;
   one_of "Statistic" ["SampleCount"; "Average"; "Sum"; "Minimum"; "Maximum"];
   one_of "Unit" standardUnits;
   required "Dimensions[].Name";
   has_length "Dimensions[].Name" 1 (of_Z 255);
   required "Dimensions[].Value";
   has_length "Dimensions[].Value" 1 (of_Z 1024);
   required "Tags[].Key";
   has_length "Tags[].Key" 1 (of_Z 128);
   required "Tags[].Value";
   has_length "Tags[].Value" 0 (of_Z 256)].
Definition DeleteAlarms_table : list Constraint :=
  [required "AlarmNames";
   has_length "AlarmNames[]" 1 (of_Z 255)].
Definition SetAlarmState_table : list Constraint :=
  [required "AlarmName";
   has_length "AlarmName" 1 (of_Z 255);
   required "StateValue";
   one_of "StateValue" [stateOK; stateAlarm; stateInsufficientData];
   required "StateReason";
   has_length "StateReason" 0 (of_Z 1023);
   has_length "StateReasonData" 0 (of_Z 4000)].
Definition DescribeAlarmHistory_table : list Constraint :=
  [has_length "AlarmName" 1 (of_Z 255);
   has_length "AlarmContributorId" 1 (of_Z 16);
   one_of "AlarmTypes[]" alarmTypes;
   one_of "HistoryItemType" historyItemTypes;
   one_of "ScanBy" scanByValues;
   in_range "MaxRecords" 1 (of_Z 100)].
Definition EnableAlarmActions_table : list Constraint :=
  [required "AlarmNames";
   has_length "AlarmNames[]" 1 (of_Z 255)].
Definition DisableAlarmActions_table : list Constraint :=
  [required "AlarmNames";
   has_length "AlarmNames[]" 1 (of_Z 255)].
Definition PutDashboard_table : list Constraint :=
  [required "DashboardName";
   required "DashboardBody";
   required "Tags[].Key";
   has_length "Tags[].Key" 1 (of_Z 128);
   required "Tags[].Value";
   has_length "Tags[].Value" 0 (of_Z 256)].
Definition GetDashboard_table : list Constraint :=
  [required "DashboardName"].
Definition DeleteDashboards_table : list Constraint :=
  [required "DashboardNames"].
Definition ListDashboards_table : list Constraint :=
  [].
Definition TagResource_table : list Constraint :=
  [required "ResourceARN";
   has_length "ResourceARN" 1 (of_Z 1024);
   required "Tags";
   required "Tags[].Key";
   has_length "Tags[].Key" 1 (of_Z 128);
   required "Tags[].Value";
   has_length "Tags[].Value" 0 (of_Z 256)].
Definition UntagResource_table : list Constraint :=
  [required "ResourceARN";
   has_length "ResourceARN" 1 (of_Z 1024);
   required "TagKeys";
   has_length "TagKeys[]" 1 (of_Z 128)].
Definition ListTagsForResource_table : list Constraint :=
  [required "ResourceARN";
   has_length "ResourceARN" 1 (of_Z 1024)].

Definition constraintTables (action : string) : list Constraint :=
  if String.eqb action "PutMetricData" then PutMetricData_table
  else if String.eqb action "ListMetrics" then ListMetrics_table
  else if String.eqb action "GetMetricData" then GetMetricData_table
  else if String.eqb action "GetMetricStatistics" then GetMetricStatistics_table
  else if String.eqb action "PutMetricAlarm" then PutMetricAlarm_table
  else if String.eqb action "DescribeAlarms" then DescribeAlarms_table
  else if String.eqb action "DescribeAlarmsForMetric" then DescribeAlarmsForMetric_table
  else if String.eqb action "DeleteAlarms" then DeleteAlarms_table
  else if String.eqb action "SetAlarmState" then SetAlarmState_table
  else if String.eqb action "DescribeAlarmHistory" then DescribeAlarmHistory_table
  else if String.eqb action "EnableAlarmActions" then EnableAlarmActions_table
  else if String.eqb action "DisableAlarmActions" then DisableAlarmActions_table
  else if String.eqb action "PutDashboard" then PutDashboard_table
  else if String.eqb action "GetDashboard" then GetDashboard_table
  else if String.eqb action "DeleteDashboards" then DeleteDashboards_table
  else if String.eqb action "ListDashboards" then ListDashboards_table
  else if String.eqb action "TagResource" then TagResource_table
  else if String.eqb action "UntagResource" then UntagResource_table
  else if String.eqb action "ListTagsForResource" then ListTagsForResource_table
  else [].

(** ** Error names *)

(** [queryCodes]: the name an error had on the Query protocol; the statuses are in [errf]. *)
Definition queryCodes : list (string * string) :=
  [("ConcurrentModificationException", "ConcurrentModificationException");
   ("InvalidParameterValueException", "InvalidParameterValue");
   ("MissingRequiredParameterException", "MissingParameter");
   ("InvalidParameterCombinationException", "InvalidParameterCombination");
   ("InvalidFormatFault", "InvalidFormat");
   ("InvalidNextToken", "InvalidNextToken");
   ("InternalServiceFault", "InternalServiceError");
   ("LimitExceededFault", "LimitExceeded");
   ("LimitExceededException", "LimitExceededException");
   ("ResourceNotFound", "ResourceNotFound");
   ("ResourceNotFoundException", "ResourceNotFoundException");
   ("ResourceConflictException", "ResourceConflict");
   ("DashboardInvalidInputError", "InvalidParameterInput");
   ("DashboardNotFoundError", "ResourceNotFound");
   ("ValidationException", "InvalidParameterValue");
   ("ValidationError", "InvalidParameterValue")].
Definition legacyCode (modern : string) : string :=
  match List.find (fun e => String.eqb e.1 modern) queryCodes with Some e => e.2 | None => "" end.

Inductive wire := wireCBOR | wireJSON | wireQuery.

(** [writeError]: the code in the body, and the legacy code in a header. *)
Definition error_names (w : wire) (wantsQuery : bool) (e : APIError) : string * option string :=
  let legacy := legacyCode (Code e) in
  match w with
  | wireQuery => (if String.eqb legacy "" then Code e else legacy, None)
  | _ =>
      (Code e, if wantsQuery && negb (String.eqb legacy "")
               then Some (legacy +:+ ";" +:+ (if SenderFault e then "Sender" else "Receiver")) else None)
  end.

(** ** Requests *)

Record CloudWatchState `{Bolt} := mkCloudWatch { cw_metrics : MetricDB; cw_alarms : AlarmDB }.
#[global] Arguments cw_metrics {_} _.
#[global] Arguments cw_alarms {_} _.

Record request := mkRequest { rq_action : string; rq_wire : wire; rq_params : params; rq_peer : bool }.

Inductive answer :=
| nothing
| metrics_listed (r : listMetricsResult)
| statistics_of (r : getMetricStatisticsResult)
| data_of (r : list metricDataResultView)
| alarms_described (l : list alarmView)
| history_described (l : list historyView)
| dashboard_of (r : getDashboardResult)
| dashboards_listed (l : list dashboardEntryView)
| tags_listed (l : list (string * string)).

Section service.
Context `{GC : GoConvert} `{NT : NumText} `{AT : AlarmText} `{JT : JsonText} `{B : Bolt} (id : Identity).

Definition reply : Type := outcome answer * CloudWatchState * list notification.

(** A handler that reads, that changes the metric store, that changes the alarm store. *)
Definition reads {A} (st : CloudWatchState) (view : A -> answer) (r : result A) : reply :=
  (Ret (a ← r; mret (view a)), st, []).
Definition reads_or_panics {A} (st : CloudWatchState) (view : A -> answer) (r : outcome A) : reply :=
  (a ← r; mret (view a), st, []).
Definition changes_metrics (st : CloudWatchState) (r : result unit * MetricDB) : reply :=
  (Ret (_ ← r.1; mret nothing), mkCloudWatch _ r.2 (cw_alarms st), []).
Definition changes_alarms (st : CloudWatchState) (r : result unit * AlarmDB) : reply :=
  (Ret (_ ← r.1; mret nothing), mkCloudWatch _ (cw_metrics st) r.2, []).

(** [handlers]: every operation with an implementation. *)
Definition handle (now : Z) (rq : request) (st : CloudWatchState) : option reply :=
  let p := rq_params rq in
  let m := cw_metrics st in
  let a := cw_alarms st in
  let op := String.eqb (rq_action rq) in
  if op "PutMetricData" then Some (changes_metrics st (putMetricData now (rq_peer rq) p m))
  else if op "ListMetrics" then Some (reads st metrics_listed (listMetrics now p m))
  else if op "GetMetricStatistics" then Some (reads_or_panics st statistics_of (getMetricStatistics p m))
  else if op "GetMetricData" then Some (reads_or_panics st data_of (getMetricData p m))
  else if op "PutMetricAlarm" then Some (changes_alarms st (putMetricAlarm now p a))
  else if op "DescribeAlarms" then Some (reads st alarms_described (mret (describeAlarms id p a)))
  else if op "DescribeAlarmsForMetric" then Some (reads st alarms_described (describeAlarmsForMetric id p a))
  else if op "DeleteAlarms" then Some (changes_alarms st (deleteAlarmsAction p a))
  else if op "SetAlarmState" then
    let '(r, a', sent) := setAlarmState id now p a in
    Some (Ret (_ ← r; mret nothing), mkCloudWatch _ m a', sent)
  else if op "DescribeAlarmHistory" then Some (reads st history_described (mret (describeAlarmHistory p a)))
  else if op "EnableAlarmActions" then Some (changes_alarms st (setActionsEnabled true now p a))
  else if op "DisableAlarmActions" then Some (changes_alarms st (setActionsEnabled false now p a))
  else if op "PutDashboard" then Some (changes_alarms st (putDashboardAction now p a))
  else if op "GetDashboard" then Some (reads st dashboard_of (getDashboard id p a))
  else if op "ListDashboards" then Some (reads st dashboards_listed (mret (listDashboardsAction id p a)))
  else if op "DeleteDashboards" then Some (changes_alarms st (deleteDashboardsAction p a))
  else if op "TagResource" then Some (changes_alarms st (tagResource p a))
  else if op "UntagResource" then Some (changes_alarms st (untagResource p a))
  else if op "ListTagsForResource" then Some (reads st tags_listed (listTagsForResource p a))
  else None.

(** [notHere]: the operations that are refused by name. *)
Definition notHere : list string :=
  ["PutCompositeAlarm"; "DescribeAlarmContributors";
   "PutAnomalyDetector"; "DeleteAnomalyDetector"; "DescribeAnomalyDetectors";
   "PutInsightRule"; "DeleteInsightRules"; "DescribeInsightRules"; "EnableInsightRules"; "DisableInsightRules"; "GetInsightRuleReport";
   "ListManagedInsightRules"; "PutManagedInsightRules";
   "PutMetricStream"; "DeleteMetricStream"; "GetMetricStream"; "ListMetricStreams"; "StartMetricStreams"; "StopMetricStreams";
   "PutAlarmMuteRule"; "GetAlarmMuteRule"; "DeleteAlarmMuteRule"; "ListAlarmMuteRules";
   "GetOTelEnrichment"; "StartOTelEnrichment"; "StopOTelEnrichment"; "UpdateOTelEnrichment";
   "CreateResourceMetricsConfiguration"; "DeleteResourceMetricsConfiguration"; "GetResourceMetricsConfiguration"; "UpdateResourceMetricsConfiguration";
   "GetDataset"; "AssociateDatasetKmsKey"; "DisassociateDatasetKmsKey";
   "GetMetricWidgetImage"; "PutLogAlarm"].

(** [validate]: the code is the one of the wire's family. *)
Definition validate (rq : request) : option APIError :=
  ValidateMapAs (rq_params rq) (constraintTables (rq_action rq))
    (match rq_wire rq with wireQuery => CodeQuery | _ => CodeJSON end).

(** [ServeHTTP], of a request that was decoded. *)
Definition serve (now : Z) (rq : request) (st : CloudWatchState) : reply :=
  match handle now rq st with
  | None =>
      (Ret (Err (if bool_decide (rq_action rq ∈ notHere)
                 then Errf 400 "UnsupportedOperationException" "doze-aws does not implement %s: %s"
                 else Errf 400 "InvalidAction" "unknown CloudWatch action %q")), st, [])
  | Some r => match validate rq with Some e => (Ret (Err e), st, []) | None => r end
  end.

End service.

(** ** The whole service

    What a request that is refused leaves, and the alarms that a server can hold. *)

Section service.
Context `{GC : GoConvert} `{NT : NumText} `{AT : AlarmText} `{JT : JsonText} `{B : Bolt} {BL : BoltLaws B} (id : Identity).
#[local] Set Default Proof Using "BL".

(** A reply that, if it is an error, changes and sends nothing. *)
Definition error_is_clean (st : CloudWatchState) (r : reply) : Prop :=
  match r.1.1 with Ret (Ok _) => True | _ => r.1.2 = st /\ r.2 = [] end.

Lemma reads_clean {A} st (view : A -> answer) r : error_is_clean st (reads st view r).
Proof. unfold error_is_clean, reads. by destruct r. Qed.

Lemma reads_or_panics_clean {A} st (view : A -> answer) r : error_is_clean st (reads_or_panics st view r).
Proof. unfold error_is_clean, reads_or_panics. by destruct r as [[]| |]. Qed.

Definition clean_update {D} (d : D) (r : result unit * D) : Prop := forall e, r.1 = Err e -> r.2 = d.

Lemma changes_metrics_clean st r : clean_update (cw_metrics st) r -> error_is_clean st (changes_metrics st r).
Proof.
  unfold error_is_clean, changes_metrics, clean_update. destruct r as [[[]|e] db], st as [m a]; [done|]. intros H. cbn in *. by rewrite (H e).
Qed.

Lemma changes_alarms_clean st r : clean_update (cw_alarms st) r -> error_is_clean st (changes_alarms st r).
Proof.
  unfold error_is_clean, changes_alarms, clean_update. destruct r as [[[]|e] db], st as [m a]; [done|]. intros H. cbn in *. by rewrite (H e).
Qed.

Lemma update_clean {D} (f : Tx D unit) d : clean_update d (run_update f d).
Proof. intros e. unfold run_update. by destruct (f d) as [[a d']|e']. Qed.

Lemma error_clean {D} (d : D) e : clean_update d (Err e, d).
Proof. by intros e'. Qed.

Lemma putMetricData_clean now peer p m : clean_update m (putMetricData now peer p m).
Proof. unfold putMetricData. destruct (parse_metric_data peer p); [apply update_clean|apply error_clean]. Qed.

Lemma putMetricAlarm_clean now p a : clean_update a (putMetricAlarm now p a).
Proof.
  unfold putMetricAlarm. destruct (parse_alarm now p) as [al|e]; [|apply error_clean]. destruct (getAlarm (a_Name al) a); apply update_clean.
Qed.

Lemma withTags_clean arn edit a : clean_update a (withTags arn edit a).
Proof. unfold withTags. destruct (taggable arn a) as [[al|d]|e]; [apply update_clean..|apply error_clean]. Qed.

Lemma deletes_clean p a : clean_update a (deleteAlarmsAction p a) /\ clean_update a (deleteDashboardsAction p a).
Proof.
  split.
  - unfold deleteAlarmsAction. destruct (Strs p "AlarmNames"); [apply error_clean|]. destruct (existsb _ _); [by intros e|apply error_clean].
  - unfold deleteDashboardsAction. destruct (Strs p "DashboardNames"); [apply error_clean|]. unfold deleteDashboards. destruct (forallb _ _); [by intros e|apply error_clean].
Qed.

Lemma dashboard_tags_clean now p a : clean_update a (putDashboardAction now p a) /\ clean_update a (tagResource p a) /\ clean_update a (untagResource p a).
Proof.
  split_and!.
  - unfold putDashboardAction. destruct (_ || _); [apply error_clean|]. destruct (negb _); [apply error_clean|apply update_clean].
  - unfold tagResource. destruct (_ =? _)%nat; [apply error_clean|apply withTags_clean].
  - unfold untagResource. destruct (Strs p "TagKeys"); [apply error_clean|apply withTags_clean].
Qed.

(** The two operations that store alarm after alarm. *)
Definition stops_midway (action : string) : Prop := action ∈ ["EnableAlarmActions"; "DisableAlarmActions"].

Lemma setAlarmState_clean now p st :
  let '(r, a', sent) := setAlarmState id now p (cw_alarms st) in
  error_is_clean st (Ret (_ ← r; mret nothing), mkCloudWatch _ (cw_metrics st) a', sent).
Proof.
  unfold setAlarmState, error_is_clean. destruct st as [m a]. cbn [cw_metrics cw_alarms]. destruct (_ || _); [done|]. destruct (negb _); [done|].
  destruct (getAlarm _ a); [|done]. by destruct (transition _ _ _ _ _ _ _).
Qed.

Lemma handle_clean now rq st r : ~ stops_midway (rq_action rq) -> handle id now rq st = Some r -> error_is_clean st r.
Proof.
  unfold stops_midway. intros Hs. unfold handle. cbv zeta.
  repeat (let E := fresh "E" in destruct (String.eqb (rq_action rq) _) eqn:E; [try apply String.eqb_eq in E|clear E]; [first
    [ intros [= <-]; first [ apply reads_clean | apply reads_or_panics_clean | apply changes_metrics_clean, putMetricData_clean
      | apply changes_alarms_clean; first [apply putMetricAlarm_clean | apply deletes_clean | apply (dashboard_tags_clean now)] ]
    | pose proof (setAlarmState_clean now (rq_params rq) st) as Hc; destruct (setAlarmState _ _ _ _) as [[? ?] ?]; by intros [= <-]
    | exfalso; apply Hs; rewrite E; repeat (first [left | right]) ]|]).
  done.
Qed.

(** A request that the service answers with an error, and one whose handler panics,
    leaves every metric, alarm, dashboard and history entry as it was and notifies
    nobody: whatever the operation, the wire and the parameters, but for the two
    operations that store one alarm after another. *)
Lemma errors_change_nothing now rq st a st' sent : ~ stops_midway (rq_action rq) ->
  serve id now rq st = (a, st', sent) -> (forall v, a <> Ret (Ok v)) -> st' = st /\ sent = [].
Proof.
  intros Hs E Ha. assert (error_is_clean st (serve id now rq st)) as Hc.
  { unfold serve. destruct (handle id now rq st) as [r|] eqn:Eh; [|by unfold error_is_clean]. apply handle_clean in Eh; [|done].
    destruct (validate rq); [by unfold error_is_clean|done]. }
  rewrite E in Hc. unfold error_is_clean in Hc. cbn [fst snd] in Hc. destruct a as [[v|e]| |]; [by destruct (Ha v)|done..].
Qed.

(** ** Runs of the service *)

(** What a reply does to the alarms: nothing, or a step. *)
Definition alarms_stepped (st : CloudWatchState) (r : reply) : Prop :=
  (cw_alarms r.1.2 = cw_alarms st /\ r.2 = []) \/ alarm_step id (cw_alarms st) (cw_alarms r.1.2) r.2.

Lemma changes_step st r : alarm_step id (cw_alarms st) r.2 [] -> alarms_stepped st (changes_alarms st r).
Proof. by right. Qed.

Lemma handle_step now rq st r : handle id now rq st = Some r -> alarms_stepped st r.
Proof.
  unfold handle. cbv zeta.
  repeat (destruct (String.eqb (rq_action rq) _); [first
    [ by intros [= <-]; left
    | intros [= <-]; apply changes_step; constructor
    | let E := fresh in destruct (setAlarmState id now (rq_params rq) (cw_alarms st)) as [[? ?] ?] eqn:E; intros [= <-]; right;
      pose proof (step_set id (cw_alarms st) now (rq_params rq)) as Hset; rewrite E in Hset; exact Hset ]|]).
  done.
Qed.

(** A request, a pass of the evaluator over the service's own metrics, a sweep, or the
    delivery of a notification. *)
Inductive service_step (st : CloudWatchState) : CloudWatchState -> list notification -> Prop :=
| step_request now rq a st' sent : serve id now rq st = (a, st', sent) -> service_step st st' sent
| step_tick now a' sent : EvaluateNow id now (cw_metrics st) (cw_alarms st) = Ret (Ok (a', sent)) ->
    service_step st (mkCloudWatch _ (cw_metrics st) a') sent
| step_sweep now retention max : service_step st (mkCloudWatch _ (sweep now retention max (cw_metrics st)).2 (cw_alarms st)) []
| step_delivery now n : service_step st (mkCloudWatch _ (cw_metrics st) (delivered now n (cw_alarms st))) [].

Inductive service_run : CloudWatchState -> list notification -> Prop :=
| service_new : service_run (mkCloudWatch _ empty_MetricDB empty_AlarmDB) []
| service_next st sent st' sent' : service_run st sent -> service_step st st' sent' -> service_run st' (sent ++ sent').

Lemma service_step_alarms st st' sent : service_step st st' sent ->
  (cw_alarms st' = cw_alarms st /\ sent = []) \/ alarm_step id (cw_alarms st) (cw_alarms st') sent.
Proof.
  destruct 1 as [now rq a st' sent E|now a' sent E|now retention max|now n].
  - unfold serve in E. destruct (handle id now rq st) as [r|] eqn:Eh; [|injection E as <- <- <-; by left].
    destruct (validate rq); [injection E as <- <- <-; by left|]. subst r. by apply handle_step in Eh.
  - right. by eapply step_evaluate.
  - by left.
  - right. by apply step_delivered.
Qed.

(** C37: Whatever requests a CloudWatch server has answered, refused or failed, and whatever
    passes of its evaluator, sweeps and deliveries came between them, every alarm it
    stores is one that PutMetricAlarm accepts (its statistic, periods, datapoints,
    operator, treatment of missing data and action targets), with a finite threshold and
    one of the three states, under its own name; and every notification it has sent is
    for a topic or a function. *)
Theorem service_alarms_wf st sent : service_run st sent -> db_wf (cw_alarms st) /\ Forall target_ok sent.
Proof.
  induction 1 as [|st sent st' sent' _ [H Hs] Hstep].
  - split; [|constructor]. intros k a. unfold getAlarm. cbn. by rewrite bget_bempty.
  - apply service_step_alarms in Hstep as [[E ->]|Hstep]; [by rewrite E, app_nil_r|].
    apply alarm_step_wf in Hstep as [H' Hs']; [|done]. split; [done|]. by apply Forall_app.
Qed.
End service.

(** ** Examples *)

Section examples.
#[local] Existing Instance mem_bolt.
#[local] Existing Instance example_numbers.
#[local] Existing Instance example_texts.
#[local] Existing Instance example_json.

Lemma surjective_pairing_3 {X Y Z} (r : X * Y * Z) : r = (r.1.1, r.1.2, r.2).
Proof. by destruct r as [[]]. Qed.

Definition new_service : CloudWatchState := mkCloudWatch _ empty_MetricDB empty_AlarmDB.
Definition ask (action : string) (p : params) : request := mkRequest action wireQuery p false.
Definition put_busy : request := ask "PutMetricAlarm" (busy_request "busy" "missing" 4 2).
Definition after_put : CloudWatchState := (serve busy_id (minute 0 * second) put_busy new_service).1.2.

Lemma service_alarms_wf_witness :
  (serve busy_id (minute 0 * second) put_busy new_service).1.1 = Ret (Ok nothing) /\
  db_wf (cw_alarms after_put) /\ is_Some (getAlarm "busy" (cw_alarms after_put)).
Proof.
  split; [vm_compute; reflexivity|]. split; [|vm_compute; eexists; reflexivity].
  assert (service_run busy_id after_put ([] ++ (serve busy_id (minute 0 * second) put_busy new_service).2)) as Hr.
  { eapply service_next; [apply service_new|]. eapply step_request. unfold after_put, new_service. apply surjective_pairing_3. }
  apply (service_alarms_wf busy_id _ _ Hr).
Defined.


Definition with_datapoints (text : string) : request :=
  ask "PutMetricAlarm" (<["DatapointsToAlarm" := CStr text]> (busy_request "busy" "missing" 4 2)).

Lemma errors_change_nothing_witness : exists a,
  serve busy_id (minute 1 * second) (with_datapoints "5") after_put = (a, after_put, []) /\ forall v, a <> Ret (Ok v).
Proof.
  destruct (serve busy_id (minute 1 * second) (with_datapoints "5") after_put) as [[a st'] sent] eqn:E. exists a.
  assert (match (serve busy_id (minute 1 * second) (with_datapoints "5") after_put).1.1 with Ret (Ok _) => false | _ => true end = true) as Hb by (vm_compute; reflexivity).
  rewrite E in Hb. cbn [fst] in Hb.
  assert (forall v, a <> Ret (Ok v)) as Ha by (intros v Hv; rewrite Hv in Hb; discriminate). split; [|exact Ha].
  destruct (errors_change_nothing busy_id (minute 1 * second) (with_datapoints "5") after_put a st' sent) as [-> ->]; [|exact E|exact Ha|reflexivity].
  unfold stops_midway. intros [H|[H|H%elem_of_nil]%elem_of_cons]%elem_of_cons; [discriminate H|discriminate H|exact H].
Defined.

(** The table asks for at least one datapoint and reads no number in a text that begins
    with a blank, but the handler trims it: an alarm that zero datapoints breach. *)
Example blank_number_unchecked :
  match (serve busy_id 0 (with_datapoints "0") new_service).1.1 with Ret (Err e) => Code e | _ => "" end = CodeQuery /\
  (serve busy_id 0 (with_datapoints " 0") new_service).1.1 = Ret (Ok nothing) /\
  (a_DatapointsToAlarm <$> getAlarm "busy" (cw_alarms (serve busy_id 0 (with_datapoints " 0") new_service).1.2)) = Some 0.
Proof. vm_compute. repeat split. Qed.
End examples.
